(* ===== verification/_CoqProject ===== *)
-Q . S2P
Prelude.v
Xorshift.v
Buffer.v
Rfc6455.v
Frames.v
Factory.v
Parser.v
ParserSpec.v
ParserTypes.v
Stream.v
Sys.v
World.v
Binary64.v
Timer.v
Sockets.v
SocketSpec.v
SocketProps.v
Dial.v
SocketStream.v
Handshake.v
Client.v
ClientSpec.v
ClientWire.v
Endpoint.v
Refinement.v
Programs.v
Depth.v
ClientProps.v
Delivery.v
Session.v
Lifetime.v
Handlers.v
Benchmark.v
