(* ===== verification/Prelude.v ===== *)
(** * A verification of fastws, a WebSocket client in C++

    fastws is a header-only client: a frame codec (namespace [wsframe], which
    exists only in src/single_header/fastws.hpp), two socket wrappers and the
    opening handshake (src/include/fastws/socket_wrapper.hpp, handshake.hpp),
    and the client template on top (src/include/fastws/fastws.hpp). The single
    header repeats the last three; they are modelled from src/include.

    ** How the program is modelled

    A method of a C++ class is a function in the state monad [M S] of this
    file, [S] being the record of the object's data members: it returns a
    result, throws one of the program's exceptions, does something C++ leaves
    undefined ([UB]), or runs out of a bound of the model ([OutOfFuel]). An
    exception keeps the changes made before it. A method of a member is run in
    its owner by [zoom]. Bytes and machine integers are [Z], with every
    conversion written out ([u8], [u64], [i32]); sizes and offsets are [nat];
    a [std::vector] is a list, and reading or writing outside it is [UB]; a
    view is an offset and a length. What the language leaves to the compiler
    (too wide shifts of an [int], checks in [operator[]]) is a class [Target].

    What is not the program's is a parameter: the operating system, OpenSSL and
    the random numbers are classes of operations on an abstract world ([OS],
    [OpenSSL], [Entropy]), unconstrained except by named laws of documented
    behaviour. [World] is a concrete world that satisfies the laws, on which
    theorems are instantiated and scenarios run.

    ** The files

    - [Prelude]: the monad, total correctness [runs] and [safe], bytes, integers,
      memory.
    - [Xorshift]: class [XorShift128Plus], the mask generator.
    - [Buffer]: class [FrameBuffer], the growable byte buffer.
    - [Rfc6455]: the frame format of RFC 6455 as an encoder and a decoder on
      lists of bytes; the specification of the codec, not code.
    - [Frames]: [Frame], its opcodes, printer and [construct].
    - [Factory]: [FrameFactory] and its [RandomCache] of masking keys.
    - [Parser]: class [FrameParser], stage by stage.
    - [ParserSpec]: the abstraction relation [represents] between parser states
      and pending bytes, and the proof that each [update] implements [decode].
    - [ParserTypes]: the run-time types of the parser's members, kept by every
      sequence of public calls.
    - [Stream]: parser and factory on whole streams.
    - [Sys], [World]: the outside, the clock ([plf::nanotimer] of the POSIX
      branch), resources.
    - [Binary64]: the binary64 operations are exact on integers below 2^53.
      [Timer]: the timer's macOS and Windows branches, the class [Nanotimer] of
      what the three have in common, and the delay functions over it.
    - [Sockets]: classes [SSLSocketWrapper] and [SocketWrapper].
    - [SocketSpec]: the client's [SocketType] argument as a class with laws, and
      the two wrappers as instances. [SocketProps]: properties of each wrapper.
      [Dial]: which address they connect to.
      [SocketStream]: the richer interface of sockets whose received, sent and
      still unread bytes are accounted for, with both wrappers as instances.
    - [Handshake]: the key and the request of handshake.hpp.
    - [Client]: [WSClient], method by method. The handler calls the client back,
      so its methods are programs ([prog]) over the client's public methods, and
      [callback] runs them. Of a frame a handler gets the header and a view
      of the payload, as in the program: reading it ([read_payload]) finds what
      the receive buffer holds at that moment, and is undefined ([dangling])
      once the buffer has grown.
    - [ClientSpec]: the client's invariant ([good], [since]) and that every
      method keeps it. [ClientWire]: the protocol [spec_run] and that the client
      implements it, in one call of [poll], in [connect], in [close] and in the
      polling loop of the example programs.
    - [Endpoint]: an abstract machine, a client's end of a connection, with the
      facts that hold of all its traces. [Refinement]: the client implements it,
      whatever its handler does.
    - [Programs]: the programs under examples/, tests/ and the latency benchmark:
      their handlers, the clients they make, their loops and [main].
    - [Depth]: results do not depend on the nesting bound.
    - [ClientProps]: the properties of the client. [Delivery]: what reaches the
      handler in the long run, and through exceptions, nested polls and closes:
      the theorems that follow from [Refinement].
      [Session]: a whole program, from its first statement to its last.
      [Lifetime]: the life of a client, from construction to destruction, and
      the example programs, for every handler.
    - [Handlers]: what a handler makes of its calls: a rule for handlers that
      account for each call before they let others be made, and with it what the
      example programs print. [Benchmark]: benchmark/echo_test, the benchmark
      that sends a message back and forth, and what it measures.

    ** What the theorems show

    - The codec: [Frame.construct] writes exactly the RFC 6455 encoding within
      the space it reserved; the parser, however the stream is cut into chunks,
      delivers exactly the frames [decode] finds, each once, reading only inside
      its buffer; whatever it is called with, its members keep values of their
      types; frames built by the factory come back from the parser unchanged.
      64-bit lengths: exact below 2 GiB, wrong from there on.
    - Keys: every cached byte is used once, four at a time; the generator never
      reaches its all-zero state.
    - The sockets: a request below 2 GiB is sent entirely or fails after a
      prefix, but a TLS library that answers 0 keeps the loop going; every result
      of the system's read calls is handled as stated; they connect to the first
      address they can reach, and leave no other descriptor open; the plain
      socket releases what it acquires, on every path, and the TLS socket does
      not when its construction fails: what it then leaves held is stated, stage
      by stage.
    - The handshake: the request is one well-formed head; the key is the Base64
      form of sixteen bytes, for every library whose BIOs do, one operation at a
      time, what is documented of them.
    - The client: for handlers whose methods are [straight] (they send and work
      on their own state, and do not poll or close), [connect], [poll], [close]
      with its wait, read by read, and the polling loop of ping.cpp implement the
      protocol on the two byte streams, and so does a program from the
      constructor through its loop to the destructor, and enough polls handle
      everything the peer has sent. For the other handlers, example.cpp's among
      them, that read a payload only before they poll or close: every run of the client, with nested polls
      and closes and with exceptions caught and not, and its whole life from
      the constructor to the destructor, is a trace of the abstract endpoint,
      from which follow: every byte received is a frame's, dropped by
      [close], or pending; no frame is lost, repeated or reordered but by
      [close]; every PONG has its PING. A handler that is in order before it polls
      or closes has at the end accounted for the calls of that trace
      ([handler_keeps_account]); the handlers of the example programs print one
      line per call, and the benchmark counts and times what it says. No session
      of such a handler does anything undefined (the too wide shifts of the
      64-bit length apart, see [Target]); the connection flag and
      the status agree, and a closed client stays closed; [close] closes and
      reports.
    - Time: the comparisons of [update_ping] are exact in nanoseconds, for every
      period an [int] can hold; a delay ends at the first reading of the clock
      that is late enough.
    - Behaviours that differ from what the code or its documentation means are
      stated as theorems of their own, or as facts on concrete connections.

    ** Bounds

    Loops that end by themselves need no bound: address lists, waiting loops
    and the parser's loops recurse on what they consume. [poll_loop] has
    [max_reads + 1] iterations, proved enough. [send] of the sockets and the
    TLS error queue end only if the outside lets them; they take a bound, proved
    enough for requests of fewer bytes when each write that does not fail takes
    at least one. A
    delay takes one reading of the clock per nanosecond at most, if the clock
    advances. The loops of the programs run for a number of polls or a list of
    readings of their flag; [polling_handles_everything] says how many are
    enough. The nesting of handler calls is bounded by a depth; a handler that
    does not call [poll] or [close] needs depth one, any other one no more than
    half of the bytes received ([nesting_bounded]), and results do not depend on
    it ([Depth]).

    ** Not modelled

    What the wrappers write to [std::cerr], and to [std::cout] in their verbose
    instantiations (the only line the others write there, on a ping time-out, is
    the call [sys_cout] of [update_ping]); handlers that keep the view of a payload and read it in a later call of a
    method (a view is read by the call it was given to, before and after calls
    of [poll] and [close] in it); allocation failure, [BIO_new] included; threads (the client has
    none of its own). The repetition of the client, the sockets and the
    handshake in the single header is the same text as under include/ and is
    not modelled a second time. The programs under benchmark/ that do not use this
    client: a client and a server on bare sockets, and the benchmarks of another
    library.

    This file: the outcome type and the state monad in which every method is
    written, correctness rules for it, bytes and machine integers, and the list
    lemmas the components share. *)

From stdpp Require Export base list numbers option strings.

#[global] Set Default Goal Selector "!".

Declare Scope ws_scope.
Delimit Scope ws_scope with ws.
Open Scope ws_scope.

(** ** Outcomes *)

(** The exceptions the sources throw. *)
Inductive exn : Type :=
  | runtime_error (msg : string)
  | SSLSocketWrapperException (msg : string)
  | SocketWrapperException (msg : string).

(** The operations the sources perform that C++ leaves undefined when their
    precondition fails. *)
Inductive undefined : Type :=
  | out_of_bounds
  | uninitialised
  | signed_overflow
  | dangling.

(** What running a method gives: a result, an exception, undefined
    behaviour, or a model whose nesting bound was too small. *)
Inductive outcome (A : Type) : Type :=
  | Ok (a : A)
  | Throw (e : exn)
  | UB (u : undefined)
  | OutOfFuel.
Arguments Ok {_} _.
Arguments Throw {_} _.
Arguments UB {_} _.
Arguments OutOfFuel {_}.

(** A method of an object with state [S]. An exception keeps the state
    changes made before it, as in C++. *)
Definition M (S A : Type) : Type := S → outcome A * S.

#[global] Instance M_ret S : MRet (M S) := λ A a s, (Ok a, s).
#[global] Instance M_bind S : MBind (M S) := λ A B f m s,
  match m s with
  | (Ok a, s') => f a s'
  | (Throw e, s') => (Throw e, s')
  | (UB u, s') => (UB u, s')
  | (OutOfFuel, s') => (OutOfFuel, s')
  end.

Section Operations.
Context {S T : Type}.

Definition get : M S S := λ s, (Ok s, s).
Definition gets {A} (f : S → A) : M S A := λ s, (Ok (f s), s).
Definition modify (f : S → S) : M S unit := λ s, (Ok tt, f s).
Definition throw {A} (e : exn) : M S A := λ s, (Throw e, s).
Definition undef {A} (u : undefined) : M S A := λ s, (UB u, s).
Definition out_of_fuel {A} : M S A := λ s, (OutOfFuel, s).

(** A method of a member object, run inside its owner. *)
Definition zoom {A} (prj : S → T) (upd : T → S → S) (m : M T A) : M S A :=
  λ s, let '(o, t) := m (prj s) in (o, upd t s).
End Operations.

Definition when {S} (b : bool) (m : M S unit) : M S unit :=
  if b then m else mret tt.

(** ** Total correctness *)

(** [runs m s Q]: from [s], [m] returns normally (no exception, no undefined
    behaviour) with a result and a final state that satisfy [Q]. *)
Definition runs {S A} (m : M S A) (s : S) (Q : A → S → Prop) : Prop :=
  ∃ a s', m s = (Ok a, s') ∧ Q a s'.

Section Runs.
Context {S : Type}.
Implicit Types s : S.

Lemma bind_ok {A B} (m : M S A) (f : A → M S B) s a s' :
  m s = (Ok a, s') → (m ≫= f) s = f a s'.
Proof. intros H. unfold mbind, M_bind. by rewrite H. Qed.

Lemma bind_inv {A B} (m : M S A) (f : A → M S B) s b s' :
  (m ≫= f) s = (Ok b, s') → ∃ a s1, m s = (Ok a, s1) ∧ f a s1 = (Ok b, s').
Proof.
  unfold mbind, M_bind. destruct (m s) as [[a|e|u|] s1]; intros E; try done. by exists a, s1.
Qed.

Lemma bind_throw {A B} (m : M S A) (f : A → M S B) s e s' :
  m s = (Throw e, s') → (m ≫= f) s = (Throw e, s').
Proof. intros H. unfold mbind, M_bind. by rewrite H. Qed.

Lemma bind_ub {A B} (m : M S A) (f : A → M S B) s u s' :
  m s = (UB u, s') → (m ≫= f) s = (UB u, s').
Proof. intros H. unfold mbind, M_bind. by rewrite H. Qed.

Lemma bind_agree {A B} (m : M S A) (f g : A → M S B) s :
  (∀ a s', m s = (Ok a, s') → f a s' = g a s') → (m ≫= f) s = (m ≫= g) s.
Proof. unfold mbind, M_bind. destruct (m s) as [[] ?]; auto. Qed.

Lemma bind_assoc {A B C} (m : M S A) (f : A → M S B) (g : B → M S C) s :
  ((m ≫= f) ≫= g) s = (m ≫= λ a, f a ≫= g) s.
Proof. unfold mbind, M_bind. by destruct (m s) as [[] ?]. Qed.

Lemma runs_ret {A} (a : A) s (Q : A → S → Prop) : Q a s → runs (mret a) s Q.
Proof. intros H. by exists a, s. Qed.

Lemma runs_gets {A} (f : S → A) s (Q : A → S → Prop) :
  Q (f s) s → runs (gets f) s Q.
Proof. intros H. by exists (f s), s. Qed.

Lemma runs_modify (f : S → S) s (Q : unit → S → Prop) :
  Q tt (f s) → runs (modify f) s Q.
Proof. intros H. by exists tt, (f s). Qed.

Lemma runs_bind {A B} (m : M S A) (f : A → M S B) s (Q : B → S → Prop) :
  runs m s (λ a s', runs (f a) s' Q) → runs (m ≫= f) s Q.
Proof.
  intros (a & s' & Hm & b & s'' & Hf & HQ). exists b, s''.
  by rewrite (bind_ok _ _ _ _ _ Hm).
Qed.

Lemma runs_mono {A} (m : M S A) s (Q R : A → S → Prop) :
  runs m s Q → (∀ a s', Q a s' → R a s') → runs m s R.
Proof. intros (a & s' & Hm & HQ) HR. exists a, s'. auto. Qed.

Lemma runs_eq {A} (m : M S A) s a s' (Q : A → S → Prop) :
  m s = (Ok a, s') → Q a s' → runs m s Q.
Proof. intros Hm HQ. by exists a, s'. Qed.

Lemma runs_zoom {T A} (prj : S → T) (upd : T → S → S) (m : M T A) s
    (Q : A → S → Prop) :
  runs m (prj s) (λ a t, Q a (upd t s)) → runs (zoom prj upd m) s Q.
Proof.
  intros (a & t & Hm & HQ). exists a, (upd t s). unfold zoom. by rewrite Hm.
Qed.
End Runs.

(** ** Strings *)

Lemma string_app_assoc (s1 s2 s3 : string) : s1 +:+ s2 +:+ s3 = (s1 +:+ s2) +:+ s3.
Proof. induction s1 as [|a s1 IH]; [done|]. exact (f_equal (String a) IH). Qed.

Lemma string_app_nil_r (s : string) : s +:+ "" = s.
Proof. induction s as [|a s IH]; [done|]. exact (f_equal (String a) IH). Qed.

(** ** Partial correctness with exceptions *)

(** [safe m s Q E]: from [s], [m] has no undefined behaviour; if it returns,
    its result and final state satisfy [Q], and if it throws, the state it
    leaves satisfies [E]. It may run out of a bound. *)
Definition safe {S A} (m : M S A) (s : S) (Q : A → S → Prop) (E : S → Prop) : Prop :=
  match m s with
  | (Ok a, s') => Q a s'
  | (Throw _, s') => E s'
  | (UB _, _) => False
  | (OutOfFuel, _) => True
  end.

(** [I] is kept by [m], whether it returns or throws. *)
Definition keeps {S A} (I : S → Prop) (m : M S A) : Prop :=
  ∀ s, I s → safe m s (λ _, I) I.

(** Nothing undefined is done, from any state. *)
Definition no_ub {S A} (m : M S A) : Prop := keeps (λ _, True) m.

Section Safe.
Context {S : Type}.
Implicit Types (s : S) (I E : S → Prop).

Lemma safe_ret {A} (a : A) s (Q : A → S → Prop) E : Q a s → safe (mret a) s Q E.
Proof. done. Qed.

Lemma safe_throw {A} e s (Q : A → S → Prop) E : E s → safe (throw e) s Q E.
Proof. done. Qed.

Lemma safe_bind {A B} (m : M S A) (f : A → M S B) s (Q : B → S → Prop) E :
  safe m s (λ a s', safe (f a) s' Q E) E → safe (m ≫= f) s Q E.
Proof. unfold safe, mbind, M_bind. by destruct (m s) as [[] ?]. Qed.

Lemma safe_mono {A} (m : M S A) s (Q R : A → S → Prop) (E F : S → Prop) :
  safe m s Q E → (∀ a s', Q a s' → R a s') → (∀ s', E s' → F s') → safe m s R F.
Proof. unfold safe. destruct (m s) as [[] ?]; auto. Qed.

Lemma safe_eq {A} (m : M S A) s a s' (Q : A → S → Prop) E :
  m s = (Ok a, s') → Q a s' → safe m s Q E.
Proof. unfold safe. by intros ->. Qed.

Lemma runs_safe {A} (m : M S A) s (Q : A → S → Prop) E : runs m s Q → safe m s Q E.
Proof. intros (a & s' & Hm & HQ). by apply (safe_eq _ _ a s'). Qed.

Lemma safe_keeps {A} I (m : M S A) s (Q : A → S → Prop) E :
  keeps I m → I s → (∀ a s', I s' → Q a s') → (∀ s', I s' → E s') → safe m s Q E.
Proof. intros Hm Hi HQ HE. eapply safe_mono; [by apply Hm|auto..]. Qed.

Lemma keeps_ret {A} I (a : A) : keeps I (mret a).
Proof. by intros s Hs. Qed.

Lemma keeps_throw {A} I e : keeps I (throw (A:=A) e).
Proof. by intros s Hs. Qed.

Lemma keeps_gets {A} I (f : S → A) : keeps I (gets f).
Proof. by intros s Hs. Qed.

Lemma keeps_out_of_fuel {A} I : keeps I (out_of_fuel (A:=A)).
Proof. by intros s Hs. Qed.

Lemma keeps_bind {A B} I (m : M S A) (f : A → M S B) :
  keeps I m → (∀ a, keeps I (f a)) → keeps I (m ≫= f).
Proof.
  intros Hm Hf s Hs. apply safe_bind. eapply safe_keeps; [done..| |auto].
  intros a s' Hs'. by apply Hf.
Qed.

Lemma keeps_modify I (f : S → S) : (∀ s, I s → I (f s)) → keeps I (modify f).
Proof. intros Hf s Hs. by apply Hf. Qed.

Lemma keeps_when I b (m : M S unit) : (b = true → keeps I m) → keeps I (when b m).
Proof. intros Hm. destruct b; [by apply Hm|apply keeps_ret]. Qed.

Lemma no_ub_ret {A} (a : A) : no_ub (S:=S) (mret a).
Proof. apply keeps_ret. Qed.

Lemma no_ub_throw {A} e : no_ub (S:=S) (throw (A:=A) e).
Proof. apply keeps_throw. Qed.

Lemma no_ub_out_of_fuel {A} : no_ub (S:=S) (out_of_fuel (A:=A)).
Proof. apply keeps_out_of_fuel. Qed.

Lemma no_ub_bind {A B} (m : M S A) (f : A → M S B) :
  no_ub m → (∀ a, no_ub (f a)) → no_ub (m ≫= f).
Proof. apply keeps_bind. Qed.

Lemma no_ub_when b (m : M S unit) : no_ub m → no_ub (when b m).
Proof. intros Hm. by apply keeps_when. Qed.

Lemma no_ub_safe {A} (m : M S A) s : no_ub m → safe m s (λ _ _, True) (λ _, True).
Proof. intros Hm. by apply Hm. Qed.

Lemma no_ub_intro {A} (m : M S A) : (∀ s u, fst (m s) ≠ UB u) → no_ub m.
Proof.
  intros Hm s _. unfold safe. specialize (Hm s).
  destruct (m s) as [[| |u|] ?]; try done. by apply (Hm u).
Qed.

Lemma no_ub_elim {A} (m : M S A) s u : no_ub m → fst (m s) ≠ UB u.
Proof. intros Hm. specialize (Hm s I). unfold safe in Hm. by destruct (m s) as [[] ?]. Qed.
End Safe.

(** One step of symbolic execution of a [runs] goal. *)
Ltac runs_step :=
  lazymatch goal with
  | |- runs (mbind _ _) _ _ => apply runs_bind
  | |- runs (mret _) _ _ => apply runs_ret
  | |- runs (gets _) _ _ => apply runs_gets
  | |- runs get _ _ => eapply runs_eq; [reflexivity|]
  | |- runs (modify _) _ _ => apply runs_modify
  | |- runs (when true _) _ _ => unfold when
  | |- runs (when false _) _ _ => unfold when
  | |- runs (zoom _ _ _) _ _ => apply runs_zoom
  end.
Ltac runs_steps := repeat (runs_step; cbn beta iota).

(** ** Bytes and machine integers *)

Definition byte_list : Type := list Z.

Definition is_byte (b : Z) : Prop := (0 ≤ b < 256)%Z.
Definition bytes_ok (bs : list Z) : Prop := Forall is_byte bs.

#[global] Instance is_byte_dec b : Decision (is_byte b).
Proof. unfold is_byte. apply _. Defined.

(** Conversion to an unsigned type of the given width, and to [int]. *)
Definition u8 (z : Z) : Z := (z mod 2 ^ 8)%Z.
Definition u64 (z : Z) : Z := (z mod 2 ^ 64)%Z.
Definition i32 (z : Z) : Z := ((z + 2 ^ 31) mod 2 ^ 32 - 2 ^ 31)%Z.

(** The bool a C++ condition makes of an integer. *)
Definition truthy (z : Z) : bool := negb (z =? 0)%Z.

Lemma u8_byte z : is_byte (u8 z).
Proof. unfold u8, is_byte. apply Z.mod_pos_bound. lia. Qed.

Lemma u8_id b : is_byte b → u8 b = b.
Proof. unfold u8, is_byte. intros. apply Z.mod_small. lia. Qed.

Lemma u64_id z : (0 ≤ z < 2 ^ 64)%Z → u64 z = z.
Proof. unfold u64. intros. by apply Z.mod_small. Qed.

Lemma u64_bound z : (0 ≤ u64 z < 2 ^ 64)%Z.
Proof. unfold u64. apply Z.mod_pos_bound. lia. Qed.

Lemma i32_id z : (-2 ^ 31 ≤ z < 2 ^ 31)%Z → i32 z = z.
Proof. unfold i32. intros. rewrite Z.mod_small; lia. Qed.

(** A boolean fact about every byte holds once it is checked on all 256. *)
Lemma byte_check (f : Z → bool) :
  forallb f (seqZ 0 256) = true → ∀ b, is_byte b → f b = true.
Proof.
  intros H b Hb. rewrite forallb_forall in H. apply H.
  apply list_elem_of_In, elem_of_seqZ. unfold is_byte in Hb. lia.
Qed.

Lemma lxor_byte a b : is_byte a → is_byte b → is_byte (Z.lxor a b).
Proof.
  unfold is_byte. intros Ha Hb. split.
  - apply Z.lxor_nonneg. lia.
  - destruct (decide (Z.lxor a b = 0)%Z) as [->|Hn]; [lia|].
    assert (0 < Z.lxor a b)%Z as Hp
      by (pose proof (proj2 (Z.lxor_nonneg a b)); lia).
    apply (Z.log2_lt_pow2 _ 8 Hp).
    pose proof (Z.log2_lxor a b ltac:(lia) ltac:(lia)) as Hl.
    pose proof (Z.log2_le_mono a 255 ltac:(lia)) as Ha'.
    pose proof (Z.log2_le_mono b 255 ltac:(lia)) as Hb'.
    change (Z.log2 255) with 7%Z in *. lia.
Qed.

Lemma lxor_twice a k : Z.lxor (Z.lxor a k) k = a.
Proof. by rewrite Z.lxor_assoc, Z.lxor_nilpotent, Z.lxor_0_r. Qed.

Lemma lxor_cancel_r a b k : Z.lxor a k = Z.lxor b k → a = b.
Proof. intros H. by rewrite <-(lxor_twice a k), H, lxor_twice. Qed.

(** Combining disjoint bit ranges is addition. *)
Lemma lor_disjoint k hi lo :
  (0 ≤ k)%Z → (0 ≤ lo < 2 ^ k)%Z →
  Z.lor (hi * 2 ^ k) lo = (hi * 2 ^ k + lo)%Z.
Proof.
  intros Hk Hlo. symmetry. apply Z.add_nocarry_lor. apply Z.bits_inj'.
  intros i Hi. rewrite Z.land_spec, Z.bits_0.
  destruct (Z.lt_ge_cases i k).
  - by rewrite Z.mul_pow2_bits_low.
  - rewrite <-(Z.mod_small lo (2 ^ k)) by done.
    by rewrite Z.mod_pow2_bits_high, andb_false_r by lia.
Qed.

Lemma land_0f b : Z.land b 0x0F = (b mod 16)%Z.
Proof. by apply (Z.land_ones b 4). Qed.

Lemma land_7f b : Z.land b 0x7F = (b mod 128)%Z.
Proof. by apply (Z.land_ones b 7). Qed.

Lemma land_ff b : Z.land b 0xFF = (b mod 256)%Z.
Proof. by apply (Z.land_ones b 8). Qed.

(** The top bit of a byte, as the sources test it. *)
Lemma truthy_top_bit b : is_byte b → truthy (Z.land b 0x80) = (128 <=? b)%Z.
Proof.
  intros Hb. apply eqb_prop.
  by apply (byte_check (λ b, Bool.eqb (truthy (Z.land b 0x80)) (128 <=? b)%Z)).
Qed.

(** What the language leaves to the compiler and its settings.
    [shl_wide x n] is the [int] that [x << n] gives when [n] is 32 or more
    (undefined in C++); [hardened] says whether the library checks the
    preconditions of [operator[]] (as [-D_GLIBCXX_ASSERTIONS] does). *)
Class Target : Type := {
  shl_wide : Z → Z → Z;
  hardened : bool
}.

(** The common case of x86-64 and AArch64 code: the shift instruction masks
    its count to five bits; library assertions are off. *)
Definition masked_shift_target : Target :=
  {| shl_wide x n := i32 (Z.shiftl x (n mod 32)); hardened := false |}.

(** The same machine with library assertions on. *)
Definition hardened_target : Target :=
  {| shl_wide x n := i32 (Z.shiftl x (n mod 32)); hardened := true |}.

(** [&a[n]] for an array of [size] elements: the address one past the end is
    a precondition violation of [operator[]] that only a hardened library
    stops. *)
Definition address_ok `{Target} (n size : nat) : bool :=
  (n <? size) || ((n =? size) && negb hardened).

(** Unsigned integers of several bytes, most and least significant first. *)
Fixpoint big_endian (n : nat) (z : Z) : list Z :=
  match n with
  | O => []
  | S n' => u8 (z / 2 ^ (8 * Z.of_nat n')) :: big_endian n' z
  end.

Fixpoint from_big_endian (acc : Z) (bs : list Z) : Z :=
  match bs with
  | [] => acc
  | b :: bs' => from_big_endian (acc * 256 + b) bs'
  end.

Fixpoint little_endian (n : nat) (z : Z) : list Z :=
  match n with
  | O => []
  | S n' => u8 z :: little_endian n' (z / 256)
  end.

Lemma length_big_endian n z : length (big_endian n z) = n.
Proof. induction n; cbn; congruence. Qed.

Lemma big_endian_bytes n z : bytes_ok (big_endian n z).
Proof. induction n; constructor; auto using u8_byte. Qed.

Lemma length_little_endian n z : length (little_endian n z) = n.
Proof. revert z. induction n; intros; cbn; congruence. Qed.

Lemma little_endian_bytes n z : bytes_ok (little_endian n z).
Proof.
  revert z. induction n; intros; constructor; [apply u8_byte|apply IHn].
Qed.

Lemma from_big_endian_app acc bs cs :
  from_big_endian acc (bs ++ cs) = from_big_endian (from_big_endian acc bs) cs.
Proof. revert acc. induction bs; intros; cbn; auto. Qed.

Lemma from_big_endian_encode n z acc :
  (0 ≤ z)%Z →
  from_big_endian acc (big_endian n z)
  = (acc * 2 ^ (8 * Z.of_nat n) + z mod 2 ^ (8 * Z.of_nat n))%Z.
Proof.
  revert acc. induction n as [|n IH]; intros acc Hz; cbn -[Z.mul Z.pow].
  - rewrite Z.mod_1_r. lia.
  - rewrite IH by done. unfold u8.
    replace (8 * Z.of_nat (S n))%Z with (8 + 8 * Z.of_nat n)%Z by lia.
    rewrite Z.pow_add_r by lia.
    set (p := (2 ^ (8 * Z.of_nat n))%Z).
    assert (0 < p)%Z by (apply Z.pow_pos_nonneg; lia).
    rewrite (Z.mul_comm (2 ^ 8) p), (Z.rem_mul_r z p (2 ^ 8)) by lia.
    change (2 ^ 8)%Z with 256%Z. ring.
Qed.

(** ** Lists as memory *)

(** [memcpy] of [bs] to offset [off] of [mem], for [bs] that fits. *)
Definition write_at (off : nat) (bs mem : list Z) : list Z :=
  take off mem ++ bs ++ drop (off + length bs) mem.

Lemma length_write_at off bs mem :
  off + length bs ≤ length mem → length (write_at off bs mem) = length mem.
Proof.
  intros H. unfold write_at. rewrite !length_app, length_take, length_drop. lia.
Qed.

Lemma take_write_at off bs mem :
  off + length bs ≤ length mem →
  take (off + length bs) (write_at off bs mem) = take off mem ++ bs.
Proof.
  intros H. unfold write_at. rewrite app_assoc.
  rewrite take_app_length'; [done|]. rewrite length_app, length_take. lia.
Qed.

Lemma take_write_at_before off bs mem :
  off + length bs ≤ length mem → take off (write_at off bs mem) = take off mem.
Proof.
  intros H. unfold write_at. rewrite take_app_length'; [done|].
  rewrite length_take. lia.
Qed.

Lemma write_at_app off bs cs mem :
  off + length bs + length cs ≤ length mem →
  write_at (off + length bs) cs (write_at off bs mem) = write_at off (bs ++ cs) mem.
Proof.
  intros H. unfold write_at at 1. rewrite take_write_at by lia.
  unfold write_at. rewrite <-!app_assoc, length_app. do 3 f_equal.
  rewrite app_assoc, drop_app_ge by (rewrite length_app, length_take; lia).
  rewrite length_app, length_take, drop_drop. f_equal. lia.
Qed.

Lemma insert_write_at off b mem :
  off < length mem → <[off := b]> mem = write_at off [b] mem.
Proof.
  intros H. unfold write_at. cbn. rewrite insert_take_drop by done.
  by rewrite Nat.add_1_r.
Qed.

Lemma write_at_cons off b bs mem :
  off + S (length bs) ≤ length mem →
  write_at (S off) bs (<[off := b]> mem) = write_at off (b :: bs) mem.
Proof.
  intros H. rewrite insert_write_at by lia.
  rewrite <-(write_at_app off [b] bs) by (cbn; lia). cbn [length].
  by rewrite Nat.add_1_r.
Qed.

Lemma take_app_exact {A} (l k : list A) n : n = length l → take n (l ++ k) = l.
Proof. intros ->. apply take_app_length. Qed.

Lemma drop_app_exact {A} (l k : list A) n : n = length l → drop n (l ++ k) = k.
Proof. intros ->. apply drop_app_length. Qed.

Create HintDb ws.
#[export] Hint Resolve keeps_ret keeps_throw keeps_gets keeps_out_of_fuel
  keeps_bind keeps_when no_ub_ret no_ub_throw no_ub_out_of_fuel : ws.

(** Methods written with operations that do nothing undefined. *)
Ltac no_ub_steps :=
  repeat first
    [ apply no_ub_bind; [|intros]
    | apply no_ub_when
    | solve [auto with ws]
    | case_match ].
#[export] Hint Resolve u8_byte lxor_byte big_endian_bytes little_endian_bytes : ws.
