(* ===== verification/Xorshift.v ===== *)
(** [XorShift128Plus] (single_header/fastws.hpp): the generator behind the
    masking keys. The state is the two 64-bit words of [s]; [next64] is
    modelled bit for bit, [fill_bytes] with its whole-word loop and its
    leftover bytes. Shown here: the words stay 64 bits wide, a state that is
    not all zero never becomes all zero (the constructor's seed repair is
    therefore enough for ever), and a step loses no information. *)

From S2P Require Import Prelude.

Module XorShift128Plus.

(** [std::array<std::uint64_t, 2> s]. *)
Record t : Type := mk { s0 : Z; s1 : Z }.

(** The constructor: seeds that are both zero are repaired. *)
Definition new (seed1 seed2 : Z) : t :=
  let seed2 := if ((seed1 =? 0) && (seed2 =? 0))%Z then 1%Z else seed2 in
  mk seed1 seed2.

(** [x ^= x << 23] on 64 bits, and the two halves of the update. *)
Definition next64 : M t Z := λ s,
  let x := s0 s in
  let y := s1 s in
  let x := Z.lxor x (u64 (Z.shiftl x 23)) in
  let s1' := Z.lxor (Z.lxor (Z.lxor x y) (Z.shiftr x 17)) (Z.shiftr y 26) in
  (Ok (u64 (s1' + y)), mk y s1').

Arguments next64 : simpl never.

(** [fill_bytes(buf, n)]: one word per eight bytes (little-endian, as
    [memcpy] stores it), then a word for the bytes left over. *)
Fixpoint fill_bytes (n : nat) : M t (list Z) :=
  match n with
  | S (S (S (S (S (S (S (S n'))))))) =>
      rnd ← next64;
      rest ← fill_bytes n';
      mret (little_endian 8 rnd ++ rest)
  | O => mret []
  | _ =>
      rnd ← next64;
      mret (take n (little_endian 8 rnd))
  end.

(** Both words are 64 bits wide. *)
Definition wf (s : t) : Prop :=
  (0 ≤ s0 s < 2 ^ 64)%Z ∧ (0 ≤ s1 s < 2 ^ 64)%Z.

Definition all_zero (s : t) : Prop := s0 s = 0%Z ∧ s1 s = 0%Z.

(** ** Words *)

Lemma word_bits z :
  (0 ≤ z < 2 ^ 64)%Z ↔ (0 ≤ z)%Z ∧ ∀ i, (64 ≤ i)%Z → Z.testbit z i = false.
Proof.
  split.
  - intros [H0 H]. split; [done|]. intros i Hi.
    rewrite <-(Z.mod_small z (2 ^ 64)) by lia. by apply Z.mod_pow2_bits_high.
  - intros [H0 H]. split; [done|].
    destruct (decide (z = 0)%Z) as [->|]; [lia|].
    destruct (Z.lt_ge_cases (Z.log2 z) 64) as [Hl|Hl].
    + apply Z.log2_lt_pow2; lia.
    + pose proof (Z.bit_log2 z ltac:(lia)). rewrite H in *; done.
Qed.

Lemma word_lxor a b :
  (0 ≤ a < 2 ^ 64)%Z → (0 ≤ b < 2 ^ 64)%Z → (0 ≤ Z.lxor a b < 2 ^ 64)%Z.
Proof.
  rewrite !word_bits. intros [Ha Ha'] [Hb Hb']. split.
  - apply Z.lxor_nonneg. lia.
  - intros i Hi. rewrite Z.lxor_spec, Ha', Hb' by done. done.
Qed.

Lemma word_shiftr a n :
  (0 ≤ n)%Z → (0 ≤ a < 2 ^ 64)%Z → (0 ≤ Z.shiftr a n < 2 ^ 64)%Z.
Proof.
  rewrite !word_bits. intros Hn [Ha Ha']. split.
  - by apply Z.shiftr_nonneg.
  - intros i Hi. rewrite Z.shiftr_spec by lia. apply Ha'. lia.
Qed.

#[export] Hint Resolve word_lxor u64_bound : ws.
#[export] Hint Extern 3 (0 ≤ Z.shiftr _ _ < _)%Z =>
  (apply word_shiftr; [lia|]) : ws.

Lemma lxor_zero_eq a b : Z.lxor a b = 0%Z → a = b.
Proof. apply Z.lxor_eq. Qed.

(** [x ^ (x << 23)] determines [x]: bit [i] of the result gives bit [i] of
    [x] from the bits below it. *)
Lemma left_kernel x :
  (0 ≤ x < 2 ^ 64)%Z → Z.lxor x (u64 (Z.shiftl x 23)) = 0%Z → x = 0%Z.
Proof.
  intros Hx Heq. apply lxor_zero_eq in Heq.
  assert (∀ n : nat, ∀ i, (i < Z.of_nat n)%Z → Z.testbit x i = false) as Hb.
  { induction n as [|n IH]; intros i Hi.
    - apply Z.testbit_neg_r. lia.
    - destruct (Z.lt_ge_cases i 0) as [|Hi0]; [by apply Z.testbit_neg_r|].
      destruct (Z.lt_ge_cases i 64) as [Hi'|Hi'].
      + rewrite Heq. unfold u64.
        rewrite Z.mod_pow2_bits_low, Z.shiftl_spec by lia. apply IH. lia.
      + apply word_bits in Hx as [_ Hx]. auto. }
  apply Z.bits_inj'. intros i Hi. rewrite Z.testbit_0_l.
  apply (Hb (S (Z.to_nat i))). lia.
Qed.

Lemma right_kernel x : (0 ≤ x)%Z → Z.lxor x (Z.shiftr x 17) = 0%Z → x = 0%Z.
Proof.
  intros Hx Heq. apply lxor_zero_eq in Heq.
  rewrite Z.shiftr_div_pow2 in Heq by lia.
  pose proof (Z.div_lt_upper_bound x (2 ^ 17) x). lia.
Qed.

(** The nonlinear-free part of the update: what [next64] does to [s[0]]. *)
Definition mix (x : Z) : Z :=
  let x := Z.lxor x (u64 (Z.shiftl x 23)) in Z.lxor x (Z.shiftr x 17).

Lemma mix_word x : (0 ≤ x < 2 ^ 64)%Z → (0 ≤ mix x < 2 ^ 64)%Z.
Proof. intros. unfold mix. cbn zeta. auto 8 with ws. Qed.

Lemma mix_kernel x : (0 ≤ x < 2 ^ 64)%Z → mix x = 0%Z → x = 0%Z.
Proof.
  intros Hx H. apply left_kernel; [done|]. apply right_kernel; [|done].
  eapply word_lxor; auto with ws.
Qed.

Lemma mix_lxor x y : (0 ≤ x)%Z → (0 ≤ y)%Z →
  mix (Z.lxor x y) = Z.lxor (mix x) (mix y).
Proof.
  intros Hx Hy. unfold mix. cbn zeta.
  assert (u64 (Z.shiftl (Z.lxor x y) 23)
          = Z.lxor (u64 (Z.shiftl x 23)) (u64 (Z.shiftl y 23))) as ->.
  { unfold u64. apply Z.bits_inj'. intros i Hi. rewrite Z.lxor_spec.
    destruct (Z.lt_ge_cases i 64).
    - rewrite !Z.mod_pow2_bits_low by lia. by rewrite Z.shiftl_lxor, Z.lxor_spec.
    - by rewrite !Z.mod_pow2_bits_high by lia. }
  apply Z.bits_inj'. intros i Hi.
  rewrite !Z.lxor_spec, !Z.shiftr_spec, !Z.lxor_spec by lia.
  by repeat match goal with |- context [Z.testbit ?a ?b] => destruct (Z.testbit a b) end.
Qed.

(** The state after a step, with the update written through [mix]. *)
Lemma next64_state s :
  snd (next64 s)
  = mk (s1 s) (Z.lxor (mix (s0 s)) (Z.lxor (s1 s) (Z.shiftr (s1 s) 26))).
Proof.
  unfold next64, mix. cbn -[u64 Z.shiftl Z.shiftr]. f_equal.
  apply Z.bits_inj'. intros i Hi. rewrite !Z.lxor_spec.
  by repeat match goal with |- context [Z.testbit ?a ?b] => destruct (Z.testbit a b) end.
Qed.

(** ** Steps *)

Lemma next64_wf s : wf s → wf (snd (next64 s)).
Proof.
  intros [H0 H1]. rewrite next64_state. split; cbn -[Z.pow]; [done|].
  auto 8 using mix_word with ws.
Qed.

Lemma next64_runs s :
  runs next64 s (λ r s', (0 ≤ r < 2 ^ 64)%Z ∧ s' = snd (next64 s)).
Proof. eapply runs_eq; [reflexivity|]. split; [apply u64_bound|done]. Qed.

(** The loop of [fill_bytes], read as the source writes it. *)
Lemma fill_bytes_unfold n :
  fill_bytes n =
    if decide (8 ≤ n) then
      rnd ← next64; rest ← fill_bytes (n - 8);
      mret (little_endian 8 rnd ++ rest)
    else if decide (0 < n) then
      rnd ← next64; mret (take n (little_endian 8 rnd))
    else mret [].
Proof.
  do 8 (destruct n as [|n]; [done|]).
  destruct (decide (8 ≤ _)) as [_|Hn]; [|lia]. cbn [fill_bytes].
  by replace (S (S (S (S (S (S (S (S n))))))) - 8) with n by lia.
Qed.

Lemma fill_bytes_runs n s :
  runs (fill_bytes n) s
    (λ bs s', length bs = n ∧ bytes_ok bs ∧ (wf s → wf s')).
Proof.
  revert s. induction (lt_wf n) as [n _ IH]. intros s.
  rewrite fill_bytes_unfold. repeat case_decide.
  - runs_step. eapply runs_mono; [apply next64_runs|]. intros r s' [_ ->].
    runs_step. eapply runs_mono; [apply IH; lia|].
    cbn beta. intros bs s'' (Hl & Hb & Hw). runs_steps. split_and!.
    + rewrite length_app, Hl, length_little_endian. lia.
    + apply Forall_app. split; [apply little_endian_bytes|done].
    + intros. apply Hw, next64_wf. done.
  - runs_step. eapply runs_mono; [apply next64_runs|]. intros r s' [_ ->].
    runs_steps. split_and!.
    + rewrite length_take, length_little_endian. lia.
    + apply Forall_take, little_endian_bytes.
    + apply next64_wf.
  - runs_steps. split_and!; [cbn; lia|constructor|done].
Qed.

Lemma new_wf seed1 seed2 :
  (0 ≤ seed1 < 2 ^ 64)%Z → (0 ≤ seed2 < 2 ^ 64)%Z → wf (new seed1 seed2).
Proof. intros. unfold wf, new. cbn -[Z.pow]. case_match; lia. Qed.

Lemma new_not_all_zero seed1 seed2 : ¬ all_zero (new seed1 seed2).
Proof.
  unfold all_zero, new. cbn. intros [H1 H2].
  destruct (Z.eqb_spec seed1 0), (Z.eqb_spec seed2 0); cbn in *; lia.
Qed.

(** The word [next64] writes to [s[1]] determines [s[0]], given [s[1]]. *)
Lemma next64_inj s s' :
  wf s → wf s' → snd (next64 s) = snd (next64 s') → s = s'.
Proof.
  intros [Ha Hb] [Ha' Hb']. rewrite !next64_state. intros [= H1 H0].
  rewrite H1 in H0. destruct s as [a b], s' as [a' b']. cbn -[Z.pow] in *.
  subst b'. f_equal. apply lxor_cancel_r in H0.
  apply Z.lxor_eq, mix_kernel; [by apply word_lxor|].
  by rewrite mix_lxor, H0, Z.lxor_nilpotent by lia.
Qed.

(** Drawing [n] words. *)
Fixpoint draws (n : nat) (s : t) : t :=
  match n with
  | O => s
  | S n' => draws n' (snd (next64 s))
  end.

Lemma next64_not_all_zero s :
  wf s → ¬ all_zero s → ¬ all_zero (snd (next64 s)).
Proof.
  intros [Ha Hb] Hn [Hy Hx]. apply Hn. rewrite next64_state in Hy, Hx.
  cbn in Hy, Hx. rewrite Hy in Hx. cbn in Hx. rewrite Z.lxor_0_r in Hx.
  split; [by apply mix_kernel|done].
Qed.

Lemma draws_wf n s : wf s → wf (draws n s).
Proof. revert s. induction n; cbn; auto using next64_wf. Qed.

(** ** Properties *)

(** C40: a generator built from any two 64-bit seeds (the constructor repairs
    the pair (0, 0)) never reaches the all-zero state, the fixed point on
    which every masking key would be zero, however many words are drawn. *)
Theorem never_all_zero (seed1 seed2 : Z) (n : nat) :
  (0 ≤ seed1 < 2 ^ 64)%Z → (0 ≤ seed2 < 2 ^ 64)%Z →
  let s := draws n (new seed1 seed2) in wf s ∧ ¬ all_zero s.
Proof.
  intros H1 H2. cbn zeta. split; [by apply draws_wf, new_wf|].
  generalize (new_not_all_zero seed1 seed2), (new_wf seed1 seed2 H1 H2).
  generalize (new seed1 seed2). induction n as [|n IH]; cbn; [done|].
  intros s Hz Hw. apply IH; [by apply next64_not_all_zero|by apply next64_wf].
Qed.

Lemma never_all_zero_witness :
  wf (draws 5 (new 0 0)) ∧ ¬ all_zero (draws 5 (new 0 0)).
Proof. apply (never_all_zero 0 0 5); lia. Defined.

(** [next64] is injective on 64-bit states: no two states of the
    generator run into the same sequence of states, so its period is never
    shortened by a merge. *)
Theorem next64_injective (s s' : t) :
  wf s → wf s' → snd (next64 s) = snd (next64 s') → s = s'.
Proof. apply next64_inj. Qed.

Lemma next64_injective_witness : new 7 9 = new 7 9.
Proof.
  apply (next64_injective (new 7 9) (new 7 9)); [| |reflexivity];
    split; cbn; lia.
Defined.

End XorShift128Plus.
