(* ===== verification/Buffer.v ===== *)
(** [FrameBuffer] (single_header/fastws.hpp): the growable byte buffer that
    frames are built in and received into. [m_buf] is the vector (its length
    is [capacity()]), [m_ptr] the number of bytes in use. Writes through the
    unchecked methods are modelled with the bounds C++ leaves to the caller:
    outside the vector they are undefined behaviour. *)

From S2P Require Import Prelude.

Module FrameBuffer.

Record t : Type := mk { m_buf : list Z; m_ptr : nat }.

(** [FrameBuffer(initial_capacity)]: the vector is filled with zeros. *)
Definition new (initial_capacity : nat) : t :=
  mk (replicate initial_capacity 0%Z) 0.

Definition capacity (b : t) : nat := length (m_buf b).

Definition size (b : t) : nat := m_ptr b.

(** [view()]: the bytes in use. *)
Definition view (b : t) : list Z := take (m_ptr b) (m_buf b).

Definition reset : M t unit := modify (λ b, mk (m_buf b) 0).

(** [m_buf.resize(sz)] when too small; new elements are zero. *)
Definition ensure_fit (sz : nat) : M t unit :=
  modify (λ b,
    if capacity b <? sz
    then mk (m_buf b ++ replicate (sz - capacity b) 0%Z) (m_ptr b)
    else b).

Definition ensure_extra_space (extra : nat) : M t unit :=
  b ← get; ensure_fit (m_ptr b + extra).

(** A store of [bs] to [m_buf[off ..]]. *)
Definition store (off : nat) (bs : list Z) : M t unit := λ b,
  if decide (off + length bs ≤ capacity b)
  then (Ok tt, mk (write_at off bs (m_buf b)) (m_ptr b))
  else (UB out_of_bounds, b).

(** [push_back(uint8_t)]: no bounds checking. *)
Definition push_back_byte (byte : Z) : M t unit :=
  b ← get;
  store (m_ptr b) [byte];;
  modify (λ b, mk (m_buf b) (m_ptr b + 1)).

(** [get_space(sz)]: the offset of the space, from [&m_buf[m_ptr]], which
    must be an element of the vector. *)
Definition get_space (sz : nat) : M t nat :=
  b ← get;
  if decide (m_ptr b < capacity b) then
    modify (λ b, mk (m_buf b) (m_ptr b + sz));;
    mret (m_ptr b)
  else undef out_of_bounds.

Definition claim_space (sz : nat) : M t unit :=
  modify (λ b, mk (m_buf b) (m_ptr b + sz)).

(** [push_back(View)]. *)
Definition push_back_view (bs : list Z) : M t unit :=
  ensure_extra_space (length bs);;
  off ← get_space (length bs);
  store off bs.

(** [push_back(std::string_view)]. *)
Definition push_back_string (bs : list Z) : M t unit :=
  b ← get;
  ensure_fit (m_ptr b + length bs);;
  off ← get_space (length bs);
  store off bs.

(** [tail()]: the offset the next byte goes to; [&m_buf[m_ptr]] must be an
    element of the vector. *)
Definition tail : M t nat :=
  b ← get;
  if decide (m_ptr b < capacity b) then mret (m_ptr b)
  else undef out_of_bounds.

(** ** Invariant *)

Definition wf (b : t) : Prop := m_ptr b ≤ capacity b.

(** [b'] is [b] with [c] received at its end. *)
Definition extended (b : t) (c : list Z) (b' : t) : Prop :=
  wf b' ∧ view b' = view b ++ c.

Lemma new_buffer_wf n : wf (new n).
Proof. unfold wf. cbn. lia. Qed.

Lemma view_new n : view (new n) = [].
Proof. done. Qed.

Lemma length_view b : wf b → length (view b) = m_ptr b.
Proof. unfold wf, view, capacity. intros. rewrite length_take. lia. Qed.

(** ** What each operation does to the bytes in use *)

Definition ensured (sz : nat) (b b' : t) : Prop :=
  m_ptr b' = m_ptr b ∧ sz ≤ capacity b' ∧ capacity b ≤ capacity b' ∧
  take (capacity b) (m_buf b') = m_buf b.

Lemma ensured_view sz b b' : wf b → ensured sz b b' → wf b' ∧ view b' = view b.
Proof.
  intros Hw (Hp & Hs & Hc & Ht). unfold wf, view in *. rewrite Hp.
  split; [lia|]. rewrite <-Ht, take_take. f_equal. lia.
Qed.

Lemma ensure_fit_runs sz b : runs (ensure_fit sz) b (λ _ b', ensured sz b b').
Proof.
  unfold ensure_fit, ensured. runs_steps. destruct (Nat.ltb_spec (capacity b) sz).
  - unfold capacity in *. cbn. rewrite length_app, length_replicate.
    split_and!; [done|lia|lia|by apply take_app_length].
  - split_and!; [done|lia|lia|]. unfold capacity. by rewrite take_ge.
Qed.

Lemma ensure_extra_space_runs n b :
  runs (ensure_extra_space n) b (λ _ b', ensured (m_ptr b + n) b b').
Proof. unfold ensure_extra_space. runs_steps. apply ensure_fit_runs. Qed.

(** Appending at the end of the bytes in use, with room for it. *)
Lemma append_view b bs :
  m_ptr b + length bs ≤ capacity b →
  view (mk (write_at (m_ptr b) bs (m_buf b)) (m_ptr b + length bs))
  = view b ++ bs.
Proof. intros H. unfold view. cbn. by rewrite take_write_at. Qed.

Lemma store_ok off bs b :
  off + length bs ≤ capacity b →
  ∃ b', store off bs b = (Ok tt, b') ∧ capacity b' = capacity b.
Proof.
  intros H. unfold store. rewrite decide_True by done. eexists.
  split; [reflexivity|]. by apply length_write_at.
Qed.

Lemma store_nil off b : off ≤ capacity b → store off [] b = (Ok tt, b).
Proof.
  intros H. unfold store. rewrite decide_True by (cbn; lia).
  unfold write_at. cbn. rewrite Nat.add_0_r, take_drop. by destruct b.
Qed.

(** Two adjacent stores are one. *)
Lemma store_store off bs cs b :
  off + length bs + length cs ≤ capacity b →
  (store off bs;; store (off + length bs) cs) b = store off (bs ++ cs) b.
Proof.
  intros H. unfold mbind, M_bind, store, capacity in *.
  rewrite (decide_True (P := off + length bs ≤ _)) by lia. cbn [m_buf m_ptr].
  rewrite length_write_at by lia.
  rewrite !decide_True by (rewrite ?length_app; lia).
  by rewrite write_at_app by done.
Qed.

Lemma store_cons off x cs b :
  off + 1 + length cs ≤ capacity b →
  (store off [x];; store (off + 1) cs) b = store off (x :: cs) b.
Proof. intros H. by apply (store_store off [x] cs). Qed.

Lemma push_back_byte_runs byte b :
  m_ptr b < capacity b →
  runs (push_back_byte byte) b (λ _ b',
    view b' = view b ++ [byte] ∧ m_ptr b' = m_ptr b + 1 ∧
    capacity b' = capacity b).
Proof.
  intros H. unfold push_back_byte, store. runs_steps.
  eapply runs_eq; [cbn; rewrite decide_True by lia; reflexivity|].
  cbn beta. runs_steps. cbn [m_buf m_ptr]. split_and!; [|done|].
  - rewrite <-(append_view b [byte]) by (cbn; lia). done.
  - unfold capacity. cbn [m_buf]. apply length_write_at. cbn.
    unfold capacity in H. lia.
Qed.

(** [get_space] followed by the store that fills the space. *)
Lemma get_space_store_runs bs b :
  m_ptr b < capacity b → m_ptr b + length bs ≤ capacity b →
  runs (off ← get_space (length bs); store off bs) b (λ _ b',
    view b' = view b ++ bs ∧ m_ptr b' = m_ptr b + length bs ∧
    capacity b' = capacity b).
Proof.
  intros H H'. unfold get_space, store. runs_steps. rewrite decide_True by done.
  runs_steps. eapply runs_eq.
  { unfold capacity in *. cbn. rewrite decide_True by done. reflexivity. }
  cbn [m_buf m_ptr]. split_and!; [by apply append_view|done|].
  unfold capacity in *. cbn. by apply length_write_at.
Qed.

Lemma push_back_view_runs bs b :
  wf b → bs ≠ [] →
  runs (push_back_view bs) b (λ _ b', wf b' ∧ view b' = view b ++ bs ∧
    m_ptr b' = m_ptr b + length bs ∧ capacity b ≤ capacity b').
Proof.
  intros Hw Hb. unfold push_back_view. runs_step.
  eapply runs_mono; [apply ensure_extra_space_runs|]. cbn beta.
  intros _ b' He. destruct (ensured_view _ _ _ Hw He) as [Hw' Hv].
  destruct He as (Hp & Hs & Hc & _).
  destruct bs as [|x bs]; [done|].
  eapply runs_mono; [apply get_space_store_runs; cbn in *; lia|].
  cbn beta. intros _ b'' (Hv'' & Hp'' & Hc''). unfold wf. rewrite Hv'', Hv.
  cbn [length] in *. split_and!; [lia|done|lia|lia].
Qed.

Lemma push_back_string_eq bs : push_back_string bs = push_back_view bs.
Proof. done. Qed.

End FrameBuffer.
