(* ===== verification/Rfc6455.v ===== *)
(** The abstract specification of the frame format (RFC 6455, section 5.2),
    independent of the code: [encode] writes a frame, [decode] reads the first
    frame of a byte string or says that it is not complete yet, [decode_all]
    reads a whole stream. The frame builder is proved to produce [encode] and
    the incremental parser to compute [decode]. The reader of the 64-bit length
    field is an argument ([len64]), so that the same grammar serves as the
    RFC's ([rfc_len64]) and as the code's. *)

From S2P Require Import Prelude.

Module Rfc6455.

(** A frame on the wire. [w_data] is the payload data as transmitted, that
    is, masked when there is a key. *)
Record wire : Type := Wire {
  w_fin : bool;
  w_opcode : Z;
  w_key : option (list Z);
  w_data : list Z
}.

(** The masking of section 5.3, from position [i] of the payload on. *)
Fixpoint apply_mask_from (key : list Z) (i : nat) (bs : list Z) : list Z :=
  match bs with
  | [] => []
  | b :: bs' => Z.lxor b (nth (i mod 4) key 0%Z) :: apply_mask_from key (S i) bs'
  end.

Definition apply_mask (key bs : list Z) : list Z := apply_mask_from key 0 bs.

Arguments apply_mask : simpl never.

(** The application data of a frame. *)
Definition unmasked (w : wire) : list Z :=
  match w_key w with
  | Some key => apply_mask key (w_data w)
  | None => w_data w
  end.

(** ** Writing *)

Definition length_field (mask : bool) (n : Z) : list Z :=
  let m := if mask then 128%Z else 0%Z in
  if (n <? 126)%Z then [(m + n)%Z]
  else if (n <? 65536)%Z then (m + 126)%Z :: big_endian 2 n
  else (m + 127)%Z :: big_endian 8 n.

Definition encode (w : wire) : list Z :=
  ((if w_fin w then 128 else 0) + w_opcode w)%Z ::
  length_field (bool_decide (is_Some (w_key w))) (Z.of_nat (length (w_data w))) ++
  default [] (w_key w) ++ w_data w.

(** ** Reading *)

Definition rfc_len64 (bs : list Z) : Z := from_big_endian 0 bs.

Section Decode.
Context (len64 : list Z → Z).

Definition d_payload (fin : bool) (op : Z) (key : option (list Z)) (n : Z)
    (bs : list Z) : option (wire * list Z) :=
  if (Z.of_nat (length bs) <? n)%Z then None
  else Some (Wire fin op key (take (Z.to_nat n) bs), drop (Z.to_nat n) bs).

Definition d_key (fin : bool) (op : Z) (mask : bool) (n : Z) (bs : list Z) :
    option (wire * list Z) :=
  if mask then
    if decide (4 ≤ length bs)
    then d_payload fin op (Some (take 4 bs)) n (drop 4 bs)
    else None
  else d_payload fin op None n bs.

Definition d_len16 (fin : bool) (op : Z) (mask : bool) (bs : list Z) :
    option (wire * list Z) :=
  match bs with
  | b1 :: b0 :: bs' => d_key fin op mask (256 * b1 + b0) bs'
  | _ => None
  end.

Definition d_len64 (fin : bool) (op : Z) (mask : bool) (bs : list Z) :
    option (wire * list Z) :=
  if decide (8 ≤ length bs)
  then d_key fin op mask (len64 (take 8 bs)) (drop 8 bs)
  else None.

Definition d_length (fin : bool) (op : Z) (mask : bool) (n7 : Z)
    (bs : list Z) : option (wire * list Z) :=
  if (n7 =? 126)%Z then d_len16 fin op mask bs
  else if (n7 =? 127)%Z then d_len64 fin op mask bs
  else d_key fin op mask n7 bs.

Definition d_second (fin : bool) (op : Z) (bs : list Z) :
    option (wire * list Z) :=
  match bs with
  | [] => None
  | b :: bs' => d_length fin op (128 <=? b)%Z (b mod 128)%Z bs'
  end.

(** The first frame of [bs] and the bytes after it. *)
Definition decode (bs : list Z) : option (wire * list Z) :=
  match bs with
  | [] => None
  | b :: bs' => d_second (128 <=? b)%Z (b mod 16)%Z bs'
  end.

(** The frames at the front of a stream, at most [n] of them. *)
Fixpoint decode_upto (n : nat) (bs : list Z) : list wire * list Z :=
  match n with
  | O => ([], bs)
  | S n' =>
      match decode bs with
      | Some (w, rest) =>
          let '(ws, rest') := decode_upto n' rest in (w :: ws, rest')
      | None => ([], bs)
      end
  end.

(** All complete frames of a stream, and the incomplete rest. Every frame
    takes at least two bytes, so [length bs] rounds are enough. *)
Definition decode_all (bs : list Z) : list wire * list Z :=
  decode_upto (length bs) bs.

(** *** More bytes never change a frame already complete *)

Lemma d_payload_app fin op key n bs ext w rest :
  d_payload fin op key n bs = Some (w, rest) →
  d_payload fin op key n (bs ++ ext) = Some (w, rest ++ ext) ∧
  length rest ≤ length bs.
Proof.
  unfold d_payload. destruct (Z.ltb_spec (Z.of_nat (length bs)) n); [done|].
  intros [= <- <-]. rewrite length_app, length_drop.
  destruct (Z.ltb_spec (Z.of_nat (length bs + length ext)) n); [lia|].
  rewrite take_app_le, drop_app_le by lia. split; [done|lia].
Qed.

Lemma d_key_app fin op mask n bs ext w rest :
  d_key fin op mask n bs = Some (w, rest) →
  d_key fin op mask n (bs ++ ext) = Some (w, rest ++ ext) ∧
  length rest ≤ length bs.
Proof.
  unfold d_key. destruct mask; [|apply d_payload_app].
  destruct (decide (4 ≤ length bs)); [|done].
  rewrite decide_True by (rewrite length_app; lia).
  rewrite take_app_le, drop_app_le by lia.
  intros H. apply (d_payload_app _ _ _ _ _ ext) in H as [H Hl].
  rewrite length_drop in Hl. split; [done|lia].
Qed.

Lemma d_length_app fin op mask n7 bs ext w rest :
  d_length fin op mask n7 bs = Some (w, rest) →
  d_length fin op mask n7 (bs ++ ext) = Some (w, rest ++ ext) ∧
  length rest ≤ length bs.
Proof.
  unfold d_length. repeat case_match.
  - unfold d_len16. destruct bs as [|b1 [|b0 bs]]; cbn [app]; try done.
    intros H'. apply (d_key_app _ _ _ _ _ ext) in H' as [H' Hl].
    cbn. split; [done|lia].
  - unfold d_len64. destruct (decide (8 ≤ length bs)); [|done].
    rewrite decide_True by (rewrite length_app; lia).
    rewrite take_app_le, drop_app_le by lia.
    intros H'. apply (d_key_app _ _ _ _ _ ext) in H' as [H' Hl].
    rewrite length_drop in Hl. split; [done|lia].
  - apply d_key_app.
Qed.

Lemma decode_app bs ext w rest :
  decode bs = Some (w, rest) →
  decode (bs ++ ext) = Some (w, rest ++ ext) ∧ length rest + 2 ≤ length bs.
Proof.
  destruct bs as [|b [|b' bs]]; cbn [decode d_second app]; try done.
  intros H. apply (d_length_app _ _ _ _ _ ext) in H as [H Hl].
  cbn. split; [done|lia].
Qed.

Lemma decode_consumes bs w rest :
  decode bs = Some (w, rest) → length rest + 2 ≤ length bs.
Proof. intros H. by apply (decode_app _ []) in H as [_ ?]. Qed.

(** *** A frame is a header, its data, and nothing of what follows *)

Lemma d_payload_splits fin op key n bs w rest :
  d_payload fin op key n bs = Some (w, rest) → bs = w_data w ++ rest.
Proof.
  unfold d_payload. case_match; [done|]. intros [= <- <-]. cbn [w_data]. by rewrite take_drop.
Qed.

Lemma d_key_splits fin op mask n bs w rest :
  d_key fin op mask n bs = Some (w, rest) → ∃ hd, bs = hd ++ w_data w ++ rest.
Proof.
  unfold d_key. destruct mask.
  - case_decide; [|done]. intros Hs%d_payload_splits. exists (take 4 bs).
    by rewrite <-Hs, take_drop.
  - intros H%d_payload_splits. by exists [].
Qed.

Lemma decode_splits bs w rest :
  decode bs = Some (w, rest) → ∃ hd, bs = hd ++ w_data w ++ rest.
Proof.
  destruct bs as [|b [|b' bs]]; cbn [decode d_second]; try done.
  intros H. assert (∃ hd, bs = hd ++ w_data w ++ rest) as [hd ->];
    [|by exists (b :: b' :: hd)].
  revert H. unfold d_length, d_len16, d_len64.
  repeat case_match; try done; intros (hd & Hs)%d_key_splits.
  - subst. by eexists (_ :: _ :: hd).
  - exists (take 8 bs ++ hd). by rewrite <-app_assoc, <-Hs, take_drop.
  - by exists hd.
Qed.

Lemma decode_bytes_ok bs w rest :
  decode bs = Some (w, rest) → bytes_ok bs → bytes_ok (w_data w) ∧ bytes_ok rest.
Proof.
  intros (hd & ->)%decode_splits [_ H]%Forall_app. by apply Forall_app in H.
Qed.

(** *** A frame that needs more bytes uses some of them *)

Lemma d_payload_short fin op key n bs ext w rest :
  d_payload fin op key n bs = None → d_payload fin op key n (bs ++ ext) = Some (w, rest) →
  length rest < length ext.
Proof.
  unfold d_payload. rewrite length_app.
  destruct (Z.ltb_spec (Z.of_nat (length bs)) n); [|done].
  destruct (Z.ltb_spec (Z.of_nat (length bs + length ext)) n); [done|].
  intros _ [= <- <-]. rewrite length_drop, length_app. lia.
Qed.

Lemma d_key_short fin op mask n bs ext w rest :
  d_key fin op mask n bs = None → d_key fin op mask n (bs ++ ext) = Some (w, rest) →
  length rest < length ext.
Proof.
  unfold d_key. destruct mask; [|apply d_payload_short]. rewrite length_app.
  do 2 case_decide; try done; try lia.
  - rewrite drop_app_le, take_app_le by lia. apply d_payload_short.
  - intros _ H'%(d_payload_app _ _ _ _ _ []). destruct H' as [_ H'].
    rewrite length_drop, length_app in H'. lia.
Qed.

Lemma d_length_short fin op mask n7 bs ext w rest :
  d_length fin op mask n7 bs = None → d_length fin op mask n7 (bs ++ ext) = Some (w, rest) →
  length rest < length ext.
Proof.
  unfold d_length. repeat case_match; [| |apply d_key_short].
  - unfold d_len16. destruct bs as [|b1 [|b0 bs]]; cbn [app]; [| |apply d_key_short];
      intros _; repeat (case_match; try done); intros H'%(d_key_app _ _ _ _ _ []);
      destruct H' as [_ H']; simplify_eq/=; lia.
  - unfold d_len64. rewrite length_app. do 2 case_decide; try done; try lia.
    + rewrite drop_app_le, take_app_le by lia. apply d_key_short.
    + intros _ H'%(d_key_app _ _ _ _ _ []). destruct H' as [_ H'].
      rewrite length_drop, length_app in H'. lia.
Qed.

Lemma decode_short bs ext w rest :
  decode bs = None → decode (bs ++ ext) = Some (w, rest) → length rest < length ext.
Proof.
  destruct bs as [|b [|b' bs]]; cbn [decode d_second app].
  - intros _ H%(decode_app _ []). lia.
  - destruct ext as [|b' ext]; [done|]. cbn [d_second]. intros _ H%(d_length_app _ _ _ _ _ []).
    cbn. lia.
  - apply d_length_short.
Qed.

(** The bytes of the first frame, by themselves. *)
Lemma decode_piece bs w rest :
  decode bs = Some (w, rest) → ∃ piece, bs = piece ++ rest ∧ decode piece = Some (w, []).
Proof.
  intros Hd. assert (∃ piece, bs = piece ++ rest) as [piece ->].
  { apply decode_splits in Hd as [hd ->]. exists (hd ++ w_data w). by rewrite app_assoc. }
  exists piece. split; [done|]. destruct (decode piece) as [[w' r]|] eqn:Hp.
  - apply (decode_app _ rest) in Hp as [Hp _]. rewrite Hp in Hd. injection Hd as <- Hr.
    do 2 f_equal. by destruct (app_inv_tail rest r []).
  - pose proof (decode_short _ _ _ _ Hp Hd). lia.
Qed.

(** *** Streams *)

Lemma decode_upto_enough n m bs :
  length bs ≤ n → length bs ≤ m → decode_upto n bs = decode_upto m bs.
Proof.
  revert m bs. induction n as [|n IH]; intros [|m] bs Hn Hm.
  - done.
  - destruct bs; [done|cbn in Hn; lia].
  - destruct bs; [done|cbn in Hm; lia].
  - cbn. destruct (decode bs) as [[w rest]|] eqn:Hd; [|done].
    apply decode_consumes in Hd. by rewrite (IH m) by lia.
Qed.

Lemma decode_all_unfold bs :
  decode_all bs =
    match decode bs with
    | Some (w, rest) =>
        let '(ws, rest') := decode_all rest in (w :: ws, rest')
    | None => ([], bs)
    end.
Proof.
  unfold decode_all. destruct bs as [|b bs]; [done|]. cbn [length decode_upto].
  destruct (decode (b :: bs)) as [[w rest]|] eqn:Hd; [|done].
  apply decode_consumes in Hd. cbn in Hd.
  by rewrite (decode_upto_enough _ (length rest)) by lia.
Qed.

(** Decoding a stream in two steps is decoding it at once. *)
Lemma decode_all_app bs ext :
  decode_all (bs ++ ext) =
    let '(ws, rest) := decode_all bs in
    let '(ws', rest') := decode_all (rest ++ ext) in (ws ++ ws', rest').
Proof.
  remember (length bs) as n eqn:Hn. revert bs Hn.
  induction (lt_wf n) as [n _ IH]. intros bs ->.
  rewrite (decode_all_unfold bs).
  destruct (decode bs) as [[w rest]|] eqn:Hd.
  - pose proof (decode_consumes _ _ _ Hd).
    rewrite decode_all_unfold.
    apply (decode_app _ ext) in Hd as [-> _].
    rewrite (IH (length rest)) by (done || lia).
    destruct (decode_all rest) as [ws rest'].
    by destruct (decode_all (rest' ++ ext)).
  - by destruct (decode_all (bs ++ ext)).
Qed.

(** The rest of a stream holds no complete frame. *)
Lemma decode_all_rest bs ws rest :
  decode_all bs = (ws, rest) → decode rest = None.
Proof.
  remember (length bs) as n eqn:Hn. revert bs Hn ws.
  induction (lt_wf n) as [n _ IH]. intros bs -> ws.
  rewrite decode_all_unfold.
  destruct (decode bs) as [[w rest']|] eqn:Hd; [|congruence].
  pose proof (decode_consumes _ _ _ Hd).
  destruct (decode_all rest') as [ws' rest''] eqn:Ha. intros [= _ <-].
  by eapply (IH (length rest')); [lia|..].
Qed.
End Decode.

(** ** Reading what was written *)

(** The frames of the RFC: a 4-bit opcode, a 4-byte key, byte contents. *)
Record wire_ok (w : wire) : Prop := {
  ok_opcode : (0 ≤ w_opcode w < 16)%Z;
  ok_key : match w_key w with
           | Some key => length key = 4 ∧ bytes_ok key
           | None => True
           end;
  ok_data : bytes_ok (w_data w);
  ok_length : (Z.of_nat (length (w_data w)) < 2 ^ 63)%Z
}.

Lemma length_apply_mask_from key i bs :
  length (apply_mask_from key i bs) = length bs.
Proof. revert i. induction bs; intros; cbn; auto. Qed.

Lemma length_apply_mask key bs : length (apply_mask key bs) = length bs.
Proof. apply length_apply_mask_from. Qed.

(** Masking twice with the same key is the identity. *)
Lemma apply_mask_twice key bs : apply_mask key (apply_mask key bs) = bs.
Proof.
  unfold apply_mask. generalize 0. induction bs as [|b bs IH]; intros i; [done|].
  cbn [apply_mask_from]. by rewrite lxor_twice, IH.
Qed.

Lemma nth_byte key i : bytes_ok key → is_byte (nth i key 0%Z).
Proof.
  intros H. destruct (nth_in_or_default i key 0%Z) as [Hi| ->].
  - eapply Forall_forall; [exact H|]. by apply list_elem_of_In.
  - unfold is_byte. lia.
Qed.

Lemma apply_mask_bytes key bs :
  bytes_ok key → bytes_ok bs → bytes_ok (apply_mask key bs).
Proof.
  intros Hk Hb. unfold apply_mask. generalize 0.
  induction Hb; intros i; cbn; constructor; auto using lxor_byte, nth_byte.
  apply IHHb.
Qed.

Lemma div_mod_first_byte (fin : bool) op :
  (0 ≤ op < 16)%Z →
  (128 <=? (if fin then 128 else 0) + op)%Z = fin ∧
  (((if fin then 128 else 0) + op) mod 16)%Z = op.
Proof.
  intros H. destruct fin.
  - split; [by apply Z.leb_le; lia|].
    replace (128 + op)%Z with (op + 8 * 16)%Z by lia.
    rewrite Z.mod_add by lia. apply Z.mod_small. lia.
  - split; [by apply Z.leb_gt; lia|]. apply Z.mod_small. lia.
Qed.

Lemma mask_len_byte (mask : bool) n :
  (0 ≤ n < 128)%Z →
  (128 <=? (if mask then 128 else 0) + n)%Z = mask ∧
  (((if mask then 128 else 0) + n) mod 128)%Z = n.
Proof.
  intros H. destruct mask.
  - split; [by apply Z.leb_le; lia|].
    replace (128 + n)%Z with (n + 1 * 128)%Z by lia.
    rewrite Z.mod_add by lia. apply Z.mod_small. lia.
  - split; [by apply Z.leb_gt; lia|]. apply Z.mod_small. lia.
Qed.

Lemma be2 n : (0 ≤ n < 65536)%Z →
  ∃ b1 b0, big_endian 2 n = [b1; b0] ∧ (256 * b1 + b0)%Z = n.
Proof.
  intros H. eexists _, _. split; [reflexivity|].
  pose proof (from_big_endian_encode 2 n 0 ltac:(lia)) as He.
  cbn [from_big_endian big_endian] in He.
  rewrite Z.mod_small in He by (cbn; lia). lia.
Qed.

(** The length field is read back, by any reader that is right on [n]. *)
Lemma d_length_field len64 fin op mask n bs :
  (0 ≤ n < 2 ^ 63)%Z →
  ((65536 ≤ n)%Z → len64 (big_endian 8 n) = n) →
  ∃ b rest, length_field mask n ++ bs = b :: rest ∧
    d_length len64 fin op (128 <=? b)%Z (b mod 128)%Z rest
    = d_key fin op mask n bs.
Proof.
  intros Hn Hl. unfold length_field, d_length.
  destruct (Z.ltb_spec n 126) as [H|H]; [|destruct (Z.ltb_spec n 65536) as [H'|H']].
  - eexists _, _. split; [reflexivity|].
    destruct (mask_len_byte mask n) as [-> ->]; [lia|].
    destruct (Z.eqb_spec n 126), (Z.eqb_spec n 127); [lia..|done].
  - eexists _, _. split; [reflexivity|].
    destruct (mask_len_byte mask 126) as [-> ->]; [lia|].
    destruct (be2 n) as (b1 & b0 & -> & Hb); [lia|]. cbn. by rewrite Hb.
  - eexists _, (big_endian 8 n ++ bs). split; [reflexivity|].
    destruct (mask_len_byte mask 127) as [-> ->]; [lia|].
    cbn [Z.eqb Pos.eqb]. unfold d_len64.
    rewrite decide_True by (rewrite length_app, length_big_endian; lia).
    rewrite take_app_exact, drop_app_exact by (by rewrite length_big_endian).
    by rewrite Hl.
Qed.

Lemma decode_encode_with len64 w rest :
  wire_ok w →
  ((65536 ≤ Z.of_nat (length (w_data w)))%Z →
   len64 (big_endian 8 (Z.of_nat (length (w_data w))))
   = Z.of_nat (length (w_data w))) →
  decode len64 (encode w ++ rest) = Some (w, rest).
Proof.
  intros [Hop Hkey _ Hlen] H64. destruct w as [fin op key data].
  cbn [w_fin w_opcode w_key w_data] in *.
  unfold encode, decode. cbn [app w_fin w_opcode w_key w_data].
  destruct (div_mod_first_byte fin op Hop) as [-> ->].
  rewrite <-!app_assoc.
  destruct (d_length_field len64 fin op (bool_decide (is_Some key))
    (Z.of_nat (length data)) (default [] key ++ data ++ rest))
    as (b & r & -> & Hd); [lia|done|].
  cbn [d_second]. rewrite Hd. unfold d_key, d_payload.
  destruct key as [key|]; [destruct Hkey as [Hk _]|].
  - rewrite bool_decide_true by eauto.
    change (default [] (Some key)) with key.
    rewrite decide_True by (rewrite length_app; lia).
    rewrite take_app_exact, drop_app_exact by done.
    rewrite length_app. case_match eqn:Hc; [apply Z.ltb_lt in Hc; lia|].
    rewrite Nat2Z.id, take_app_exact, drop_app_exact by done. done.
  - rewrite bool_decide_false by (by intros [? ?]).
    change (default [] None) with (@nil Z). cbn [app].
    rewrite length_app. case_match eqn:Hc; [apply Z.ltb_lt in Hc; lia|].
    rewrite Nat2Z.id, take_app_exact, drop_app_exact by done. done.
Qed.

(** A stream of encoded frames decodes to the frames, with nothing left. *)
Lemma decode_all_encode len64 ws :
  Forall (λ w, wire_ok w ∧
    ((65536 ≤ Z.of_nat (length (w_data w)))%Z →
     len64 (big_endian 8 (Z.of_nat (length (w_data w))))
     = Z.of_nat (length (w_data w)))) ws →
  decode_all len64 (concat (map encode ws)) = (ws, []).
Proof.
  induction 1 as [|w ws [Hw Hl] _ IH]; [done|]. cbn [map concat].
  by rewrite decode_all_unfold, decode_encode_with, IH.
Qed.

Lemma rfc_len64_encode n :
  (0 ≤ n < 2 ^ 64)%Z → rfc_len64 (big_endian 8 n) = n.
Proof.
  intros H. unfold rfc_len64. rewrite from_big_endian_encode by lia.
  change (8 * Z.of_nat 8)%Z with 64%Z. rewrite Z.mod_small by lia. lia.
Qed.

Lemma length_field_bytes mask n : (0 ≤ n < 2 ^ 63)%Z → bytes_ok (length_field mask n).
Proof.
  intros H. unfold length_field.
  assert (∀ k, (0 ≤ k < 128)%Z → is_byte ((if mask then 128 else 0) + k)).
  { intros k Hk. unfold is_byte. destruct mask; lia. }
  destruct (Z.ltb_spec n 126); [|destruct (Z.ltb_spec n 65536)].
  - constructor; [auto with lia|constructor].
  - constructor; [auto with lia|apply big_endian_bytes].
  - constructor; [auto with lia|apply big_endian_bytes].
Qed.

Lemma encode_bytes w : wire_ok w → bytes_ok (encode w).
Proof.
  intros [Hop Hkey Hdata Hlen]. unfold encode. constructor.
  { unfold is_byte. destruct (w_fin w); lia. }
  apply Forall_app. split; [apply length_field_bytes; lia|].
  apply Forall_app. split; [|done].
  destruct (w_key w); cbn; [by destruct Hkey|constructor].
Qed.

End Rfc6455.
