(* ===== verification/Frames.v ===== *)
(** [wsframe::Frame] (single_header/fastws.hpp): the opcode enumeration, the
    frame structure, its printer, and [construct], which writes a frame into a
    [FrameBuffer]. [Frame.t] is generic in the type of the payload view: the
    frame builder is given the payload bytes, the parser hands out a view into
    its own buffer. The main result is that [construct] always fits the space
    it reserved and leaves exactly [Rfc6455.encode] of the frame in the
    buffer. *)

From S2P Require Import Prelude Buffer Rfc6455.
Import FrameBuffer.

Module Opcode.

(** [enum class Opcode : uint8_t]. The underlying type is fixed, so every
    byte is a value; the ones without a name are [UNNAMED]. [UNKNOWN] follows
    [PONG = 0xA] and is therefore 0xB. *)
Inductive t : Type :=
  | CONTINUATION | TEXT | BINARY | CLOSE | PING | PONG | UNKNOWN
  | UNNAMED (v : Z).

#[global] Instance t_eq_dec : EqDecision t.
Proof. solve_decision. Defined.

Definition to_u8 (o : t) : Z :=
  match o with
  | CONTINUATION => 0x0 | TEXT => 0x1 | BINARY => 0x2
  | CLOSE => 0x8 | PING => 0x9 | PONG => 0xA | UNKNOWN => 0xB
  | UNNAMED v => v
  end%Z.

(** [static_cast<Frame::Opcode>(v)]. *)
Definition of_u8 (v : Z) : t :=
  match v with
  | 0x0 => CONTINUATION | 0x1 => TEXT | 0x2 => BINARY
  | 0x8 => CLOSE | 0x9 => PING | 0xA => PONG | 0xB => UNKNOWN
  | _ => UNNAMED v
  end%Z.

Lemma to_of_u8 v : to_u8 (of_u8 v) = v.
Proof.
  unfold of_u8. destruct v as [|p|p]; try done.
  do 4 (destruct p as [p|p|]; try done).
Qed.

(** The values [of_u8] makes: no name is written as [UNNAMED]. *)
Definition wf (o : t) : Prop := of_u8 (to_u8 o) = o.

(** [opcode_to_string]. *)
Definition to_string (code : t) : string :=
  match code with
  | CONTINUATION => "Opcode::CONTINUATION"
  | TEXT => "Opcode::TEXT"
  | BINARY => "Opcode::BINARY"
  | CLOSE => "Opcode::CLOSE"
  | PING => "Opcode::PING"
  | PONG => "Opcode::PONG"
  | _ => "Opcode::UNKNOWN"
  end.

End Opcode.

Module Frame.

(** [struct Frame], for a payload view of type [V]. *)
Record t (V : Type) : Type := mk {
  fin : bool;
  mask : bool;
  opcode : Opcode.t;
  masking_key : list Z;
  payload : V
}.
Arguments mk {_} _ _ _ _ _.
Arguments fin {_} _.
Arguments mask {_} _.
Arguments opcode {_} _.
Arguments masking_key {_} _.
Arguments payload {_} _.

(** [operator<<]. The key bytes are [uint8_t], which streams print as
    characters whatever the base. *)
Definition print_char (b : Z) : string :=
  String (Ascii.ascii_of_N (Z.to_N b)) EmptyString.

Definition print_bool (b : bool) : string := if b then "1" else "0".

Definition print_bytes (bs : list Z) : string :=
  String.concat "" (map print_char bs).

Definition print (f : t (list Z)) : string :=
  "[fin=" +:+ print_bool (fin f) +:+ "][" +:+ Opcode.to_string (opcode f) +:+
  "][mask=" +:+ print_bool (mask f) +:+ "]" +:+
  (if mask f then
     "[key=" +:+ print_char (nth 0 (masking_key f) 0%Z) +:+ " " +:+
     print_char (nth 1 (masking_key f) 0%Z) +:+ " " +:+
     print_char (nth 2 (masking_key f) 0%Z) +:+ " " +:+
     print_char (nth 3 (masking_key f) 0%Z) +:+ "]"
   else "") +:+
  (if (0 <? length (payload f))%nat
   then "[payload=" +:+ print_char 34 +:+ print_bytes (payload f) +:+ print_char 34 +:+ "]"
   else "").

(** The big-endian loop: [for (int i = 7; i >= 0; i--)], at [ptr]. *)
Fixpoint put_length (n : nat) (ptr : nat) (payload_length : Z) :
    M FrameBuffer.t unit :=
  match n with
  | O => mret tt
  | S i =>
      store ptr [u8 (Z.land (Z.shiftr payload_length (8 * Z.of_nat i)) 0xFF)];;
      put_length i (ptr + 1) payload_length
  end.

(** The masking loop: [ptr[i] = payload_data[i] ^ masking_key[i % 4]]. *)
Fixpoint put_masked (key : list Z) (ptr i : nat) (payload_data : list Z) :
    M FrameBuffer.t unit :=
  match payload_data with
  | [] => mret tt
  | b :: rest =>
      store (ptr + i) [u8 (Z.lxor b (nth (i mod 4) key 0%Z))];;
      put_masked key ptr (S i) rest
  end.

(** [void construct(FrameBuffer& buf) const]. *)
Definition construct (f : t (list Z)) : M FrameBuffer.t unit :=
  reset;;
  ensure_fit (length (payload f) + 14 + 100);;
  push_back_byte
    (u8 (Z.lor (if fin f then 0x80 else 0x00)
               (Z.land (Opcode.to_u8 (opcode f)) 0x0F)));;
  let mask_bit := (if mask f then 0x80 else 0x00)%Z in
  let payload_length := Z.of_nat (length (payload f)) in
  (if (payload_length <? 126)%Z then
     push_back_byte (u8 (Z.lor mask_bit (u8 payload_length)))
   else if (payload_length <=? 0xFFFF)%Z then
     push_back_byte (u8 (Z.lor mask_bit 126));;
     push_back_byte (u8 (Z.land (Z.shiftr payload_length 8) 0xFF));;
     push_back_byte (u8 (Z.land payload_length 0xFF))
   else
     push_back_byte (u8 (Z.lor mask_bit 127));;
     ptr ← get_space 8;
     put_length 8 ptr payload_length);;
  (if mask f then
     key_ptr ← get_space 4;
     store key_ptr (masking_key f);;
     ptr ← get_space (length (payload f));
     put_masked (masking_key f) ptr 0 (payload f)
   else
     ptr ← get_space (length (payload f));
     store ptr (payload f)).

(** ** What [construct] writes *)

(** A frame the builder can be given: a 4-byte key when it is masked. *)
Record wf (f : t (list Z)) : Prop := {
  wf_opcode : is_byte (Opcode.to_u8 (opcode f));
  wf_key : mask f = true → length (masking_key f) = 4 ∧ bytes_ok (masking_key f);
  wf_payload : bytes_ok (payload f);
  wf_length : (Z.of_nat (length (payload f)) < 2 ^ 63)%Z
}.

(** The frame on the wire: a masked frame carries its masked payload. *)
Definition to_wire (f : t (list Z)) : Rfc6455.wire :=
  Rfc6455.Wire (fin f) (Opcode.to_u8 (opcode f) mod 16)
    (if mask f then Some (masking_key f) else None)
    (if mask f then Rfc6455.apply_mask (masking_key f) (payload f)
     else payload f).

(** *** The loops are single stores *)

Lemma u8_land_ff z : u8 (Z.land z 0xFF) = u8 z.
Proof.
  unfold u8. change 0xFF%Z with (Z.ones 8). rewrite Z.land_ones by lia.
  by rewrite Z.mod_mod.
Qed.

Lemma put_length_store n ptr len b :
  ptr + n ≤ capacity b →
  put_length n ptr len b = store ptr (big_endian n len) b.
Proof.
  revert ptr b. induction n as [|n IH]; intros ptr b Hc.
  - symmetry. by apply store_nil; lia.
  - cbn [put_length big_endian].
    rewrite <-store_cons by (rewrite length_big_endian; lia).
    rewrite u8_land_ff, Z.shiftr_div_pow2 by lia.
    destruct (store_ok ptr [u8 (len / 2 ^ (8 * Z.of_nat n))] b) as (b' & Hs & Hb');
      [cbn; lia|].
    rewrite !(bind_ok _ _ _ _ _ Hs). apply IH. lia.
Qed.

Lemma put_masked_store key ptr i bs b :
  bytes_ok key → bytes_ok bs → ptr + i + length bs ≤ capacity b →
  put_masked key ptr i bs b
  = store (ptr + i) (Rfc6455.apply_mask_from key i bs) b.
Proof.
  intros Hk Hbs. revert i b. induction Hbs as [|x bs Hx Hbs IH]; intros i b Hc.
  - symmetry. apply store_nil. cbn in Hc. lia.
  - cbn [put_masked Rfc6455.apply_mask_from length] in *.
    rewrite <-store_cons by (rewrite Rfc6455.length_apply_mask_from; lia).
    rewrite u8_id by auto using lxor_byte, Rfc6455.nth_byte.
    destruct (store_ok (ptr + i) [Z.lxor x (nth (i mod 4) key 0%Z)] b)
      as (b' & Hs & Hb'); [cbn; lia|].
    rewrite !(bind_ok _ _ _ _ _ Hs), IH by lia. f_equal. lia.
Qed.

(** *** The four parts *)

(** [m] appends exactly [bs], in place. *)
Definition appends (m : M FrameBuffer.t unit) (bs : list Z) : Prop :=
  ∀ b, m_ptr b + length bs < capacity b →
    runs m b (λ _ b', view b' = view b ++ bs ∧
      m_ptr b' = m_ptr b + length bs ∧ capacity b' = capacity b).

Lemma appends_seq m m' bs bs' :
  appends m bs → appends m' bs' → appends (m;; m') (bs ++ bs').
Proof.
  intros Hm Hm' b Hb. rewrite length_app in *. runs_step.
  eapply runs_mono; [apply Hm; lia|]. cbn beta. intros _ b1 (Hv & Hp & Hc).
  eapply runs_mono; [apply Hm'; lia|]. cbn beta. intros _ b2 (Hv' & Hp' & Hc').
  rewrite Hv', Hv, app_assoc, Hp', Hp. split_and!; [done|lia|lia].
Qed.

Lemma appends_ext m m' bs :
  (∀ b, m b = m' b) → appends m bs → appends m' bs.
Proof. intros He Hm b Hb. unfold runs. setoid_rewrite <-He. by apply Hm. Qed.

Lemma appends_push x : appends (push_back_byte x) [x].
Proof. intros b Hb. apply push_back_byte_runs. lia. Qed.

(** [get_space(n)] followed by [k], which fills the space with [bs]. *)
Lemma appends_space n k bs :
  n = length bs →
  (∀ off b, off + length bs ≤ capacity b → k off b = store off bs b) →
  appends (off ← get_space n; k off) bs.
Proof.
  intros -> Hk b Hb.
  destruct (get_space_store_runs bs b) as (a & b' & Hrun & HQ); [lia|lia|].
  exists a, b'. split; [|exact HQ]. rewrite <-Hrun.
  unfold get_space, mbind, M_bind, get, modify, mret, M_ret. cbn.
  destruct (decide (m_ptr b < capacity b)); [|done].
  rewrite Hk; [done|]. unfold capacity in *. cbn. lia.
Qed.

Lemma lor_high_bit (c : bool) n :
  (0 ≤ n < 128)%Z →
  u8 (Z.lor (if c then 0x80 else 0x00) n) = ((if c then 128 else 0) + n)%Z.
Proof.
  intros H. apply Z.eqb_eq.
  assert (is_byte n) as Hb by (unfold is_byte; lia).
  pose proof (byte_check (λ n, negb (n <? 128)%Z ||
    (u8 (Z.lor (if c then 0x80 else 0x00) n) =? (if c then 128 else 0) + n)%Z)
    ltac:(by destruct c) n Hb) as H'. cbn beta in H'.
  apply orb_prop in H' as [H'|H']; [|done].
  apply negb_true_iff, Z.ltb_ge in H'. lia.
Qed.

(** The second byte and the extended length, as the source branches. *)
Definition put_length_field (mask_bit payload_length : Z) :
    M FrameBuffer.t unit :=
  if (payload_length <? 126)%Z then
    push_back_byte (u8 (Z.lor mask_bit (u8 payload_length)))
  else if (payload_length <=? 0xFFFF)%Z then
    push_back_byte (u8 (Z.lor mask_bit 126));;
    push_back_byte (u8 (Z.land (Z.shiftr payload_length 8) 0xFF));;
    push_back_byte (u8 (Z.land payload_length 0xFF))
  else
    push_back_byte (u8 (Z.lor mask_bit 127));;
    ptr ← get_space 8;
    put_length 8 ptr payload_length.

Lemma appends_length_field (c : bool) n :
  (0 ≤ n < 2 ^ 63)%Z →
  appends (put_length_field (if c then 0x80 else 0x00) n)
    (Rfc6455.length_field c n).
Proof.
  intros Hn. unfold put_length_field, Rfc6455.length_field.
  destruct (Z.ltb_spec n 126) as [H|H].
  - rewrite (u8_id n), lor_high_bit by (unfold is_byte; lia).
    apply appends_push.
  - destruct (Z.ltb_spec n 65536), (Z.leb_spec n 0xFFFF); try lia.
    + rewrite lor_high_bit, !u8_land_ff, Z.shiftr_div_pow2 by lia.
      apply (appends_seq _ _ [_] [_; _]); [apply appends_push|].
      apply (appends_seq _ _ [_] [_]); [apply appends_push|].
      cbn [big_endian]. change (2 ^ (8 * Z.of_nat 0))%Z with 1%Z.
      rewrite Z.div_1_r. apply appends_push.
    + rewrite lor_high_bit by lia.
      apply (appends_seq _ _ [_]); [apply appends_push|].
      apply appends_space; [by rewrite length_big_endian|].
      intros off b Hb. rewrite length_big_endian in Hb.
      by apply put_length_store.
Qed.

(** The key and the payload, as the source branches. *)
Definition put_payload (f : t (list Z)) : M FrameBuffer.t unit :=
  if mask f then
    key_ptr ← get_space 4;
    store key_ptr (masking_key f);;
    ptr ← get_space (length (payload f));
    put_masked (masking_key f) ptr 0 (payload f)
  else
    ptr ← get_space (length (payload f));
    store ptr (payload f).

Lemma appends_payload f :
  wf f →
  appends (put_payload f)
    (default [] (Rfc6455.w_key (to_wire f)) ++ Rfc6455.w_data (to_wire f)).
Proof.
  intros [_ Hkey Hpay _]. unfold put_payload, to_wire.
  cbn [Rfc6455.w_key Rfc6455.w_data]. destruct (mask f).
  - destruct Hkey as [Hk Hkb]; [done|].
    eapply appends_ext; [intros b; apply bind_assoc|].
    apply (appends_seq _ _ (masking_key f)).
    + by apply appends_space.
    + apply appends_space; [by rewrite Rfc6455.length_apply_mask|].
      intros off b Hb. rewrite Rfc6455.length_apply_mask in Hb.
      by rewrite put_masked_store, Nat.add_0_r by (done || lia).
  - by apply appends_space.
Qed.

Lemma construct_unfold f :
  construct f =
    (reset;;
     ensure_fit (length (payload f) + 14 + 100);;
     push_back_byte (u8 (Z.lor (if fin f then 0x80 else 0x00)
       (Z.land (Opcode.to_u8 (opcode f)) 0x0F)));;
     put_length_field (if mask f then 0x80 else 0x00)
       (Z.of_nat (length (payload f)));;
     put_payload f).
Proof. done. Qed.

Lemma length_length_field c n : length (Rfc6455.length_field c n) ≤ 9.
Proof. unfold Rfc6455.length_field. repeat case_match; cbn; lia. Qed.

Lemma length_encode_to_wire f :
  wf f → length (Rfc6455.encode (to_wire f)) ≤ length (payload f) + 14.
Proof.
  intros [_ Hkey _ _]. unfold Rfc6455.encode, to_wire. cbn [length].
  cbn [Rfc6455.w_key Rfc6455.w_data]. rewrite !length_app.
  pose proof (length_length_field (bool_decide (is_Some
    (if mask f then Some (masking_key f) else None)))
    (Z.of_nat (length (if mask f then
       Rfc6455.apply_mask (masking_key f) (payload f) else payload f)))).
  destruct (mask f); cbn in *.
  - destruct Hkey as [-> _]; [done|]. rewrite Rfc6455.length_apply_mask in *. lia.
  - lia.
Qed.

Lemma construct_runs f b :
  wf f →
  runs (construct f) b (λ _ b', view b' = Rfc6455.encode (to_wire f) ∧
    FrameBuffer.wf b' ∧ length (view b') < capacity b').
Proof.
  intros Hf. rewrite construct_unfold. unfold reset. runs_steps.
  eapply runs_mono; [apply ensure_fit_runs|]. cbn beta.
  intros _ b1 (Hp & Hs & _). cbn in Hp.
  pose proof (length_encode_to_wire f Hf) as Hl.
  assert (appends
    (push_back_byte (u8 (Z.lor (if fin f then 0x80 else 0x00)
       (Z.land (Opcode.to_u8 (opcode f)) 0x0F)));;
     put_length_field (if mask f then 0x80 else 0x00)
       (Z.of_nat (length (payload f)));;
     put_payload f) (Rfc6455.encode (to_wire f))) as Happ.
  { unfold Rfc6455.encode.
    apply (appends_seq _ _ [_]); [|apply appends_seq].
    - change 0x0F%Z with (Z.ones 4). rewrite Z.land_ones by lia.
      change (2 ^ 4)%Z with 16%Z.
      rewrite lor_high_bit by (pose proof (Z.mod_pos_bound
        (Opcode.to_u8 (opcode f)) 16); lia).
      apply appends_push.
    - destruct Hf as [_ _ _ Hlen].
      replace (length (Rfc6455.w_data (to_wire f))) with (length (payload f))
        by (cbn; destruct (mask f); by rewrite ?Rfc6455.length_apply_mask).
      replace (bool_decide (is_Some (Rfc6455.w_key (to_wire f)))) with (mask f)
        by (cbn; by destruct (mask f)).
      apply appends_length_field. lia.
    - by apply appends_payload. }
  eapply runs_mono; [apply Happ; lia|]. cbn beta.
  intros _ b2 (Hv & Hp2 & Hc). unfold FrameBuffer.wf.
  assert (view b1 = []) as Hv1 by (unfold view; by rewrite Hp, take_0).
  rewrite Hv, Hv1, app_nil_l.
  split_and!; [done|lia|lia].
Qed.

Lemma to_wire_ok f : wf f → Rfc6455.wire_ok (to_wire f).
Proof.
  intros [Hop Hkey Hpay Hlen]. unfold to_wire. split; cbn.
  - apply Z.mod_pos_bound. lia.
  - destruct (mask f); [by apply Hkey|done].
  - destruct (mask f); [|done]. apply Rfc6455.apply_mask_bytes; [|done].
    by apply Hkey.
  - destruct (mask f); by rewrite ?Rfc6455.length_apply_mask.
Qed.

Lemma to_wire_unmasked f : Rfc6455.unmasked (to_wire f) = payload f.
Proof.
  unfold Rfc6455.unmasked, to_wire. cbn. destruct (mask f); [|done].
  apply Rfc6455.apply_mask_twice.
Qed.

(** ** Properties *)

(** C26: [construct] is memory safe and correct: from any buffer whatever (its
    size, contents and position do not matter) it stays inside the space it
    reserves, terminates normally, and leaves in the buffer exactly the
    RFC 6455 encoding of the frame, with the shortest of the three length
    forms and the payload masked by the key when [mask] is set. *)
Theorem construct_correct (f : t (list Z)) (b : FrameBuffer.t) :
  wf f →
  runs (construct f) b (λ _ b',
    view b' = Rfc6455.encode (to_wire f) ∧ size b' < capacity b').
Proof.
  intros Hf. eapply runs_mono; [by apply construct_runs|]. cbn beta.
  intros _ b' (Hv & Hw & Hl). split; [done|].
  by rewrite FrameBuffer.length_view in Hl.
Qed.

Lemma construct_correct_witness :
  runs (construct (mk true true Opcode.TEXT [1; 2; 3; 4] [72; 105; 33; 33; 72]))%Z
    (FrameBuffer.new 0)
    (λ _ b', view b' = [129; 133; 1; 2; 3; 4; 73; 107; 34; 37; 73]%Z ∧
             size b' < capacity b').
Proof.
  apply (construct_correct
    (mk true true Opcode.TEXT [1; 2; 3; 4] [72; 105; 33; 33; 72]))%Z.
  split; cbn; unfold bytes_ok, is_byte; try done; try lia.
  - intros _. split; [done|]. repeat constructor; lia.
  - repeat constructor; lia.
Defined.

End Frame.
