(* ===== verification/Factory.v ===== *)
(** [FrameFactory] and its [RandomCache] (single_header/fastws.hpp): building
    outgoing frames with fresh masking keys. A factory is a frame buffer and a
    cache of random bytes; [get] hands out the cache four bytes at a time and
    refills it when it is used up. The constructor functions return the bytes
    of the view into the factory's buffer. *)

From S2P Require Import Prelude Xorshift Buffer Rfc6455 Frames.

Module RandomCache.

(** [RandomCache<entries>]: the generator, the cached bytes, the position. *)
Record t : Type := mk {
  m_random : XorShift128Plus.t;
  m_cache : list Z;
  m_cache_ptr : nat
}.

Section Cache.
Context `{Target} (entries : nat).

Definition fill_cache : M t unit :=
  bytes ← zoom m_random (λ r c, mk r (m_cache c) (m_cache_ptr c))
            (XorShift128Plus.fill_bytes (entries * 4));
  modify (λ c, mk (m_random c) bytes 0).

(** [get(ptr)]: [std::copy(&m_cache[p], &m_cache[p + 4], &ptr[0])]. *)
Definition get : M t (list Z) :=
  p ← gets m_cache_ptr;
  when (entries * 4 <=? p) fill_cache;;
  c ← gets id;
  let p := m_cache_ptr c in
  if address_ok p (entries * 4) && address_ok (p + 4) (entries * 4) then
    modify (λ c, mk (m_random c) (m_cache c) (m_cache_ptr c + 4));;
    mret (take 4 (drop p (m_cache c)))
  else undef out_of_bounds.

(** The constructor: the seeds are the two values [device_random()] gave;
    the cache is filled before use. *)
Definition new (seed1 seed2 : Z) : outcome unit * t :=
  fill_cache (mk (XorShift128Plus.new seed1 seed2) [] 0).

(** [n] keys in a row. *)
Fixpoint get_many (n : nat) : M t (list (list Z)) :=
  match n with
  | O => mret []
  | S n' => k ← get; ks ← get_many n'; mret (k :: ks)
  end.

(** ** Invariant *)

Record wf (c : t) : Prop := {
  wf_random : XorShift128Plus.wf (m_random c);
  wf_cache : length (m_cache c) = entries * 4;
  wf_bytes : bytes_ok (m_cache c);
  wf_ptr : m_cache_ptr c ≤ entries * 4;
  wf_aligned : ∃ k, m_cache_ptr c = k * 4
}.

Lemma fill_cache_runs c :
  XorShift128Plus.wf (m_random c) →
  runs fill_cache c (λ _ c', wf c' ∧ m_cache_ptr c' = 0).
Proof.
  intros Hw. unfold fill_cache. runs_steps.
  eapply runs_mono; [apply XorShift128Plus.fill_bytes_runs|]. cbn beta.
  intros bs r (Hl & Hb & Hr). runs_steps. split; [|done].
  split; cbn; [auto|done..|lia|by exists 0].
Qed.

Lemma new_cache_runs seed1 seed2 :
  (0 ≤ seed1 < 2 ^ 64)%Z → (0 ≤ seed2 < 2 ^ 64)%Z →
  ∃ c, new seed1 seed2 = (Ok tt, c) ∧ wf c ∧ m_cache_ptr c = 0.
Proof.
  intros H1 H2.
  destruct (fill_cache_runs (mk (XorShift128Plus.new seed1 seed2) [] 0))
    as ([] & c & Hc & Hw).
  - by apply XorShift128Plus.new_wf.
  - exists c. split; [exact Hc|exact Hw].
Qed.

(** A key from a cache with bytes left. *)
Lemma get_fresh c :
  hardened = false ∨ m_cache_ptr c + 4 < entries * 4 →
  wf c → m_cache_ptr c < entries * 4 →
  get c = (Ok (take 4 (drop (m_cache_ptr c) (m_cache c))),
           mk (m_random c) (m_cache c) (m_cache_ptr c + 4)).
Proof.
  intros Hh [_ _ _ _ Ha] Hp. unfold get, when.
  unfold mbind, M_bind, gets, modify, mret, M_ret.
  destruct (Nat.leb_spec (entries * 4) (m_cache_ptr c)); [lia|]. cbn [id].
  unfold address_ok.
  destruct (Nat.ltb_spec (m_cache_ptr c) (entries * 4)); [|lia]. cbn [orb andb].
  destruct (Nat.ltb_spec (m_cache_ptr c + 4) (entries * 4)); [done|].
  destruct Hh as [->|?]; [|lia].
  destruct (Nat.eqb_spec (m_cache_ptr c + 4) (entries * 4)); [done|].
  destruct Ha as [k Hk]. lia.
Qed.

(** The last four bytes need the address one past the end of the cache. *)
Lemma get_last_hardened c :
  hardened = true → m_cache_ptr c + 4 = entries * 4 →
  get c = (UB out_of_bounds, c).
Proof.
  intros Hh Hp. unfold get, when, mbind, M_bind, gets, mret, M_ret.
  destruct (Nat.leb_spec (entries * 4) (m_cache_ptr c)); [lia|]. cbn [id].
  unfold address_ok. rewrite Hh, Hp. cbn [negb].
  by rewrite Nat.ltb_irrefl, !andb_false_r.
Qed.

Lemma get_exhausted c :
  m_cache_ptr c = entries * 4 → wf c → 0 < entries →
  ∃ c', fill_cache c = (Ok tt, c') ∧ wf c' ∧ m_cache_ptr c' = 0 ∧
    get c = get c'.
Proof.
  intros Hp Hw He. destruct (fill_cache_runs c (wf_random _ Hw))
    as ([] & c' & Hc & Hw' & Hp').
  exists c'. split_and!; [done..|]. unfold get at 1, when.
  unfold mbind, M_bind, gets.
  destruct (Nat.leb_spec (entries * 4) (m_cache_ptr c)); [|lia].
  rewrite Hc. unfold get, when, mbind, M_bind, gets.
  destruct (Nat.leb_spec (entries * 4) (m_cache_ptr c')); [lia|]. done.
Qed.

Lemma get_fresh_wf c :
  wf c → m_cache_ptr c < entries * 4 →
  wf (mk (m_random c) (m_cache c) (m_cache_ptr c + 4)).
Proof.
  intros [Hr Hl Hb Hp [k Hk]] Hlt.
  split; cbn; [done..|lia|]. exists (k + 1). lia.
Qed.

Lemma get_runs c :
  hardened = false → 0 < entries → wf c →
  runs get c (λ key c', length key = 4 ∧ bytes_ok key ∧ wf c').
Proof.
  intros Hh He Hw.
  assert (∀ c, wf c → m_cache_ptr c < entries * 4 →
    runs get c (λ key c', length key = 4 ∧ bytes_ok key ∧ wf c')) as Hfresh.
  { intros c0 Hw0 Hp. eapply runs_eq; [by apply get_fresh; [left|..]|].
    pose proof Hw0 as [Hr Hl Hb Hp0 [k Hk]]. split_and!.
    - rewrite length_take, length_drop. lia.
    - by apply Forall_take, Forall_drop.
    - by apply get_fresh_wf. }
  destruct (decide (m_cache_ptr c < entries * 4)); [by apply Hfresh|].
  destruct (get_exhausted c) as (c' & _ & Hw' & Hp' & Hg);
    [pose proof (wf_ptr _ Hw); lia|done..|].
  unfold runs. setoid_rewrite Hg. apply Hfresh; [done|lia].
Qed.

(** [n] keys from a cache with room for them are [4 * n] consecutive bytes. *)
Lemma get_many_fresh n c :
  hardened = false ∨ m_cache_ptr c + n * 4 < entries * 4 → wf c → m_cache_ptr c + n * 4 ≤ entries * 4 →
  runs (get_many n) c (λ ks c',
    concat ks = take (n * 4) (drop (m_cache_ptr c) (m_cache c)) ∧
    Forall (λ k, length k = 4) ks ∧ length ks = n ∧ m_cache c' = m_cache c ∧
    m_cache_ptr c' = m_cache_ptr c + n * 4 ∧ wf c').
Proof.
  revert c. induction n as [|n IH]; intros c Hh Hw Hn.
  - cbn [get_many]. runs_steps. split_and!; [done|constructor|done|done|lia|done].
  - cbn [get_many]. runs_step. 
    eapply runs_eq; [apply get_fresh; [destruct Hh; auto with lia|done|lia]|].
    runs_step. eapply runs_mono.
    { apply IH; [cbn; destruct Hh; auto with lia|apply get_fresh_wf; [done|lia]|].
      cbn. lia. }
    cbn beta. cbn [m_cache m_cache_ptr]. intros ks c' (Hc & Hf & Hl & Hm & Hp & Hw').
    runs_steps. split_and!; [| |cbn; lia|done|lia|done].
    + cbn [concat]. rewrite Hc, <-drop_drop.
      replace (S n * 4) with (4 + n * 4) by lia.
      by rewrite <-take_take_drop.
    + constructor; [|done]. rewrite length_take, length_drop, (wf_cache _ Hw). lia.
Qed.

(** ** Properties *)

(** C39: starting from a freshly filled cache, the next [n] masking keys (as
    many as the cache holds, or fewer) are [n] blocks of four bytes that
    follow one another in the cache: no byte of the generator is used for two
    keys and none is skipped. *)
Theorem keys_use_each_byte_once (n : nat) (c : t) :
  hardened = false → wf c → m_cache_ptr c = 0 → n ≤ entries →
  runs (get_many n) c (λ ks c',
    concat ks = take (n * 4) (m_cache c) ∧ length ks = n ∧
    Forall (λ k, length k = 4 ∧ bytes_ok k) ks ∧ wf c' ∧
    m_cache_ptr c' = n * 4).
Proof.
  intros Hh Hw Hp Hn. eapply runs_mono.
  { apply get_many_fresh; [by left|done|lia]. }
  cbn beta. intros ks c' (Hc & Hf & Hl & Hm & Hp' & Hw'). rewrite Hp in *.
  rewrite drop_0 in Hc. split_and!; [done|done| |done|done].
  assert (bytes_ok (concat ks)) as Hb.
  { rewrite Hc. apply Forall_take, Hw. }
  apply Forall_concat in Hb. by apply Forall_and.
Qed.

(** A library with checked subscripts (libstdc++ with assertions on)
    stops the program at the last key of every filling of the cache: seven
    keys are handed out, the eighth forms [m_cache[32]], one past the last
    element. *)
Theorem hardened_stops_at_last_key (seed1 seed2 : Z) :
  hardened = true → 1 < entries →
  (0 ≤ seed1 < 2 ^ 64)%Z → (0 ≤ seed2 < 2 ^ 64)%Z →
  ∃ c ks c', new seed1 seed2 = (Ok tt, c) ∧
    get_many (entries - 1) c = (Ok ks, c') ∧ length ks = entries - 1 ∧
    fst (get c') = UB out_of_bounds.
Proof.
  intros Hh He H1 H2. destruct (new_cache_runs seed1 seed2) as (c & Hc & Hw & Hp); [done..|].
  destruct (get_many_fresh (entries - 1) c) as (ks & c' & Hk & _ & _ & Hl & _ & Hp' & _);
    [right; lia|done|lia|].
  exists c, ks, c'. split_and!; [done..|].
  rewrite get_last_hardened by (done || lia). done.
Qed.

End Cache.

Lemma keys_use_each_byte_once_witness :
  let c := snd (new 8 1 2) in
  runs (@get_many masked_shift_target 8 8) c (λ ks c',
    concat ks = m_cache c ∧ length ks = 8).
Proof.
  cbn zeta. destruct (new_cache_runs 8 1 2) as (c & Hc & Hw & Hp);
    [lia..|].
  rewrite Hc. cbn [snd].
  eapply runs_mono.
  { apply (@keys_use_each_byte_once masked_shift_target 8 8 c); [done..|lia]. }
  cbn beta. intros ks c' (Hk & Hl & _). split; [|done].
  rewrite Hk. apply take_ge. by rewrite (wf_cache _ _ Hw).
Defined.

Lemma hardened_stops_at_last_key_witness :
  ∃ c ks c', new 8 1 2 = (Ok tt, c) ∧
    @get_many hardened_target 8 7 c = (Ok ks, c') ∧ length ks = 7 ∧
    fst (@get hardened_target 8 c') = UB out_of_bounds.
Proof.
  apply (@hardened_stops_at_last_key hardened_target 8 1 2); [done|lia..].
Defined.

End RandomCache.

Module FrameFactory.

(** [FrameBuffer m_buf; RandomCache<8> m_random]. *)
Record t : Type := mk {
  m_buf : FrameBuffer.t;
  m_random : RandomCache.t
}.

Definition on_buf {A} : M FrameBuffer.t A → M t A :=
  zoom m_buf (λ b f, mk b (m_random f)).
Definition on_random {A} : M RandomCache.t A → M t A :=
  zoom m_random (λ r f, mk (m_buf f) r).

Section Factory.
Context `{Target}.

(** The constructor, from the two seeds drawn for the cache. *)
Definition new (initial_capacity : nat) (seed1 seed2 : Z) : outcome unit * t :=
  let '(o, r) := RandomCache.new 8 seed1 seed2 in
  (o, mk (FrameBuffer.new initial_capacity) r).

Definition fill_random_cache : M t unit := on_random (RandomCache.fill_cache 8).

(** [construct(fin, opcode, mask, payload)]. The local frame's key is only
    written, and only read, when [mask] is set. *)
Definition construct (fin : bool) (opcode : Opcode.t) (mask : bool)
    (payload : list Z) : M t (list Z) :=
  masking_key ← (if mask then on_random (RandomCache.get 8) else mret []);
  on_buf (Frame.construct (Frame.mk fin mask opcode masking_key payload));;
  gets (λ f, FrameBuffer.view (m_buf f)).

Definition text (fin mask : bool) (payload : list Z) : M t (list Z) :=
  construct fin Opcode.TEXT mask payload.

Definition binary (fin mask : bool) (payload : list Z) : M t (list Z) :=
  construct fin Opcode.BINARY mask payload.

Definition ping (mask : bool) (payload : list Z) : M t (list Z) :=
  if 125 <? length payload
  then throw (runtime_error "Payload should be <= 125 for ping frames")
  else construct true Opcode.PING mask payload.

Definition pong (mask : bool) (payload : list Z) : M t (list Z) :=
  if 125 <? length payload
  then throw (runtime_error "Payload should be <= 125 for pong frames")
  else construct true Opcode.PONG mask payload.

Definition close (mask : bool) (payload : list Z) : M t (list Z) :=
  if 125 <? length payload
  then throw (runtime_error "Payload should be <= 125 for close frames")
  else construct true Opcode.CLOSE mask payload.

(** ** Invariant and functional behaviour *)

Definition wf (f : t) : Prop := RandomCache.wf 8 (m_random f).

(** [out] is the frame, with some 4-byte key when it is masked. *)
Definition frame_bytes (fin : bool) (opcode : Opcode.t) (mask : bool)
    (payload out : list Z) : Prop :=
  ∃ key, (mask = true → length key = 4 ∧ bytes_ok key) ∧
    out = Rfc6455.encode (Frame.to_wire (Frame.mk fin mask opcode key payload)).

Lemma factory_construct_runs fin opcode mask payload f :
  hardened = false → wf f →
  is_byte (Opcode.to_u8 opcode) → bytes_ok payload →
  (Z.of_nat (length payload) < 2 ^ 63)%Z →
  runs (construct fin opcode mask payload) f
    (λ out f', frame_bytes fin opcode mask payload out ∧ wf f').
Proof.
  intros Hh Hw Hop Hpay Hlen. unfold construct. runs_step.
  assert (∀ key f', (mask = true → length key = 4 ∧ bytes_ok key) → wf f' →
    runs (on_buf (Frame.construct (Frame.mk fin mask opcode key payload));;
          gets (λ f, FrameBuffer.view (m_buf f))) f'
      (λ out f', frame_bytes fin opcode mask payload out ∧ wf f')) as Hrest.
  { intros key f' Hkey Hw'. unfold on_buf. runs_steps.
    eapply runs_mono; [apply Frame.construct_runs; by split|]. cbn beta.
    intros _ b (Hv & _ & _). runs_steps. cbn [m_buf]. split; [|done].
    exists key. by rewrite Hv. }
  destruct mask.
  - unfold on_random. runs_steps.
    eapply runs_mono; [by apply RandomCache.get_runs; [|lia|]|]. cbn beta.
    intros key r (Hl & Hb & Hr). by apply Hrest.
  - runs_step. by apply Hrest.
Qed.

Lemma new_factory_runs n seed1 seed2 :
  (0 ≤ seed1 < 2 ^ 64)%Z → (0 ≤ seed2 < 2 ^ 64)%Z →
  ∃ f, new n seed1 seed2 = (Ok tt, f) ∧ wf f.
Proof.
  intros H1 H2. destruct (RandomCache.new_cache_runs 8 seed1 seed2 H1 H2)
    as (c & Hc & Hw & _). unfold new. rewrite Hc. by eexists.
Qed.

(** A frame whose payload fits the 7-bit length: RFC 6455 section 5.5 asks
    this of control frames. *)
Definition short_frame (opcode : Opcode.t) (mask : bool) (payload out : list Z) :
    Prop :=
  frame_bytes true opcode mask payload out ∧
  length out = 2 + (if mask then 4 else 0) + length payload.

Lemma frame_bytes_short opcode mask payload out :
  length payload ≤ 125 → frame_bytes true opcode mask payload out →
  short_frame opcode mask payload out.
Proof.
  intros Hl Hf. split; [done|]. destruct Hf as (key & Hkey & ->).
  unfold Rfc6455.encode, Frame.to_wire, Rfc6455.length_field. cbn -[Z.ltb].
  destruct mask; cbn -[Z.ltb]; rewrite ?Rfc6455.length_apply_mask.
  - destruct Hkey as [Hk _]; [done|]. rewrite (proj2 (Z.ltb_lt _ _)) by lia.
    cbn. rewrite length_app, Rfc6455.length_apply_mask, Hk. lia.
  - rewrite (proj2 (Z.ltb_lt _ _)) by lia. done.
Qed.

Lemma control_runs opcode mask payload f :
  hardened = false → wf f → is_byte (Opcode.to_u8 opcode) →
  bytes_ok payload → length payload ≤ 125 →
  runs (construct true opcode mask payload) f
    (λ out f', short_frame opcode mask payload out ∧ wf f').
Proof.
  intros Hh Hw Ho Hb Hl. eapply runs_mono.
  { apply factory_construct_runs; [done..|lia]. }
  cbn beta. intros out f' [Hf Hw']. split; [by apply frame_bytes_short|done].
Qed.

(** ** Properties *)

(** Building a frame never fails and never leaves the buffer: for every
    opcode, flag and byte payload the factory returns exactly the RFC 6455
    encoding of the frame (with some four-byte masking key when masking is
    asked for) and stays well formed. *)
Theorem construct_encodes (fin mask : bool) (opcode : Opcode.t)
    (payload : list Z) (f : t) :
  hardened = false → wf f →
  is_byte (Opcode.to_u8 opcode) → bytes_ok payload →
  (Z.of_nat (length payload) < 2 ^ 63)%Z →
  runs (construct fin opcode mask payload) f
    (λ out f', frame_bytes fin opcode mask payload out ∧ wf f').
Proof. apply factory_construct_runs. Qed.

(** C28: control frames: a payload of more than 125 bytes is refused with the
    exception of its kind, the factory (buffer, cache, generator) untouched; a
    payload of at most 125 bytes gives a final frame with a one-byte length. *)
Theorem control_frames_limit (mask : bool) (payload : list Z) (f : t) :
  hardened = false → wf f → bytes_ok payload →
  if decide (length payload ≤ 125) then
    runs (ping mask payload) f
      (λ out f', short_frame Opcode.PING mask payload out ∧ wf f') ∧
    runs (pong mask payload) f
      (λ out f', short_frame Opcode.PONG mask payload out ∧ wf f') ∧
    runs (close mask payload) f
      (λ out f', short_frame Opcode.CLOSE mask payload out ∧ wf f')
  else
    ping mask payload f
      = (Throw (runtime_error "Payload should be <= 125 for ping frames"), f) ∧
    pong mask payload f
      = (Throw (runtime_error "Payload should be <= 125 for pong frames"), f) ∧
    close mask payload f
      = (Throw (runtime_error "Payload should be <= 125 for close frames"), f).
Proof.
  intros Hh Hw Hb. unfold ping, pong, close.
  destruct (Nat.ltb_spec 125 (length payload)); case_decide; try lia.
  - done.
  - split_and!; (apply control_runs; [done..|cbn; unfold is_byte; lia|done|done]).
Qed.

End Factory.

Lemma construct_encodes_witness :
  runs (@construct masked_shift_target true Opcode.TEXT true [72; 105]%Z)
    (snd (new 64 1 2))
    (λ out f', frame_bytes true Opcode.TEXT true [72; 105]%Z out ∧ wf f').
Proof.
  apply (@construct_encodes masked_shift_target true true Opcode.TEXT);
    [done| |cbn; unfold is_byte; lia|repeat constructor; lia|cbn; lia].
  destruct (new_factory_runs 64 1 2) as (f & Hf & Hw); [lia..|]. by rewrite Hf.
Defined.

Lemma control_frames_limit_witness :
  @ping masked_shift_target true (replicate 126 0%Z) (snd (new 64 1 2))
  = (Throw (runtime_error "Payload should be <= 125 for ping frames"),
     snd (new 64 1 2)).
Proof.
  refine (proj1 _).
  apply (@control_frames_limit masked_shift_target true (replicate 126 0%Z)
    (snd (new 64 1 2))); [done| |by apply Forall_replicate].
  destruct (new_factory_runs 64 1 2) as (f & Hf & Hw); [lia..|]. by rewrite Hf.
Defined.

End FrameFactory.
