(* ===== verification/Parser.v ===== *)
(** [FrameParser] (single_header/fastws.hpp): the incremental frame parser.
    Its state is the stage it is in, the frame being built, the receive
    buffer, the payload length and the read position; each [check_*] method
    advances the stage when it can and returns early when it cannot. The
    payload of a parsed frame is a view into the receive buffer. Reads outside
    the buffer's vector are undefined behaviour, and the shift that assembles
    a 64-bit length is the shift of an [int], as in the source. *)

From S2P Require Import Prelude Buffer Rfc6455 Frames.

(** A [std::string_view] into the receive buffer. *)
Record string_view : Type := View { sv_off : nat; sv_len : nat }.

Definition empty_view : string_view := View 0 0.

Module FrameParser.

Inductive ParseStage : Type :=
  | FIN_BIT
  | OPCODE
  | MASK_BIT
  | PAYLOAD_LEN
  | EXTENDED_PAYLOAD_LEN_16
  | EXTENDED_PAYLOAD_LEN_64
  | MASKING_KEY
  | PAYLOAD_DATA
  | DONE.

#[global] Instance ParseStage_eq_dec : EqDecision ParseStage.
Proof. solve_decision. Defined.

Record t : Type := mk {
  m_parse_stage : ParseStage;
  m_frame : Frame.t string_view;
  m_frame_buffer : FrameBuffer.t;
  m_payload_len : Z;
  m_ptr : nat
}.

(** [m_frame = {}]. *)
Definition empty_frame : Frame.t string_view :=
  Frame.mk false false Opcode.CONTINUATION [0; 0; 0; 0]%Z empty_view.

(** The constructor: [m_frame] is default-initialised, so only its payload
    (an empty view) has a definite value; [junk] is what the rest holds. *)
Definition new (junk : Frame.t string_view) : t :=
  mk FIN_BIT
    (Frame.mk (Frame.fin junk) (Frame.mask junk) (Frame.opcode junk)
       (Frame.masking_key junk) empty_view)
    (FrameBuffer.new 4096) 0 0.

(** Assignments to the members. *)
Definition set_stage (s : ParseStage) : M t unit :=
  modify (λ p, mk s (m_frame p) (m_frame_buffer p) (m_payload_len p) (m_ptr p)).
Definition set_frame (g : Frame.t string_view → Frame.t string_view) : M t unit :=
  modify (λ p, mk (m_parse_stage p) (g (m_frame p)) (m_frame_buffer p)
                 (m_payload_len p) (m_ptr p)).
Definition set_fin (v : bool) : M t unit := set_frame (λ f,
  Frame.mk v (Frame.mask f) (Frame.opcode f) (Frame.masking_key f) (Frame.payload f)).
Definition set_mask (v : bool) : M t unit := set_frame (λ f,
  Frame.mk (Frame.fin f) v (Frame.opcode f) (Frame.masking_key f) (Frame.payload f)).
Definition set_opcode (v : Opcode.t) : M t unit := set_frame (λ f,
  Frame.mk (Frame.fin f) (Frame.mask f) v (Frame.masking_key f) (Frame.payload f)).
Definition set_key (v : list Z) : M t unit := set_frame (λ f,
  Frame.mk (Frame.fin f) (Frame.mask f) (Frame.opcode f) v (Frame.payload f)).
Definition set_payload (v : string_view) : M t unit := set_frame (λ f,
  Frame.mk (Frame.fin f) (Frame.mask f) (Frame.opcode f) (Frame.masking_key f) v).
Definition set_payload_len (n : Z) : M t unit :=
  modify (λ p, mk (m_parse_stage p) (m_frame p) (m_frame_buffer p) n (m_ptr p)).
Definition set_ptr (n : nat) : M t unit :=
  modify (λ p, mk (m_parse_stage p) (m_frame p) (m_frame_buffer p)
                 (m_payload_len p) n).

Definition on_buffer {A} : M FrameBuffer.t A → M t A :=
  zoom m_frame_buffer (λ b p,
    mk (m_parse_stage p) (m_frame p) b (m_payload_len p) (m_ptr p)).

(** [remaining()]: bytes received and not consumed. *)
Definition remaining (p : t) : nat :=
  FrameBuffer.size (m_frame_buffer p) - m_ptr p.

Definition done (p : t) : bool := bool_decide (m_parse_stage p = DONE).

(** [read()]: [*(m_frame_buffer.head() + m_ptr)]. *)
Definition read : M t Z := λ p,
  match FrameBuffer.m_buf (m_frame_buffer p) !! m_ptr p with
  | Some b => (Ok b, p)
  | None => (UB out_of_bounds, p)
  end.

Definition consume : M t Z :=
  out ← read;
  p ← get;
  set_ptr (m_ptr p + 1);;
  mret out.

(** Run [m] unless the method returns early. *)
Definition at_stage (s : ParseStage) (enough : t → bool) (m : M t unit) :
    M t unit :=
  p ← get;
  if bool_decide (m_parse_stage p ≠ s) || negb (enough p) then mret tt else m.

Definition check_fin_bit : M t unit :=
  at_stage FIN_BIT (λ p, negb (remaining p =? 0)) (
    b ← read;
    set_fin (truthy (Z.land b 0x80));;
    set_stage OPCODE).

Definition check_opcode : M t unit :=
  at_stage OPCODE (λ p, negb (remaining p =? 0)) (
    b ← consume;
    set_opcode (Opcode.of_u8 (Z.land b 0x0F));;
    set_stage MASK_BIT).

Definition check_mask_bit : M t unit :=
  at_stage MASK_BIT (λ p, negb (remaining p =? 0)) (
    b ← read;
    set_mask (truthy (Z.land b 0x80));;
    set_stage PAYLOAD_LEN).

(** [m_frame.mask ? MASKING_KEY : PAYLOAD_DATA]. *)
Definition after_length : M t unit :=
  p ← get;
  set_stage (if Frame.mask (m_frame p) then MASKING_KEY else PAYLOAD_DATA).

Definition check_payload_len : M t unit :=
  at_stage PAYLOAD_LEN (λ p, negb (remaining p =? 0)) (
    b ← consume;
    let len := Z.land b 0x7F in
    if (len =? 126)%Z then set_stage EXTENDED_PAYLOAD_LEN_16
    else if (len =? 127)%Z then set_stage EXTENDED_PAYLOAD_LEN_64
    else
      set_payload_len len;;
      after_length).

Definition check_extended_payload_len_16 : M t unit :=
  at_stage EXTENDED_PAYLOAD_LEN_16 (λ p, negb (remaining p <? 2)) (
    left ← consume;
    right ← consume;
    set_payload_len (Z.lor (u64 (Z.shiftl left 8)) right);;
    after_length).

Section Shift.
Context `{Target}.

(** [consume() << n]: the byte is promoted to [int]. A shift by less than 32
    whose value fits 32 bits is converted to [int]; a wider one is the
    target's. *)
Definition shl_int (b n : Z) : Z :=
  if (n <? 32)%Z then i32 (Z.shiftl b n) else shl_wide b n.

(** [for (int i = 7; i >= 0; i--) m_payload_len |= consume() << 8 * i]: the
    [int] is converted to 64 unsigned bits. *)
Fixpoint length_loop (n : nat) : M t unit :=
  match n with
  | O => mret tt
  | S i =>
      b ← consume;
      p ← get;
      set_payload_len
        (Z.lor (m_payload_len p) (u64 (shl_int b (8 * Z.of_nat i))));;
      length_loop i
  end.

Definition check_extended_payload_len_64 : M t unit :=
  at_stage EXTENDED_PAYLOAD_LEN_64 (λ p, negb (remaining p <? 8)) (
    set_payload_len 0;;
    length_loop 8;;
    after_length).

(** [for (int i = 0; i < 4; i++) m_frame.masking_key[i] = consume()]. *)
Fixpoint key_loop (n i : nat) : M t unit :=
  match n with
  | O => mret tt
  | S n' =>
      b ← consume;
      p ← get;
      set_key (<[i := b]> (Frame.masking_key (m_frame p)));;
      key_loop n' (S i)
  end.

Definition check_masking_key : M t unit :=
  at_stage MASKING_KEY (λ p, negb (remaining p <? 4)) (
    key_loop 4 0;;
    set_stage PAYLOAD_DATA).

Definition check_payload_data : M t unit :=
  at_stage PAYLOAD_DATA
    (λ p, negb (Z.of_nat (remaining p) <? m_payload_len p)%Z) (
    p ← get;
    if (m_payload_len p =? 0)%Z then set_stage DONE
    else
      let n := Z.to_nat (m_payload_len p) in
      set_payload (View (m_ptr p) n);;
      set_ptr (m_ptr p + n);;
      set_stage DONE).

Definition parse : M t (option (Frame.t string_view)) :=
  check_fin_bit;;
  check_opcode;;
  check_mask_bit;;
  check_payload_len;;
  check_extended_payload_len_16;;
  check_extended_payload_len_64;;
  check_masking_key;;
  check_payload_data;;
  p ← get;
  if negb (done p) then mret None else mret (Some (m_frame p)).

(** [std::memmove(head, head + m_ptr, re_space)]. *)
Definition memmove_to_head (from n : nat) : M FrameBuffer.t unit :=
  b ← get;
  if decide (from + n ≤ FrameBuffer.capacity b) then
    FrameBuffer.store 0 (take n (drop from (FrameBuffer.m_buf b)))
  else undef out_of_bounds.

(** [reset()]. *)
Definition reset : M t unit :=
  p ← get;
  (if 0 <? remaining p then
     let re_space := remaining p in
     on_buffer (memmove_to_head (m_ptr p) re_space);;
     on_buffer FrameBuffer.reset;;
     on_buffer (FrameBuffer.claim_space re_space);;
     set_ptr 0
   else
     on_buffer FrameBuffer.reset;;
     set_ptr 0);;
  set_frame (λ _, empty_frame);;
  set_payload_len 0;;
  set_stage FIN_BIT.

(** [clear()]. *)
Definition clear : M t unit :=
  on_buffer FrameBuffer.reset;;
  set_ptr 0;;
  set_frame (λ _, empty_frame);;
  set_payload_len 0;;
  set_stage FIN_BIT.

(** [update(const FrameBuffer::View&)]; [update(std::string_view)] is the
    same code over the other [push_back]. *)
Definition update_with (push : list Z → M FrameBuffer.t unit) (view : list Z) :
    M t (option (Frame.t string_view)) :=
  p ← get;
  when (done p) reset;;
  p ← get;
  if negb (length view =? 0) then
    on_buffer (push view);;
    p ← get;
    if remaining p =? 0 then mret None else parse
  else if bool_decide (m_parse_stage p ≠ FIN_BIT) then mret None
  else if remaining p =? 0 then mret None
  else parse.

Definition update_view := update_with FrameBuffer.push_back_view.
Definition update_string := update_with FrameBuffer.push_back_string.

(** [update(bool new_data)], after the caller filled the buffer itself. *)
Definition update (new_data : bool) : M t (option (Frame.t string_view)) :=
  p ← get;
  when (done p) reset;;
  p ← get;
  if negb new_data && bool_decide (m_parse_stage p ≠ FIN_BIT) then mret None
  else if remaining p =? 0 then mret None
  else parse.

End Shift.

(** The bytes a view denotes. *)
Definition deref (p : t) (v : string_view) : list Z :=
  take (sv_len v) (drop (sv_off v) (FrameBuffer.m_buf (m_frame_buffer p))).

End FrameParser.
