(* ===== verification/ParserSpec.v ===== *)
(** The incremental parser implements the frame grammar. [residual p u] is
    what a decoder in the parser's current stage still has to do with the
    unread bytes [u]; every [check_*] method leaves it unchanged, so the
    parser's state always stands for "decode what was received so far". From
    this come the refinement of [update] by [Rfc6455.decode], its independence
    of how the stream is cut into chunks, and its memory safety. *)

From S2P Require Import Prelude Buffer Rfc6455 Frames Parser.
Import FrameParser.

(** ** The length the code computes *)

Section CodeLength.
Context `{Target}.

Fixpoint len_acc (acc : Z) (n : nat) (bs : list Z) : Z :=
  match n, bs with
  | S i, b :: bs' => len_acc (Z.lor acc (u64 (shl_int b (8 * Z.of_nat i)))) i bs'
  | _, _ => acc
  end.

(** The reader of a 64-bit length field that the loop implements. *)
Definition code_len64 (bs : list Z) : Z := len_acc 0 8 bs.

Lemma lor_nonneg a b : (0 ≤ a)%Z → (0 ≤ b)%Z → (0 ≤ Z.lor a b)%Z.
Proof. intros. apply Z.lor_nonneg. lia. Qed.

Lemma len_acc_nonneg acc n bs : (0 ≤ acc)%Z → (0 ≤ len_acc acc n bs)%Z.
Proof.
  revert acc bs. induction n as [|n IH]; intros acc [|b bs] Ha; cbn -[Z.mul]; try done.
  apply IH, lor_nonneg; [done|]. apply u64_bound.
Qed.

Lemma code_len64_nonneg bs : (0 ≤ code_len64 bs)%Z.
Proof. apply len_acc_nonneg. lia. Qed.

(** A shift of zero by too much is still zero: true of every machine whose
    shift instruction masks, saturates or drops the bits. *)
Definition zero_shift : Prop := ∀ n, shl_wide 0 n = 0%Z.

Lemma shl_int_small b n :
  is_byte b → (0 ≤ n ≤ 16)%Z → u64 (shl_int b n) = (b * 2 ^ n)%Z.
Proof.
  unfold is_byte. intros Hb Hn. unfold shl_int.
  destruct (Z.ltb_spec n 32); [|lia]. rewrite Z.shiftl_mul_pow2 by lia.
  assert (0 < 2 ^ n ≤ 2 ^ 16)%Z.
  { split; [apply Z.pow_pos_nonneg; lia|apply Z.pow_le_mono_r; lia]. }
  rewrite i32_id, u64_id by nia. done.
Qed.

(** Byte 3 goes through the sign bit of the [int]. *)
Lemma shl_int_24 b :
  is_byte b →
  u64 (shl_int b 24)
  = ((if (b <? 128)%Z then b else b + (2 ^ 40 - 2 ^ 8)) * 2 ^ 24)%Z.
Proof.
  unfold is_byte. intros Hb. unfold shl_int. cbn [Z.ltb Z.compare Pos.compare
    Pos.compare_cont]. rewrite Z.shiftl_mul_pow2 by lia.
  destruct (Z.ltb_spec b 128).
  - by rewrite i32_id, u64_id by lia.
  - replace (i32 (b * 2 ^ 24)) with (b * 2 ^ 24 - 2 ^ 32)%Z.
    + unfold u64. symmetry. apply (Z.mod_unique_pos _ _ (-1)); lia.
    + unfold i32. symmetry.
      replace ((b * 2 ^ 24 + 2 ^ 31) mod 2 ^ 32)%Z
        with (b * 2 ^ 24 + 2 ^ 31 - 2 ^ 32)%Z; [lia|].
      apply (Z.mod_unique_pos _ _ 1); lia.
Qed.

Lemma code_len64_bytes b3 b2 b1 b0 :
  zero_shift → is_byte b3 → is_byte b2 → is_byte b1 → is_byte b0 →
  code_len64 [0; 0; 0; 0; b3; b2; b1; b0]%Z
  = (from_big_endian 0 [b3; b2; b1; b0]
     + if b3 <? 128 then 0 else 2 ^ 64 - 2 ^ 32)%Z.
Proof.
  intros Hz H3 H2 H1 H0. unfold code_len64.
  assert (∀ n, (32 ≤ n)%Z → u64 (shl_int 0 n) = 0%Z) as Hz'.
  { intros n Hn. unfold shl_int. destruct (Z.ltb_spec n 32); [lia|].
    by rewrite Hz. }
  cbn [len_acc]. rewrite !Hz' by lia.
  rewrite !Z.lor_0_l, !(Z.mul_comm 8).
  change (Z.of_nat 3 * 8)%Z with 24%Z. change (Z.of_nat 2 * 8)%Z with 16%Z.
  change (Z.of_nat 1 * 8)%Z with 8%Z. change (Z.of_nat 0 * 8)%Z with 0%Z.
  rewrite shl_int_24, !shl_int_small by (done || lia). unfold is_byte in *.
  rewrite (lor_disjoint 24) by lia.
  set (c3 := if (b3 <? 128)%Z then b3 else _).
  replace (c3 * 2 ^ 24 + b2 * 2 ^ 16)%Z with ((c3 * 2 ^ 8 + b2) * 2 ^ 16)%Z by lia.
  rewrite (lor_disjoint 16) by lia.
  replace ((c3 * 2 ^ 8 + b2) * 2 ^ 16 + b1 * 2 ^ 8)%Z
    with (((c3 * 2 ^ 8 + b2) * 2 ^ 8 + b1) * 2 ^ 8)%Z by lia.
  rewrite (lor_disjoint 8) by lia. cbn [from_big_endian].
  unfold c3. destruct (Z.ltb_spec b3 128); lia.
Qed.

Lemma big_endian_8_small n :
  (0 ≤ n < 2 ^ 32)%Z → big_endian 8 n = [0; 0; 0; 0]%Z ++ big_endian 4 n.
Proof.
  intros Hn.
  assert (∀ k, (32 ≤ k)%Z → u8 (n / 2 ^ k) = 0%Z) as Hk.
  { intros k Hk. rewrite Z.div_small; [done|]. split; [lia|].
    eapply Z.lt_le_trans; [apply Hn|]. apply Z.pow_le_mono_r; lia. }
  cbn [big_endian app]. by rewrite !Hk by lia.
Qed.

(** The computed length of every 32-bit length field. *)
Lemma code_len64_small n :
  zero_shift → (0 ≤ n < 2 ^ 32)%Z →
  code_len64 (big_endian 8 n)
  = (if (n <? 2 ^ 31)%Z then n else n + (2 ^ 64 - 2 ^ 32))%Z.
Proof.
  intros Hz Hn. rewrite big_endian_8_small by done.
  pose proof (from_big_endian_encode 4 n 0 ltac:(lia)) as Hbe.
  rewrite Z.mod_small in Hbe by (cbn; lia).
  pose proof (big_endian_bytes 4 n) as Hb. cbn [big_endian] in *.
  do 4 (apply Forall_cons in Hb as [? Hb]).
  cbn [app]. rewrite code_len64_bytes by done. rewrite Hbe.
  cbn [from_big_endian] in Hbe. unfold is_byte in *.
  destruct (Z.ltb_spec (u8 (n / 2 ^ (8 * Z.of_nat 3))) 128),
    (Z.ltb_spec n (2 ^ 31)); lia.
Qed.
End CodeLength.

(** ** Invariant and residual *)

(** The bytes received and not consumed. *)
Definition unread (p : t) : list Z :=
  drop (m_ptr p) (FrameBuffer.view (m_frame_buffer p)).

(** The frame in [m_frame], with the bytes its payload view denotes. *)
Definition wire_of (p : t) : Rfc6455.wire :=
  Rfc6455.Wire (Frame.fin (m_frame p)) (Opcode.to_u8 (Frame.opcode (m_frame p)))
    (if Frame.mask (m_frame p) then Some (Frame.masking_key (m_frame p)) else None)
    (deref p (Frame.payload (m_frame p))).

Record Inv (p : t) : Prop := {
  inv_buffer : FrameBuffer.wf (m_frame_buffer p);
  inv_bytes : bytes_ok (FrameBuffer.view (m_frame_buffer p));
  inv_ptr : m_ptr p ≤ FrameBuffer.size (m_frame_buffer p);
  inv_len : (0 ≤ m_payload_len p)%Z;
  inv_key : length (Frame.masking_key (m_frame p)) = 4;
  inv_masked : m_parse_stage p = MASKING_KEY → Frame.mask (m_frame p) = true;
  inv_empty : m_parse_stage p ≠ DONE → Frame.payload (m_frame p) = empty_view;
  inv_view : sv_off (Frame.payload (m_frame p)) +
             sv_len (Frame.payload (m_frame p)) ≤ m_ptr p
}.

Definition rank (s : ParseStage) : nat :=
  match s with
  | FIN_BIT => 0 | OPCODE => 1 | MASK_BIT => 2 | PAYLOAD_LEN => 3
  | EXTENDED_PAYLOAD_LEN_16 => 4 | EXTENDED_PAYLOAD_LEN_64 => 5
  | MASKING_KEY => 6 | PAYLOAD_DATA => 7 | DONE => 8
  end.

Section Residual.
Context `{Target}.

Definition residual (p : t) (u : list Z) : option (Rfc6455.wire * list Z) :=
  let fin := Frame.fin (m_frame p) in
  let op := Opcode.to_u8 (Frame.opcode (m_frame p)) in
  let mask := Frame.mask (m_frame p) in
  match m_parse_stage p with
  | FIN_BIT => Rfc6455.decode code_len64 u
  | OPCODE =>
      match u with
      | [] => None
      | b :: u' => Rfc6455.d_second code_len64 fin (b mod 16) u'
      end
  | MASK_BIT => Rfc6455.d_second code_len64 fin op u
  | PAYLOAD_LEN =>
      match u with
      | [] => None
      | b :: u' => Rfc6455.d_length code_len64 fin op mask (b mod 128) u'
      end
  | EXTENDED_PAYLOAD_LEN_16 => Rfc6455.d_len16 fin op mask u
  | EXTENDED_PAYLOAD_LEN_64 => Rfc6455.d_len64 code_len64 fin op mask u
  | MASKING_KEY => Rfc6455.d_key fin op mask (m_payload_len p) u
  | PAYLOAD_DATA =>
      Rfc6455.d_payload fin op
        (if mask then Some (Frame.masking_key (m_frame p)) else None)
        (m_payload_len p) u
  | DONE => Some (wire_of p, u)
  end.

(** [q] is [p] some checks later: same bytes, same residual. *)
Definition same (p q : t) : Prop :=
  m_frame_buffer q = m_frame_buffer p ∧
  ∀ ext, residual q (unread q ++ ext) = residual p (unread p ++ ext).

(** All checks below rank [k] have run: a parser that stopped below [k] is
    stuck for want of bytes. *)
Definition advanced (k : nat) (p q : t) : Prop :=
  Inv q ∧ same p q ∧
  (rank (m_parse_stage q) < k → residual q (unread q) = None).

Lemma same_refl p : same p p.
Proof. done. Qed.

Lemma same_trans p q r : same p q → same q r → same p r.
Proof. intros [Hb Hr] [Hb' Hr']. split; [congruence|]. intros ext. by rewrite Hr'. Qed.

(** ** Reading *)

Lemma length_unread p : Inv p → length (unread p) = remaining p.
Proof.
  intros Hi. unfold unread, remaining.
  by rewrite length_drop, FrameBuffer.length_view by apply Hi.
Qed.

Definition at_ptr (p : t) (n : nat) : t :=
  mk (m_parse_stage p) (m_frame p) (m_frame_buffer p) (m_payload_len p) n.

Lemma read_unread p b u :
  Inv p → unread p = b :: u → read p = (Ok b, p).
Proof.
  intros Hi Hu. unfold read.
  assert (FrameBuffer.m_buf (m_frame_buffer p) !! m_ptr p = Some b) as ->; [|done].
  unfold unread, FrameBuffer.view in Hu.
  assert (take (FrameBuffer.m_ptr (m_frame_buffer p))
    (FrameBuffer.m_buf (m_frame_buffer p)) !! m_ptr p = Some b) as Hl.
  { rewrite <-(Nat.add_0_r (m_ptr p)), <-lookup_drop, Hu. done. }
  by apply lookup_take_Some in Hl as [Hl _].
Qed.

Lemma unread_cons p b u :
  Inv p → unread p = b :: u →
  unread (at_ptr p (m_ptr p + 1)) = u ∧ Inv (at_ptr p (m_ptr p + 1)) ∧ is_byte b.
Proof.
  intros Hi Hu. pose proof (length_unread p Hi) as Hl. rewrite Hu in Hl.
  unfold remaining in Hl. cbn in Hl. split_and!.
  - unfold unread in *. cbn. by rewrite <-drop_drop, Hu.
  - destruct Hi. split; cbn; auto; lia.
  - pose proof (inv_bytes _ Hi) as Hb.
    apply (Forall_drop _ (m_ptr p)) in Hb. unfold unread in Hu.
    rewrite Hu in Hb. by inversion Hb.
Qed.

Lemma consume_unread p b u :
  Inv p → unread p = b :: u →
  consume p = (Ok b, at_ptr p (m_ptr p + 1)).
Proof.
  intros Hi Hu. unfold consume.
  by rewrite (bind_ok _ _ _ _ _ (read_unread _ _ _ Hi Hu)).
Qed.

Lemma runs_read p Q :
  Inv p → remaining p ≠ 0 →
  (∀ b u, unread p = b :: u → is_byte b → Q b p) →
  runs read p Q.
Proof.
  intros Hi Hr HQ. destruct (unread p) as [|b u] eqn:Hu.
  - apply length_unread in Hi. by rewrite Hu in Hi.
  - eapply runs_eq; [by eapply read_unread|]. eapply HQ; [done|].
    by eapply unread_cons.
Qed.

Lemma runs_consume p Q :
  Inv p → remaining p ≠ 0 →
  (∀ b u, unread p = b :: u → is_byte b →
     Inv (at_ptr p (m_ptr p + 1)) → unread (at_ptr p (m_ptr p + 1)) = u →
     Q b (at_ptr p (m_ptr p + 1))) →
  runs consume p Q.
Proof.
  intros Hi Hr HQ. destruct (unread p) as [|b u] eqn:Hu.
  - apply length_unread in Hi. by rewrite Hu in Hi.
  - eapply runs_eq; [by eapply consume_unread|].
    destruct (unread_cons _ _ _ Hi Hu) as (Hu' & Hi' & Hb). eauto.
Qed.

Lemma unread_at_ptr p n :
  unread (at_ptr p (m_ptr p + n)) = drop n (unread p).
Proof. unfold unread. cbn. by rewrite drop_drop. Qed.

Lemma unread_mk st f l p n :
  unread (mk st f (m_frame_buffer p) l (m_ptr p + n)) = drop n (unread p).
Proof. apply unread_at_ptr. Qed.

Lemma Inv_at_ptr p n :
  Inv p → n ≤ remaining p → Inv (at_ptr p (m_ptr p + n)).
Proof.
  intros Hi Hn. pose proof (inv_ptr _ Hi). unfold remaining in Hn.
  destruct Hi. split; cbn; auto; lia.
Qed.

Definition at_len (p : t) (n : Z) : t :=
  mk (m_parse_stage p) (m_frame p) (m_frame_buffer p) n (m_ptr p).

Lemma Inv_at_len p n : Inv p → (0 ≤ n)%Z → Inv (at_len p n).
Proof. intros []. by split. Qed.

Definition at_key (p : t) (k : list Z) : t :=
  mk (m_parse_stage p)
    (Frame.mk (Frame.fin (m_frame p)) (Frame.mask (m_frame p))
       (Frame.opcode (m_frame p)) k (Frame.payload (m_frame p)))
    (m_frame_buffer p) (m_payload_len p) (m_ptr p).

Lemma Inv_at_key p k : Inv p → length k = 4 → Inv (at_key p k).
Proof. intros []. by split. Qed.

(** The stage frame shared by all checks. *)
Lemma at_stage_advanced k s enough m p0 p :
  rank s = k → advanced k p0 p →
  (Inv p → m_parse_stage p = s → enough p = true →
     runs m p (λ _ q, Inv q ∧ same p q ∧ k < rank (m_parse_stage q))) →
  (Inv p → m_parse_stage p = s → enough p = false →
     residual p (unread p) = None) →
  runs (at_stage s enough m) p (λ _ q, advanced (S k) p0 q).
Proof.
  intros Hk (Hi & Hs & Hr) Hgo Hstop. unfold at_stage. runs_steps.
  destruct (bool_decide_reflect (m_parse_stage p ≠ s)) as [Hne|Heq]; cbn [orb].
  - runs_step. split_and!; [done..|]. intros Hlt. apply Hr.
    destruct (decide (rank (m_parse_stage p) = k)); [|lia].
    exfalso. apply Hne. destruct (m_parse_stage p), s; cbn in *; congruence || lia.
  - apply dec_stable in Heq. destruct (enough p) eqn:He; cbn [negb].
    + eapply runs_mono; [by apply Hgo|]. cbn beta. intros _ q (Hi' & Hs' & Hlt).
      split_and!; [done|by eapply same_trans|lia].
    + runs_step. split_and!; auto.
Qed.

(** ** The checks *)

Lemma check_fin_bit_advanced p0 p :
  advanced 0 p0 p → runs check_fin_bit p (λ _ q, advanced 1 p0 q).
Proof.
  intros Ha. apply (at_stage_advanced 0); [done..| |].
  - intros Hi Hs He. apply negb_true_iff, Nat.eqb_neq in He.
    runs_step. apply runs_read; [done..|]. intros b u Hu Hb.
    unfold set_fin, set_frame, set_stage. runs_steps. split_and!; [| |cbn; lia].
    + destruct Hi. split; cbn; try done. intros _. apply inv_empty0. by rewrite Hs.
    + split; [done|]. intros ext. unfold residual at 2. rewrite Hs.
      unfold residual, unread in *. cbn. rewrite Hu. cbn.
      by rewrite truthy_top_bit.
  - intros Hi Hs He. apply negb_false_iff, Nat.eqb_eq in He.
    rewrite <-length_unread in He by done. unfold residual. rewrite Hs.
    by destruct (unread p).
Qed.

Lemma check_opcode_advanced p0 p :
  advanced 1 p0 p → runs check_opcode p (λ _ q, advanced 2 p0 q).
Proof.
  intros Ha. apply (at_stage_advanced 1); [done..| |].
  - intros Hi Hs He. apply negb_true_iff, Nat.eqb_neq in He.
    runs_step. apply runs_consume; [done..|]. intros b u Hu Hb Hi' Hu'.
    unfold set_opcode, set_frame, set_stage. runs_steps.
    split_and!; [| |cbn; lia].
    + destruct Hi'. split; cbn in *; try done. intros _. apply inv_empty0. by rewrite Hs.
    + split; [done|]. intros ext. unfold residual at 2. rewrite Hs, Hu.
      unfold residual, unread in *. cbn in *. rewrite Hu', Opcode.to_of_u8.
      by rewrite land_0f.
  - intros Hi Hs He. apply negb_false_iff, Nat.eqb_eq in He.
    rewrite <-length_unread in He by done. unfold residual. rewrite Hs.
    by destruct (unread p).
Qed.

Lemma check_mask_bit_advanced p0 p :
  advanced 2 p0 p → runs check_mask_bit p (λ _ q, advanced 3 p0 q).
Proof.
  intros Ha. apply (at_stage_advanced 2); [done..| |].
  - intros Hi Hs He. apply negb_true_iff, Nat.eqb_neq in He.
    runs_step. apply runs_read; [done..|]. intros b u Hu Hb.
    unfold set_mask, set_frame, set_stage. runs_steps. split_and!; [| |cbn; lia].
    + destruct Hi. split; cbn; try done. intros _. apply inv_empty0. by rewrite Hs.
    + split; [done|]. intros ext. unfold residual at 2. rewrite Hs.
      unfold residual, unread in *. cbn. rewrite Hu. cbn.
      by rewrite truthy_top_bit.
  - intros Hi Hs He. apply negb_false_iff, Nat.eqb_eq in He.
    rewrite <-length_unread in He by done. unfold residual. rewrite Hs.
    by destruct (unread p).
Qed.

(** [set_payload_len n;; after_length], from a stage before the key. *)
Definition with_length (p : t) (n : Z) : t :=
  mk (if Frame.mask (m_frame p) then MASKING_KEY else PAYLOAD_DATA)
    (m_frame p) (m_frame_buffer p) n (m_ptr p).

Lemma with_length_spec p n u :
  Inv p → m_parse_stage p ≠ DONE → (0 ≤ n)%Z → unread p = u →
  Inv (with_length p n) ∧ 5 < rank (m_parse_stage (with_length p n)) ∧
  ∀ ext, residual (with_length p n) (unread (with_length p n) ++ ext)
    = Rfc6455.d_key (Frame.fin (m_frame p))
        (Opcode.to_u8 (Frame.opcode (m_frame p))) (Frame.mask (m_frame p)) n
        (u ++ ext).
Proof.
  intros Hi Hs Hn Hu. split_and!.
  - destruct Hi. split; cbn; try done; [|by auto].
    by destruct (Frame.mask (m_frame p)).
  - cbn. destruct (Frame.mask (m_frame p)); cbn; lia.
  - intros ext. unfold unread in *. cbn. rewrite Hu. unfold residual. cbn.
    by destruct (Frame.mask (m_frame p)).
Qed.

Lemma check_payload_len_advanced p0 p :
  advanced 3 p0 p → runs check_payload_len p (λ _ q, advanced 4 p0 q).
Proof.
  intros Ha. apply (at_stage_advanced 3); [done..| |].
  - intros Hi Hs He. apply negb_true_iff, Nat.eqb_neq in He.
    runs_step. apply runs_consume; [done..|]. intros b u Hu Hb Hi' Hu'.
    rewrite land_7f. pose proof (Z.mod_pos_bound b 128 ltac:(lia)) as Hmod.
    assert (∀ ext, residual p (unread p ++ ext) = Rfc6455.d_length code_len64
      (Frame.fin (m_frame p)) (Opcode.to_u8 (Frame.opcode (m_frame p)))
      (Frame.mask (m_frame p)) (b mod 128) (u ++ ext)) as Hres.
    { intros ext. unfold residual. by rewrite Hs, Hu. }
    unfold Rfc6455.d_length in Hres. unfold set_stage.
    destruct (Z.eqb_spec (b mod 128) 126); [|destruct (Z.eqb_spec (b mod 128) 127)].
    + runs_steps. split_and!; [|split; [done|]|cbn; lia].
      * destruct Hi'. split; cbn in *; try done. intros _. apply inv_empty0. by rewrite Hs.
      * intros ext. rewrite Hres. unfold unread in *. cbn in *. by rewrite Hu'.
    + runs_steps. split_and!; [|split; [done|]|cbn; lia].
      * destruct Hi'. split; cbn in *; try done. intros _. apply inv_empty0. by rewrite Hs.
      * intros ext. rewrite Hres. unfold unread in *. cbn in *. by rewrite Hu'.
    + unfold set_payload_len, after_length, set_stage. runs_steps.
      destruct (with_length_spec (at_ptr p (m_ptr p + 1)) (b mod 128) u)
        as (Hi2 & Hr2 & Hx2); [done|cbn; congruence|lia|done|].
      split_and!; [done|split; [done|]|by apply (Nat.lt_trans _ 5); [lia|]].
      intros ext. by rewrite Hres, <-Hx2.
  - intros Hi Hs He. apply negb_false_iff, Nat.eqb_eq in He.
    rewrite <-length_unread in He by done. unfold residual. rewrite Hs.
    by destruct (unread p).
Qed.

Lemma lor_bytes l r : is_byte l → is_byte r →
  Z.lor (u64 (Z.shiftl l 8)) r = (256 * l + r)%Z.
Proof.
  unfold is_byte. intros Hl Hr. rewrite Z.shiftl_mul_pow2, u64_id by lia.
  rewrite lor_disjoint by lia. lia.
Qed.

Lemma check_ext16_advanced p0 p :
  advanced 4 p0 p →
  runs check_extended_payload_len_16 p (λ _ q, advanced 5 p0 q).
Proof.
  intros Ha. apply (at_stage_advanced 4); [done..| |].
  - intros Hi Hs He. apply negb_true_iff, Nat.ltb_ge in He.
    runs_step. apply runs_consume; [done|lia|]. intros l u Hu Hl Hi' Hu'.
    runs_step. apply runs_consume; [done| |].
    { unfold remaining in *. cbn. lia. }
    intros r u2 Hu2 Hr Hi2 Hu2'.
    unfold set_payload_len, after_length, set_stage. runs_steps.
    destruct (with_length_spec _ (256 * l + r) u2 Hi2)
      as (Hi3 & Hr3 & Hx3); [cbn; congruence|unfold is_byte in *; lia|done|].
    rewrite lor_bytes by done.
    split_and!; [done|split; [done|]|by apply (Nat.lt_trans _ 5); [lia|]].
    intros ext. rewrite Hx3. unfold residual. rewrite Hs, Hu.
    by replace u with (r :: u2) by congruence.
  - intros Hi Hs He. apply negb_false_iff, Nat.ltb_lt in He.
    rewrite <-length_unread in He by done. unfold residual. rewrite Hs.
    destruct (unread p) as [|b [|b' u]]; cbn in *; done || lia.
Qed.

Lemma length_loop_runs n p bs u :
  Inv p → unread p = bs ++ u → length bs = n →
  runs (length_loop n) p (λ _ q, Inv q ∧
    q = at_len (at_ptr p (m_ptr p + n)) (len_acc (m_payload_len p) n bs)).
Proof.
  revert p bs. induction n as [|n IH]; intros p bs Hi Hu Hl.
  - destruct bs; [|done]. cbn [length_loop]. runs_step. split; [done|].
    unfold at_len, at_ptr. cbn. rewrite Nat.add_0_r. by destruct p.
  - destruct bs as [|b bs]; [done|]. cbn [length_loop].
    runs_step. eapply runs_eq; [by eapply consume_unread|].
    destruct (unread_cons _ _ _ Hi Hu) as (Hu' & Hi' & Hb).
    unfold set_payload_len. runs_steps.
    set (acc := Z.lor _ _).
    eapply runs_mono.
    { apply (IH (at_len (at_ptr p (m_ptr p + 1)) acc) bs); [|done|by injection Hl].
      apply Inv_at_len; [done|]. apply lor_nonneg; [apply Hi|apply u64_bound]. }
    cbn beta. intros _ q [Hq ->]. split; [done|].
    unfold at_len, at_ptr. cbn. by rewrite <-Nat.add_assoc.
Qed.

Lemma ext64_body_runs p :
  Inv p → 8 ≤ length (unread p) →
  runs (set_payload_len 0;; length_loop 8;; after_length) p (λ _ q,
    q = with_length (at_ptr p (m_ptr p + 8)) (code_len64 (take 8 (unread p)))).
Proof.
  intros Hi He. unfold set_payload_len. runs_steps.
  eapply runs_mono.
  { apply (length_loop_runs 8 (at_len p 0) (take 8 (unread p)) (drop 8 (unread p))).
    - by apply Inv_at_len.
    - by rewrite take_drop.
    - rewrite length_take. lia. }
  cbn beta. intros _ q [Hq ->]. unfold after_length, set_stage. by runs_steps.
Qed.

Lemma check_ext64_advanced p0 p :
  advanced 5 p0 p →
  runs check_extended_payload_len_64 p (λ _ q, advanced 6 p0 q).
Proof.
  intros Ha. apply (at_stage_advanced 5); [done..| |].
  - intros Hi Hs He. apply negb_true_iff, Nat.ltb_ge in He.
    rewrite <-length_unread in He by done.
    eapply runs_mono; [by apply ext64_body_runs|]. cbn beta. intros _ q ->.
    destruct (with_length_spec (at_ptr p (m_ptr p + 8))
      (code_len64 (take 8 (unread p))) (drop 8 (unread p)))
      as (Hi3 & Hr3 & Hx3).
    + apply Inv_at_ptr; [done|]. by rewrite <-length_unread.
    + cbn. congruence.
    + apply code_len64_nonneg.
    + apply unread_at_ptr.
    + split_and!; [done|split; [done|]|exact Hr3].
      intros ext. etransitivity; [exact (Hx3 ext)|]. unfold residual.
      rewrite Hs. unfold Rfc6455.d_len64.
      rewrite decide_True by (rewrite length_app; lia).
      by rewrite take_app_le, drop_app_le by lia.
  - intros Hi Hs He. apply negb_false_iff, Nat.ltb_lt in He.
    rewrite <-length_unread in He by done. unfold residual. rewrite Hs.
    unfold Rfc6455.d_len64. by rewrite decide_False by lia.
Qed.

Lemma key_loop_runs n i p bs u :
  Inv p → unread p = bs ++ u → length bs = n → i + n ≤ 4 →
  runs (key_loop n i) p (λ _ q, Inv q ∧
    q = at_key (at_ptr p (m_ptr p + n))
          (write_at i bs (Frame.masking_key (m_frame p)))).
Proof.
  revert i p bs. induction n as [|n IH]; intros i p bs Hi Hu Hl Hn.
  - destruct bs; [|done]. cbn [key_loop]. runs_step. split; [done|].
    unfold at_key, at_ptr, write_at. cbn. rewrite !Nat.add_0_r, take_drop.
    destruct p as [? [] ? ? ?]. done.
  - destruct bs as [|b bs]; [done|]. cbn [key_loop].
    runs_step. eapply runs_eq; [by eapply consume_unread|].
    destruct (unread_cons _ _ _ Hi Hu) as (Hu' & Hi' & Hb).
    pose proof (inv_key _ Hi) as Hk.
    unfold set_key, set_frame. runs_steps.
    eapply runs_mono.
    { apply (IH (S i) (at_key (at_ptr p (m_ptr p + 1))
        (<[i:=b]> (Frame.masking_key (m_frame p)))) bs);
        [|done|by injection Hl|lia].
      apply Inv_at_key; [done|]. by rewrite length_insert. }
    cbn beta. intros _ q [Hq ->]. split; [done|].
    cbn [length] in Hl. unfold at_key, at_ptr. cbn -[write_at].
    by rewrite <-Nat.add_assoc, write_at_cons by lia.
Qed.

Lemma check_masking_key_advanced p0 p :
  advanced 6 p0 p → runs check_masking_key p (λ _ q, advanced 7 p0 q).
Proof.
  intros Ha. apply (at_stage_advanced 6); [done..| |].
  - intros Hi Hs He. apply negb_true_iff, Nat.ltb_ge in He.
    rewrite <-length_unread in He by done.
    runs_step. eapply runs_mono.
    { apply (key_loop_runs 4 0 p (take 4 (unread p)) (drop 4 (unread p)));
        [done|by rewrite take_drop|rewrite length_take; lia|lia]. }
    cbn beta. intros _ q [Hq ->]. unfold set_stage. runs_steps.
    assert (write_at 0 (take 4 (unread p)) (Frame.masking_key (m_frame p))
            = take 4 (unread p)) as Hw.
    { unfold write_at. rewrite take_0, length_take.
      rewrite drop_ge by (rewrite (inv_key _ Hi); lia). by rewrite app_nil_r. }
    split_and!; [|split; [done|]|cbn; lia].
    + destruct Hq. split; cbn in *; try done. intros _. apply (inv_empty _ Hi).
      by rewrite Hs.
    + intros ext. pose proof (inv_masked _ Hi Hs) as Hm.
      unfold residual at 2. rewrite Hs. cbn -[unread residual write_at].
      rewrite unread_mk. unfold residual. cbn -[write_at]. rewrite Hm, Hw. unfold Rfc6455.d_key.
      rewrite decide_True by (rewrite length_app; lia).
      by rewrite take_app_le, drop_app_le by lia.
  - intros Hi Hs He. apply negb_false_iff, Nat.ltb_lt in He.
    rewrite <-length_unread in He by done. unfold residual. rewrite Hs.
    unfold Rfc6455.d_key. rewrite (inv_masked _ Hi Hs).
    by rewrite decide_False by lia.
Qed.

Lemma deref_unread p n :
  Inv p → n ≤ remaining p →
  deref p (View (m_ptr p) n) = take n (unread p).
Proof.
  intros Hi Hn. pose proof (inv_ptr _ Hi). unfold remaining in Hn.
  unfold deref, unread, FrameBuffer.view. cbn.
  unfold FrameBuffer.size in *.
  rewrite skipn_firstn_comm, take_take. f_equal. lia.
Qed.

Lemma check_payload_data_advanced p0 p :
  advanced 7 p0 p → runs check_payload_data p (λ _ q, advanced 8 p0 q).
Proof.
  intros Ha. apply (at_stage_advanced 7); [done..| |].
  - intros Hi Hs He. apply negb_true_iff, Z.ltb_ge in He.
    pose proof (inv_len _ Hi) as Hlen.
    assert (Frame.payload (m_frame p) = empty_view) as Hv.
    { apply (inv_empty _ Hi). by rewrite Hs. }
    assert (∀ ext, residual p (unread p ++ ext) = Some (
      Rfc6455.Wire (Frame.fin (m_frame p)) (Opcode.to_u8 (Frame.opcode (m_frame p)))
        (if Frame.mask (m_frame p) then Some (Frame.masking_key (m_frame p)) else None)
        (take (Z.to_nat (m_payload_len p)) (unread p)),
      drop (Z.to_nat (m_payload_len p)) (unread p) ++ ext)) as Hres.
    { intros ext. unfold residual. rewrite Hs. unfold Rfc6455.d_payload.
      rewrite <-length_unread in He by done. rewrite length_app.
      destruct (Z.ltb_spec (Z.of_nat (length (unread p) + length ext))
        (m_payload_len p)); [lia|].
      by rewrite take_app_le, drop_app_le by lia. }
    runs_steps. unfold set_stage.
    destruct (Z.eqb_spec (m_payload_len p) 0) as [Hz|Hnz]; runs_steps.
    + split_and!; [|split; [done|]|cbn; lia].
      * destruct Hi. by split.
      * intros ext. rewrite Hres, Hz. unfold residual, wire_of, deref.
        cbn. by rewrite Hv.
    + unfold set_payload, set_frame, set_ptr. runs_steps.
      set (n := Z.to_nat (m_payload_len p)) in *.
      assert (n ≤ remaining p) by lia.
      split_and!; [|split; [done|]|cbn; lia].
      * destruct (Inv_at_ptr p n); [done|done|].
        split; cbn in *; done || lia.
      * intros ext. rewrite Hres. cbn -[unread residual].
        rewrite unread_mk. unfold residual, wire_of. cbn -[deref].
        rewrite <-(deref_unread p n) by done. done.
  - intros Hi Hs He. apply negb_false_iff, Z.ltb_lt in He.
    rewrite <-length_unread in He by done. unfold residual. rewrite Hs.
    unfold Rfc6455.d_payload. by rewrite (proj2 (Z.ltb_lt _ _) He).
Qed.

(** What the checks together establish. *)
Definition parsed (p : t) (r : option (Frame.t string_view)) (q : t) : Prop :=
  Inv q ∧ same p q ∧
  match residual p (unread p) with
  | Some (w, rest) =>
      m_parse_stage q = DONE ∧ r = Some (m_frame q) ∧ wire_of q = w ∧
      unread q = rest
  | None => m_parse_stage q ≠ DONE ∧ r = None
  end.

Lemma parse_runs p : Inv p → runs parse p (parsed p).
Proof.
  intros Hi. unfold parse.
  assert (advanced 0 p p) as H0 by (split_and!; [done|apply same_refl|lia]).
  runs_step. eapply runs_mono; [by apply check_fin_bit_advanced|].
  cbn beta. intros _ p1 H1.
  runs_step. eapply runs_mono; [by apply check_opcode_advanced|].
  cbn beta. intros _ p2 H2.
  runs_step. eapply runs_mono; [by apply check_mask_bit_advanced|].
  cbn beta. intros _ p3 H3.
  runs_step. eapply runs_mono; [by apply check_payload_len_advanced|].
  cbn beta. intros _ p4 H4.
  runs_step. eapply runs_mono; [by apply check_ext16_advanced|].
  cbn beta. intros _ p5 H5.
  runs_step. eapply runs_mono; [by apply check_ext64_advanced|].
  cbn beta. intros _ p6 H6.
  runs_step. eapply runs_mono; [by apply check_masking_key_advanced|].
  cbn beta. intros _ p7 H7.
  runs_step. eapply runs_mono; [by apply check_payload_data_advanced|].
  cbn beta. intros _ q (Hi' & Hs & Hstuck).
  pose proof (proj2 Hs []) as Hres. rewrite !app_nil_r in Hres.
  runs_steps. unfold done.
  destruct (bool_decide_reflect (m_parse_stage q = DONE)) as [Hd|Hd];
    cbn [negb]; runs_step.
  - split_and!; [done..|]. rewrite <-Hres. unfold residual. by rewrite Hd.
  - split_and!; [done..|]. rewrite <-Hres, Hstuck; [done|].
    destruct (m_parse_stage q); cbn; lia || done.
Qed.

(** ** Tracking a stream *)

(** [p] stands for the bytes [pend]: a decoder that continues from [p] gives
    what decoding [pend] gives, however the stream goes on. A finished parser
    has consumed its frame; [pend] is then what follows it. *)
Definition tracks (p : t) (pend : list Z) : Prop :=
  Inv p ∧
  if decide (m_parse_stage p = DONE) then unread p = pend
  else ∀ ext, residual p (unread p ++ ext)
              = Rfc6455.decode code_len64 (pend ++ ext).

(** A parser stopped inside a frame has nothing complete to deliver. *)
Definition settled (p : t) (pend : list Z) : Prop :=
  m_parse_stage p ≠ DONE → m_parse_stage p ≠ FIN_BIT →
  Rfc6455.decode code_len64 pend = None.

(** The abstraction relation between parser states and pending bytes. *)
Definition represents (p : t) (pend : list Z) : Prop :=
  tracks p pend ∧ settled p pend.

(** What one [update] does, against the specification: it delivers the first
    frame of [bytes], if they hold one, and keeps the rest. *)
Definition delivers (bytes : list Z) (r : option (Frame.t string_view))
    (q : t) : Prop :=
  match Rfc6455.decode code_len64 bytes with
  | Some (w, rest) =>
      r = Some (m_frame q) ∧ wire_of q = w ∧ represents q rest
  | None => r = None ∧ represents q bytes
  end.

(** *** A parse step on a tracking, unfinished parser *)

Lemma parse_delivers p bytes :
  tracks p bytes → m_parse_stage p ≠ DONE → runs parse p (delivers bytes).
Proof.
  intros [Hi Ht] Hs. rewrite decide_False in Ht by done.
  eapply runs_mono; [by apply parse_runs|]. intros r q (Hi' & [_ Hsame] & Hp).
  pose proof (Ht []) as Hd. rewrite !app_nil_r in Hd.
  unfold delivers. rewrite <-Hd in *.
  destruct (residual p (unread p)) as [[w rest]|] eqn:Hres.
  - destruct Hp as (Hdone & -> & Hw & Hu). split_and!; [done..|].
    split; [|by intros ?]. split; [done|]. by rewrite decide_True.
  - destruct Hp as [Hnd ->]. split; [done|]. split.
    + split; [done|]. rewrite decide_False by done. intros ext.
      by rewrite Hsame.
    + intros _ _. by rewrite <-Hd.
Qed.

(** *** The shared tail of the three [update] methods *)

Definition update_tail (skip : t → bool) : M t (option (Frame.t string_view)) :=
  p ← get;
  if skip p then mret None
  else if remaining p =? 0 then mret None
  else parse.

Lemma nothing_unread p bytes :
  tracks p bytes → m_parse_stage p = FIN_BIT → remaining p = 0 →
  Rfc6455.decode code_len64 bytes = None.
Proof.
  intros [Hi Ht] Hs Hr. rewrite decide_False in Ht by congruence.
  pose proof (Ht []) as Hd. rewrite !app_nil_r in Hd. rewrite <-Hd.
  rewrite <-length_unread in Hr by done. unfold residual. rewrite Hs.
  by destruct (unread p).
Qed.

Lemma update_tail_delivers skip p bytes :
  tracks p bytes → m_parse_stage p ≠ DONE →
  (skip p = true → Rfc6455.decode code_len64 bytes = None) →
  (skip p = false → remaining p = 0 → m_parse_stage p = FIN_BIT) →
  runs (update_tail skip) p (delivers bytes).
Proof.
  intros Ht Hs Hskip Hrem. unfold update_tail. runs_step.
  eapply runs_eq; [reflexivity|]. cbn beta.
  destruct (skip p) eqn:Hsk.
  { runs_step. unfold delivers. rewrite Hskip by done.
    split; [done|split; [done|]]. intros _ _. by apply Hskip. }
  destruct (Nat.eqb_spec (remaining p) 0) as [Hr|Hr]; [|by apply parse_delivers].
  runs_step. unfold delivers.
  rewrite (nothing_unread p) by auto.
  split; [done|split; [done|]]. intros _ Hne. by rewrite Hrem in Hne.
Qed.

(** *** [reset] between frames *)

Lemma memmove_runs from n b :
  n ≤ from + n ≤ FrameBuffer.capacity b →
  runs (memmove_to_head from n) b (λ _ b',
    FrameBuffer.capacity b' = FrameBuffer.capacity b ∧
    take n (FrameBuffer.m_buf b') = take n (drop from (FrameBuffer.m_buf b))).
Proof.
  intros Hn. unfold memmove_to_head. runs_step.
  eapply runs_eq; [reflexivity|]. cbn beta. rewrite decide_True by lia.
  set (bs := take n (drop from (FrameBuffer.m_buf b))).
  assert (length bs = n) as Hl.
  { unfold bs, FrameBuffer.capacity in *. rewrite length_take, length_drop. lia. }
  unfold FrameBuffer.store. eapply runs_eq.
  { rewrite decide_True by (rewrite Hl; lia). reflexivity. }
  cbn [FrameBuffer.m_buf]. unfold FrameBuffer.capacity in *. cbn. split.
  - apply length_write_at. rewrite Hl. lia.
  - rewrite <-Hl at 1. change (length bs) with (0 + length bs).
    rewrite take_write_at by (rewrite Hl; lia). done.
Qed.

(** A parser at the start of a frame, with [u] unread from offset 0. *)
Definition fresh (b : FrameBuffer.t) : t := mk FIN_BIT empty_frame b 0 0.

Lemma fresh_Inv b u :
  FrameBuffer.wf b → FrameBuffer.view b = u → bytes_ok u →
  Inv (fresh b) ∧ unread (fresh b) = u.
Proof.
  intros Hw <- Hb. split; [|done].
  split; cbn; try done; lia.
Qed.

Lemma fresh_tracks b u :
  FrameBuffer.wf b → FrameBuffer.view b = u → bytes_ok u →
  tracks (fresh b) u.
Proof.
  intros Hw Hv Hb. destruct (fresh_Inv b u) as [Hi Hu]; [done..|].
  split; [done|]. rewrite decide_False by done. intros ext.
  unfold residual. by rewrite Hu.
Qed.

Lemma reset_runs p :
  Inv p →
  runs reset p (λ _ q, ∃ b, q = fresh b ∧ FrameBuffer.wf b ∧
    FrameBuffer.view b = unread p).
Proof.
  intros Hi. pose proof (inv_buffer _ Hi) as Hw. pose proof (inv_ptr _ Hi) as Hp.
  unfold FrameBuffer.wf, FrameBuffer.size in *.
  unfold reset. runs_step. eapply runs_eq; [reflexivity|]. cbn beta.
  unfold on_buffer, set_ptr, set_frame, set_payload_len, set_stage,
    FrameBuffer.reset, FrameBuffer.claim_space.
  destruct (Nat.ltb_spec 0 (remaining p)) as [Hr|Hr]; runs_steps.
  - eapply runs_mono.
    { apply (memmove_runs (m_ptr p) (remaining p)).
      unfold remaining, FrameBuffer.size. lia. }
    cbn beta. intros _ b [Hc Ht]. runs_steps.
    eexists. split; [reflexivity|]. unfold FrameBuffer.wf, FrameBuffer.view.
    cbn -[remaining]. unfold FrameBuffer.capacity in *. cbn -[remaining].
    rewrite Hc, Ht. split.
    + unfold remaining, FrameBuffer.size. lia.
    + unfold unread, FrameBuffer.view. rewrite skipn_firstn_comm. done.
  - eexists. split; [reflexivity|]. unfold FrameBuffer.wf, FrameBuffer.view.
    cbn. split; [lia|]. rewrite take_0. symmetry. apply nil_length_inv.
    rewrite length_unread by done. lia.
Qed.

Lemma unread_bytes p : Inv p → bytes_ok (unread p).
Proof. intros Hi. apply Forall_drop, Hi. Qed.

(** [if (done()) reset();] *)
Lemma reset_if_done_runs p bytes :
  tracks p bytes →
  runs (when (done p) reset) p (λ _ q, tracks q bytes ∧ m_parse_stage q ≠ DONE ∧
    (m_parse_stage p ≠ DONE → q = p) ∧
    (m_parse_stage p = DONE → m_parse_stage q = FIN_BIT)).
Proof.
  intros Ht. unfold done. destruct (bool_decide_reflect (m_parse_stage p = DONE)) as [Hd|Hd]; cbn [when].
  - destruct Ht as [Hi Hu]. rewrite decide_True in Hu by done.
    eapply runs_mono; [by apply reset_runs|]. cbn beta.
    intros _ q (b & -> & Hw & Hv). split_and!; [|done|done|done].
    apply fresh_tracks; [done|congruence|]. rewrite <-Hu. by apply unread_bytes.
  - runs_step. by split_and!.
Qed.

(** *** New bytes in the buffer *)

Definition with_buffer (p : t) (b : FrameBuffer.t) : t :=
  mk (m_parse_stage p) (m_frame p) b (m_payload_len p) (m_ptr p).

Lemma with_buffer_unread p b' c :
  Inv p → FrameBuffer.extended (m_frame_buffer p) c b' → bytes_ok c →
  Inv (with_buffer p b') ∧ unread (with_buffer p b') = unread p ++ c.
Proof.
  intros Hi [Hw Hv] Hc. pose proof (inv_ptr _ Hi) as Hp.
  pose proof (FrameBuffer.length_view _ (inv_buffer _ Hi)) as Hl.
  pose proof (FrameBuffer.length_view _ Hw) as Hl'.
  unfold FrameBuffer.size in *. split.
  - pose proof (inv_bytes _ Hi). destruct Hi. split; cbn; try done.
    + rewrite Hv. by apply Forall_app.
    + unfold FrameBuffer.size. rewrite <-Hl', Hv, length_app. lia.
  - unfold unread. cbn. rewrite Hv, drop_app_le by lia. done.
Qed.

Lemma tracks_append p pend b' c :
  tracks p pend → FrameBuffer.extended (m_frame_buffer p) c b' → bytes_ok c →
  tracks (with_buffer p b') (pend ++ c).
Proof.
  intros [Hi Ht] He Hc. destruct (with_buffer_unread p b' c) as [Hi' Hu]; [done..|].
  split; [done|]. cbn [with_buffer m_parse_stage]. rewrite Hu.
  destruct (decide (m_parse_stage p = DONE)) as [Hd|Hd].
  - by rewrite Ht.
  - intros ext. rewrite <-!app_assoc, <-Ht. unfold residual. cbn.
    by destruct (m_parse_stage p).
Qed.

Lemma push_back_extends p c :
  Inv p → c ≠ [] →
  runs (on_buffer (FrameBuffer.push_back_view c)) p (λ _ q,
    ∃ b', q = with_buffer p b' ∧ FrameBuffer.extended (m_frame_buffer p) c b').
Proof.
  intros Hi Hc. unfold on_buffer. runs_step.
  eapply runs_mono; [by apply FrameBuffer.push_back_view_runs; [apply Hi|]|].
  cbn beta. intros _ b' (Hw & Hv & _). by exists b'.
Qed.

(** ** The refinement: [update] implements [decode] *)

Lemma update_view_delivers p pend c :
  represents p pend → bytes_ok c →
  runs (update_view c) p (delivers (pend ++ c)).
Proof.
  intros [Ht Hset] Hc. unfold update_view, update_with.
  runs_step. eapply runs_eq; [reflexivity|]. cbn beta.
  runs_step. eapply runs_mono; [by apply reset_if_done_runs|]. cbn beta.
  intros _ q (Htq & Hnd & Hsame & Hfin).
  assert (settled q pend) as Hsq.
  { intros _ Hne. apply Hset.
    - intros Hd. apply Hne. auto.
    - intros Hf. rewrite Hsame in Hne by congruence. done. }
  runs_step. eapply runs_eq; [reflexivity|]. cbn beta.
  destruct (Nat.eqb_spec (length c) 0) as [Hl|Hl]; cbn [negb].
  - apply nil_length_inv in Hl as ->. rewrite app_nil_r.
    apply (update_tail_delivers (λ q, bool_decide (m_parse_stage q ≠ FIN_BIT)) q);
      [done..| |].
    + intros Hb. apply Hsq; [done|]. by apply bool_decide_eq_true in Hb.
    + intros Hb _. apply bool_decide_eq_false in Hb. by apply dec_stable.
  - runs_step. eapply runs_mono.
    { apply push_back_extends; [apply Htq|]. by intros ->. }
    cbn beta. intros _ q' (b' & -> & He).
    pose proof (tracks_append _ _ _ _ Htq He Hc) as Ht'.
    apply (update_tail_delivers (λ _, false)); [done..|].
    intros _ Hr. exfalso.
    destruct (with_buffer_unread q b' c) as [Hi' Hu]; [apply Htq|done..|].
    rewrite <-length_unread, Hu, length_app in Hr by done. lia.
Qed.

Lemma update_delivers p pend b' c :
  represents p pend → bytes_ok c → FrameBuffer.extended (m_frame_buffer p) c b' →
  runs (update (negb (length c =? 0))) (with_buffer p b') (delivers (pend ++ c)).
Proof.
  intros [Ht Hset] Hc He. pose proof (tracks_append _ _ _ _ Ht He Hc) as Ht'.
  unfold update. runs_step. eapply runs_eq; [reflexivity|]. cbn beta.
  runs_step. eapply runs_mono; [by apply reset_if_done_runs|]. cbn beta.
  intros _ q (Htq & Hnd & Hsame & Hfin). cbn [with_buffer m_parse_stage] in *.
  apply (update_tail_delivers (λ q, negb (negb (length c =? 0)) &&
    bool_decide (m_parse_stage q ≠ FIN_BIT)) q); [done..| |].
  - rewrite negb_involutive. intros [Hl Hb]%andb_prop.
    apply Nat.eqb_eq, nil_length_inv in Hl as ->. rewrite app_nil_r in *.
    apply bool_decide_eq_true in Hb. apply Hset; intros Hs.
    + apply Hb. auto.
    + rewrite Hsame in Hb by congruence. done.
  - rewrite negb_involutive. intros Hsk Hr.
    destruct (decide (m_parse_stage p = DONE)) as [Hd|Hd]; [auto|].
    rewrite Hsame in Hsk, Hr |- * by done. cbn [with_buffer m_parse_stage] in *.
    destruct (with_buffer_unread p b' c) as [Hi' Hu]; [apply Ht|done..|].
    rewrite <-length_unread, Hu, length_app in Hr by done.
    apply andb_false_iff in Hsk as [Hsk|Hsk].
    + apply Nat.eqb_neq in Hsk. lia.
    + apply bool_decide_eq_false in Hsk. by apply dec_stable.
Qed.

(** [clear] forgets everything received. *)
Lemma clear_represents p : runs clear p (λ _ q, represents q []).
Proof.
  unfold clear, on_buffer, FrameBuffer.reset, set_ptr, set_frame, set_payload_len,
    set_stage. runs_steps.
  split; [|by intros ? []]. apply fresh_tracks; [|done|constructor].
  unfold FrameBuffer.wf. cbn. lia.
Qed.

Lemma new_represents junk :
  length (Frame.masking_key junk) = 4 → represents (new junk) [].
Proof.
  intros Hk. split; [|by intros ? []]. split.
  - split; cbn; try done; try lia.
    + apply FrameBuffer.new_buffer_wf.
    + constructor.
  - by rewrite decide_False.
Qed.

End Residual.
