(* ===== verification/ParserTypes.v ===== *)
(** The types of the frame parser's members at run time: every cell of the
    buffer and of the key is a byte, the payload length a 64-bit integer, the
    opcode a nibble once it was read, the payload a view of exactly the
    announced length inside the received bytes. Every public method keeps
    them, and what it returns is typed. *)

From S2P Require Import Prelude Buffer Rfc6455 Frames Parser ParserSpec.
Import FrameParser.

(** [Q] after [m], if it returns. *)
Definition after {S A} (m : M S A) (s : S) (Q : A → S → Prop) : Prop :=
  ∀ a s', m s = (Ok a, s') → Q a s'.

Section After.
Context {S : Type}.

Lemma after_bind {A B} (m : M S A) (f : A → M S B) s (Q : B → S → Prop) :
  after m s (λ a s', after (f a) s' Q) → after (m ≫= f) s Q.
Proof.
  unfold after, mbind, M_bind. intros H b s''.
  destruct (m s) as [[a|e|u|] s'] eqn:Hm; try done. by apply H.
Qed.

Lemma after_ret {A} (a : A) s (Q : A → S → Prop) : Q a s → after (mret a) s Q.
Proof. by intros HQ a' s' [= <- <-]. Qed.

Lemma after_gets {A} (f : S → A) s (Q : A → S → Prop) : Q (f s) s → after (gets f) s Q.
Proof. by intros HQ a' s' [= <- <-]. Qed.

Lemma after_modify (f : S → S) s (Q : unit → S → Prop) : Q tt (f s) → after (modify f) s Q.
Proof. by intros HQ a' s' [= <- <-]. Qed.

Lemma after_mono {A} (m : M S A) s (Q R : A → S → Prop) :
  after m s Q → (∀ a s', Q a s' → R a s') → after m s R.
Proof. intros Hm HR a s' H. apply HR. by apply Hm. Qed.

Lemma after_zoom {T A} (prj : S → T) (upd : T → S → S) (m : M T A) s (Q : A → S → Prop) :
  after m (prj s) (λ a t, Q a (upd t s)) → after (zoom prj upd m) s Q.
Proof.
  unfold after, zoom. intros H a s'. destruct (m (prj s)) as [o t] eqn:Hm.
  intros [= -> <-]. by apply H.
Qed.

(** What [runs] establishes, [after] may add to. *)
Lemma runs_after {A} (m : M S A) s (Q R : A → S → Prop) :
  runs m s Q → after m s R → runs m s (λ a s', Q a s' ∧ R a s').
Proof. intros (a & s' & Hm & HQ) HR. exists a, s'. eauto. Qed.
End After.

(** A member frame: the key's cells are bytes, the opcode a value of its
    [uint8_t]. *)
Record cells_ok (f : Frame.t string_view) : Prop := {
  cells_key : length (Frame.masking_key f) = 4 ∧ bytes_ok (Frame.masking_key f);
  cells_opcode : is_byte (Opcode.to_u8 (Frame.opcode f)) ∧ Opcode.wf (Frame.opcode f)
}.

(** A parsed frame, its payload the bytes of the view. *)
Record frame_typed (f : Frame.t (list Z)) : Prop := {
  frame_key : length (Frame.masking_key f) = 4 ∧ bytes_ok (Frame.masking_key f);
  frame_opcode : (0 ≤ Opcode.to_u8 (Frame.opcode f) < 16)%Z ∧ Opcode.wf (Frame.opcode f);
  frame_payload : bytes_ok (Frame.payload f)
}.

(** The part of the typing that a step keeps by itself. *)
Record loose (p : t) : Prop := {
  loose_cells : bytes_ok (FrameBuffer.m_buf (m_frame_buffer p));
  loose_frame : cells_ok (m_frame p);
  loose_len : (0 ≤ m_payload_len p < 2 ^ 64)%Z;
  loose_nibble : 1 < rank (m_parse_stage p) → (Opcode.to_u8 (Frame.opcode (m_frame p)) < 16)%Z;
  loose_payload : Z.of_nat (sv_len (Frame.payload (m_frame p)))
                  = if decide (m_parse_stage p = DONE) then m_payload_len p else 0%Z
}.

(** The typing: with [Inv], the positions are inside the buffer as well. *)
Definition typed (p : t) : Prop := Inv p ∧ loose p.

(** [m] keeps it; what it returns satisfies [Q]. *)
Definition loosely {A} (m : M t A) (Q : A → Prop) (p : t) : Prop :=
  after m p (λ a q, loose q ∧ Q a).

Lemma of_nibble b :
  (0 ≤ b mod 16 < 16)%Z ∧ Opcode.wf (Opcode.of_u8 (b mod 16)).
Proof.
  split; [by apply Z.mod_pos_bound|]. unfold Opcode.wf. by rewrite Opcode.to_of_u8.
Qed.

Lemma read_typed p : loose p → after read p (λ b q, q = p ∧ is_byte b).
Proof.
  intros [Hb _ _ _ _] b q. unfold read.
  destruct (_ !! _) as [x|] eqn:Hx; [|done]. intros [= <- <-].
  split; [done|]. by eapply Forall_lookup_1.
Qed.

Lemma consume_typed p :
  loose p → after consume p (λ b q, q = at_ptr p (m_ptr p + 1) ∧ is_byte b).
Proof.
  intros Hp. apply after_bind. eapply after_mono; [by apply read_typed|]. cbn beta.
  intros b _ [-> Hb]. apply after_bind, after_gets, after_bind, after_modify, after_ret.
  done.
Qed.

Lemma loose_at_ptr p n : loose p → loose (at_ptr p n).
Proof. intros []. by split. Qed.

Lemma lor_u64 a b : (0 ≤ a < 2 ^ 64)%Z → (0 ≤ b < 2 ^ 64)%Z → (0 ≤ Z.lor a b < 2 ^ 64)%Z.
Proof.
  intros Ha Hb. split; [apply Z.lor_nonneg; lia|].
  assert (∀ z, (0 ≤ z < 2 ^ 64)%Z → Z.land z (Z.ones 64) = z) as Hm.
  { intros z Hz. rewrite Z.land_ones by lia. by apply Z.mod_small. }
  rewrite <-(Hm a), <-(Hm b), <-Z.land_lor_distr_l by done.
  rewrite Z.land_ones by lia. by apply Z.mod_pos_bound.
Qed.

Section Typing.
Context `{Target}.

(** A check that may assume its stage. *)
Lemma at_stage_typed s enough m p :
  loose p → (m_parse_stage p = s → enough p = true → after m p (λ _, loose)) →
  after (at_stage s enough m) p (λ _, loose).
Proof.
  intros Hp Hm. apply after_bind, after_gets.
  destruct (bool_decide_reflect (m_parse_stage p ≠ s)) as [|Hs%dec_stable]; cbn [orb];
    [by apply after_ret|].
  destruct (enough p); cbn [negb]; [by apply Hm|by apply after_ret].
Qed.

Lemma check_fin_bit_typed p : loose p → after check_fin_bit p (λ _, loose).
Proof.
  intros Hp. apply at_stage_typed; [done|]. intros Hs _.
  apply after_bind. eapply after_mono; [by apply read_typed|]. cbn beta.
  intros b _ [-> Hb]. apply after_bind, after_modify, after_modify.
  destruct Hp as [? [] ? ? Hl]. rewrite Hs, decide_False in Hl by done.
  split; cbn; try done. lia.
Qed.

Lemma check_opcode_typed p : loose p → after check_opcode p (λ _, loose).
Proof.
  intros Hp. apply at_stage_typed; [done|]. intros Hs _.
  apply after_bind. eapply after_mono; [by apply consume_typed|]. cbn beta.
  intros b _ [-> Hb]. apply after_bind, after_modify, after_modify.
  destruct Hp as [? [] ? ? Hl]. rewrite Hs, decide_False in Hl by done.
  destruct (of_nibble b) as [Hn Hw]. rewrite land_0f.
  split; cbn; rewrite ?Opcode.to_of_u8; try done; [|lia].
  split; cbn; [done|]. rewrite Opcode.to_of_u8. unfold is_byte. split; [lia|done].
Qed.

Lemma check_mask_bit_typed p : loose p → after check_mask_bit p (λ _, loose).
Proof.
  intros Hp. apply at_stage_typed; [done|]. intros Hs _.
  apply after_bind. eapply after_mono; [by apply read_typed|]. cbn beta.
  intros b _ [-> Hb]. apply after_bind, after_modify, after_modify.
  destruct Hp as [? [] ? Hn Hl]. rewrite Hs in Hn, Hl. rewrite decide_False in Hl by done.
  split; cbn in *; try done. intros _. apply Hn. lia.
Qed.

(** The steps to a later stage, from one where the opcode is known. *)
Lemma stage_typed p s n :
  loose p → 1 < rank (m_parse_stage p) → m_parse_stage p ≠ DONE → s ≠ DONE →
  (0 ≤ n < 2 ^ 64)%Z → loose (mk s (m_frame p) (m_frame_buffer p) n (m_ptr p)).
Proof.
  intros [? ? ? Hn Hl] Hr Hd Hs Hb. rewrite decide_False in Hl by done.
  split; cbn; try done; [auto|]. by rewrite decide_False.
Qed.

Lemma after_length_typed p :
  loose p → 1 < rank (m_parse_stage p) → m_parse_stage p ≠ DONE →
  after after_length p (λ _, loose).
Proof.
  intros Hp Hr Hd. apply after_bind, after_gets, after_modify.
  apply stage_typed; try done; [by destruct (Frame.mask _)|apply Hp].
Qed.

Lemma set_len_typed p n :
  loose p → m_parse_stage p ≠ DONE → (0 ≤ n < 2 ^ 64)%Z → loose (at_len p n).
Proof.
  intros [? ? ? ? Hl] Hd Hn. rewrite decide_False in Hl by done.
  split; cbn; try done. by rewrite decide_False.
Qed.

Lemma check_payload_len_typed p : loose p → after check_payload_len p (λ _, loose).
Proof.
  intros Hp. apply at_stage_typed; [done|]. intros Hs _.
  apply after_bind. eapply after_mono; [by apply consume_typed|]. cbn beta.
  intros b _ [-> Hb]. pose proof (loose_at_ptr p (m_ptr p + 1) Hp) as Hp'.
  assert (m_parse_stage (at_ptr p (m_ptr p + 1)) = PAYLOAD_LEN) as Hs' by done.
  assert (∀ s, s ≠ DONE → after (set_stage s) (at_ptr p (m_ptr p + 1)) (λ _, loose)) as Hset.
  { intros s Hs1. apply after_modify, stage_typed; rewrite ?Hs'; try done; try (cbn; lia).
    apply Hp'. }
  cbv zeta. destruct (_ =? 126)%Z; [by apply Hset|]. destruct (_ =? 127)%Z; [by apply Hset|].
  apply after_bind, after_modify. rewrite land_7f.
  pose proof (Z.mod_pos_bound b 128 ltac:(lia)).
  apply after_length_typed; [|cbn; rewrite Hs; cbn; lia|cbn; by rewrite Hs].
  apply (set_len_typed (at_ptr _ _)); [done|cbn; by rewrite Hs|lia].
Qed.

Lemma check_ext16_typed p : loose p → after check_extended_payload_len_16 p (λ _, loose).
Proof.
  intros Hp. apply at_stage_typed; [done|]. intros Hs _.
  apply after_bind. eapply after_mono; [by apply consume_typed|]. cbn beta.
  intros l _ [-> Hl]. apply after_bind.
  eapply after_mono; [by apply consume_typed, loose_at_ptr|]. cbn beta.
  intros r _ [-> Hr]. apply after_bind, after_modify. unfold is_byte in Hl, Hr.
  apply after_length_typed; [|cbn; rewrite Hs; cbn; lia|cbn; by rewrite Hs].
  apply (set_len_typed (at_ptr _ _)); cbn; [by do 2 apply loose_at_ptr|by rewrite Hs|].
  apply lor_u64; [apply u64_bound|lia].
Qed.

Lemma length_loop_typed n p :
  loose p → m_parse_stage p = EXTENDED_PAYLOAD_LEN_64 →
  after (length_loop n) p (λ _ q, loose q ∧ m_parse_stage q = EXTENDED_PAYLOAD_LEN_64).
Proof.
  revert p. induction n as [|n IH]; intros p Hp Hs; cbn [length_loop]; [by apply after_ret|].
  apply after_bind. eapply after_mono; [by apply consume_typed|]. cbn beta.
  intros b _ [-> Hb]. apply after_bind, after_gets, after_bind, after_modify, IH; [|done].
  apply (set_len_typed (at_ptr _ _)); cbn; [by apply loose_at_ptr|by rewrite Hs|].
  apply lor_u64; [apply Hp|apply u64_bound].
Qed.

Lemma check_ext64_typed p : loose p → after check_extended_payload_len_64 p (λ _, loose).
Proof.
  intros Hp. apply at_stage_typed; [done|]. intros Hs _.
  apply after_bind, after_modify, after_bind.
  eapply after_mono; [apply length_loop_typed; [|done]|].
  - apply (set_len_typed p); [done|by rewrite Hs|lia].
  - cbn beta. intros _ q [Hq Hsq]. apply after_length_typed; rewrite ?Hsq; try done; cbn; lia.
Qed.

Lemma key_loop_typed n i p :
  loose p → m_parse_stage p = MASKING_KEY →
  after (key_loop n i) p (λ _ q, loose q ∧ m_parse_stage q = MASKING_KEY).
Proof.
  revert i p. induction n as [|n IH]; intros i p Hp Hs; cbn [key_loop]; [by apply after_ret|].
  apply after_bind. eapply after_mono; [by apply consume_typed|]. cbn beta.
  intros b _ [-> Hb]. apply after_bind, after_gets, after_bind, after_modify, IH; [|done].
  destruct Hp as [? [[Hk Hkb] ?] ? ? ?]. split; cbn; try done.
  split; cbn; [|done]. rewrite length_insert. split; [done|]. by apply Forall_insert.
Qed.

Lemma check_masking_key_typed p : loose p → after check_masking_key p (λ _, loose).
Proof.
  intros Hp. apply at_stage_typed; [done|]. intros Hs _.
  apply after_bind. eapply after_mono; [by apply key_loop_typed|]. cbn beta.
  intros _ q [Hq Hsq]. apply after_modify, stage_typed; rewrite ?Hsq; try done; try (cbn; lia).
  apply Hq.
Qed.

Lemma check_payload_data_typed p : loose p → after check_payload_data p (λ _, loose).
Proof.
  intros Hp. apply at_stage_typed; [done|]. intros Hs _.
  destruct Hp as [? [] Hn Hnib Hl]. rewrite Hs in Hnib, Hl. rewrite decide_False in Hl by done.
  specialize (Hnib ltac:(cbn; lia)).
  apply after_bind, after_gets. destruct (Z.eqb_spec (m_payload_len p) 0) as [Hz|Hz].
  - apply after_modify. split; cbn; try done. by rewrite Hl, Hz.
  - apply after_bind, after_modify, after_bind, after_modify, after_modify.
    split; cbn; try done. rewrite Z2Nat.id by lia. done.
Qed.

(** A result comes from a finished parser. *)
Definition finished (r : option (Frame.t string_view)) (q : t) : Prop :=
  ∀ f, r = Some f → m_parse_stage q = DONE.

Lemma parse_typed p : loose p → after parse p (λ r q, loose q ∧ finished r q).
Proof.
  intros Hp. unfold parse.
  do 8 (apply after_bind; eapply after_mono;
    [first [by apply check_fin_bit_typed|by apply check_opcode_typed
           |by apply check_mask_bit_typed|by apply check_payload_len_typed
           |by apply check_ext16_typed|by apply check_ext64_typed
           |by apply check_masking_key_typed|by apply check_payload_data_typed]|];
    cbn beta; clear dependent p; intros _ p Hp).
  apply after_bind, after_gets. unfold done.
  destruct (bool_decide_reflect (m_parse_stage p = DONE)); apply after_ret;
    split; (done || by intros f).
Qed.

(** ** The buffer's cells *)

Definition bytes_in (b : FrameBuffer.t) : Prop := bytes_ok (FrameBuffer.m_buf b).

Definition keeps_bytes {A} (m : M FrameBuffer.t A) : Prop :=
  ∀ b, bytes_in b → after m b (λ _, bytes_in).

Lemma keeps_bytes_bind {A B} (m : M FrameBuffer.t A) (f : A → M FrameBuffer.t B) :
  keeps_bytes m → (∀ a, keeps_bytes (f a)) → keeps_bytes (m ≫= f).
Proof.
  intros Hm Hf b Hb. apply after_bind. eapply after_mono; [by apply Hm|].
  cbn beta. intros a b' Hb'. by apply Hf.
Qed.

Lemma bytes_write off bs mem : bytes_ok bs → bytes_ok mem → bytes_ok (write_at off bs mem).
Proof.
  intros Hb Hm. unfold write_at.
  repeat (apply Forall_app; split); [by apply Forall_take|done|by apply Forall_drop].
Qed.

Lemma store_bytes off bs : bytes_ok bs → keeps_bytes (FrameBuffer.store off bs).
Proof.
  intros Hbs b Hb a b'. unfold FrameBuffer.store. case_decide; [|done].
  intros [= <- <-]. by apply bytes_write.
Qed.

Lemma ensure_bytes n : keeps_bytes (FrameBuffer.ensure_extra_space n).
Proof.
  intros b Hb. apply after_bind, after_gets, after_modify. destruct (_ <? _); [|done].
  apply Forall_app. split; [done|]. apply Forall_replicate. unfold is_byte. lia.
Qed.

Lemma get_space_bytes n : keeps_bytes (FrameBuffer.get_space n).
Proof.
  intros b Hb. apply after_bind, after_gets. case_decide; [|by intros ? ?].
  by apply after_bind, after_modify, after_ret.
Qed.

Lemma push_bytes bs : bytes_ok bs → keeps_bytes (FrameBuffer.push_back_view bs).
Proof.
  intros Hbs. apply keeps_bytes_bind; [apply ensure_bytes|]. intros _.
  apply keeps_bytes_bind; [apply get_space_bytes|]. intros off. by apply store_bytes.
Qed.

Lemma memmove_bytes from n : keeps_bytes (memmove_to_head from n).
Proof.
  intros b Hb. apply after_bind, after_gets. case_decide; [|by intros ? ?].
  apply store_bytes; [|done]. by apply Forall_take, Forall_drop.
Qed.

Lemma on_buffer_bytes {A} (m : M FrameBuffer.t A) p :
  keeps_bytes m → loose p → after (on_buffer m) p (λ _, loose).
Proof.
  intros Hm [Hb ? ? ? ?]. apply after_zoom. eapply after_mono; [by apply Hm|].
  cbn beta. intros _ b Hb'. by split.
Qed.

(** ** [reset] and [clear] *)

Lemma emptied_typed p :
  bytes_in (m_frame_buffer p) →
  after (set_frame (λ _, empty_frame);; set_payload_len 0;; set_stage FIN_BIT) p
    (λ _ q, loose q).
Proof.
  intros Hb. apply after_bind, after_modify, after_bind, after_modify, after_modify.
  split; cbn; try done.
  split; cbn; [split; [done|]|split; [unfold is_byte; lia|done]].
  repeat constructor; unfold is_byte; lia.
Qed.

Lemma moved_bytes {A B} (m : M FrameBuffer.t A) (k : A → M t B) p (Q : B → t → Prop) :
  keeps_bytes m → bytes_in (m_frame_buffer p) →
  (∀ a q, bytes_in (m_frame_buffer q) → after (k a) q Q) →
  after (on_buffer m ≫= k) p Q.
Proof.
  intros Hm Hp Hk. apply after_bind, after_zoom. eapply after_mono; [by apply Hm|].
  cbn beta. intros a b Hb. by apply Hk.
Qed.

Lemma buffer_reset_bytes : keeps_bytes FrameBuffer.reset.
Proof. intros b Hb. by apply after_modify. Qed.

Lemma claim_bytes n : keeps_bytes (FrameBuffer.claim_space n).
Proof. intros b Hb. by apply after_modify. Qed.

Lemma clear_typed p : loose p → after clear p (λ _, loose).
Proof.
  intros Hp. apply moved_bytes; [apply buffer_reset_bytes|apply Hp|]. intros _ q Hq.
  apply after_bind, after_modify. by apply emptied_typed.
Qed.

Lemma reset_typed p : loose p → after reset p (λ _, loose).
Proof.
  intros Hp. apply after_bind, after_gets, after_bind. destruct (0 <? remaining p).
  - cbv zeta. apply moved_bytes; [apply memmove_bytes|apply Hp|]. intros _ q Hq.
    apply moved_bytes; [apply buffer_reset_bytes|done|]. intros _ q1 Hq1.
    apply moved_bytes; [apply claim_bytes|done|]. intros _ q2 Hq2.
    apply after_modify. by apply emptied_typed.
  - apply moved_bytes; [apply buffer_reset_bytes|apply Hp|]. intros _ q Hq.
    apply after_modify. by apply emptied_typed.
Qed.

Lemma reset_if_done_typed p : loose p → after (when (done p) reset) p (λ _, loose).
Proof. intros Hp. destruct (done p); [by apply reset_typed|by apply after_ret]. Qed.

(** ** [update] *)

Lemma finished_none q : finished None q.
Proof. by intros f. Qed.

#[local] Hint Resolve finished_none : core.

Lemma update_view_typed bs p :
  bytes_ok bs → loose p → after (update_view bs) p (λ r q, loose q ∧ finished r q).
Proof.
  intros Hbs Hp. apply after_bind, after_gets, after_bind.
  eapply after_mono; [by apply reset_if_done_typed|]. cbn beta. intros _ q Hq.
  apply after_bind, after_gets. destruct (negb (length bs =? 0)).
  - apply after_bind. eapply after_mono; [by apply on_buffer_bytes; [apply push_bytes|]|].
    cbn beta. intros _ q1 Hq1. apply after_bind, after_gets.
    destruct (_ =? 0); [by apply after_ret|by apply parse_typed].
  - destruct (bool_decide _); [by apply after_ret|].
    destruct (_ =? 0); [by apply after_ret|by apply parse_typed].
Qed.

Lemma update_typed b p :
  loose p → after (update b) p (λ r q, loose q ∧ finished r q).
Proof.
  intros Hp. apply after_bind, after_gets, after_bind.
  eapply after_mono; [by apply reset_if_done_typed|]. cbn beta. intros _ q Hq.
  apply after_bind, after_gets. destruct (_ && _); [by apply after_ret|].
  destruct (_ =? 0); [by apply after_ret|by apply parse_typed].
Qed.

(** ** The public methods *)

(** What a reader does through [frame_buffer()]: at most [n] bytes are stored
    at the tail and claimed. *)
Definition fill (n : nat) (bs : list Z) : M FrameBuffer.t unit :=
  FrameBuffer.ensure_extra_space n;;
  off ← FrameBuffer.tail;
  FrameBuffer.store off bs;;
  FrameBuffer.claim_space (length bs).

(** One use of the parser; [Receive] is [update(new_data)] on the parser's own
    buffer, filled by the caller. *)
Inductive call : Type :=
  | Update_view (bs : list Z)
  | Update_string (bs : list Z)
  | Receive (n : nat) (bs : list Z)
  | Clear.

Definition call_ok (c : call) : Prop :=
  match c with
  | Update_view bs | Update_string bs => bytes_ok bs
  | Receive n bs => 0 < n ∧ length bs ≤ n ∧ bytes_ok bs
  | Clear => True
  end.

Definition perform (c : call) : M t (option (Frame.t string_view)) :=
  match c with
  | Update_view bs => update_view bs
  | Update_string bs => update_string bs
  | Receive n bs => on_buffer (fill n bs);; update (negb (length bs =? 0))
  | Clear => clear;; mret None
  end.

(** A sequence of uses, and the frames they return, with their bytes. *)
Fixpoint use (cs : list call) : M t (list (Frame.t (list Z))) :=
  match cs with
  | [] => mret []
  | c :: cs =>
      r ← perform c;
      p ← get;
      let fs := match r with
                | Some f => [Frame.mk (Frame.fin f) (Frame.mask f) (Frame.opcode f)
                               (Frame.masking_key f) (deref p (Frame.payload f))]
                | None => []
                end in
      fs' ← use cs;
      mret (fs ++ fs')
  end.

Lemma fill_bytes n bs : bytes_ok bs → keeps_bytes (fill n bs).
Proof.
  intros Hbs. apply keeps_bytes_bind; [apply ensure_bytes|]. intros _.
  apply keeps_bytes_bind.
  { intros b Hb. apply after_bind, after_gets. case_decide; [by apply after_ret|by intros ? ?]. }
  intros off. apply keeps_bytes_bind; [by apply store_bytes|]. intros _. apply claim_bytes.
Qed.

Lemma fill_extends n bs b :
  0 < n → length bs ≤ n → FrameBuffer.wf b →
  runs (fill n bs) b (λ _ b', FrameBuffer.extended b bs b').
Proof.
  intros Hn Hl Hw. unfold fill. runs_step.
  eapply runs_mono; [apply FrameBuffer.ensure_extra_space_runs|]. cbn beta.
  intros _ b' He. destruct (FrameBuffer.ensured_view _ _ _ Hw He) as [Hw' Hv].
  destruct He as (Hp & Hs & Hc & _). unfold FrameBuffer.tail. runs_steps.
  rewrite decide_True by lia. runs_steps. unfold FrameBuffer.store. eapply runs_eq.
  { rewrite decide_True by lia. reflexivity. }
  unfold FrameBuffer.claim_space. runs_steps. cbn [FrameBuffer.m_buf FrameBuffer.m_ptr].
  split.
  - unfold FrameBuffer.wf, FrameBuffer.capacity in *. cbn. rewrite length_write_at; lia.
  - rewrite FrameBuffer.append_view by lia. by rewrite Hv.
Qed.

(** Each use, from a parser that stands for some bytes. *)
Lemma perform_represents c p pend :
  call_ok c → represents p pend → bytes_ok pend →
  runs (perform c) p (λ r q,
    (∀ f, r = Some f → f = m_frame q) ∧ ∃ pend', represents q pend' ∧ bytes_ok pend').
Proof.
  intros Hc Hp Hb.
  assert (∀ bytes r q, bytes_ok bytes → delivers bytes r q →
    (∀ f, r = Some f → f = m_frame q) ∧ ∃ pend', represents q pend' ∧ bytes_ok pend') as Hd.
  { intros bytes r q Hbytes. unfold delivers.
    destruct (Rfc6455.decode code_len64 bytes) as [[w rest]|] eqn:Hdec.
    - intros (-> & _ & Hr). apply Rfc6455.decode_bytes_ok in Hdec as [_ Hrest]; [|done].
      split; [by intros f [= <-]|by exists rest].
    - intros [-> Hr]. split; [done|by exists bytes]. }
  destruct c as [bs|bs|n bs|]; cbn [perform call_ok] in *.
  - eapply runs_mono; [by apply update_view_delivers|]. cbn beta. intros r q.
    apply Hd. by apply Forall_app.
  - eapply runs_mono; [by apply update_view_delivers|]. cbn beta. intros r q.
    apply Hd. by apply Forall_app.
  - destruct Hc as (Hn & Hl & Hbs). unfold on_buffer. runs_steps.
    eapply runs_mono; [apply fill_extends; [done|done|apply Hp]|]. cbn beta.
    intros _ b' He. eapply runs_mono; [by apply (update_delivers p pend b' bs)|].
    cbn beta. intros r q. apply Hd. by apply Forall_app.
  - runs_step. eapply runs_mono; [apply clear_represents|]. cbn beta. intros _ q Hq.
    runs_step. split; [done|]. exists []. split; [done|constructor].
Qed.

Lemma perform_typed c p :
  call_ok c → loose p → after (perform c) p (λ r q, loose q ∧ finished r q).
Proof.
  intros Hc Hp. destruct c as [bs|bs|n bs|]; cbn [perform call_ok] in *.
  - by apply update_view_typed.
  - by apply update_view_typed.
  - destruct Hc as (_ & _ & Hbs). apply after_bind.
    eapply after_mono; [by apply on_buffer_bytes; [apply fill_bytes|]|]. cbn beta.
    intros _ q Hq. by apply update_typed.
  - apply after_bind. eapply after_mono; [by apply clear_typed|]. cbn beta.
    intros _ q Hq. by apply after_ret.
Qed.

Lemma returned_typed f q :
  loose q → finished (Some f) q → f = m_frame q →
  frame_typed (Frame.mk (Frame.fin f) (Frame.mask f) (Frame.opcode f)
    (Frame.masking_key f) (deref q (Frame.payload f))).
Proof.
  intros [Hb [Hk [Ho Hw]] _ Hn _] Hf ->. specialize (Hf _ eq_refl).
  rewrite Hf in Hn. specialize (Hn ltac:(cbn; lia)). unfold is_byte in Ho.
  split; cbn; [done|split; [lia|done]|]. by apply Forall_take, Forall_drop.
Qed.

Lemma use_typed cs p pend :
  Forall call_ok cs → represents p pend → bytes_ok pend → loose p →
  runs (use cs) p (λ fs q, typed q ∧ Forall frame_typed fs).
Proof.
  intros Hcs. revert p pend. induction Hcs as [|c cs Hc Hcs IH]; intros p pend Hr Hb Hl;
    cbn [use].
  { runs_step. split; [|constructor]. split; [apply Hr|done]. }
  runs_step. eapply runs_mono.
  { apply runs_after; [by apply (perform_represents c p pend)|by apply perform_typed]. }
  cbn beta. intros r q [[Hf (pend' & Hr' & Hb')] [Hl' Hfin]].
  runs_step. eapply runs_eq; [reflexivity|]. cbv zeta. runs_step.
  eapply runs_mono; [by apply (IH q pend')|]. cbn beta. intros fs' q' [Ht Hfs].
  runs_step. split; [done|]. apply Forall_app. split; [|done].
  destruct r as [f|]; [|constructor]. apply Forall_singleton.
  apply returned_typed; auto.
Qed.

Lemma new_typed junk : cells_ok junk → loose (new junk).
Proof.
  intros [Hk Ho]. split; [|by split|cbn; lia|cbn; lia|done].
  apply (Forall_replicate is_byte 4096). unfold is_byte. lia.
Qed.

End Typing.

Module ParserTypes.

(** C19: the parser is well typed. Whatever sequence of public calls a new
    parser gets - views, strings, bytes received into its own buffer, [clear],
    in any order and cut anywhere - every call returns, and in the end every
    member has a value of its type and every position is inside the buffer:
    cells and key bytes below 256, a 64-bit payload length, an opcode of four
    bits once one was read, the read position inside the received bytes, and
    the payload of a finished frame a view of exactly the announced length
    before it. Every frame returned has a four-bit opcode, four key bytes
    and a payload of bytes. The junk a new parser starts with may be anything
    of the right types. *)
Theorem parser_well_typed `{Target} (junk : Frame.t string_view) (cs : list call) :
  cells_ok junk → Forall call_ok cs →
  runs (use cs) (new junk) (λ fs p,
    typed p ∧ Forall frame_typed fs ∧
    (m_parse_stage p = DONE →
       Z.of_nat (length (deref p (Frame.payload (m_frame p)))) = m_payload_len p)).
Proof.
  intros Hj Hcs. eapply runs_mono.
  { eapply (use_typed cs (new junk) []); [done|by apply new_represents, Hj|constructor|].
    by apply new_typed. }
  cbn beta. intros fs p [[Hi Hl] Hfs]. split; [done|]. split; [done|]. intros Hd.
  pose proof (loose_payload _ Hl) as Hp. rewrite decide_True in Hp by done. rewrite <-Hp.
  pose proof (inv_view _ Hi). pose proof (inv_ptr _ Hi). pose proof (inv_buffer _ Hi) as Hw.
  unfold FrameBuffer.wf, FrameBuffer.capacity, FrameBuffer.size, deref in *.
  rewrite length_take, length_drop. lia.
Qed.

Lemma parser_well_typed_witness :
  runs (@use masked_shift_target
          [Update_view [129; 2; 72]; Receive 1024 [105; 137]; Clear; Update_string [138; 0]]%Z)
    (new empty_frame) (λ fs p, typed p ∧ length fs = 2).
Proof.
  eapply runs_mono.
  { eapply runs_after.
    - apply (@parser_well_typed masked_shift_target empty_frame
        [Update_view [129; 2; 72]; Receive 1024 [105; 137]; Clear; Update_string [138; 0]]%Z).
      + split; cbn; [split; [done|]|split; [unfold is_byte; lia|done]].
        repeat constructor; unfold is_byte; lia.
      + repeat constructor; unfold is_byte; cbn; lia.
    - instantiate (1 := λ fs _, length fs = 2). intros fs p Hu. vm_compute in Hu.
      by injection Hu as <- _. }
  cbn beta. by intros fs p [(? & _ & _) ?].
Defined.

End ParserTypes.
