(* ===== verification/Stream.v ===== *)
(** Properties of the wire layer as a whole: the parser fed with a byte stream
    in chunks, the 64-bit length computation, the frame factory, and the two
    together. *)

From S2P Require Import Prelude Xorshift Buffer Rfc6455 Frames Factory Parser ParserSpec.

Module Stream.
Import FrameParser.

Section Feed.
Context `{Target}.

(** Feeding the parser chunk by chunk, as [close] and [poll] do, and noting
    every frame it returns (its payload read through the view). *)
Fixpoint feed (chunks : list (list Z)) : M t (list Rfc6455.wire) :=
  match chunks with
  | [] => mret []
  | c :: cs =>
      r ← update_view c;
      p ← get;
      ws ← feed cs;
      mret (match r with Some _ => wire_of p :: ws | None => ws end)
  end.

(** What was delivered and what is still in the parser make up the stream. *)
Lemma feed_runs p pend chunks :
  represents p pend → Forall bytes_ok chunks →
  runs (feed chunks) p (λ ws q, ∃ pend', represents q pend' ∧
    length pend' ≤ length (pend ++ concat chunks) ∧
    Rfc6455.decode_all code_len64 (pend ++ concat chunks) =
      let '(ws', rest) := Rfc6455.decode_all code_len64 pend' in
      (ws ++ ws', rest)).
Proof.
  intros Hr Hc. revert p pend Hr. induction Hc as [|c cs Hc _ IH]; intros p pend Hr.
  - cbn [feed]. runs_step. exists pend. split; [done|].
    cbn. rewrite app_nil_r. split; [done|]. by destruct (Rfc6455.decode_all _ _).
  - cbn [feed concat]. runs_step.
    eapply runs_mono; [by apply update_view_delivers|].
    intros r q Hd. unfold delivers in Hd. runs_step.
    eapply runs_eq; [reflexivity|]. cbn beta. runs_step.
    rewrite app_assoc, Rfc6455.decode_all_app,
      (Rfc6455.decode_all_unfold _ (pend ++ c)).
    destruct (Rfc6455.decode code_len64 (pend ++ c)) as [[w rest]|] eqn:Hdec.
    + destruct Hd as (-> & <- & Hq). eapply runs_mono; [by apply IH|].
      cbn beta. intros ws q' (pend' & Hq' & Hl & Heq). runs_step.
      exists pend'. split; [done|].
      apply Rfc6455.decode_consumes in Hdec. rewrite !length_app in *.
      split; [lia|].
      rewrite Rfc6455.decode_all_app in Heq.
      destruct (Rfc6455.decode_all code_len64 rest) as [ws1 rest1].
      destruct (Rfc6455.decode_all code_len64 (rest1 ++ concat cs)) as [ws2 rest2].
      destruct (Rfc6455.decode_all code_len64 pend') as [ws3 rest3].
      injection Heq as Hws ->. by rewrite <-!app_comm_cons, Hws.
    + destruct Hd as [-> Hq]. eapply runs_mono; [by apply IH|].
      cbn beta. intros ws q' (pend' & Hq' & Hl & Heq). runs_step.
      exists pend'. split; [done|]. rewrite !length_app in *.
      split; [lia|]. rewrite Heq.
      by destruct (Rfc6455.decode_all code_len64 pend').
Qed.

(** Updates without new data deliver what is already buffered. *)
Lemma feed_drain n p pend :
  represents p pend →
  runs (feed (replicate n [])) p (λ ws q,
    ws = fst (Rfc6455.decode_upto code_len64 n pend)).
Proof.
  revert p pend. induction n as [|n IH]; intros p pend Hr.
  - cbn [replicate feed]. by runs_step.
  - cbn [replicate feed]. runs_step.
    eapply runs_mono; [apply update_view_delivers; [done|constructor]|].
    intros r q Hd. unfold delivers in Hd. rewrite app_nil_r in Hd. runs_step.
    eapply runs_eq; [reflexivity|]. cbn beta. runs_step.
    cbn [Rfc6455.decode_upto].
    destruct (Rfc6455.decode code_len64 pend) as [[w rest]|] eqn:Hdec.
    + destruct Hd as (-> & <- & Hq). eapply runs_mono; [by apply IH|].
      cbn beta. intros ws q' ->. runs_step.
      by destruct (Rfc6455.decode_upto code_len64 n rest).
    + destruct Hd as [-> Hq]. eapply runs_mono; [by apply IH|].
      cbn beta. intros ws q' ->. runs_step.
      destruct n; cbn; by rewrite ?Hdec.
Qed.

Lemma feed_app cs cs' p :
  feed (cs ++ cs') p =
    (ws ← feed cs; ws' ← feed cs'; mret (ws ++ ws')) p.
Proof.
  revert p. induction cs as [|c cs IH]; intros p.
  - cbn [feed app]. unfold mbind, M_bind, mret, M_ret.
    by destruct (feed cs' p) as [[] ?].
  - cbn [feed app]. unfold mbind, M_bind, mret, M_ret, get in *.
    destruct (update_view c p) as [[r| | |] q]; try done.
    rewrite IH. destruct (feed cs q) as [[ws| | |] q']; try done.
    destruct (feed cs' q') as [[ws'| | |] q'']; try done.
    by destruct r.
Qed.

(** Any chunking, then enough updates without data: all frames, once, in
    order. *)
Lemma feed_all junk chunks n :
  length (Frame.masking_key junk) = 4 → Forall bytes_ok chunks →
  length (concat chunks) ≤ n →
  runs (feed (chunks ++ replicate n [])) (new junk) (λ ws _,
    ws = fst (Rfc6455.decode_all code_len64 (concat chunks))).
Proof.
  intros Hk Hc Hn. unfold runs. setoid_rewrite feed_app.
  change (runs (ws ← feed chunks; ws' ← feed (replicate n []); mret (ws ++ ws'))
    (new junk) (λ ws _, ws = fst (Rfc6455.decode_all code_len64 (concat chunks)))).
  runs_step. eapply runs_mono.
  { apply (feed_runs _ []); [by apply new_represents|done]. }
  cbn beta. intros ws q (pend' & Hq & Hle & Heq). cbn [app] in *.
  runs_step. eapply runs_mono; [by apply feed_drain|]. cbn beta.
  intros ws' q' ->. runs_step. rewrite Heq.
  rewrite (Rfc6455.decode_upto_enough _ n (length pend')) by lia.
  change (Rfc6455.decode_upto code_len64 (length pend') pend')
    with (Rfc6455.decode_all code_len64 pend').
  by destruct (Rfc6455.decode_all code_len64 pend').
Qed.


(** *** From the factory to the parser *)

(** A request to the frame factory, and what a receiver makes of a frame. *)
Record message : Type := Message {
  ms_fin : bool;
  ms_opcode : Opcode.t;
  ms_mask : bool;
  ms_payload : list Z
}.

Definition received (w : Rfc6455.wire) : message :=
  Message (Rfc6455.w_fin w) (Opcode.of_u8 (Rfc6455.w_opcode w))
    (bool_decide (is_Some (Rfc6455.w_key w))) (Rfc6455.unmasked w).

(** Opcodes of the protocol, and payloads the parser can be sent. *)
Record message_ok (m : message) : Prop := {
  ms_opcode_ok : Opcode.wf (ms_opcode m);
  ms_opcode_4 : (0 ≤ Opcode.to_u8 (ms_opcode m) < 16)%Z;
  ms_bytes : bytes_ok (ms_payload m);
  ms_length : (Z.of_nat (length (ms_payload m)) < 2 ^ 31)%Z
}.

(** The bytes the factory makes of a sequence of messages. *)
Fixpoint build (ms : list message) : M FrameFactory.t (list Z) :=
  match ms with
  | [] => mret []
  | m :: ms' =>
      out ← FrameFactory.construct (ms_fin m) (ms_opcode m) (ms_mask m)
              (ms_payload m);
      outs ← build ms';
      mret (out ++ outs)
  end.

Lemma frame_bytes_received m out :
  message_ok m → zero_shift →
  FrameFactory.frame_bytes (ms_fin m) (ms_opcode m) (ms_mask m) (ms_payload m) out →
  ∃ w, out = Rfc6455.encode w ∧ received w = m ∧ Rfc6455.wire_ok w ∧
    ((65536 ≤ Z.of_nat (length (Rfc6455.w_data w)))%Z →
     code_len64 (big_endian 8 (Z.of_nat (length (Rfc6455.w_data w))))
     = Z.of_nat (length (Rfc6455.w_data w))).
Proof.
  intros [Hwf Hop Hb Hl] Hz (key & Hkey & ->). eexists. split; [reflexivity|].
  assert (Frame.wf (Frame.mk (ms_fin m) (ms_mask m) (ms_opcode m) key
    (ms_payload m))) as Hf.
  { split; cbn; [unfold is_byte; lia|done|done|lia]. }
  split_and!; [|by apply Frame.to_wire_ok|].
  - unfold received. rewrite Frame.to_wire_unmasked. unfold Frame.to_wire. cbn.
    rewrite Z.mod_small by lia. rewrite Hwf. destruct m as [fin op mask pay].
    cbn. by destruct mask.
  - intros _. assert (length (Rfc6455.w_data (Frame.to_wire
      (Frame.mk (ms_fin m) (ms_mask m) (ms_opcode m) key (ms_payload m))))
      = length (ms_payload m)) as ->.
    { cbn. destruct (ms_mask m); by rewrite ?Rfc6455.length_apply_mask. }
    rewrite code_len64_small by (done || lia).
    by rewrite (proj2 (Z.ltb_lt _ _)) by lia.
Qed.

Lemma build_runs ms f :
  hardened = false → zero_shift → FrameFactory.wf f → Forall message_ok ms →
  runs (build ms) f (λ out f', FrameFactory.wf f' ∧ bytes_ok out ∧
    ∃ ws, Rfc6455.decode_all code_len64 out = (ws, []) ∧ map received ws = ms).
Proof.
  intros Hh Hz Hw Hms. revert f Hw.
  induction Hms as [|m ms Hm _ IH]; intros f Hw; cbn [build].
  - runs_step. split_and!; [done|constructor|]. by exists [].
  - runs_step. eapply runs_mono.
    { pose proof Hm as [_ ? ? ?].
      apply FrameFactory.factory_construct_runs; [done..|unfold is_byte; lia|done|lia]. }
    cbn beta. intros out f1 [Hout Hw1]. runs_step.
    eapply runs_mono; [by apply IH|]. cbn beta.
    intros outs f2 (Hw2 & Hb2 & ws & Hd & Hr). runs_step.
    destruct (frame_bytes_received m out) as (w & -> & Hrw & Hok & Hlen); [done..|].
    split_and!; [done| |].
    + apply Forall_app. split; [by apply Rfc6455.encode_bytes|done].
    + exists (w :: ws). rewrite Rfc6455.decode_all_unfold.
      rewrite Rfc6455.decode_encode_with, Hd by done. cbn. by rewrite Hrw, Hr.
Qed.

Lemma bytes_ok_chunks chunks : bytes_ok (concat chunks) → Forall bytes_ok chunks.
Proof. apply Forall_concat. Qed.

(** What the specification says of one call: the frame returned, if any, is
    the first one of [bytes], and the parser keeps the bytes after it. *)
Definition first_frame_or_wait (bytes : list Z)
    (r : option (Frame.t string_view)) (q : t) : Prop :=
  match Rfc6455.decode code_len64 bytes with
  | Some (w, rest) =>
      r = Some (m_frame q) ∧ wire_of q = w ∧ represents q rest
  | None => r = None ∧ represents q bytes
  end.

(** The value the shift by [int] gives a length field that encodes [n]. *)
Definition sign_extended (n : Z) : Z :=
  if (n <? 2 ^ 31)%Z then n else (n + (2 ^ 64 - 2 ^ 32))%Z.

(** ** Properties *)

(** C16: the incremental parser refines the frame grammar. From any state that
    stands for pending bytes [pend], receiving a chunk [c] of any size
    (including none) terminates without undefined behaviour; it returns the
    first frame of [pend ++ c] exactly when those bytes hold a complete one
    (its payload view denoting the payload) and then stands for the bytes
    after it, and otherwise returns nothing and stands for [pend ++ c]. *)
Theorem update_refines_decode (p : t) (pend c : list Z) :
  represents p pend → bytes_ok c →
  runs (update_view c) p (first_frame_or_wait (pend ++ c)).
Proof. apply update_view_delivers. Qed.

(** C27: the same for the zero-copy path of [poll]: the caller has appended
    [c] to the parser's own buffer and calls [update(new_data)], even while
    the parser still holds the previous, finished frame. *)
Theorem update_in_place_refines_decode (p : t) (pend c : list Z)
    (b' : FrameBuffer.t) :
  represents p pend → bytes_ok c → FrameBuffer.extended (m_frame_buffer p) c b' →
  runs (update (negb (length c =? 0))) (with_buffer p b')
    (first_frame_or_wait (pend ++ c)).
Proof. apply update_delivers. Qed.

(** C18: reassembly does not depend on fragmentation. However a byte stream is
    cut into chunks (empty ones, single bytes, several frames at once), a new
    parser fed with them and then polled often enough delivers exactly the
    complete frames of the stream, once each and in order. *)
Theorem stream_reassembly (junk : Frame.t string_view)
    (chunks : list (list Z)) (n : nat) :
  length (Frame.masking_key junk) = 4 → Forall bytes_ok chunks →
  length (concat chunks) ≤ n →
  runs (feed (chunks ++ replicate n [])) (new junk) (λ ws _,
    ws = fst (Rfc6455.decode_all code_len64 (concat chunks))).
Proof. apply feed_all. Qed.

(** C17: end to end: every sequence of messages (any flags, any 4-bit opcode,
    masked or not, payloads below 2 GiB) that the factory turns into bytes
    comes out of a parser as the same messages with the same payloads,
    whatever chunks the bytes travel in. *)
Theorem factory_parser_roundtrip (ms : list message) (f : FrameFactory.t)
    (junk : Frame.t string_view) :
  hardened = false → zero_shift → FrameFactory.wf f → Forall message_ok ms →
  length (Frame.masking_key junk) = 4 →
  runs (build ms) f (λ out _, ∀ chunks, concat chunks = out →
    runs (feed (chunks ++ replicate (length out) [])) (new junk)
      (λ ws _, map received ws = ms)).
Proof.
  intros Hh Hz Hw Hms Hk. eapply runs_mono; [by apply build_runs|].
  cbn beta. intros out _ (_ & Hb & ws & Hd & Hr) chunks Hc.
  rewrite <-Hc in *. eapply runs_mono; [apply feed_all; [done| |done]|].
  - by apply bytes_ok_chunks.
  - cbn beta. intros ws' _ ->. by rewrite Hd.
Qed.

(** C38: the length [check_extended_payload_len_64] assembles from the eight
    bytes of a length [n] below 4 GiB. Each byte is shifted as an [int]: below
    2 GiB the length comes out right, from 2 GiB on all upper 32 bits of it
    are set by the sign of the [int] (so that the parser waits for more than
    2^63 bytes), on every target that shifts zero to zero. *)
Theorem extended_length_64 (p : t) (n : Z) (u : list Z) :
  zero_shift → Inv p → m_parse_stage p = EXTENDED_PAYLOAD_LEN_64 →
  (0 ≤ n < 2 ^ 32)%Z → unread p = big_endian 8 n ++ u →
  runs check_extended_payload_len_64 p (λ _ q,
    m_payload_len q = sign_extended n ∧ unread q = u ∧
    m_parse_stage q =
      if Frame.mask (m_frame p) then MASKING_KEY else PAYLOAD_DATA).
Proof.
  intros Hz Hi Hs Hn Hu. unfold check_extended_payload_len_64, at_stage.
  pose proof (f_equal length Hu) as Hl.
  rewrite length_app, length_big_endian, length_unread in Hl by done.
  runs_step. eapply runs_eq; [reflexivity|]. cbn beta.
  rewrite bool_decide_false by auto. cbn [orb].
  destruct (Nat.ltb_spec (remaining p) 8); [lia|]. cbn [negb].
  eapply runs_mono; [apply ext64_body_runs; [done|rewrite length_unread; [lia|done]]|].
  cbn beta. intros _ q ->. split_and!.
  - cbn [with_length m_payload_len]. rewrite Hu.
    rewrite take_app_exact by (by rewrite length_big_endian).
    by apply code_len64_small.
  - etransitivity; [apply unread_at_ptr|]. rewrite Hu.
    by rewrite drop_app_exact by (by rewrite length_big_endian).
  - done.
Qed.

End Feed.

Lemma masked_zero_shift : @zero_shift masked_shift_target.
Proof. intros n. cbn. by rewrite Z.shiftl_0_l. Qed.

Definition zero_junk : Frame.t string_view := empty_frame.

Lemma update_refines_decode_witness :
  runs (@update_view masked_shift_target [129; 2; 72; 105; 137]%Z) (new zero_junk)
    (λ r q, r = Some (m_frame q) ∧
      wire_of q = Rfc6455.Wire true 1 None [72; 105]%Z ∧
      @represents masked_shift_target q [137]%Z).
Proof.
  apply (@update_refines_decode masked_shift_target (new zero_junk) []
    [129; 2; 72; 105; 137]%Z).
  - by apply new_represents.
  - repeat constructor; lia.
Defined.

Lemma update_in_place_refines_decode_witness :
  runs (@update masked_shift_target true)
    (with_buffer (new zero_junk) (FrameBuffer.mk [129; 1; 72]%Z 3))
    (λ r q, r = Some (m_frame q) ∧
      wire_of q = Rfc6455.Wire true 1 None [72]%Z ∧
      @represents masked_shift_target q []).
Proof.
  apply (@update_in_place_refines_decode masked_shift_target (new zero_junk) []
    [129; 1; 72]%Z (FrameBuffer.mk [129; 1; 72]%Z 3)).
  - by apply new_represents.
  - repeat constructor; lia.
  - split; [unfold FrameBuffer.wf; cbn; lia|done].
Defined.

Lemma stream_reassembly_witness :
  runs (@feed masked_shift_target
          ([[129]; [2; 72]; []; [105; 1; 0; 128; 0; 9]]%Z ++ replicate 9 []))
    (new zero_junk) (λ ws _, ws =
      [Rfc6455.Wire true 1 None [72; 105]; Rfc6455.Wire false 1 None [];
       Rfc6455.Wire true 0 None []]%Z).
Proof.
  apply (@stream_reassembly masked_shift_target zero_junk
    [[129]; [2; 72]; []; [105; 1; 0; 128; 0; 9]]%Z 9).
  - done.
  - repeat constructor; lia.
  - cbn. lia.
Defined.

Lemma factory_parser_roundtrip_witness :
  let ms := [Message true Opcode.TEXT true [72; 105]; Message false Opcode.BINARY false []]%Z in
  runs (@build masked_shift_target ms) (snd (FrameFactory.new 64 1 2))
    (λ out _, ∀ chunks, concat chunks = out →
      runs (@feed masked_shift_target (chunks ++ replicate (length out) []))
        (new zero_junk) (λ ws _, map received ws = ms)).
Proof.
  cbn zeta. apply (@factory_parser_roundtrip masked_shift_target); [done| | | |done].
  - apply masked_zero_shift.
  - destruct (FrameFactory.new_factory_runs 64 1 2) as (f & Hf & Hw); [lia..|].
    by rewrite Hf.
  - repeat constructor; cbn; lia.
Defined.

(** A parser that has read the first two bytes of a frame with a 64-bit
    length, with the eight length bytes of 2 GiB in its buffer. *)
Definition at_length_64 : t :=
  mk EXTENDED_PAYLOAD_LEN_64 empty_frame
    (FrameBuffer.mk ([130; 127] ++ big_endian 8 (2 ^ 31))%Z 10) 0 2.

Lemma extended_length_64_witness :
  runs (@check_extended_payload_len_64 masked_shift_target) at_length_64 (λ _ q,
    m_payload_len q = (2 ^ 31 + (2 ^ 64 - 2 ^ 32))%Z ∧ unread q = [] ∧
    m_parse_stage q = PAYLOAD_DATA).
Proof.
  apply (@extended_length_64 masked_shift_target at_length_64 (2 ^ 31) []);
    [apply masked_zero_shift| |done|lia|done].
  split; cbn; try done; try lia.
  - unfold FrameBuffer.wf. cbn. lia.
  - by apply (bool_decide_unpack _); vm_compute.
Defined.

(** From 4 GiB on the parsed length is not even determined by the source:
    the shift count reaches the width of [int]. The same eleven bytes, the
    start of a binary frame of 2^32 bytes, are delivered as a complete frame
    of one byte on hardware that masks the count, and as a complete empty
    frame on hardware where the bits fall off; by the RFC they hold no
    complete frame. *)
Theorem wide_length_is_target_dependent :
  let dropping := {| shl_wide := λ _ _, 0%Z; hardened := false |} in
  let bytes := ([130; 127] ++ big_endian 8 (2 ^ 32) ++ [65])%Z in
  fst (@feed masked_shift_target [bytes] (new zero_junk))
    = Ok [Rfc6455.Wire true 2 None [65]%Z] ∧
  fst (@feed dropping [bytes] (new zero_junk))
    = Ok [Rfc6455.Wire true 2 None []] ∧
  Rfc6455.decode Rfc6455.rfc_len64 bytes = None ∧
  @zero_shift masked_shift_target ∧ @zero_shift dropping.
Proof.
  cbn zeta. split_and!; [by vm_compute..|apply masked_zero_shift|by intros n].
Qed.

End Stream.
