(* ===== verification/Sys.v ===== *)
(** The outside of the program: the system calls, the OpenSSL functions and
    the clock it uses, as operations on an abstract world [W], and
    [plf::nanotimer] (single_header/fastws.hpp, Linux branch), which reads the
    clock. What the outside does is unconstrained except where a class of laws
    says otherwise. [Sys] pairs the world with a record of the resources
    acquired and released, which the program cannot see. *)

From S2P Require Import Prelude.
From Stdlib Require Import SpecFloat.

(** ** System calls *)

(** [struct addrinfo], as far as it is used. *)
Record addrinfo : Type := AddrInfo {
  ai_family : Z;
  ai_socktype : Z;
  ai_protocol : Z;
  ai_addr : list Z
}.

(** [recv]: an error number, or the bytes stored (none at end of stream). *)
Inductive recv_result : Type :=
  | RecvError (errno : Z)
  | RecvBytes (bs : list Z).

Definition EAGAIN : Z := 11.
Definition EWOULDBLOCK : Z := 11.

Class OS (W : Type) : Type := {
  sys_getaddrinfo : string → string → W → (Z * list addrinfo) * W;
  sys_gai_strerror : Z → string;
  sys_freeaddrinfo : list addrinfo → W → W;
  sys_socket : Z → Z → Z → W → Z * W;
  sys_set_nodelay : Z → W → Z * W;
  sys_connect : Z → list Z → W → Z * W;
  sys_set_nonblock : Z → W → W;
  sys_close : Z → W → W;
  (** the value returned, and [errno] *)
  sys_send : Z → list Z → W → (Z * Z) * W;
  sys_recv : Z → nat → W → recv_result * W;
  (** [clock_gettime(CLOCK_MONOTONIC)]: seconds and nanoseconds *)
  sys_clock : W → (Z * Z) * W;
  sys_sleep_ms : Z → W → W;
  (** characters written to [std::cout] *)
  sys_cout : string → W → W
}.

(** [SSL_CTX*] and [SSL*] are handles; [None] is the null pointer. *)
Class OpenSSL (W : Type) : Type := {
  ssl_ctx_new : W → option Z * W;
  ssl_ctx_free : Z → W → W;
  ssl_new : option Z → W → option Z * W;
  ssl_free : Z → W → W;
  ssl_shutdown : Z → W → W;
  ssl_set_host_name : Z → string → W → W;
  ssl_get_fd : Z → W → Z * W;
  ssl_set_fd : Z → Z → W → W;
  ssl_connect : Z → W → Z * W;
  ssl_write : option Z → list Z → W → Z * W;
  ssl_get_error : option Z → Z → W → Z * W;
  (** the bytes stored; none when [SSL_read_ex] fails *)
  ssl_read_ex : option Z → nat → W → list Z * W;
  err_get_error : W → Z * W;
  err_error_string : Z → option string
}.

(** Documented behaviour: a read stores at most the bytes asked for. *)
Class OSLaws (W : Type) `{OS W} : Prop := {
  recv_fits fd n w bs w' :
    sys_recv fd n w = (RecvBytes bs, w') → length bs ≤ n ∧ bytes_ok bs
}.

Class OpenSSLLaws (W : Type) `{OpenSSL W} : Prop := {
  read_ex_fits ssl n w bs w' :
    ssl_read_ex ssl n w = (bs, w') → length bs ≤ n ∧ bytes_ok bs
}.

(** ** The world with its resource record *)

Inductive resource : Type :=
  | Fd (fd : Z)
  | Ctx (ctx : Z)
  | Ssl (ssl : Z)
  | Addrs
  (** mark of a release of something that was not held *)
  | Stray (r : resource).

#[export] Instance resource_eq_dec : EqDecision resource.
Proof. solve_decision. Defined.

Record Sys (W : Type) : Type := mkSys { env : W; held : list resource }.
Arguments mkSys {_} _ _.
Arguments env {_} _.
Arguments held {_} _.

Section Calls.
Context {S W : Type}.

(** A call to the outside, from a method of an object with state [S]. *)
Definition call {A} (f : W → A * W) : M (S * Sys W) A := λ '(s, y),
  let '(a, w) := f (env y) in (Ok a, (s, mkSys w (held y))).

Definition call_unit (f : W → W) : M (S * Sys W) unit := λ '(s, y),
  (Ok tt, (s, mkSys (f (env y)) (held y))).

Definition acquire (r : resource) : M (S * Sys W) unit := λ '(s, y),
  (Ok tt, (s, mkSys (env y) (r :: held y))).

(** Removes one occurrence; a release of what is not held leaves a mark. *)
Fixpoint drop_one (r : resource) (l : list resource) : list resource :=
  match l with
  | [] => [Stray r]
  | x :: l' => if decide (x = r) then l' else x :: drop_one r l'
  end.

Definition release (r : resource) : M (S * Sys W) unit := λ '(s, y),
  (Ok tt, (s, mkSys (env y) (drop_one r (held y)))).

Definition self : M (S * Sys W) S := gets fst.
Definition update_self (f : S → S) : M (S * Sys W) unit :=
  modify (λ '(s, y), (f s, y)).

Lemma no_ub_call {A} (f : W → A * W) : no_ub (call f).
Proof. intros [s y] _. unfold safe, call. by destruct (f (env y)). Qed.

Lemma no_ub_call_unit f : no_ub (call_unit f).
Proof. by intros [s y] _. Qed.

Lemma no_ub_acquire r : no_ub (acquire r).
Proof. by intros [s y] _. Qed.

Lemma no_ub_release r : no_ub (release r).
Proof. by intros [s y] _. Qed.

Lemma no_ub_self : no_ub self.
Proof. by intros [s y] _. Qed.

Lemma no_ub_update_self f : no_ub (update_self f).
Proof. by intros [s y] _. Qed.
End Calls.

#[export] Hint Resolve no_ub_call no_ub_call_unit no_ub_acquire no_ub_release
  no_ub_self no_ub_update_self : ws.

(** ** Doubles *)

(** IEEE-754 binary64, executable: [double] of an integer, the operations and
    the comparison the sources use. *)
Definition double : Type := spec_float.
Definition to_double (z : Z) : double := binary_normalize 53 1024 z 0 false.
Definition dadd : double → double → double := SFadd 53 1024.
Definition dmul : double → double → double := SFmul 53 1024.
Definition ddiv : double → double → double := SFdiv 53 1024.
(** [x > y] *)
Definition dgt (x y : double) : bool := SFltb y x.

(** ** [plf::nanotimer] *)

Module nanotimer.

(** [struct timespec time1, time2]; [time1] has no value before [start()]. *)
Record t : Type := mk { time1 : option (Z * Z); time2 : option (Z * Z) }.

Definition new : t := mk None None.

Section Timer.
Context {W : Type} `{OS W}.

Definition start : M (t * Sys W) unit :=
  now ← call sys_clock;
  update_self (λ t, mk (Some now) (time2 t)).

Definition get_elapsed_ns : M (t * Sys W) double :=
  now ← call sys_clock;
  update_self (λ t, mk (time1 t) (Some now));;
  t ← self;
  match time1 t with
  | None => undef uninitialised
  | Some (sec1, nsec1) =>
      let '(sec2, nsec2) := now in
      mret (dadd (dmul (to_double 1000000000) (to_double (sec2 - sec1)))
                 (to_double (nsec2 - nsec1)))
  end.

Definition get_elapsed_ms : M (t * Sys W) double :=
  ns ← get_elapsed_ns;
  mret (ddiv ns (to_double 1000000)).

Definition get_elapsed_us : M (t * Sys W) double :=
  ns ← get_elapsed_ns;
  mret (ddiv ns (to_double 1000)).
End Timer.

End nanotimer.
