(* ===== verification/World.v ===== *)
(** A concrete outside world, on which the theorems that quantify over all
    worlds are instantiated: the network delivers a script of chunks and
    records what was sent, a clock advances by a fixed tick per reading and by
    every sleep. It satisfies the laws stated in [Sys]. *)

From S2P Require Import Prelude Sys.

Record world : Type := World {
  (** the chunks still to arrive; an empty one is a moment without data *)
  incoming : list (list Z);
  delivered_bytes : list Z;
  outgoing : list Z;
  (** nanoseconds *)
  now : Z;
  tick : Z;
  (** bytes taken by one write *)
  burst : nat
}.

(** One read of at most [n] bytes. *)
Definition deliver (n : nat) (w : world) : list Z * world :=
  match incoming w with
  | [] => ([], w)
  | chunk :: rest =>
      let bs := take n (map u8 chunk) in
      (bs,
       World (if decide (length chunk ≤ n) then rest else drop n chunk :: rest)
         (delivered_bytes w ++ bs) (outgoing w) (now w) (tick w) (burst w))
  end.

(** One write: at most [S (burst w)] bytes are taken. *)
Definition transmit (bs : list Z) (w : world) : Z * world :=
  let n := Nat.min (S (burst w)) (length bs) in
  (Z.of_nat n,
   World (incoming w) (delivered_bytes w) (outgoing w ++ take n bs) (now w) (tick w) (burst w)).

Definition read_clock (w : world) : (Z * Z) * world :=
  let t := (now w + tick w)%Z in
  ((t / 1000000000, t mod 1000000000)%Z,
   World (incoming w) (delivered_bytes w) (outgoing w) t (tick w) (burst w)).

Definition sleep (ms : Z) (w : world) : world :=
  World (incoming w) (delivered_bytes w) (outgoing w) (now w + ms * 1000000)%Z (tick w) (burst w).

Definition loopback : addrinfo := AddrInfo 2 1 6 [127; 0; 0; 1]%Z.

#[export] Instance world_OS : OS world := {
  sys_getaddrinfo _ _ w := ((0%Z, [loopback; loopback]), w);
  sys_gai_strerror _ := "name resolution failed";
  sys_freeaddrinfo _ w := w;
  sys_socket _ _ _ w := (3%Z, w);
  sys_set_nodelay _ w := (0%Z, w);
  sys_connect _ _ w := (0%Z, w);
  sys_set_nonblock _ w := w;
  sys_close _ w := w;
  sys_send _ bs w := let '(n, w') := transmit bs w in ((n, 0%Z), w');
  sys_recv _ n w :=
    let '(bs, w') := deliver n w in
    (if decide (bs = []) then RecvError EAGAIN else RecvBytes bs, w');
  sys_clock := read_clock;
  sys_sleep_ms := sleep;
  sys_cout _ w := w
}.

#[export] Instance world_OpenSSL : OpenSSL world := {
  ssl_ctx_new w := (Some 1%Z, w);
  ssl_ctx_free _ w := w;
  ssl_new ctx w := (match ctx with Some _ => Some 2%Z | None => None end, w);
  ssl_free _ w := w;
  ssl_shutdown _ w := w;
  ssl_set_host_name _ _ w := w;
  ssl_get_fd _ w := ((-1)%Z, w);
  ssl_set_fd _ _ w := w;
  ssl_connect _ w := (1%Z, w);
  ssl_write _ := transmit;
  ssl_get_error _ _ w := (5%Z, w);
  ssl_read_ex _ := deliver;
  err_get_error w := (0%Z, w);
  err_error_string _ := Some "error"
}.

Lemma deliver_fits n w bs w' :
  deliver n w = (bs, w') → length bs ≤ n ∧ bytes_ok bs.
Proof.
  unfold deliver. destruct (incoming w) as [|c rest]; intros [= <- <-].
  - split; [cbn; lia|constructor].
  - split; [rewrite length_take; lia|]. apply Forall_take.
    apply Forall_forall. intros b (x & -> & _)%list_elem_of_fmap. apply u8_byte.
Qed.

Lemma deliver_account n w bs w' :
  deliver n w = (bs, w') →
  delivered_bytes w' = delivered_bytes w ++ bs ∧ outgoing w' = outgoing w.
Proof.
  unfold deliver. destruct (incoming w); intros [= <- <-]; [|done].
  by rewrite app_nil_r.
Qed.

#[export] Instance world_OSLaws : OSLaws world.
Proof.
  split. intros fd n w bs w'. cbn. destruct (deliver n w) as [cs v] eqn:Hd.
  destruct (decide (cs = [])); intros [= <- <-]. by eapply deliver_fits.
Qed.

#[export] Instance world_OpenSSLLaws : OpenSSLLaws world.
Proof. split. intros ssl n w bs w'. apply deliver_fits. Qed.

(** The same world with a TLS library that never takes a byte. *)
Definition dead_OpenSSL : OpenSSL world := {|
  ssl_ctx_new := ssl_ctx_new;
  ssl_ctx_free := ssl_ctx_free;
  ssl_new := ssl_new;
  ssl_free := ssl_free;
  ssl_shutdown := ssl_shutdown;
  ssl_set_host_name := ssl_set_host_name;
  ssl_get_fd := ssl_get_fd;
  ssl_set_fd := ssl_set_fd;
  ssl_connect := ssl_connect;
  ssl_write _ _ w := (0%Z, w);
  ssl_get_error _ _ w := (6%Z, w);
  ssl_read_ex := ssl_read_ex;
  err_get_error := err_get_error;
  err_error_string := err_error_string
|}.

(** A world whose network delivers [script]. *)
Definition scripted (script : list (list Z)) : Sys world :=
  mkSys (World script [] [] 0 0 2) [].
