(* ===== verification/Binary64.v ===== *)
(** The arithmetic of [double] on integers, for the executable binary64 of
    [Sys]: below 2^53 conversion, addition, multiplication and comparison are
    exact, and comparing the rounded quotient of two integers with a third is
    the comparison of the integers. *)

From S2P Require Import Prelude Sys.
From Stdlib Require Import SpecFloat.
#[local] Open Scope Z_scope.

(** ** Digits *)

Lemma digits_spec p :
  2 ^ (Zpos (digits2_pos p) - 1) ≤ Zpos p < 2 ^ Zpos (digits2_pos p).
Proof.
  induction p as [p IH|p IH|]; cbn [digits2_pos]; [..|done];
    rewrite Pos2Z.inj_succ, <-Z.add_1_r, Z.add_simpl_r;
    (replace (2 ^ Zpos (digits2_pos p)) with (2 * 2 ^ (Zpos (digits2_pos p) - 1)) in *
      by (rewrite <-Z.pow_succ_r by lia; f_equal; lia));
    rewrite Z.pow_add_r by lia;
    (replace (2 ^ Zpos (digits2_pos p)) with (2 * 2 ^ (Zpos (digits2_pos p) - 1))
      by (rewrite <-Z.pow_succ_r by lia; f_equal; lia)); lia.
Qed.

Lemma digits_unique m d : 0 < d → 2 ^ (d - 1) ≤ m < 2 ^ d → Zdigits2 m = d.
Proof.
  intros Hd Hm. assert (0 < 2 ^ (d - 1)) by (apply Z.pow_pos_nonneg; lia).
  destruct m as [|p|p]; [lia| |lia]. cbn [Zdigits2].
  pose proof (digits_spec p) as Hs.
  assert (d - 1 < Zpos (digits2_pos p)) by (apply (Z.pow_lt_mono_r_iff 2); lia).
  assert (Zpos (digits2_pos p) - 1 < d) by (apply (Z.pow_lt_mono_r_iff 2); lia).
  lia.
Qed.

(** ** Shifts *)

Lemma iter_pos_nat {A} (f : A → A) n x : iter_pos f n x = Nat.iter (Pos.to_nat n) f x.
Proof.
  revert x. induction n as [n IH|n IH|]; intros x; cbn [iter_pos]; [..|done].
  - rewrite !IH, Pos2Nat.inj_xI, Nat.iter_succ_r, <-Nat.iter_add. f_equal. lia.
  - rewrite !IH, Pos2Nat.inj_xO, <-Nat.iter_add. f_equal. lia.
Qed.

Definition exact (m : Z) : shr_record := Build_shr_record m false false.

Lemma shr_1_exact m : shr_1 (exact (2 * m)) = exact m.
Proof. by destruct m. Qed.

Lemma shr_exact m e k : 0 ≤ k → shr (exact (m * 2 ^ k)) e k = (exact m, e + k).
Proof.
  intros Hk. assert (∀ n m, Nat.iter n shr_1 (exact (m * 2 ^ Z.of_nat n)) = exact m) as Hn.
  { clear. induction n as [|n IH]; intros m; [cbn; by rewrite Z.mul_1_r|].
    rewrite Nat.iter_succ_r, Nat2Z.inj_succ, Z.pow_succ_r by lia.
    by rewrite Z.mul_assoc, (Z.mul_comm m), <-Z.mul_assoc, shr_1_exact. }
  destruct k as [|k|k]; [by cbn; rewrite Z.mul_1_r, Z.add_0_r| |lia]. cbn [shr].
  rewrite iter_pos_nat.
  replace (2 ^ Zpos k) with (2 ^ Z.of_nat (Pos.to_nat k)) by (by rewrite positive_nat_Z).
  by rewrite Hn.
Qed.

(** A mantissa of 53 digits. *)
Definition full (m : Z) : Prop := 2 ^ 52 ≤ m < 2 ^ 53.

Lemma digits_full m k : full m → 0 ≤ k → Zdigits2 (m * 2 ^ k) = 53 + k.
Proof.
  intros Hm Hk. unfold full in Hm. apply digits_unique; [lia|].
  assert (0 < 2 ^ k) by (apply Z.pow_pos_nonneg; lia).
  replace (53 + k - 1) with (52 + k) by lia.
  rewrite !Z.pow_add_r by lia. nia.
Qed.

#[local] Abbreviation fexp64 := (fexp 53 1024).

Lemma fexp64_normal e : -1074 ≤ e → fexp64 (53 + e) = e.
Proof. unfold fexp, emin. lia. Qed.

Lemma shr_fexp_exact m e k :
  full m → 0 ≤ k → -1074 ≤ e →
  shr_fexp 53 1024 (m * 2 ^ k) (e - k) loc_Exact = (exact m, e).
Proof.
  intros Hm Hk He. unfold shr_fexp. rewrite digits_full by done.
  replace (53 + k + (e - k)) with (53 + e) by lia. rewrite fexp64_normal by done.
  replace (e - (e - k)) with k by lia. cbn [shr_record_of_loc].
  pose proof (shr_exact m (e - k) k Hk) as Hs. unfold exact in Hs.
  rewrite Hs. unfold exact. f_equal. lia.
Qed.

Lemma shr_fexp_full m e : full m → -1074 ≤ e → shr_fexp 53 1024 m e loc_Exact = (exact m, e).
Proof.
  intros Hm He. pose proof (shr_fexp_exact m e 0 Hm ltac:(lia) He) as H.
  by rewrite Z.mul_1_r, Z.sub_0_r in H.
Qed.

Lemma round_exact s m e k :
  full m → 0 ≤ k → -1074 ≤ e ≤ 971 →
  binary_round_aux 53 1024 s (m * 2 ^ k) (e - k) loc_Exact
  = S754_finite s (Z.to_pos m) e.
Proof.
  intros Hm Hk He. unfold binary_round_aux. rewrite shr_fexp_exact by (done || lia).
  cbn [exact shr_m loc_of_shr_record round_nearest_even].
  rewrite shr_fexp_full by (done || lia). unfold full in Hm. cbn [exact shr_m].
  destruct m as [|p|p]; [lia| |lia]. destruct (Z.leb_spec e (1024 - 53)); [done|lia].
Qed.

(** ** Integers *)

(** The mantissa and the exponent of an integer. *)
Definition mant (z : Z) : Z := Z.abs z * 2 ^ (52 - Z.log2 (Z.abs z)).
Definition expo (z : Z) : Z := Z.log2 (Z.abs z) - 52.

Definition small (z : Z) : Prop := -2 ^ 53 < z < 2 ^ 53.

Lemma log2_small z : small z → 0 ≤ Z.log2 (Z.abs z) ≤ 52.
Proof.
  intros Hz. unfold small in Hz. split; [apply Z.log2_nonneg|].
  change 52 with (Z.log2 (2 ^ 53 - 1)). apply Z.log2_le_mono. lia.
Qed.

Lemma mant_full z : small z → z ≠ 0 → full (mant z).
Proof.
  intros Hz Hn. pose proof (log2_small z Hz) as Hl. unfold full, mant.
  pose proof (Z.log2_spec (Z.abs z) ltac:(lia)) as Hs.
  rewrite Z.pow_succ_r in Hs by lia.
  replace (2 ^ 53) with (2 * 2 ^ 52) by done.
  replace (2 ^ 52) with (2 ^ Z.log2 (Z.abs z) * 2 ^ (52 - Z.log2 (Z.abs z)))
    by (rewrite <-Z.pow_add_r by lia; f_equal; lia).
  assert (0 < 2 ^ (52 - Z.log2 (Z.abs z))) by (apply Z.pow_pos_nonneg; lia). nia.
Qed.

Lemma mant_scaled z j : small z → -expo z ≤ j → mant z * 2 ^ (expo z + j) = Z.abs z * 2 ^ j.
Proof.
  intros Hz Hj. pose proof (log2_small z Hz) as Hl. unfold mant, expo in *.
  rewrite <-Z.mul_assoc, <-Z.pow_add_r by lia. do 2 f_equal. lia.
Qed.

Definition dbl (z : Z) : double := S754_finite (z <? 0) (Z.to_pos (mant z)) (expo z).

Lemma pos_iter_xO p n : Zpos (Pos.iter xO p n) = Zpos p * 2 ^ Zpos n.
Proof.
  rewrite Pos2Nat.inj_iter, <-(positive_nat_Z n). generalize (Pos.to_nat n). clear n.
  induction n as [|n IH]; [by rewrite Z.mul_1_r|].
  rewrite Nat2Z.inj_succ, Z.pow_succ_r by lia. cbn [Nat.iter nat_rect].
  rewrite Pos2Z.inj_xO, IH. ring.
Qed.

Lemma shl_align_spec m e e' :
  e' ≤ e → Zpos (fst (shl_align m e e')) = Zpos m * 2 ^ (e - e') ∧
  snd (shl_align m e e') = e'.
Proof.
  intros He. unfold shl_align. destruct (e' - e) as [|p|p] eqn:Hd; [|lia|].
  - replace (e - e') with 0 by lia. cbn [fst snd]. lia.
  - cbn [fst snd]. rewrite pos_iter_xO. split; [|done]. do 2 f_equal. lia.
Qed.

Lemma round_int s z j p :
  small z → z ≠ 0 → 0 ≤ j ≤ 900 → Zpos p = Z.abs z * 2 ^ j →
  binary_round 53 1024 s p (-j) = S754_finite s (Z.to_pos (mant z)) (expo z).
Proof.
  intros Hz Hn Hj Hp. pose proof (log2_small z Hz) as Hl.
  pose proof (mant_full z Hz Hn) as Hm. unfold binary_round.
  assert (Zpos (digits2_pos p) = 53 + (expo z + j)) as Hd.
  { change (Zpos (digits2_pos p)) with (Zdigits2 (Zpos p)). rewrite Hp.
    apply digits_unique; unfold expo; [lia|].
    pose proof (Z.log2_spec (Z.abs z) ltac:(lia)) as Hs.
    replace (53 + (Z.log2 (Z.abs z) - 52 + j)) with (Z.succ (Z.log2 (Z.abs z)) + j) by lia.
    replace (Z.succ (Z.log2 (Z.abs z)) + j - 1) with (Z.log2 (Z.abs z) + j) by lia.
    rewrite !Z.pow_add_r by lia.
    assert (0 < 2 ^ j) by (apply Z.pow_pos_nonneg; lia). nia. }
  rewrite Hd. replace (53 + (expo z + j) + - j) with (53 + expo z) by lia.
  rewrite fexp64_normal by (unfold expo; lia).
  destruct (Z.le_ge_cases (- j) (expo z)) as [Hc|Hc].
  - assert (shl_align p (- j) (expo z) = (p, - j)) as ->.
    { unfold shl_align. destruct (expo z - - j) eqn:He; [done..|lia]. }
    rewrite Hp, <-(mant_scaled z j) by (done || lia).
    replace (- j) with (expo z - (expo z + j)) by lia.
    apply round_exact; [done|lia|unfold expo; lia].
  - destruct (shl_align_spec p (- j) (expo z)) as [Hf Hs]; [lia|].
    destruct (shl_align p (- j) (expo z)) as [q e]. cbn [fst snd] in *. subst e.
    rewrite Hf, Hp. pose proof (round_exact s (mant z) (expo z) 0 Hm ltac:(lia)
      ltac:(unfold expo; lia)) as Hr. rewrite Z.mul_1_r, Z.sub_0_r in Hr.
    rewrite <-Hr. f_equal. rewrite <-Z.mul_assoc, <-Z.pow_add_r by lia.
    unfold mant, expo. do 2 f_equal. lia.
Qed.

Lemma normalize_int z j b :
  small z → z ≠ 0 → 0 ≤ j ≤ 900 →
  binary_normalize 53 1024 (z * 2 ^ j) (-j) b = dbl z.
Proof.
  intros Hz Hn Hj. assert (0 < 2 ^ j) by (apply Z.pow_pos_nonneg; lia).
  unfold binary_normalize, dbl.
  destruct (z * 2 ^ j) as [|p|p] eqn:Hp; [nia|..];
    (destruct (Z.ltb_spec z 0); [|]); try nia; apply round_int; (done || nia).
Qed.

Lemma to_double_int z : small z → z ≠ 0 → to_double z = dbl z.
Proof.
  intros Hz Hn. pose proof (normalize_int z 0 false Hz Hn ltac:(lia)) as H.
  by rewrite Z.mul_1_r in H.
Qed.

(** ** Sums and products *)

Lemma cond_opp_abs z k : cond_Zopp (z <? 0) (Z.abs z * k) = z * k.
Proof. unfold cond_Zopp. destruct (Z.ltb_spec z 0); lia. Qed.

Lemma shl_int z e :
  small z → z ≠ 0 → e ≤ expo z →
  Zpos (fst (shl_align (Z.to_pos (mant z)) (expo z) e)) = Z.abs z * 2 ^ (- e).
Proof.
  intros Hz Hn He. destruct (shl_align_spec (Z.to_pos (mant z)) (expo z) e He) as [-> _].
  pose proof (mant_full z Hz Hn) as Hm. unfold full in Hm. rewrite Z2Pos.id by lia.
  rewrite <-(mant_scaled z (- e)) by (done || lia). done.
Qed.

Lemma dadd_int a b :
  small a → small b → small (a + b) → dadd (to_double a) (to_double b) = to_double (a + b).
Proof.
  intros Ha Hb Hab. destruct (decide (a = 0)) as [->|Hna].
  { rewrite Z.add_0_l. destruct (decide (b = 0)) as [->|Hnb]; [done|].
    by rewrite (to_double_int b). }
  destruct (decide (b = 0)) as [->|Hnb].
  { rewrite Z.add_0_r. by rewrite (to_double_int a). }
  rewrite !(to_double_int a), !(to_double_int b) by done. unfold dadd, dbl, SFadd.
  pose proof (log2_small a Ha). pose proof (log2_small b Hb).
  set (e := Z.min (expo a) (expo b)). cbv zeta.
  rewrite !shl_int by (done || lia). rewrite !cond_opp_abs, <-Z.mul_add_distr_r.
  destruct (decide (a + b = 0)) as [->|Hn]; [done|].
  rewrite to_double_int by done. replace e with (- - e) at 2 by lia.
  apply normalize_int; [done..|]. unfold e, expo. lia.
Qed.

Lemma dmul_int a b :
  small a → small b → small (a * b) → a ≠ 0 → b ≠ 0 →
  dmul (to_double a) (to_double b) = to_double (a * b).
Proof.
  intros Ha Hb Hab Hna Hnb. rewrite !to_double_int by (done || lia).
  unfold dmul, dbl, SFmul.
  pose proof (mant_full a Ha Hna) as Hma. pose proof (mant_full b Hb Hnb) as Hmb.
  unfold full in *. rewrite Pos2Z.inj_mul, !Z2Pos.id by lia.
  pose proof (log2_small a Ha). pose proof (log2_small b Hb).
  pose proof (log2_small (a * b) Hab).
  assert (Z.log2 (Z.abs a) + Z.log2 (Z.abs b) ≤ Z.log2 (Z.abs (a * b))) as Hl.
  { rewrite Z.abs_mul. apply Z.log2_mul_below; lia. }
  replace (xorb (a <? 0) (b <? 0)) with (a * b <? 0).
  2: { destruct (Z.ltb_spec a 0), (Z.ltb_spec b 0), (Z.ltb_spec (a * b) 0); cbn; nia. }
  set (k := 52 - Z.log2 (Z.abs a) - Z.log2 (Z.abs b) + Z.log2 (Z.abs (a * b))).
  rewrite <-(round_exact _ (mant (a * b)) (expo (a * b)) k);
    [|apply mant_full; [done|lia]|lia|unfold expo; lia].
  f_equal; [|unfold expo, k; lia].
  replace (mant (a * b)) with (Z.abs a * Z.abs b * 2 ^ (52 - Z.log2 (Z.abs (a * b))))
    by (unfold mant; by rewrite <-Z.abs_mul).
  unfold mant. rewrite Z.mul_shuffle1, <-(Z.mul_assoc _ (2 ^ (52 - Z.log2 (Z.abs (a * b))))).
  rewrite <-!Z.pow_add_r by lia. do 2 f_equal. unfold k. lia.
Qed.

(** ** Comparison *)

(** Floats with full mantissas compare as the numbers they stand for, here
    scaled to integers. *)
Lemma compare_full m1 e1 m2 e2 k :
  full m1 → full m2 → 0 ≤ e1 + k → 0 ≤ e2 + k →
  (match e1 ?= e2 with Eq => m1 ?= m2 | c => c end)
  = (m1 * 2 ^ (e1 + k) ?= m2 * 2 ^ (e2 + k)).
Proof.
  unfold full. intros H1 H2 Hk1 Hk2. symmetry.
  assert (0 < 2 ^ (e1 + k)) by (apply Z.pow_pos_nonneg; lia).
  assert (0 < 2 ^ (e2 + k)) by (apply Z.pow_pos_nonneg; lia).
  assert (∀ e e', 0 ≤ e → e < e' → 2 * 2 ^ e ≤ 2 ^ e') as Hp.
  { intros e e' He Hl. rewrite <-Z.pow_succ_r by lia. apply Z.pow_le_mono_r; lia. }
  destruct (Z.compare_spec e1 e2) as [->|Hl|Hl]; cbn beta iota.
  - symmetry. apply Zmult_compare_compat_r. lia.
  - apply Z.compare_lt_iff. specialize (Hp (e1 + k) (e2 + k)). nia.
  - apply Z.compare_gt_iff. specialize (Hp (e2 + k) (e1 + k)). nia.
Qed.

(** A finite float of either sign, and the integer it is after scaling. *)
Definition scaled (s : bool) (m e k : Z) : Z := (if s then -1 else 1) * (m * 2 ^ (e + k)).

Lemma ltb_full s1 m1 e1 s2 m2 e2 k :
  full m1 → full m2 → 0 ≤ e1 + k → 0 ≤ e2 + k →
  SFltb (S754_finite s1 (Z.to_pos m1) e1) (S754_finite s2 (Z.to_pos m2) e2)
  = (scaled s1 m1 e1 k <? scaled s2 m2 e2 k).
Proof.
  intros H1 H2 Hk1 Hk2. pose proof (compare_full m1 e1 m2 e2 k H1 H2 Hk1 Hk2) as Hc.
  assert (0 < m1 * 2 ^ (e1 + k)).
  { unfold full in H1. assert (0 < 2 ^ (e1 + k)) by (apply Z.pow_pos_nonneg; lia). nia. }
  assert (0 < m2 * 2 ^ (e2 + k)).
  { unfold full in H2. assert (0 < 2 ^ (e2 + k)) by (apply Z.pow_pos_nonneg; lia). nia. }
  assert (Pos.compare_cont Eq (Z.to_pos m1) (Z.to_pos m2) = (m1 ?= m2)) as Hm.
  { unfold full in *. destruct m1, m2; (done || lia). }
  unfold SFltb, SFcompare, scaled. rewrite Hm.
  destruct s1, s2.
  - replace (match e1 ?= e2 with Eq => CompOpp (m1 ?= m2) | Lt => Gt | Gt => Lt end)
      with (CompOpp (m1 * 2 ^ (e1 + k) ?= m2 * 2 ^ (e2 + k)))
      by (rewrite <-Hc; by destruct (e1 ?= e2)).
    destruct (Z.compare_spec (m1 * 2 ^ (e1 + k)) (m2 * 2 ^ (e2 + k))); cbn [CompOpp];
      symmetry; [apply Z.ltb_ge|apply Z.ltb_ge|apply Z.ltb_lt]; lia.
  - symmetry. apply Z.ltb_lt. lia.
  - symmetry. apply Z.ltb_ge. lia.
  - replace (match e1 ?= e2 with Eq => m1 ?= m2 | Lt => Lt | Gt => Gt end)
      with (m1 * 2 ^ (e1 + k) ?= m2 * 2 ^ (e2 + k))
      by (rewrite <-Hc; by destruct (e1 ?= e2)).
    destruct (Z.compare_spec (m1 * 2 ^ (e1 + k)) (m2 * 2 ^ (e2 + k)));
      symmetry; [apply Z.ltb_ge|apply Z.ltb_lt|apply Z.ltb_ge]; lia.
Qed.

Lemma scaled_int z k : small z → z ≠ 0 → 52 ≤ k → scaled (z <? 0) (mant z) (expo z) k = z * 2 ^ k.
Proof.
  intros Hz Hn Hk. pose proof (log2_small z Hz). unfold scaled.
  rewrite mant_scaled by (unfold expo; (done || lia)). destruct (Z.ltb_spec z 0); lia.
Qed.

Lemma ltb_int a b :
  small a → small b → SFltb (to_double a) (to_double b) = (a <? b).
Proof.
  intros Ha Hb. destruct (decide (a = 0)) as [->|Hna].
  { destruct (decide (b = 0)) as [->|Hnb]; [done|]. rewrite (to_double_int b) by done.
    unfold dbl. destruct (Z.ltb_spec b 0), (Z.ltb_spec 0 b); (done || lia). }
  destruct (decide (b = 0)) as [->|Hnb].
  { rewrite (to_double_int a) by done. unfold dbl.
    destruct (Z.ltb_spec a 0), (Z.ltb_spec 0 a); (done || lia). }
  pose proof (log2_small a Ha). pose proof (log2_small b Hb).
  rewrite !to_double_int by done. unfold dbl.
  rewrite (ltb_full _ _ _ _ _ _ 52) by (apply mant_full || unfold expo; (done || lia)).
  rewrite !scaled_int by (done || lia). apply eq_true_iff_eq. rewrite !Z.ltb_lt. nia.
Qed.

Lemma dgt_int a b : small a → small b → dgt (to_double a) (to_double b) = (b <? a).
Proof. intros. by apply ltb_int. Qed.

(** ** Quotients *)

(** [l] says where in [[q, q + 1)] the number [p / y] is. *)
Definition located (p y q : Z) (l : location) : Prop :=
  match l with
  | loc_Exact => p = q * y
  | loc_Inexact Lt => 2 * (q * y) < 2 * p < 2 * (q * y) + y
  | loc_Inexact Eq => 2 * p = 2 * (q * y) + y
  | loc_Inexact Gt => 2 * (q * y) + y < 2 * p < 2 * (q * y) + 2 * y
  end.

Lemma new_location_located p y q r :
  p = y * q + r → 0 ≤ r < y → located p y q (new_location y r).
Proof.
  intros Hp Hr. unfold new_location, new_location_even, new_location_odd.
  destruct (Z.even y) eqn:He; (destruct (Z.eqb_spec r 0); [cbn; lia|]).
  - destruct (Z.compare_spec (2 * r) y); cbn [located]; lia.
  - assert (2 * r ≠ y) by (intros <-; by rewrite Z.even_mul in He).
    destruct (Z.compare_spec (2 * r + 1) y); cbn [located]; lia.
Qed.

(** One digit less. *)
Lemma shr_1_located p y q l :
  0 ≤ q → 0 < y → located p y q l →
  let r := shr_1 (shr_record_of_loc q l) in
  shr_m r = q / 2 ∧ located p (2 * y) (q / 2) (loc_of_shr_record r).
Proof.
  intros Hq Hy Hl. pose proof (Z.div_mod q 2 ltac:(lia)) as Hd.
  pose proof (Z.mod_pos_bound q 2 ltac:(lia)) as Hm.
  assert (q * y = q / 2 * (2 * y) + q mod 2 * y) as Hqy by nia.
  set (h := q / 2 * (2 * y)) in *.
  assert (shr_1 (shr_record_of_loc q l)
          = Build_shr_record (q / 2) (q mod 2 =? 1)
              (match l with loc_Exact => false | _ => true end)) as ->.
  { clear - Hq. destruct q as [|p|p]; [|..|lia].
    - by destruct l as [|[]].
    - destruct p as [p|p|]; [| |by destruct l as [|[]]].
      + assert (Zpos p~1 / 2 = Zpos p) as -> by (symmetry; apply (Z.div_unique _ _ _ 1); lia).
        assert (Zpos p~1 mod 2 = 1) as ->
          by (symmetry; apply (Z.mod_unique _ _ (Zpos p)); lia).
        by destruct l as [|[]].
      + assert (Zpos p~0 / 2 = Zpos p) as -> by (symmetry; apply (Z.div_unique _ _ _ 0); lia).
        assert (Zpos p~0 mod 2 = 0) as ->
          by (symmetry; apply (Z.mod_unique _ _ (Zpos p)); lia).
        by destruct l as [|[]]. }
  split; [done|].
  destruct (Z.eqb_spec (q mod 2) 1) as [H1|H1]; destruct l as [|[]];
    cbn [loc_of_shr_record located] in *; fold h;
    (try assert (q mod 2 = 0) as H0 by lia); nia.
Qed.

Lemma loc_of_record q l : loc_of_shr_record (shr_record_of_loc q l) = l.
Proof. by destruct l as [|[]]. Qed.

Lemma record_mantissa q l : shr_m (shr_record_of_loc q l) = q.
Proof. by destruct l as [|[]]. Qed.

(** The first shift leaves a full mantissa and its location. *)
Lemma shr_fexp_located p y q e l :
  2 ^ 52 ≤ q < 2 ^ 54 → -1000 ≤ e → 0 < y → located p y q l →
  ∃ k q' r, (k = 0 ∨ k = 1) ∧ full q' ∧
    shr_fexp 53 1024 q e l = (r, e + k) ∧ shr_m r = q' ∧
    located p (2 ^ k * y) q' (loc_of_shr_record r).
Proof.
  intros Hq He Hy Hl. unfold full. destruct (Z.lt_ge_cases q (2 ^ 53)).
  - exists 0, q, (shr_record_of_loc q l). rewrite Z.mul_1_l, Z.add_0_r.
    split_and!; [by left|lia|lia| |apply record_mantissa|by rewrite loc_of_record].
    unfold shr_fexp. rewrite (digits_unique q 53) by lia.
    rewrite fexp64_normal, Z.sub_diag by lia. done.
  - destruct (shr_1_located p y q l ltac:(lia) Hy Hl) as [Hm Hl'].
    exists 1, (q / 2), (shr_1 (shr_record_of_loc q l)).
    split_and!; [by right| | | |done|done].
    + apply Z.div_le_lower_bound; lia.
    + apply Z.div_lt_upper_bound; lia.
    + unfold shr_fexp. rewrite (digits_unique q 54) by lia.
      replace (54 + e) with (53 + (e + 1)) by lia. rewrite fexp64_normal by lia.
      by replace (e + 1 - e) with 1 by lia.
Qed.

Lemma round_bounds q l : q ≤ round_nearest_even q l ≤ q + 1.
Proof. destruct l as [|[]]; cbn; try destruct (Z.even q); lia. Qed.

(** The float a rounded mantissa [r] becomes: as a number, [r * 2 ^ e]. *)
Lemma rounded_result q l e :
  full q → -1000 ≤ e ≤ 900 →
  ∃ m e', full m ∧ (e' = e ∨ e' = e + 1) ∧
    m * 2 ^ (e' - e) = round_nearest_even q l ∧
    let '(mrs, e2) := shr_fexp 53 1024 (round_nearest_even q l) e loc_Exact in
    shr_m mrs = m ∧ e2 = e'.
Proof.
  intros Hq He. pose proof (round_bounds q l) as Hr. unfold full in *.
  set (r := round_nearest_even q l) in *.
  destruct (decide (r = 2 ^ 53)) as [->|Hn].
  - exists (2 ^ 52), (e + 1). split_and!; [done|done|by right| |].
    + by replace (e + 1 - e) with 1 by lia.
    + pose proof (shr_fexp_exact (2 ^ 52) (e + 1) 1 ltac:(done) ltac:(lia) ltac:(lia)) as Hs.
      replace (e + 1 - 1) with e in Hs by lia.
      change (2 ^ 52 * 2 ^ 1) with (2 ^ 53) in Hs. by rewrite Hs.
  - exists r, e. split_and!; [lia|lia|by left| |].
    + by rewrite Z.sub_diag, Z.mul_1_r.
    + rewrite shr_fexp_full by (unfold full; lia). done.
Qed.

Lemma round_aux_located p y q e l :
  2 ^ 52 ≤ q < 2 ^ 54 → -900 ≤ e ≤ 800 → 0 < y → located p y q l →
  ∃ k q' l' m e', (k = 0 ∨ k = 1) ∧ full q' ∧ full m ∧
    located p (2 ^ k * y) q' l' ∧ e + k ≤ e' ≤ e + k + 1 ∧
    m * 2 ^ (e' - (e + k)) = round_nearest_even q' l' ∧
    binary_round_aux 53 1024 false q e l = S754_finite false (Z.to_pos m) e'.
Proof.
  intros Hq He Hy Hl.
  destruct (shr_fexp_located p y q e l Hq ltac:(lia) Hy Hl)
    as (k & q' & r & Hk & Hq' & Hs & Hm & Hl').
  destruct (rounded_result q' (loc_of_shr_record r) (e + k) Hq' ltac:(lia))
    as (m & e' & Hfull & He' & Hmr & Hs2).
  exists k, q', (loc_of_shr_record r), m, e'.
  split_and!; [done|exact Hq'|exact Hfull|done|lia|lia|done|].
  unfold binary_round_aux. rewrite Hs, Hm.
  destruct (shr_fexp 53 1024 _ (e + k) loc_Exact) as [mrs e2]. destruct Hs2 as [-> ->].
  unfold full in Hfull. destruct m as [|pm|pm]; [lia| |lia].
  destruct (Z.leb_spec e' (1024 - 53)); [done|lia].
Qed.

(** [dgt (a / b) c] is [c * b < a]: rounding the quotient never moves it to
    the other side of an integer. *)
Lemma quotient_dividend n d :
  small n → small d → 0 < n → 0 < d →
  ∃ q l, 2 ^ 52 ≤ q < 2 ^ 54 ∧ located (mant n * 2 ^ 53) (mant d) q l ∧
    ddiv (to_double n) (to_double d)
    = binary_round_aux 53 1024 false q (expo n - expo d - 53) l.
Proof.
  intros Hn Hd Hpn Hpd. pose proof (log2_small n Hn). pose proof (log2_small d Hd).
  pose proof (mant_full n Hn ltac:(lia)) as Hmn. pose proof (mant_full d Hd ltac:(lia)) as Hmd.
  rewrite !to_double_int by (done || lia). unfold ddiv, dbl, SFdiv, SFdiv_core_binary.
  destruct (Z.ltb_spec n 0); [lia|]. destruct (Z.ltb_spec d 0); [lia|].
  unfold full in *. rewrite !Z2Pos.id by lia.
  rewrite !(digits_unique _ 53) by lia.
  assert (Z.min (fexp64 (53 + expo n - (53 + expo d))) (expo n - expo d)
          = expo n - expo d - 53) as ->.
  { replace (53 + expo n - (53 + expo d)) with (53 + (expo n - expo d - 53)) by lia.
    rewrite fexp64_normal; unfold expo; lia. }
  replace (expo n - expo d - (expo n - expo d - 53)) with 53 by lia.
  cbv zeta. rewrite Z.shiftl_mul_pow2 by lia.
  pose proof (Z_div_mod (mant n * 2 ^ 53) (mant d) ltac:(lia)) as Hdm.
  destruct (Z.div_eucl (mant n * 2 ^ 53) (mant d)) as [q r]. destruct Hdm as [He Hr].
  exists q, (new_location (mant d) r). split_and!; [nia|nia| |done].
  by apply new_location_located.
Qed.

(** Rounding to nearest and an integer [t] of the same scale: no difference,
    unless [p / y] is above [t] by half a unit or less. *)
Lemma round_above p y q l t :
  0 < y → located p y q l → (q = t → t * y < p → y < 2 * (p - t * y)) →
  t < round_nearest_even q l ↔ t * y < p.
Proof.
  intros Hy Hl Hgap. pose proof (round_bounds q l) as Hr.
  assert (q * y ≤ p < q * y + y) as Hp by (destruct l as [|[]]; cbn in Hl; lia).
  destruct (Z.lt_trichotomy q t) as [Hq|[->|Hq]]; [split; nia| |split; nia].
  specialize (Hgap eq_refl).
  destruct l as [|[]]; cbn [located round_nearest_even] in *; lia.
Qed.

(** Dividend and divisor at the scale of the rounded quotient. *)
Lemma quotient_scale n d k :
  0 < n → 0 < d → 0 ≤ k → Z.log2 (Z.abs n) ≤ 52 → Z.log2 (Z.abs d) ≤ 52 →
  expo n - expo d - 53 + k ≤ 0 →
  mant n * 2 ^ 53 * d = n * 2 ^ (- (expo n - expo d - 53 + k)) * (2 ^ k * mant d).
Proof.
  intros Hn Hd Hk Hln Hld He. unfold mant, expo in *. rewrite (Z.abs_eq n), (Z.abs_eq d) in * by lia.
  assert (2 ^ (52 - Z.log2 n) * 2 ^ 53
    = 2 ^ (- (Z.log2 n - 52 - (Z.log2 d - 52) - 53 + k)) * (2 ^ k * 2 ^ (52 - Z.log2 d))) as E.
  { rewrite <-!Z.pow_add_r by lia. f_equal. lia. }
  replace (n * 2 ^ (52 - Z.log2 n) * 2 ^ 53 * d)
    with (n * d * (2 ^ (52 - Z.log2 n) * 2 ^ 53)) by ring. rewrite E. ring.
Qed.

Lemma dgt_quotient n d t :
  small n → small d → small t → 0 ≤ n → 0 < d →
  dgt (ddiv (to_double n) (to_double d)) (to_double t) = (t * d <? n).
Proof.
  intros Hn Hd Ht Hpn Hpd. unfold dgt.
  destruct (decide (n = 0)) as [->|Hnz].
  { rewrite (to_double_int d) by (done || lia).
    change (ddiv (to_double 0) (dbl d)) with (S754_zero (xorb false (d <? 0))).
    destruct (Z.ltb_spec d 0); [lia|]. change (S754_zero (xorb false false)) with (to_double 0).
    rewrite ltb_int by done. apply eq_true_iff_eq. rewrite !Z.ltb_lt. nia. }
  destruct (quotient_dividend n d Hn Hd ltac:(lia) Hpd) as (q & l & Hq & Hl & ->).
  pose proof (log2_small n Hn) as Hln. pose proof (log2_small d Hd) as Hld.
  pose proof (mant_full d Hd ltac:(lia)) as Hmd. unfold full in Hmd.
  destruct (round_aux_located _ (mant d) q (expo n - expo d - 53) l Hq ltac:(unfold expo; lia)
    ltac:(lia) Hl) as (k & q' & l' & m & e' & Hk & Hq' & Hm & Hl' & He' & Hmr & ->).
  destruct (decide (t = 0)) as [->|Htz].
  { cbn. symmetry. apply Z.ltb_lt. lia. }
  pose proof (log2_small t Ht) as Hlt.
  rewrite to_double_int by done. unfold dbl.
  rewrite (ltb_full _ _ _ _ _ _ 200) by
    (apply mant_full || unfold expo in *; (done || lia)).
  rewrite scaled_int by (done || lia).
  (* the scale of the result, and [t] and [n] at that scale *)
  set (e := expo n - expo d - 53 + k) in *.
  assert (-200 ≤ e ≤ 0) as He by (unfold e, expo; lia).
  assert (scaled false m e' 200 = round_nearest_even q' l' * 2 ^ (e + 200)) as ->.
  { unfold scaled. rewrite <-Hmr, Z.mul_1_l, <-Z.mul_assoc, <-Z.pow_add_r by lia.
    do 2 f_equal. lia. }
  replace (2 ^ 200) with (2 ^ (- e) * 2 ^ (e + 200))
    by (rewrite <-Z.pow_add_r by lia; f_equal; lia).
  set (p := mant n * 2 ^ 53) in *. set (y := 2 ^ k * mant d) in *.
  assert (0 < 2 ^ (e + 200)) as Hp200 by (apply Z.pow_pos_nonneg; lia).
  assert (0 < 2 ^ (- e)) as Hpe by (apply Z.pow_pos_nonneg; lia).
  assert (0 < y) as Hy by (unfold y; clear - Hk Hmd; destruct Hk as [-> | ->]; lia).
  assert (p * d = n * 2 ^ (- e) * y) as Hscale
    by (apply quotient_scale; unfold expo; lia).
  assert (t * 2 ^ (- e) * y < p ↔ t * d < n) as Hcmp by nia.
  apply eq_true_iff_eq. rewrite !Z.ltb_lt, Z.mul_assoc, <-Z.mul_lt_mono_pos_r by done.
  rewrite <-Hcmp. apply round_above; [done|done|]. intros Hqt Hlt'.
  apply Hcmp in Hlt'. unfold full, small in *.
  assert (d < 2 * 2 ^ (- e)) by nia. nia.
Qed.
