(* ===== verification/Timer.v ===== *)
(** The rest of [plf::nanotimer] (single_header/fastws.hpp): the macOS and the
    Windows class, over the clock functions of those systems, and the three
    delay functions, which run on whichever class the platform has. [Nanotimer]
    is what the delays need of it. On Linux the time measured is exact, and the
    delays end and wait as long as asked. *)

From S2P Require Import Prelude Sys World Binary64.

(** ** The interface *)

(** A class [nanotimer] in an environment [Y]: an object, its constructor and
    destructor, and the two methods the delays call. *)
Class Nanotimer (T Y : Type) : Type := {
  timer_new : M Y T;
  timer_start : M (T * Y) unit;
  timer_elapsed_ns : M (T * Y) double;
  timer_destroy : M (T * Y) unit
}.

#[export] Instance linux_nanotimer {W} `{OS W} : Nanotimer nanotimer.t (Sys W) := {
  timer_new := mret nanotimer.new;
  timer_start := nanotimer.start;
  timer_elapsed_ns := nanotimer.get_elapsed_ns;
  timer_destroy := mret tt
}.

(** A call to the system, in a world [W] that only the system changes. *)
Definition sys {T W A} (f : W → A * W) : M (T * W) A := λ '(t, w),
  let '(a, w') := f w in (Ok a, (t, w')).

Definition set {T W} (t : T) : M (T * W) unit := modify (λ '(_, w), (t, w)).

(** ** macOS *)

(** The Mach clock service; [mach_timespec_t] has an [unsigned int] of seconds
    and an [int] of nanoseconds. *)
Class Mach (W : Type) : Type := {
  host_get_clock_service : W → Z * W;
  mach_port_deallocate : Z → W → W;
  clock_get_time : Z → W → (Z * Z) * W
}.

Definition u32 (z : Z) : Z := (z mod 2 ^ 32)%Z.

Module mach_nanotimer.

Record t : Type := mk {
  system_clock : Z;
  time1 : option (Z * Z);
  time2 : option (Z * Z)
}.

Section Methods.
Context {W : Type} `{Mach W}.

Definition new : M W t := λ w,
  let '(clock, w') := host_get_clock_service w in (Ok (mk clock None None), w').

Definition destroy : M (t * W) unit :=
  c ← gets (λ x, system_clock (fst x));
  sys (λ w, (tt, mach_port_deallocate c w)).

Definition start : M (t * W) unit :=
  c ← gets (λ x, system_clock (fst x));
  now ← sys (clock_get_time c);
  t ← gets fst;
  set (mk c (Some now) (time2 t)).

Definition get_elapsed_ns : M (t * W) double :=
  c ← gets (λ x, system_clock (fst x));
  now ← sys (clock_get_time c);
  t ← gets fst;
  set (mk c (time1 t) (Some now));;
  match time1 t with
  | None => undef uninitialised
  | Some (sec1, nsec1) =>
      let '(sec2, nsec2) := now in
      mret (dadd (dmul (to_double 1000000000) (to_double (u32 (sec2 - sec1))))
                 (to_double (nsec2 - nsec1)))
  end.

Definition get_elapsed_ms : M (t * W) double :=
  ns ← get_elapsed_ns; mret (ddiv ns (to_double 1000000)).

Definition get_elapsed_us : M (t * W) double :=
  ns ← get_elapsed_ns; mret (ddiv ns (to_double 1000)).
End Methods.

End mach_nanotimer.

#[export] Instance mach_timer {W} `{Mach W} : Nanotimer mach_nanotimer.t W := {
  timer_new := mach_nanotimer.new;
  timer_start := mach_nanotimer.start;
  timer_elapsed_ns := mach_nanotimer.get_elapsed_ns;
  timer_destroy := mach_nanotimer.destroy
}.

(** ** Windows *)

Class Windows (W : Type) : Type := {
  QueryPerformanceFrequency : W → Z * W;
  QueryPerformanceCounter : W → Z * W
}.

Module win_nanotimer.

Record t : Type := mk {
  ticks1 : option Z;
  ticks2 : option Z;
  frequency : double
}.

Section Methods.
Context {W : Type} `{Windows W}.

Definition new : M W t := λ w,
  let '(freq, w') := QueryPerformanceFrequency w in
  (Ok (mk None None (to_double freq)), w').

Definition start : M (t * W) unit :=
  now ← sys QueryPerformanceCounter;
  t ← gets fst;
  set (mk (Some now) (ticks2 t) (frequency t)).

Definition get_elapsed_ms : M (t * W) double :=
  now ← sys QueryPerformanceCounter;
  t ← gets fst;
  set (mk (ticks1 t) (Some now) (frequency t));;
  match ticks1 t with
  | None => undef uninitialised
  | Some before =>
      mret (ddiv (dmul (to_double (now - before)) (to_double 1000)) (frequency t))
  end.

Definition get_elapsed_us : M (t * W) double :=
  ms ← get_elapsed_ms; mret (dmul ms (to_double 1000)).

Definition get_elapsed_ns : M (t * W) double :=
  ms ← get_elapsed_ms; mret (dmul ms (to_double 1000000)).
End Methods.

End win_nanotimer.

#[export] Instance win_timer {W} `{Windows W} : Nanotimer win_nanotimer.t W := {
  timer_new := win_nanotimer.new;
  timer_start := win_nanotimer.start;
  timer_elapsed_ns := win_nanotimer.get_elapsed_ns;
  timer_destroy := mret tt
}.

(** ** The delays *)

Section Delays.
Context {T Y : Type} `{Nanotimer T Y}.

(** [while (timer.get_elapsed_ns() < delay_ns) {}]; [n] bounds the readings. *)
Fixpoint delay_loop (n : nat) (delay_ns : double) : M (T * Y) unit :=
  match n with
  | O => out_of_fuel
  | S n' =>
      elapsed ← timer_elapsed_ns;
      if dgt delay_ns elapsed then delay_loop n' delay_ns else mret tt
  end.

(** The timer is a local variable. *)
Definition nanosecond_delay (fuel : nat) (delay_ns : double) : M Y unit :=
  timer ← timer_new;
  zoom (λ y, (timer, y)) (λ x _, snd x)
    (timer_start;; delay_loop fuel delay_ns;; timer_destroy).

Definition microsecond_delay (fuel : nat) (delay_us : double) : M Y unit :=
  nanosecond_delay fuel (dmul delay_us (to_double 1000)).

Definition millisecond_delay (fuel : nat) (delay_ms : double) : M Y unit :=
  nanosecond_delay fuel (dmul delay_ms (to_double 1000000)).
End Delays.

(** ** The time measured *)

(** A reading of the clock, in nanoseconds. *)
Definition ns (t : Z * Z) : Z := (1000000000 * fst t + snd t)%Z.

Definition reading_ok (t : Z * Z) : Prop := (0 ≤ snd t < 1000000000)%Z.

(** What [get_elapsed_ns] computes in [double] is the difference of the two
    readings, up to 52 days. *)
Lemma elapsed_ns_exact (t1 t2 : Z * Z) :
  reading_ok t1 → reading_ok t2 → (0 ≤ ns t2 - ns t1 < 2 ^ 52)%Z →
  dadd (dmul (to_double 1000000000) (to_double (fst t2 - fst t1)))
    (to_double (snd t2 - snd t1)) = to_double (ns t2 - ns t1).
Proof.
  destruct t1 as [s1 n1], t2 as [s2 n2]. unfold reading_ok, ns. cbn [fst snd].
  intros H1 H2 Hd.
  assert (dmul (to_double 1000000000) (to_double (s2 - s1))
          = to_double (1000000000 * (s2 - s1))) as ->.
  { destruct (decide (s2 - s1 = 0)%Z) as [->|Hn]; [done|].
    apply dmul_int; unfold small; lia. }
  rewrite dadd_int by (unfold small; lia). f_equal. lia.
Qed.

Lemma elapsed_ms_exact (t1 t2 : Z * Z) (limit : Z) :
  reading_ok t1 → reading_ok t2 → (0 ≤ ns t2 - ns t1 < 2 ^ 52)%Z → small limit →
  dgt (ddiv (dadd (dmul (to_double 1000000000) (to_double (fst t2 - fst t1)))
               (to_double (snd t2 - snd t1))) (to_double 1000000)) (to_double limit)
  = (limit * 1000000 <? ns t2 - ns t1)%Z.
Proof.
  intros H1 H2 Hd Hl. rewrite elapsed_ns_exact by done.
  apply dgt_quotient; unfold small in *; lia.
Qed.

(** ** The delays end *)

Section Waiting.
Context {W : Type} `{OS W}.

(** The world after [k] readings of the clock, and the next reading. *)
Definition after_readings (k : nat) (w : W) : W := Nat.iter k (λ w, snd (sys_clock w)) w.
Definition reading (k : nat) (w : W) : Z * Z := fst (sys_clock (after_readings k w)).

(** From [w] on, the clock gives proper times and advances from one reading to
    the next, by at most 2^50 nanoseconds (13 days). *)
Definition clock_advances (w : W) : Prop := ∀ k,
  reading_ok (reading k w) ∧
  (1 ≤ ns (reading (S k) w) - ns (reading k w) ≤ 2 ^ 50)%Z.

Lemma clock_reading k w :
  sys_clock (after_readings k w) = (reading k w, after_readings (S k) w).
Proof. unfold reading. cbn. by destruct (sys_clock _). Qed.

Lemma elapsed_at k w (t2 : option (Z * Z)) l :
  clock_advances w → 1 ≤ k → (0 ≤ ns (reading k w) - ns (reading 0 w) < 2 ^ 52)%Z →
  nanotimer.get_elapsed_ns
    (nanotimer.mk (Some (reading 0 w)) t2, mkSys (after_readings k w) l)
  = (Ok (to_double (ns (reading k w) - ns (reading 0 w))),
     (nanotimer.mk (Some (reading 0 w)) (Some (reading k w)),
      mkSys (after_readings (S k) w) l)).
Proof.
  intros Hc Hk Hd.
  assert (reading_ok (reading 0 w) ∧ reading_ok (reading k w)) as [H0 H1]
    by (split; apply Hc).
  rewrite <-elapsed_ns_exact by done.
  unfold nanotimer.get_elapsed_ns, call, self, gets, update_self, modify, mret, M_ret,
    mbind, M_bind. cbn [env held]. rewrite clock_reading. cbn [fst snd nanotimer.time1].
  by destruct (reading 0 w), (reading k w).
Qed.

(** The loop from its [k]-th reading on. *)
Lemma delay_loop_waits n k w d t2 l :
  clock_advances w → (0 ≤ d < 2 ^ 51)%Z → 1 ≤ k → 1 ≤ n → Z.to_nat d < n + k →
  (Z.of_nat k ≤ ns (reading k w) - ns (reading 0 w) < 2 ^ 52)%Z →
  ∃ j t', k ≤ j ≤ Nat.max k (Z.to_nat d) ∧
    delay_loop n (to_double d)
      (nanotimer.mk (Some (reading 0 w)) t2, mkSys (after_readings k w) l)
    = (Ok tt, (t', mkSys (after_readings (S j) w) l)) ∧
    (d ≤ ns (reading j w) - ns (reading 0 w))%Z ∧
    ∀ i, k ≤ i < j → (ns (reading i w) - ns (reading 0 w) < d)%Z.
Proof.
  intros Hc Hd. revert k t2. induction n as [|n IH]; [lia|]. intros k t2 Hk _ Hn Hb.
  cbn [delay_loop]. cbn [timer_elapsed_ns linux_nanotimer].
  rewrite (bind_ok _ _ _ _ _ (elapsed_at k w t2 l Hc Hk ltac:(lia))).
  rewrite dgt_int by (unfold small; lia).
  destruct (Z.ltb_spec (ns (reading k w) - ns (reading 0 w)) d) as [Hlt|Hge].
  - destruct (Hc k) as [_ Hstep].
    destruct (IH (S k) (Some (reading k w))) as (j & t' & Hj & -> & Hw & Hi);
      [lia|lia|lia|lia|].
    exists j, t'. split_and!; [lia|lia|done|done|].
    intros i Hik. destruct (decide (i = k)) as [->|Hne]; [done|]. apply Hi. lia.
  - eexists k, _. split_and!; [lia|lia|reflexivity|done|]. lia.
Qed.
End Waiting.

(** The clock of the scripted world, if it ticks. *)
Lemma world_clock_advances (w : world) :
  (1 ≤ tick w ≤ 2 ^ 50)%Z → clock_advances w.
Proof.
  intros Ht k.
  assert (∀ j, now (after_readings j w) = (now w + Z.of_nat j * tick w)%Z ∧
               tick (after_readings j w) = tick w) as Hj.
  { induction j as [|j [IH1 IH2]]; [cbn; lia|].
    change (after_readings (S j) w) with (snd (read_clock (after_readings j w))).
    cbn [read_clock snd now tick]. rewrite IH1, IH2. lia. }
  assert (∀ j, reading_ok (reading j w) ∧
               ns (reading j w) = (now w + (Z.of_nat j + 1) * tick w)%Z) as Hr.
  { intros j. unfold reading, reading_ok, ns. destruct (Hj j) as [Hn Htk].
    change (sys_clock (after_readings j w)) with (read_clock (after_readings j w)).
    cbn [read_clock fst snd]. rewrite Hn, Htk.
    set (t := (now w + Z.of_nat j * tick w + tick w)%Z).
    pose proof (Z.mod_pos_bound t 1000000000 ltac:(lia)).
    pose proof (Z.div_mod t 1000000000 ltac:(lia)). unfold t in *. lia. }
  destruct (Hr k) as [Hk1 Hk2]. destruct (Hr (S k)) as [_ Hk3].
  split; [done|]. rewrite Hk2, Hk3. lia.
Qed.

Module Timer.

(** C35: [nanosecond_delay] ends, on any clock that advances: after at most one
    reading per nanosecond of the delay (and one more), at the first reading
    that is at least the delay later than the start - never earlier - for every
    delay of a whole number of nanoseconds below 26 days. The comparison in
    [double] is exact. *)
Theorem nanosecond_delay_waits {W} `{OS W} (fuel : nat) (d : Z) (y : Sys W) :
  clock_advances (env y) → (0 ≤ d < 2 ^ 51)%Z → Z.to_nat d + 1 < fuel →
  ∃ k, 1 ≤ k ≤ Nat.max 1 (Z.to_nat d) ∧
    nanosecond_delay (T:=nanotimer.t) fuel (to_double d) y
    = (Ok tt, mkSys (after_readings (S k) (env y)) (held y)) ∧
    (d ≤ ns (reading k (env y)) - ns (reading 0 (env y)))%Z ∧
    ∀ i, 1 ≤ i < k → (ns (reading i (env y)) - ns (reading 0 (env y)) < d)%Z.
Proof.
  intros Hc Hd Hf. destruct y as [w l]. cbn [env held] in *.
  destruct (delay_loop_waits fuel 1 w d None l Hc Hd) as (k & t & Hk & Hloop & Hw & Hi);
    [lia|lia|lia|destruct (Hc 0); lia|].
  exists k. split; [done|]. split; [|done].
  unfold nanosecond_delay. cbn [timer_new timer_start timer_destroy linux_nanotimer].
  rewrite (bind_ok _ _ _ nanotimer.new (mkSys w l)) by done.
  unfold zoom.
  rewrite (bind_ok _ _ _ tt (nanotimer.mk (Some (reading 0 w)) None,
    mkSys (after_readings 1 w) l)).
  2: { unfold nanotimer.start, call, update_self, modify, mbind, M_bind. cbn [env held].
       change (sys_clock w) with (sys_clock (after_readings 0 w)).
       by rewrite clock_reading. }
  by rewrite (bind_ok _ _ _ _ _ Hloop).
Qed.

(** Microseconds and milliseconds are converted exactly. *)
Lemma delay_units {T Y} `{Nanotimer T Y} (fuel : nat) (d : Z) :
  (0 ≤ d < 2 ^ 31)%Z →
  microsecond_delay (T:=T) (Y:=Y) fuel (to_double d)
  = nanosecond_delay (T:=T) fuel (to_double (d * 1000)) ∧
  millisecond_delay (T:=T) (Y:=Y) fuel (to_double d)
  = nanosecond_delay (T:=T) fuel (to_double (d * 1000000)).
Proof.
  intros Hd. unfold microsecond_delay, millisecond_delay.
  destruct (decide (d = 0)%Z) as [->|Hn]; [done|].
  by rewrite !dmul_int by (unfold small; lia).
Qed.

Lemma nanosecond_delay_waits_witness :
  fst (nanosecond_delay (T:=nanotimer.t) 200 (to_double 100) (mkSys (World [] [] [] 0 7 0) []))
  = Ok tt.
Proof.
  destruct (nanosecond_delay_waits 200 100 (mkSys (World [] [] [] 0 7 0) [])
    (world_clock_advances (World [] [] [] 0 7 0) ltac:(cbn; lia)) ltac:(lia) ltac:(lia)) as (k & _ & E & _).
  by rewrite E.
Defined.

End Timer.
