(* ===== verification/Sockets.v ===== *)
(** [SSLSocketWrapper] and [SocketWrapper] (include/fastws/socket_wrapper.hpp)
    over the system interface of [Sys]: opening and closing, the move
    operations, sending everything, and the two ways of reading. The two
    classes are the arguments the client template is used with. The loops
    whose end depends on the outside ([send] and the error queue) take a bound
    on their iterations. *)

From S2P Require Import Prelude Buffer Sys.
From stdpp Require Import pretty.

Definition AF_INET : Z := 2.
Definition SOCK_STREAM : Z := 1.
Definition IPPROTO_TCP : Z := 6.

(** [std::to_string(long)]. *)
Definition to_string (n : Z) : string := pretty n.

(** The state of a method that also fills a frame buffer it was given. *)
Definition on_frame_buffer {S W A} (m : M FrameBuffer.t A) :
    M (S * FrameBuffer.t * Sys W) A :=
  zoom (λ s, snd (fst s)) (λ b s, (fst (fst s), b, snd s)) m.

(** A method of the wrapper, in that state. *)
Definition on_wrapper {S W A} (m : M (S * Sys W) A) :
    M (S * FrameBuffer.t * Sys W) A :=
  zoom (λ s, (fst (fst s), snd s))
    (λ t s, (fst t, snd (fst s), snd t)) m.

(** [recv] or [SSL_read_ex] wrote [bs] at [off] of the vector. *)
Definition received_at {S W} (off : nat) (bs : list Z) :
    M (S * FrameBuffer.t * Sys W) unit :=
  on_frame_buffer (FrameBuffer.store off bs).

Module SSLSocketWrapper.

(** The members; [m_port] has no value in a default-constructed object. *)
Record t : Type := mk {
  m_host : string;
  m_port : option Z;
  m_sockfd : Z;
  m_sslsock : Z;
  m_ctx : option Z;
  m_ssl : option Z;
  m_out : list Z
}.

Definition set_sockfd (fd : Z) (s : t) : t :=
  mk (m_host s) (m_port s) fd (m_sslsock s) (m_ctx s) (m_ssl s) (m_out s).
Definition set_sslsock (fd : Z) (s : t) : t :=
  mk (m_host s) (m_port s) (m_sockfd s) fd (m_ctx s) (m_ssl s) (m_out s).
Definition set_ctx (c : option Z) (s : t) : t :=
  mk (m_host s) (m_port s) (m_sockfd s) (m_sslsock s) c (m_ssl s) (m_out s).
Definition set_ssl (c : option Z) (s : t) : t :=
  mk (m_host s) (m_port s) (m_sockfd s) (m_sslsock s) (m_ctx s) c (m_out s).
Definition set_out (o : list Z) (s : t) : t :=
  mk (m_host s) (m_port s) (m_sockfd s) (m_sslsock s) (m_ctx s) (m_ssl s) o.

(** [SSLSocketWrapper() {}]. *)
Definition default_ctor : t := mk "" None (-1) (-1) None None [].

(** A moved-from object. *)
Definition moved_from (other : t) : t :=
  mk "" (m_port other) (-1) (-1) None None [].

(** The move constructor: [m_port] is not among the members it copies. *)
Definition move (other : t) : t :=
  mk (m_host other) None (m_sockfd other) (m_sslsock other) (m_ctx other)
    (m_ssl other) (m_out other).

Section Wrapper.
Context {W : Type} `{OS W, OpenSSL W} (fuel : nat).

(** [get_ssl_error]: [err] is an [int]. *)
Fixpoint get_ssl_error_loop (n : nat) (out : string) : M (t * Sys W) string :=
  match n with
  | O => out_of_fuel
  | S n' =>
      e ← call err_get_error;
      let err := i32 e in
      if (err =? 0)%Z then mret out
      else get_ssl_error_loop n'
             (match err_error_string err with
              | Some str => out +:+ str
              | None => out
              end)
  end.

Definition get_ssl_error : M (t * Sys W) string := get_ssl_error_loop fuel "".

(** The loop over the addresses: [break] when [socket] fails. *)
Fixpoint try_addrs (addrs : list addrinfo) : M (t * Sys W) unit :=
  match addrs with
  | [] => mret tt
  | addr :: addrs' =>
      fd ← call (sys_socket (ai_family addr) (ai_socktype addr) (ai_protocol addr));
      update_self (set_sockfd fd);;
      if (fd =? -1)%Z then mret tt
      else
        acquire (Fd fd);;
        _ ← call (sys_set_nodelay fd);
        rc ← call (sys_connect fd (ai_addr addr));
        if (rc =? 0)%Z then mret tt
        else
          call_unit (sys_close fd);;
          release (Fd fd);;
          update_self (set_sockfd (-1));;
          try_addrs addrs'
  end.

Definition connect : M (t * Sys W) unit :=
  s ← self;
  port ← (match m_port s with Some p => mret p | None => undef uninitialised end);
  res ← call (sys_getaddrinfo (m_host s) (to_string port));
  let '(rc, addrs) := res in
  if negb (rc =? 0)%Z then throw (SSLSocketWrapperException (sys_gai_strerror rc))
  else
    acquire Addrs;;
    try_addrs addrs;;
    s ← self;
    if (m_sockfd s =? -1)%Z
    then throw (SSLSocketWrapperException "Failed to connect to server.")
    else
      ctx ← call ssl_ctx_new;
      update_self (set_ctx ctx);;
      (match ctx with Some c => acquire (Ctx c) | None => mret tt end);;
      ssl ← call (ssl_new ctx);
      update_self (set_ssl ssl);;
      match ssl with
      | None => throw (SSLSocketWrapperException "Failed to create SSL.")
      | Some p =>
          acquire (Ssl p);;
          call_unit (ssl_set_host_name p (m_host s));;
          sock ← call (ssl_get_fd p);
          update_self (set_sslsock sock);;
          call_unit (ssl_set_fd p (m_sockfd s));;
          r ← call (ssl_connect p);
          if (r <=? 0)%Z then
            msg ← get_ssl_error;
            throw (SSLSocketWrapperException msg)
          else
            call_unit (sys_freeaddrinfo addrs);;
            release Addrs;;
            call_unit (sys_set_nonblock (m_sockfd s))
      end.

(** [disconnect]: the descriptor is closed before the TLS objects go. *)
Definition disconnect : M (t * Sys W) unit :=
  s ← self;
  when (negb (m_sockfd s <? 0)%Z)
    (call_unit (sys_close (m_sockfd s));; release (Fd (m_sockfd s)));;
  (match m_ctx s with
   | Some c => call_unit (ssl_ctx_free c);; release (Ctx c)
   | None => mret tt
   end);;
  (match m_ssl s with
   | Some p =>
       call_unit (ssl_shutdown p);;
       call_unit (ssl_free p);;
       release (Ssl p)
   | None => mret tt
   end).

(** The constructor: when [connect] throws, no destructor runs. *)
Definition construct (host : string) (port : Z) : M (Sys W) t := λ y,
  match connect (mk host (Some port) (-1) (-1) None None [], y) with
  | (Ok _, (s, y')) => (Ok s, y')
  | (Throw e, (_, y')) => (Throw e, y')
  | (UB u, (_, y')) => (UB u, y')
  | (OutOfFuel, (_, y')) => (OutOfFuel, y')
  end.

(** [operator=(SSLSocketWrapper&& other)]: [m_port] keeps its old value; the
    result is what is left of [other]. *)
Definition move_assign (other : t) : M (t * Sys W) t :=
  disconnect;;
  update_self (λ s, mk (m_host other) (m_port s) (m_sockfd other)
    (m_sslsock other) (m_ctx other) (m_ssl other) (m_out other));;
  mret (moved_from other).

(** The message for each [SSL_get_error] code. *)
Definition ssl_error_message (err : Z) : string :=
  if (err =? 3)%Z then "SSL_ERROR_WANT_WRITE"
  else if (err =? 2)%Z then "SSL_ERROR_WANT_READ"
  else if (err =? 6)%Z then "SSL_ERROR_ZERO_RETURN"
  else if (err =? 5)%Z then "SSL_ERROR_SYSCALL"
  else if (err =? 1)%Z then "SSL_ERROR_SSL"
  else "UNKNOWN SSL ERROR".

(** [while (to_send > 0)], both counters being [int]s. *)
Fixpoint send_loop (n : nat) (buf : list Z) (to_send sent : Z) :
    M (t * Sys W) Z :=
  match n with
  | O => out_of_fuel
  | S n' =>
      if (to_send >? 0)%Z then
        s ← self;
        len ← call (ssl_write (m_ssl s)
                      (take (Z.to_nat to_send) (drop (Z.to_nat sent) buf)));
        if (len <? 0)%Z then
          err ← call (ssl_get_error (m_ssl s) len);
          throw (SSLSocketWrapperException (ssl_error_message err))
        else send_loop n' buf (i32 (to_send - len)) (i32 (sent + len))
      else mret sent
  end.

(** [int send(std::string_view req)]. *)
Definition send (req : list Z) : M (t * Sys W) Z :=
  send_loop fuel req (i32 (Z.of_nat (length req))) 0.

(** [read(read_size)]: what [SSL_read_ex] reports is ignored but for the
    number of bytes. *)
Definition read (read_size : nat) : M (t * Sys W) (list Z) :=
  update_self (set_out []);;
  s ← self;
  bs ← call (ssl_read_ex (m_ssl s) read_size);
  update_self (set_out bs);;
  s ← self;
  mret (m_out s).

(** [read_into(frame_buffer, chunk_size_hint)]. *)
Definition read_into (chunk_size_hint : nat) :
    M (t * FrameBuffer.t * Sys W) bool :=
  on_frame_buffer (FrameBuffer.ensure_extra_space chunk_size_hint);;
  buf ← on_frame_buffer FrameBuffer.tail;
  bs ← on_wrapper (s ← self; call (ssl_read_ex (m_ssl s) chunk_size_hint));
  received_at buf bs;;
  let new_data := (0 <? length bs)%nat in
  on_frame_buffer (FrameBuffer.claim_space (length bs));;
  mret new_data.

End Wrapper.
End SSLSocketWrapper.

Module SocketWrapper.

Record t : Type := mk {
  m_host : string;
  m_port : option Z;
  m_sockfd : Z;
  m_out : list Z
}.

Definition set_sockfd (fd : Z) (s : t) : t :=
  mk (m_host s) (m_port s) fd (m_out s).
Definition set_out (o : list Z) (s : t) : t :=
  mk (m_host s) (m_port s) (m_sockfd s) o.

(** [SocketWrapper() {}]. *)
Definition default_ctor : t := mk "" None (-1) [].

Definition moved_from (other : t) : t := mk "" (m_port other) (-1) [].

(** The move constructor. *)
Definition move (other : t) : t :=
  mk (m_host other) (m_port other) (m_sockfd other) (m_out other).

Section Wrapper.
Context {W : Type} `{OS W} (fuel : nat).

(** The loop over the addresses: [continue] when [socket] fails. The result
    is [connected]. *)
Fixpoint try_addrs (addrs : list addrinfo) : M (t * Sys W) bool :=
  match addrs with
  | [] => mret false
  | addr :: addrs' =>
      fd ← call (sys_socket (ai_family addr) (ai_socktype addr) (ai_protocol addr));
      update_self (set_sockfd fd);;
      if (fd =? -1)%Z then try_addrs addrs'
      else
        acquire (Fd fd);;
        _ ← call (sys_set_nodelay fd);
        rc ← call (sys_connect fd (ai_addr addr));
        if (rc =? 0)%Z then mret true
        else
          call_unit (sys_close fd);;
          release (Fd fd);;
          update_self (set_sockfd (-1));;
          try_addrs addrs'
  end.

Definition connect : M (t * Sys W) unit :=
  s ← self;
  port ← (match m_port s with Some p => mret p | None => undef uninitialised end);
  res ← call (sys_getaddrinfo (m_host s) (to_string port));
  let '(rc, addrs) := res in
  if negb (rc =? 0)%Z then throw (SocketWrapperException (sys_gai_strerror rc))
  else
    acquire Addrs;;
    connected ← try_addrs addrs;
    call_unit (sys_freeaddrinfo addrs);;
    release Addrs;;
    s ← self;
    if negb connected || (m_sockfd s =? -1)%Z
    then throw (SocketWrapperException "Failed to connect to server.")
    else call_unit (sys_set_nonblock (m_sockfd s)).

Definition disconnect : M (t * Sys W) unit :=
  s ← self;
  when (m_sockfd s >=? 0)%Z
    (call_unit (sys_close (m_sockfd s));;
     release (Fd (m_sockfd s));;
     update_self (set_sockfd (-1))).

Definition construct (host : string) (port : Z) : M (Sys W) t := λ y,
  match connect (mk host (Some port) (-1) [], y) with
  | (Ok _, (s, y')) => (Ok s, y')
  | (Throw e, (_, y')) => (Throw e, y')
  | (UB u, (_, y')) => (UB u, y')
  | (OutOfFuel, (_, y')) => (OutOfFuel, y')
  end.

(** [operator=(SocketWrapper&& other)]. *)
Definition move_assign (other : t) : M (t * Sys W) t :=
  disconnect;;
  update_self (λ _, move other);;
  mret (moved_from other).

(** [while (to_send > 0)], both counters being [int]s. *)
Fixpoint send_loop (n : nat) (buf : list Z) (to_send total_sent : Z) :
    M (t * Sys W) Z :=
  match n with
  | O => out_of_fuel
  | S n' =>
      if (to_send >? 0)%Z then
        s ← self;
        res ← call (sys_send (m_sockfd s)
                      (take (Z.to_nat to_send) (drop (Z.to_nat total_sent) buf)));
        let '(ret, errno) := res in
        if (ret <? 0)%Z then
          if ((errno =? EAGAIN) || (errno =? EWOULDBLOCK))%Z
          then throw (SocketWrapperException "Socket would block on send")
          else throw (SocketWrapperException "send() failed")
        else send_loop n' buf (i32 (to_send - ret)) (i32 (total_sent + ret))
      else mret total_sent
  end.

(** [int send(std::string_view req)]. *)
Definition send (req : list Z) : M (t * Sys W) Z :=
  send_loop fuel req (i32 (Z.of_nat (length req))) 0.

(** [read(chunk_size)]: one [recv]. *)
Definition read (chunk_size : nat) : M (t * Sys W) (list Z) :=
  update_self (set_out (replicate chunk_size 0%Z));;
  s ← self;
  ret ← call (sys_recv (m_sockfd s) chunk_size);
  (match ret with
   | RecvError errno =>
       if ((errno =? EAGAIN) || (errno =? EWOULDBLOCK))%Z
       then update_self (set_out [])
       else throw (SocketWrapperException ("recv() failed: " +:+ to_string errno))
   | RecvBytes bs => update_self (set_out bs)
   end);;
  s ← self;
  mret (m_out s).

(** [read_into(frame_buffer, chunk_size_hint)]. *)
Definition read_into (chunk_size_hint : nat) :
    M (t * FrameBuffer.t * Sys W) bool :=
  on_frame_buffer (FrameBuffer.ensure_extra_space chunk_size_hint);;
  buf ← on_frame_buffer FrameBuffer.tail;
  ret ← on_wrapper (s ← self; call (sys_recv (m_sockfd s) chunk_size_hint));
  match ret with
  | RecvError errno =>
      if ((errno =? EAGAIN) || (errno =? EWOULDBLOCK))%Z then mret false
      else throw (SocketWrapperException ("recv() failed: " +:+ to_string errno))
  | RecvBytes bs =>
      received_at buf bs;;
      if (0 <? length bs)%nat then
        on_frame_buffer (FrameBuffer.claim_space (length bs));;
        mret true
      else mret false
  end.

End Wrapper.
End SocketWrapper.
