(* ===== verification/SocketSpec.v ===== *)
(** What the client needs from its [SocketType] template argument, as a class
    with laws: reading appends to the frame buffer, nothing undefined is done.
    The two wrappers are instances and satisfy the laws; what each [read_into]
    does on every answer of the system. *)

From S2P Require Import Prelude Buffer Sys Sockets.

(** ** The interface *)

Class SocketType (S W : Type) : Type := {
  st_default : S;
  st_construct : string → Z → M (Sys W) S;
  st_move_assign : S → M (S * Sys W) S;
  st_destroy : M (S * Sys W) unit;
  st_send : list Z → M (S * Sys W) Z;
  st_read : nat → M (S * Sys W) (list Z);
  st_read_into : nat → M (S * FrameBuffer.t * Sys W) bool
}.

#[export] Instance SSL_SocketType {W} `{OS W, OpenSSL W} (fuel : nat) :
    SocketType SSLSocketWrapper.t W := {
  st_default := SSLSocketWrapper.default_ctor;
  st_construct := SSLSocketWrapper.construct fuel;
  st_move_assign := SSLSocketWrapper.move_assign;
  st_destroy := SSLSocketWrapper.disconnect;
  st_send := SSLSocketWrapper.send fuel;
  st_read := SSLSocketWrapper.read;
  st_read_into := SSLSocketWrapper.read_into
}.

#[export] Instance TCP_SocketType {W} `{OS W} (fuel : nat) :
    SocketType SocketWrapper.t W := {
  st_default := SocketWrapper.default_ctor;
  st_construct := SocketWrapper.construct;
  st_move_assign := SocketWrapper.move_assign;
  st_destroy := SocketWrapper.disconnect;
  st_send := SocketWrapper.send fuel;
  st_read := SocketWrapper.read;
  st_read_into := SocketWrapper.read_into
}.

(** What a call to [read_into] may have done. *)
Definition read_into_result {S W} (n : nat) (b : FrameBuffer.t)
    (r : outcome bool * (S * FrameBuffer.t * Sys W)) : Prop :=
  let '(o, (_, b', _)) := r in
  match o with
  | Ok new_data => ∃ c, FrameBuffer.extended b c b' ∧ bytes_ok c ∧ length c ≤ n ∧
      new_data = negb (length c =? 0)
  | Throw _ => FrameBuffer.extended b [] b'
  | _ => False
  end.

Definition read_result {S W} (n : nat)
    (r : outcome (list Z) * (S * Sys W)) : Prop :=
  match fst r with
  | Ok bs => length bs ≤ n ∧ bytes_ok bs
  | Throw _ => True
  | _ => False
  end.

Class SocketTypeLaws (S W : Type) `{SocketType S W} : Prop := {
  (** reading appends to the buffer and never leaves it *)
  read_into_law n s b y :
    0 < n → FrameBuffer.wf b → read_into_result n b (st_read_into n (s, b, y));
  read_law n s y : read_result n (st_read n (s, y));
  (** nothing else does anything undefined *)
  send_law req : no_ub (st_send req);
  construct_law host port : no_ub (st_construct host port);
  move_assign_law other : no_ub (st_move_assign other);
  destroy_law : no_ub st_destroy
}.

(** ** Reading into the frame buffer *)

Section ReadInto.
Context {S W : Type}.

(** The steps the two [read_into] methods share: make room, take the tail,
    store what arrived, claim it. *)
Lemma room_for n (s : S) b (y : Sys W) :
  0 < n → FrameBuffer.wf b →
  ∃ b', on_frame_buffer (FrameBuffer.ensure_extra_space n) (s, b, y)
          = (Ok tt, (s, b', y)) ∧
    on_frame_buffer FrameBuffer.tail (s, b', y)
      = (Ok (FrameBuffer.m_ptr b'), (s, b', y)) ∧
    FrameBuffer.wf b' ∧ FrameBuffer.view b' = FrameBuffer.view b ∧
    FrameBuffer.m_ptr b' + n ≤ FrameBuffer.capacity b'.
Proof.
  intros Hn Hw.
  destruct (FrameBuffer.ensure_extra_space_runs n b) as ([] & b' & He & Hb').
  destruct (FrameBuffer.ensured_view _ _ _ Hw Hb') as [Hw' Hv].
  destruct Hb' as (Hp & Hc & _). exists b'. split_and!; [| |done|done|lia].
  - unfold on_frame_buffer, zoom. cbn [fst snd]. by rewrite He.
  - unfold on_frame_buffer, zoom. cbn [fst snd].
    unfold FrameBuffer.tail, mbind, M_bind, get.
    by rewrite decide_True by lia.
Qed.

Lemma store_claim (s : S) b (y : Sys W) bs :
  FrameBuffer.wf b → FrameBuffer.m_ptr b + length bs ≤ FrameBuffer.capacity b →
  ∃ b1 b2, received_at (FrameBuffer.m_ptr b) bs (s, b, y) = (Ok tt, (s, b1, y)) ∧
    on_frame_buffer (FrameBuffer.claim_space (length bs)) (s, b1, y)
      = (Ok tt, (s, b2, y)) ∧
    FrameBuffer.extended b bs b2 ∧ (bs = [] → FrameBuffer.extended b [] b1).
Proof.
  intros Hw Hf. unfold received_at, on_frame_buffer, zoom. cbn [fst snd].
  unfold FrameBuffer.store, FrameBuffer.claim_space, modify.
  rewrite decide_True by done. do 2 eexists. split; [reflexivity|].
  split; [reflexivity|]. unfold FrameBuffer.extended, FrameBuffer.wf in *.
  unfold FrameBuffer.capacity in *. cbn [FrameBuffer.m_buf FrameBuffer.m_ptr].
  split_and!.
  - by rewrite length_write_at.
  - by apply FrameBuffer.append_view.
  - intros ->. unfold FrameBuffer.view. cbn in *.
    unfold write_at. cbn. rewrite Nat.add_0_r, take_drop, app_nil_r. by split.
Qed.
End ReadInto.

(** Running a method of the wrapper leaves the buffer alone. *)
Lemma on_wrapper_call {S W A} (f : S → W → A * W) (s : S) b (y : Sys W) a w :
  f s (env y) = (a, w) →
  on_wrapper (s ← self; call (f s)) (s, b, y)
  = (Ok a, (s, b, mkSys w (held y))).
Proof.
  intros H. unfold on_wrapper, zoom, self, call, gets, mbind, M_bind.
  cbn [fst snd]. by rewrite H.
Qed.

Section TCPReading.
Context {W : Type} `{OSLaws W}.

(** What the system's answer makes of a call to [read_into]. *)
Definition tcp_read_into_spec (r : recv_result) : outcome bool * list Z :=
  match r with
  | RecvError errno =>
      (if ((errno =? EAGAIN) || (errno =? EWOULDBLOCK))%Z then Ok false
       else Throw (SocketWrapperException ("recv() failed: " +:+ to_string errno)), [])
  | RecvBytes bs => (Ok (negb (length bs =? 0)), bs)
  end.

Lemma tcp_read_into_eq n s b (y : Sys W) :
  0 < n → FrameBuffer.wf b →
  let '(r, w) := sys_recv (SocketWrapper.m_sockfd s) n (env y) in
  ∃ b', FrameBuffer.extended b (snd (tcp_read_into_spec r)) b' ∧
    SocketWrapper.read_into n (s, b, y)
    = (fst (tcp_read_into_spec r), (s, b', mkSys w (held y))).
Proof.
  intros Hn Hw. destruct (room_for n s b y Hn Hw) as (b1 & H1 & H2 & Hw1 & Hv1 & Hf).
  destruct (sys_recv (SocketWrapper.m_sockfd s) n (env y)) as [r w] eqn:Hr.
  unfold SocketWrapper.read_into. rewrite (bind_ok _ _ _ _ _ H1).
  rewrite (bind_ok _ _ _ _ _ H2).
  rewrite (bind_ok _ _ _ _ _
    (on_wrapper_call (λ s, sys_recv (SocketWrapper.m_sockfd s) n) s b1 y _ _ Hr)).
  assert (FrameBuffer.extended b [] b1) as He by (split; [done|by rewrite app_nil_r]).
  destruct r as [errno|bs]; cbn [tcp_read_into_spec fst snd].
  - exists b1. split; [done|].
    by destruct ((errno =? EAGAIN) || (errno =? EWOULDBLOCK))%Z.
  - apply recv_fits in Hr as [Hl Hb].
    destruct (store_claim s b1 (mkSys w (held y)) bs)
      as (b2 & b3 & H3 & H4 & [Hw3 Hv3] & Hn0); [done|lia|].
    rewrite (bind_ok _ _ _ _ _ H3).
    destruct bs as [|x bs]; cbn [length Nat.ltb Nat.leb Nat.eqb negb].
    + exists b2. destruct (Hn0 eq_refl) as [Hw2 Hv2]. rewrite Hv1 in Hv2.
      by split; [split|].
    + rewrite (bind_ok _ _ _ _ _ H4). exists b3. rewrite Hv1 in Hv3.
      by split; [split|].
Qed.

Lemma tcp_read_into n s b (y : Sys W) :
  0 < n → FrameBuffer.wf b →
  read_into_result n b (SocketWrapper.read_into n (s, b, y)).
Proof.
  intros Hn Hw. pose proof (tcp_read_into_eq n s b y Hn Hw) as He.
  destruct (sys_recv (SocketWrapper.m_sockfd s) n (env y)) as [r w] eqn:Hr.
  destruct He as (b' & Hb & ->). destruct r as [errno|bs]; cbn in *.
  - destruct ((errno =? EAGAIN) || (errno =? EWOULDBLOCK))%Z; [|done].
    exists []. split_and!; [done|constructor|cbn; lia|done].
  - apply recv_fits in Hr as [Hl Hy]. by exists bs.
Qed.

Lemma tcp_read n s (y : Sys W) : read_result n (SocketWrapper.read n (s, y)).
Proof.
  unfold SocketWrapper.read, read_result, self, update_self, call, gets, modify,
    mbind, M_bind. cbn.
  destruct (sys_recv (SocketWrapper.m_sockfd s) n (env y)) as [r w] eqn:Hr.
  destruct r as [errno|bs]; cbn.
  - destruct ((errno =? EAGAIN) || (errno =? EWOULDBLOCK))%Z; cbn; [|done].
    split; [lia|constructor].
  - by apply recv_fits in Hr.
Qed.

End TCPReading.

Section SSLReading.
Context {W : Type} `{OS W} `{OpenSSLLaws W}.

Lemma ssl_read_into_eq n s b (y : Sys W) :
  0 < n → FrameBuffer.wf b →
  let '(bs, w) := ssl_read_ex (SSLSocketWrapper.m_ssl s) n (env y) in
  ∃ b', FrameBuffer.extended b bs b' ∧
    SSLSocketWrapper.read_into n (s, b, y)
    = (Ok (negb (length bs =? 0)), (s, b', mkSys w (held y))).
Proof.
  intros Hn Hw. destruct (room_for n s b y Hn Hw) as (b1 & H1' & H2 & Hw1 & Hv1 & Hf).
  destruct (ssl_read_ex (SSLSocketWrapper.m_ssl s) n (env y)) as [bs w] eqn:Hr.
  unfold SSLSocketWrapper.read_into. rewrite (bind_ok _ _ _ _ _ H1').
  rewrite (bind_ok _ _ _ _ _ H2).
  rewrite (bind_ok _ _ _ _ _
    (on_wrapper_call (λ s, ssl_read_ex (SSLSocketWrapper.m_ssl s) n) s b1 y _ _ Hr)).
  apply read_ex_fits in Hr as [Hl Hb].
  destruct (store_claim s b1 (mkSys w (held y)) bs)
    as (b2 & b3 & H3 & H4 & [Hw3 Hv3] & _); [done|lia|].
  rewrite (bind_ok _ _ _ _ _ H3). cbn zeta. rewrite (bind_ok _ _ _ _ _ H4).
  exists b3. rewrite Hv1 in Hv3. split; [done|]. by destruct bs.
Qed.

Lemma ssl_read_into n s b (y : Sys W) :
  0 < n → FrameBuffer.wf b →
  read_into_result n b (SSLSocketWrapper.read_into n (s, b, y)).
Proof.
  intros Hn Hw. pose proof (ssl_read_into_eq n s b y Hn Hw) as He.
  destruct (ssl_read_ex (SSLSocketWrapper.m_ssl s) n (env y)) as [bs w] eqn:Hr.
  destruct He as (b' & Hb & ->). apply read_ex_fits in Hr as [Hl Hy]. by exists bs.
Qed.

Lemma ssl_read n s (y : Sys W) : read_result n (SSLSocketWrapper.read n (s, y)).
Proof.
  unfold SSLSocketWrapper.read, read_result, self, update_self, call, gets,
    modify, mbind, M_bind. cbn.
  destruct (ssl_read_ex (SSLSocketWrapper.m_ssl s) n (env y)) as [bs w] eqn:Hr.
  by apply read_ex_fits in Hr.
Qed.

End SSLReading.

(** ** Sending *)

Section TCPSending.
Context {W : Type} `{OS W} (fuel : nat).

(** The loop unfolded once, on a state. *)
Lemma tcp_send_step n buf (to_send sent : Z) s (y : Sys W) :
  SocketWrapper.send_loop (S n) buf to_send sent (s, y) =
    if (to_send >? 0)%Z then
      let '((ret, errno), w) := sys_send (SocketWrapper.m_sockfd s)
        (take (Z.to_nat to_send) (drop (Z.to_nat sent) buf)) (env y) in
      if (ret <? 0)%Z then
        (Throw (SocketWrapperException
           (if ((errno =? EAGAIN) || (errno =? EWOULDBLOCK))%Z
            then "Socket would block on send" else "send() failed")),
         (s, mkSys w (held y)))
      else SocketWrapper.send_loop n buf (i32 (to_send - ret)) (i32 (sent + ret))
             (s, mkSys w (held y))
    else (Ok sent, (s, y)).
Proof.
  cbn [SocketWrapper.send_loop]. destruct (to_send >? 0)%Z; [|done].
  unfold self, call, gets, mbind, M_bind. cbn [fst].
  destruct (sys_send _ _ (env y)) as [[ret errno] w].
  destruct (ret <? 0)%Z; [|done].
  by destruct ((errno =? EAGAIN) || (errno =? EWOULDBLOCK))%Z.
Qed.

Lemma tcp_send_no_ub req s (y : Sys W) u :
  fst (SocketWrapper.send fuel req (s, y)) ≠ UB u.
Proof.
  unfold SocketWrapper.send. generalize (i32 (Z.of_nat (length req))) as k.
  generalize 0%Z as j. revert s y.
  induction fuel as [|n IH]; intros s y j k; [done|].
  rewrite tcp_send_step. destruct (k >? 0)%Z; [|done].
  destruct (sys_send _ _ (env y)) as [[ret errno] w].
  by destruct (ret <? 0)%Z.
Qed.
End TCPSending.

Section SSLSending.
Context {W : Type} `{OS W, OpenSSL W} (fuel : nat).

Lemma ssl_send_step n buf (to_send sent : Z) s (y : Sys W) :
  SSLSocketWrapper.send_loop (S n) buf to_send sent (s, y) =
    if (to_send >? 0)%Z then
      let '(len, w) := ssl_write (SSLSocketWrapper.m_ssl s)
        (take (Z.to_nat to_send) (drop (Z.to_nat sent) buf)) (env y) in
      if (len <? 0)%Z then
        let '(err, w') := ssl_get_error (SSLSocketWrapper.m_ssl s) len w in
        (Throw (SSLSocketWrapperException (SSLSocketWrapper.ssl_error_message err)),
         (s, mkSys w' (held y)))
      else SSLSocketWrapper.send_loop n buf (i32 (to_send - len)) (i32 (sent + len))
             (s, mkSys w (held y))
    else (Ok sent, (s, y)).
Proof.
  cbn [SSLSocketWrapper.send_loop]. destruct (to_send >? 0)%Z; [|done].
  unfold self, call, gets, mbind, M_bind. cbn [fst].
  destruct (ssl_write _ _ (env y)) as [len w].
  destruct (len <? 0)%Z; [|done]. cbn [env held].
  by destruct (ssl_get_error _ len w).
Qed.

Lemma ssl_send_no_ub req s (y : Sys W) u :
  fst (SSLSocketWrapper.send fuel req (s, y)) ≠ UB u.
Proof.
  unfold SSLSocketWrapper.send. generalize (i32 (Z.of_nat (length req))) as k.
  generalize 0%Z as j. revert s y.
  induction fuel as [|n IH]; intros s y j k; [done|].
  rewrite ssl_send_step. destruct (k >? 0)%Z; [|done].
  destruct (ssl_write _ _ (env y)) as [len w].
  destruct (len <? 0)%Z; [|done]. by destruct (ssl_get_error _ len w).
Qed.
End SSLSending.

(** ** Opening and closing *)

Lemma tcp_try_addrs_no_ub {W} `{OS W} addrs : no_ub (SocketWrapper.try_addrs addrs).
Proof.
  induction addrs as [|a addrs IH]; cbn [SocketWrapper.try_addrs]; [auto with ws|].
  no_ub_steps.
Qed.

Lemma tcp_disconnect_no_ub {W} `{OS W} : no_ub SocketWrapper.disconnect.
Proof. unfold SocketWrapper.disconnect. no_ub_steps. Qed.

Lemma tcp_construct_no_ub {W} `{OS W} host port :
  no_ub (SocketWrapper.construct host port).
Proof.
  intros y _. unfold SocketWrapper.construct.
  assert (safe SocketWrapper.connect (SocketWrapper.mk host (Some port) (-1) [], y)
    (λ _ _, True) (λ _, True)) as Hc.
  { unfold SocketWrapper.connect. apply safe_bind. eapply safe_eq; [reflexivity|].
    apply safe_bind. eapply safe_eq; [reflexivity|].
    apply no_ub_safe. pose proof (tcp_try_addrs_no_ub (W:=W)). no_ub_steps. }
  unfold safe in *.
  by destruct (SocketWrapper.connect _) as [[] [? ?]].
Qed.

Lemma ssl_try_addrs_no_ub {W} `{OS W} addrs : no_ub (SSLSocketWrapper.try_addrs addrs).
Proof.
  induction addrs as [|a addrs IH]; cbn [SSLSocketWrapper.try_addrs]; [auto with ws|].
  no_ub_steps.
Qed.

Lemma ssl_disconnect_no_ub {W} `{OS W, OpenSSL W} : no_ub SSLSocketWrapper.disconnect.
Proof. unfold SSLSocketWrapper.disconnect. no_ub_steps. Qed.

Lemma get_ssl_error_no_ub {W} `{OpenSSL W} n out :
  no_ub (SSLSocketWrapper.get_ssl_error_loop n out).
Proof.
  revert out. induction n as [|n IH]; intros out;
    cbn [SSLSocketWrapper.get_ssl_error_loop]; [auto with ws|].
  no_ub_steps.
Qed.

Lemma ssl_construct_no_ub {W} `{OS W, OpenSSL W} fuel host port :
  no_ub (SSLSocketWrapper.construct fuel host port).
Proof.
  intros y _. unfold SSLSocketWrapper.construct.
  assert (safe (SSLSocketWrapper.connect fuel)
    (SSLSocketWrapper.mk host (Some port) (-1) (-1) None None [], y)
    (λ _ _, True) (λ _, True)) as Hc.
  { unfold SSLSocketWrapper.connect. apply safe_bind. eapply safe_eq; [reflexivity|].
    apply safe_bind. eapply safe_eq; [reflexivity|].
    apply no_ub_safe. unfold SSLSocketWrapper.get_ssl_error.
    pose proof (ssl_try_addrs_no_ub (W:=W)). pose proof (get_ssl_error_no_ub (W:=W)).
    no_ub_steps. }
  unfold safe in *.
  by destruct (SSLSocketWrapper.connect _ _) as [[] [? ?]].
Qed.

#[export] Instance TCP_SocketTypeLaws {W} `{OSLaws W} (fuel : nat) :
  @SocketTypeLaws SocketWrapper.t W (TCP_SocketType fuel).
Proof.
  split.
  - intros. by apply tcp_read_into.
  - intros. apply tcp_read.
  - intros. apply no_ub_intro. intros [s y]. apply tcp_send_no_ub.
  - apply tcp_construct_no_ub.
  - intros. apply no_ub_bind; [apply tcp_disconnect_no_ub|].
    intros. no_ub_steps.
  - apply tcp_disconnect_no_ub.
Qed.

#[export] Instance SSL_SocketTypeLaws {W} `{OS W} `{OpenSSLLaws W} (fuel : nat) :
  @SocketTypeLaws SSLSocketWrapper.t W (SSL_SocketType fuel).
Proof.
  split.
  - intros. by apply ssl_read_into.
  - intros. apply ssl_read.
  - intros. apply no_ub_intro. intros [s y]. apply ssl_send_no_ub.
  - apply ssl_construct_no_ub.
  - intros. apply no_ub_bind; [apply ssl_disconnect_no_ub|].
    intros. no_ub_steps.
  - apply ssl_disconnect_no_ub.
Qed.
