(* ===== verification/SocketProps.v ===== *)
(** Properties of the two socket wrappers: sending is complete or fails after
    a prefix, the limits of the [int] counters, the endless loop on a zero
    return of [SSL_write], what each reading method makes of every result of
    the system, and the resources held after construction, failure, moving and
    destruction. *)

From S2P Require Import Prelude Buffer Sys World Sockets SocketSpec.

(** ** The write loop, once for both wrappers *)

Section WriteLoop.
Context {X E : Type} (buf : list Z).
Context (write : list Z → X → Z * E * X) (fail : E → X → outcome Z * X).
Context (loop : nat → Z → Z → X → outcome Z * X).
Context (acc : X → list Z).

Hypothesis loop_O : ∀ a b x, loop 0 a b x = (OutOfFuel, x).
Hypothesis loop_S : ∀ n a b x, loop (S n) a b x =
  if (a >? 0)%Z then
    let '(len, e, x') := write (take (Z.to_nat a) (drop (Z.to_nat b) buf)) x in
    if (len <? 0)%Z then fail e x' else loop n (i32 (a - len)) (i32 (b + len)) x'
  else (Ok b, x).

(** A write that succeeds takes a prefix, which may be empty; one that fails
    takes nothing and is reported as an exception. *)
Hypothesis write_law : ∀ bs x len e x', bs ≠ [] → write bs x = (len, e, x') →
  if (len <? 0)%Z then
    ∃ ex x'', fail e x' = (Throw ex, x'') ∧ acc x'' = acc x
  else (0 ≤ len ≤ Z.of_nat (length bs))%Z ∧ acc x' = acc x ++ take (Z.to_nat len) bs.

Hypothesis buf_small : (Z.of_nat (length buf) < 2 ^ 31)%Z.

(** Some write of something takes nothing and is no failure. *)
Definition idle_write : Prop := ∃ bs x, bs ≠ [] ∧ fst (fst (write bs x)) = 0%Z.

(** [r] is the result of sending [buf] from position [j] on, in at most [n]
    iterations. *)
Definition sent_within (n j : nat) (x : X) (r : outcome Z * X) : Prop :=
  match r with
  | (Ok len, x') => len = Z.of_nat (length buf) ∧ acc x' = acc x ++ drop j buf
  | (Throw _, x') => ∃ k, k < length (drop j buf) ∧
      acc x' = acc x ++ take k (drop j buf)
  | (UB _, _) => False
  | (OutOfFuel, x') => (∃ k, acc x' = acc x ++ take k (drop j buf)) ∧
      (length buf - j < n → idle_write)
  end.

(** One write that is no failure, in front. *)
Lemma sent_cons n j k x x' r :
  j + k ≤ length buf → acc x' = acc x ++ take k (drop j buf) → (k = 0 → idle_write) →
  sent_within n (j + k) x' r → sent_within (S n) j x r.
Proof.
  intros Hk Ha Hidle. destruct r as [[len|ex|u|] x'']; cbn [sent_within]; [..|done|].
  - intros [-> Ha']. split; [done|]. by rewrite Ha', Ha, <-app_assoc, <-drop_drop, take_drop.
  - intros (m & Hm & Ha'). exists (k + m). rewrite length_drop in *. split; [lia|].
    rewrite Ha', Ha, <-app_assoc, <-drop_drop. by rewrite take_take_drop.
  - intros [(m & Ha') Hz]. split.
    + exists (k + m). rewrite Ha', Ha, <-app_assoc, <-drop_drop. by rewrite take_take_drop.
    + intros Hn. destruct (decide (k = 0)) as [?|?]; [by apply Hidle|apply Hz; lia].
Qed.

Lemma loop_within n j x :
  j ≤ length buf →
  sent_within n j x (loop n (Z.of_nat (length buf - j)) (Z.of_nat j) x).
Proof.
  revert j x. induction n as [|n IH]; intros j x Hj.
  { rewrite loop_O. split; [exists 0; by rewrite app_nil_r|lia]. }
  rewrite loop_S. destruct (Z.gtb_spec (Z.of_nat (length buf - j)) 0) as [Hp|Hp].
  - rewrite !Nat2Z.id. rewrite take_ge by (rewrite length_drop; lia).
    destruct (write (drop j buf) x) as [[len e] x'] eqn:Hw. pose proof Hw as Hw'.
    assert (drop j buf ≠ []) as Hne.
    { intros Hd%(f_equal length). rewrite length_drop in Hd. cbn in Hd. lia. }
    apply write_law in Hw; [|done]. destruct (Z.ltb_spec len 0).
    + destruct Hw as (ex & x'' & -> & Ha). exists 0. rewrite length_drop.
      cbn. rewrite app_nil_r. split; [lia|done].
    + destruct Hw as [Hl Ha]. rewrite length_drop in Hl.
      rewrite !i32_id by lia.
      replace (Z.of_nat (length buf - j) - len)%Z
        with (Z.of_nat (length buf - (j + Z.to_nat len))) by lia.
      replace (Z.of_nat j + len)%Z with (Z.of_nat (j + Z.to_nat len)) by lia.
      apply (sent_cons _ _ (Z.to_nat len) _ x'); [lia|done| |apply IH; lia].
      intros Hz. exists (drop j buf), x. split; [done|]. rewrite Hw'. cbn. lia.
  - cbn. assert (j = length buf) as -> by lia. split; [done|].
    by rewrite drop_all, app_nil_r.
Qed.

(** With writes that always take something the loop ends. *)
Definition sent_from (j : nat) (x : X) (r : outcome Z * X) : Prop :=
  match r with
  | (Ok len, x') => len = Z.of_nat (length buf) ∧ acc x' = acc x ++ drop j buf
  | (Throw _, x') => ∃ k, k < length (drop j buf) ∧
      acc x' = acc x ++ take k (drop j buf)
  | _ => False
  end.

Lemma loop_sends n j x :
  ¬ idle_write → j ≤ length buf → length buf - j < n →
  sent_from j x (loop n (Z.of_nat (length buf - j)) (Z.of_nat j) x).
Proof.
  intros Hi Hj Hn. pose proof (loop_within n j x Hj) as Hw.
  destruct (loop _ _ _ _) as [[len|ex|u|] x']; [done..|].
  destruct Hw as [_ Hz]. by destruct Hi; apply Hz.
Qed.

(** The [int] conversion of the length: a request of 2 to 4 GiB is negative. *)
Lemma loop_negative n a b x : (a <= 0)%Z → loop (S n) a b x = (Ok b, x).
Proof. intros H. rewrite loop_S. by destruct (Z.gtb_spec a 0); [lia|]. Qed.

(** Writes that return zero are retried with the same arguments. *)
Lemma loop_zero_diverges n a b x :
  (0 < a < 2 ^ 31)%Z → (0 <= b < 2 ^ 31)%Z →
  (∀ bs x, fst (fst (write bs x)) = 0%Z) → fst (loop n a b x) = OutOfFuel.
Proof.
  intros Ha Hb Hz. revert x. induction n as [|n IH]; intros x; [by rewrite loop_O|].
  rewrite loop_S. destruct (Z.gtb_spec a 0); [|lia].
  destruct (write _ x) as [[len e] x'] eqn:Hw.
  assert (len = 0%Z) as ->.
  { erewrite <-(Hz _ x), Hw. done. }
  cbn [Z.ltb Z.compare]. rewrite Z.sub_0_r, Z.add_0_r, !i32_id by lia. apply IH.
Qed.

End WriteLoop.

Lemma i32_2_to_4_gib n : (2 ^ 31 ≤ n < 2 ^ 32)%Z → i32 n = (n - 2 ^ 32)%Z.
Proof.
  intros H. unfold i32.
  replace ((n + 2 ^ 31) mod 2 ^ 32)%Z with (n + 2 ^ 31 - 2 ^ 32)%Z; [lia|].
  apply (Z.mod_unique_pos _ _ 1); lia.
Qed.

(** ** A kernel and a TLS library that account for the bytes they took *)

(** Documented behaviour of [send] on a stream socket: on success it takes a
    non-empty prefix of the data, on failure nothing. [accepted fd] is what
    the kernel has taken for [fd] so far. *)
Class SendLaws (W : Type) `{OS W} : Type := {
  accepted : Z → W → list Z;
  send_accepts fd bs w ret errno w' :
    bs ≠ [] → sys_send fd bs w = ((ret, errno), w') →
    if (ret <? 0)%Z then accepted fd w' = accepted fd w
    else (0 < ret ≤ Z.of_nat (length bs))%Z ∧
         accepted fd w' = accepted fd w ++ take (Z.to_nat ret) bs
}.

(** The same of [SSL_write], for the plaintext, but that it may also answer 0,
    having taken nothing: that is documented as a failure, next to the negative
    values. [SSL_get_error] takes nothing. *)
Class SSLSendLaws (W : Type) `{OpenSSL W} : Type := {
  ssl_accepted : option Z → W → list Z;
  write_accepts ssl bs w len w' :
    bs ≠ [] → ssl_write ssl bs w = (len, w') →
    if (len <? 0)%Z then ssl_accepted ssl w' = ssl_accepted ssl w
    else (0 ≤ len ≤ Z.of_nat (length bs))%Z ∧
         ssl_accepted ssl w' = ssl_accepted ssl w ++ take (Z.to_nat len) bs;
  get_error_accepts ssl len w err w' :
    ssl_get_error ssl len w = (err, w') →
    ssl_accepted ssl w' = ssl_accepted ssl w
}.

(** A library that reports all its failures by negative values, on which the
    protocol of the client over TLS rests. *)
Class SSLWriteLaws (W : Type) `{OpenSSL W} : Prop := {
  write_progress ssl bs w : bs ≠ [] → fst (ssl_write ssl bs w) ≠ 0%Z
}.

(** The laws hold of the scripted world. *)
Lemma transmit_accepts bs w n w' :
  bs ≠ [] → transmit bs w = (n, w') →
  (n <? 0)%Z = false ∧ (0 < n ≤ Z.of_nat (length bs))%Z ∧
  outgoing w' = outgoing w ++ take (Z.to_nat n) bs.
Proof.
  intros Hne. unfold transmit. intros [= <- <-]. cbn [outgoing].
  destruct bs; [done|]. cbn [length]. rewrite Nat2Z.id.
  split_and!; [by apply Z.ltb_ge; lia|lia|lia|done].
Qed.

#[export, refine] Instance world_SendLaws : SendLaws world := {
  accepted _ w := outgoing w
}.
Proof.
  intros fd bs w ret errno w' Hne.
  cbn [sys_send world_OS]. destruct (transmit bs w) as [n v] eqn:Ht.
  intros [= <- <- <-]. by destruct (transmit_accepts _ _ _ _ Hne Ht) as (-> & ? & ?).
Defined.

#[export, refine] Instance world_SSLSendLaws : SSLSendLaws world := {
  ssl_accepted _ w := outgoing w
}.
Proof.
  - intros ssl bs w len w' Hne Ht.
    destruct (transmit_accepts _ _ _ _ Hne Ht) as (-> & ? & ?). split; [lia|done].
  - by intros ssl len w err w' [= <- <-].
Defined.

#[export] Instance world_SSLWriteLaws : SSLWriteLaws world.
Proof.
  split. intros ssl bs w Hne. cbn [ssl_write world_OpenSSL].
  destruct (transmit bs w) as [n w'] eqn:Ht.
  destruct (transmit_accepts _ _ _ _ Hne Ht) as (_ & ? & _). cbn. lia.
Qed.

#[local, refine] Instance dead_SSLSendLaws : @SSLSendLaws world dead_OpenSSL := {
  ssl_accepted _ w := outgoing w
}.
Proof.
  - intros ssl bs w len w' Hne. cbn. intros [= <- <-]. cbn.
    split; [lia|by rewrite app_nil_r].
  - by intros ssl len w err w' [= <- <-].
Defined.

(** The same accounts for what was received: a read adds the bytes it returns
    and nothing else changes them; the clock changes nothing. [waiting fd] is
    what the peer has sent and the kernel holds for [fd]: reads take it from
    the front, a read that returns nothing found nothing there, and otherwise
    it only grows. *)
Class RecvLaws (W : Type) `{OS W, !SendLaws W} : Type := {
  delivered : Z → W → list Z;
  waiting : Z → W → list Z;
  recv_delivers fd n w r w' :
    sys_recv fd n w = (r, w') →
    delivered fd w' = delivered fd w ++ match r with RecvBytes bs => bs | _ => [] end ∧
    accepted fd w' = accepted fd w;
  recv_waiting fd n w r w' :
    0 < n → sys_recv fd n w = (r, w') →
    match r with
    | RecvBytes bs => waiting fd w `prefix_of` bs ++ waiting fd w' ∧
                      (bs = [] → waiting fd w = [])
    | RecvError e => (e = EAGAIN ∨ e = EWOULDBLOCK) → waiting fd w = []
    end;
  send_delivers fd bs w r w' :
    sys_send fd bs w = (r, w') → delivered fd w' = delivered fd w ∧
    waiting fd w `prefix_of` waiting fd w';
  clock_delivers fd w :
    delivered fd (snd (sys_clock w)) = delivered fd w ∧
    accepted fd (snd (sys_clock w)) = accepted fd w ∧
    waiting fd w `prefix_of` waiting fd (snd (sys_clock w));
  sleep_delivers fd ms w :
    delivered fd (sys_sleep_ms ms w) = delivered fd w ∧
    accepted fd (sys_sleep_ms ms w) = accepted fd w ∧
    waiting fd w `prefix_of` waiting fd (sys_sleep_ms ms w);
  cout_delivers fd text w :
    delivered fd (sys_cout text w) = delivered fd w ∧
    accepted fd (sys_cout text w) = accepted fd w ∧
    waiting fd w `prefix_of` waiting fd (sys_cout text w)
}.

Class SSLReadLaws (W : Type) `{OS W, OpenSSL W, !SSLSendLaws W} : Type := {
  ssl_delivered : option Z → W → list Z;
  (** the plaintext of the records received in full *)
  ssl_waiting : option Z → W → list Z;
  read_ex_delivers ssl n w bs w' :
    ssl_read_ex ssl n w = (bs, w') →
    ssl_delivered ssl w' = ssl_delivered ssl w ++ bs ∧
    ssl_accepted ssl w' = ssl_accepted ssl w;
  read_ex_waiting ssl n w bs w' :
    0 < n → ssl_read_ex ssl n w = (bs, w') →
    ssl_waiting ssl w `prefix_of` bs ++ ssl_waiting ssl w' ∧
    (bs = [] → ssl_waiting ssl w = []);
  write_delivers ssl bs w len w' :
    ssl_write ssl bs w = (len, w') → ssl_delivered ssl w' = ssl_delivered ssl w ∧
    ssl_waiting ssl w `prefix_of` ssl_waiting ssl w';
  get_error_delivers ssl len w err w' :
    ssl_get_error ssl len w = (err, w') → ssl_delivered ssl w' = ssl_delivered ssl w ∧
    ssl_waiting ssl w `prefix_of` ssl_waiting ssl w';
  ssl_clock_delivers ssl w :
    ssl_delivered ssl (snd (sys_clock w)) = ssl_delivered ssl w ∧
    ssl_accepted ssl (snd (sys_clock w)) = ssl_accepted ssl w ∧
    ssl_waiting ssl w `prefix_of` ssl_waiting ssl (snd (sys_clock w));
  ssl_sleep_delivers ssl ms w :
    ssl_delivered ssl (sys_sleep_ms ms w) = ssl_delivered ssl w ∧
    ssl_accepted ssl (sys_sleep_ms ms w) = ssl_accepted ssl w ∧
    ssl_waiting ssl w `prefix_of` ssl_waiting ssl (sys_sleep_ms ms w);
  ssl_cout_delivers ssl text w :
    ssl_delivered ssl (sys_cout text w) = ssl_delivered ssl w ∧
    ssl_accepted ssl (sys_cout text w) = ssl_accepted ssl w ∧
    ssl_waiting ssl w `prefix_of` ssl_waiting ssl (sys_cout text w)
}.

(** In the scripted world the chunk that is next is waiting. *)
Definition next_chunk (w : world) : list Z :=
  match incoming w with [] => [] | chunk :: _ => map u8 chunk end.

Lemma deliver_waiting n w bs w' :
  0 < n → deliver n w = (bs, w') →
  next_chunk w `prefix_of` bs ++ next_chunk w' ∧ (bs = [] → next_chunk w = []).
Proof.
  intros Hn. unfold deliver, next_chunk. destruct (incoming w) as [|chunk rest];
    intros [= <- <-]; cbn [incoming]; [split; [apply prefix_nil|done]|]. split.
  - destruct (decide (length chunk ≤ n)).
    + rewrite take_ge by (rewrite length_map; lia). by apply prefix_app_r.
    + rewrite <-(take_drop n (map u8 chunk)) at 1. by rewrite skipn_map.
  - intros Ht%(f_equal length). rewrite length_take, length_map in Ht. cbn in Ht.
    by destruct chunk; [|cbn in Ht; lia].
Qed.

#[export, refine] Instance world_RecvLaws : RecvLaws world := {
  delivered _ w := delivered_bytes w;
  waiting _ := next_chunk
}.
Proof.
  - intros fd n w r w'. cbn [sys_recv world_OS].
    destruct (deliver n w) as [bs v] eqn:Hd. apply deliver_account in Hd as [Hd Ho].
    intros [= <- <-]. split; [|done]. rewrite Hd. by case_decide; subst.
  - intros fd n w r w' Hn. cbn [sys_recv world_OS].
    destruct (deliver n w) as [bs v] eqn:Hd. apply deliver_waiting in Hd as [Hp He]; [|done].
    intros [= <- <-]. case_decide; [by intros; apply He|done].
  - intros fd bs w r w'. cbn [sys_send world_OS]. unfold transmit. by intros [= <- <-].
  - done.
  - done.
  - done.
Defined.

#[export, refine] Instance world_SSLReadLaws : SSLReadLaws world := {
  ssl_delivered _ w := delivered_bytes w;
  ssl_waiting _ := next_chunk
}.
Proof.
  - intros ssl n w bs w' Hd. by apply deliver_account in Hd.
  - intros ssl n w bs w' Hn Hd. by apply (deliver_waiting n).
  - intros ssl bs w len w'. cbn [ssl_write world_OpenSSL]. unfold transmit.
    by intros [= <- <-].
  - intros ssl len w err w'. cbn [ssl_get_error world_OpenSSL]. by intros [= <- <-].
  - done.
  - done.
  - done.
Defined.

Module SocketProps.

Section TCP.
Context {W : Type} `{OS W}.

Definition tcp_write (bs : list Z) (x : SocketWrapper.t * Sys W) :
    Z * Z * (SocketWrapper.t * Sys W) :=
  let '((ret, errno), w) := sys_send (SocketWrapper.m_sockfd (fst x)) bs (env (snd x)) in
  (ret, errno, (fst x, mkSys w (held (snd x)))).

Definition tcp_fail (errno : Z) (x : SocketWrapper.t * Sys W) :
    outcome Z * (SocketWrapper.t * Sys W) :=
  (Throw (SocketWrapperException
     (if ((errno =? EAGAIN) || (errno =? EWOULDBLOCK))%Z
      then "Socket would block on send" else "send() failed")), x).

Lemma tcp_loop_S buf n a b x :
  SocketWrapper.send_loop (S n) buf a b x =
  if (a >? 0)%Z then
    let '(len, e, x') := tcp_write (take (Z.to_nat a) (drop (Z.to_nat b) buf)) x in
    if (len <? 0)%Z then tcp_fail e x'
    else SocketWrapper.send_loop n buf (i32 (a - len)) (i32 (b + len)) x'
  else (Ok b, x).
Proof.
  destruct x as [s y]. rewrite tcp_send_step. unfold tcp_write, tcp_fail. cbn [fst snd].
  by destruct (sys_send _ _ _) as [[ret errno] w].
Qed.

(** All of the request, or a proper prefix; enough iterations. *)
Lemma tcp_send_sends `{!SendLaws W} (fuel : nat) (req : list Z)
    (s : SocketWrapper.t) (y : Sys W) :
  (Z.of_nat (length req) < 2 ^ 31)%Z → length req < fuel →
  sent_from req (λ x, accepted (SocketWrapper.m_sockfd (fst x)) (env (snd x)))
    0 (s, y) (SocketWrapper.send fuel req (s, y)).
Proof.
  intros Hl Hf.
  pose proof (loop_sends req tcp_write tcp_fail
    (λ n a b x, SocketWrapper.send_loop n req a b x)
    (λ x, accepted (SocketWrapper.m_sockfd (fst x)) (env (snd x)))
    ltac:(done) (tcp_loop_S req)) as Hs.
  specialize (Hs ltac:(intros bs [s' y'] len e x' Hne; unfold tcp_write; cbn [fst snd];
    destruct (sys_send _ _ _) as [[ret errno] w] eqn:Hw; intros [= -> -> <-];
    apply send_accepts in Hw; [|done];
    destruct (len <? 0)%Z; [by do 2 eexists|split; [lia|apply Hw]]) Hl fuel 0 (s, y)).
  unfold SocketWrapper.send. rewrite i32_id by lia. rewrite Nat.sub_0_r in Hs.
  apply Hs; [|lia|lia]. intros (bs & [s' y'] & Hne & Hz). unfold tcp_write in Hz. cbn [fst snd] in Hz.
  destruct (sys_send _ _ _) as [[ret errno] w] eqn:Hw. cbn in Hz. subst ret.
  apply send_accepts in Hw; [|done]. cbn in Hw. lia.
Qed.

(** C24: [SocketWrapper::send]: a request below 2 GiB is either sent entirely
    and in order, the return value being its length, or fails with an
    exception after a proper prefix of it was sent; the loop always ends
    (one iteration more than the request has bytes is enough). *)
Theorem tcp_send_complete `{!SendLaws W} (fuel : nat) (req : list Z)
    (s : SocketWrapper.t) (y : Sys W) :
  (Z.of_nat (length req) < 2 ^ 31)%Z → length req < fuel →
  match SocketWrapper.send fuel req (s, y) with
  | (Ok n, (s', y')) => n = Z.of_nat (length req) ∧
      accepted (SocketWrapper.m_sockfd s') (env y')
      = accepted (SocketWrapper.m_sockfd s) (env y) ++ req
  | (Throw _, (s', y')) => ∃ k, k < length req ∧
      accepted (SocketWrapper.m_sockfd s') (env y')
      = accepted (SocketWrapper.m_sockfd s) (env y) ++ take k req
  | _ => False
  end.
Proof.
  intros Hl Hf. pose proof (tcp_send_sends fuel req s y Hl Hf) as Hs.
  unfold sent_from in Hs. rewrite drop_0 in Hs. cbn [fst snd] in Hs.
  by destruct (SocketWrapper.send _ _ _) as [[n|e|u|] [s' y']].
Qed.

(** A request of 2 to 4 GiB is dropped: its length is negative as an
    [int], so nothing is handed to the system and 0 is returned without any
    error. *)
Theorem tcp_send_drops_large (fuel : nat) (req : list Z)
    (s : SocketWrapper.t) (y : Sys W) :
  (2 ^ 31 ≤ Z.of_nat (length req) < 2 ^ 32)%Z → 0 < fuel →
  SocketWrapper.send fuel req (s, y) = (Ok 0%Z, (s, y)).
Proof.
  intros Hl Hf. destruct fuel as [|n]; [lia|]. unfold SocketWrapper.send.
  apply (loop_negative req tcp_write tcp_fail
    (λ n a b x, SocketWrapper.send_loop n req a b x) (tcp_loop_S req)).
  rewrite i32_2_to_4_gib by done. lia.
Qed.
End TCP.

Section SSL.
Context {W : Type} `{OS W, OpenSSL W}.

Definition tls_write (bs : list Z) (x : SSLSocketWrapper.t * Sys W) :
    Z * Z * (SSLSocketWrapper.t * Sys W) :=
  let '(len, w) := ssl_write (SSLSocketWrapper.m_ssl (fst x)) bs (env (snd x)) in
  (len, len, (fst x, mkSys w (held (snd x)))).

Definition tls_fail (len : Z) (x : SSLSocketWrapper.t * Sys W) :
    outcome Z * (SSLSocketWrapper.t * Sys W) :=
  let '(err, w) := ssl_get_error (SSLSocketWrapper.m_ssl (fst x)) len (env (snd x)) in
  (Throw (SSLSocketWrapperException (SSLSocketWrapper.ssl_error_message err)),
   (fst x, mkSys w (held (snd x)))).

Lemma tls_loop_S buf n a b x :
  SSLSocketWrapper.send_loop (S n) buf a b x =
  if (a >? 0)%Z then
    let '(len, e, x') := tls_write (take (Z.to_nat a) (drop (Z.to_nat b) buf)) x in
    if (len <? 0)%Z then tls_fail e x'
    else SSLSocketWrapper.send_loop n buf (i32 (a - len)) (i32 (b + len)) x'
  else (Ok b, x).
Proof.
  destruct x as [s y]. rewrite ssl_send_step. unfold tls_write, tls_fail. cbn [fst snd].
  by destruct (ssl_write _ _ _) as [len w].
Qed.

(** A TLS library that answers 0 (the documented failure value next to
    negative ones) puts [send] into an endless loop: 0 is not taken for an
    error and the same write is repeated, so no number of iterations is
    enough for a non-empty request. *)
Lemma tls_send_loops (fuel : nat) (req : list Z)
    (s : SSLSocketWrapper.t) (y : Sys W) :
  (0 < Z.of_nat (length req) < 2 ^ 31)%Z →
  (∀ ssl bs w, fst (ssl_write ssl bs w) = 0%Z) →
  fst (SSLSocketWrapper.send fuel req (s, y)) = OutOfFuel.
Proof.
  intros Hl Hz. unfold SSLSocketWrapper.send. rewrite i32_id by lia.
  apply (loop_zero_diverges req tls_write tls_fail
    (λ n a b x, SSLSocketWrapper.send_loop n req a b x));
    [done|apply tls_loop_S|lia|lia|].
  intros bs x. unfold tls_write. specialize (Hz (SSLSocketWrapper.m_ssl (fst x)) bs
    (env (snd x))). by destruct (ssl_write _ _ _).
Qed.

(** What was sent, whatever the writes answer. *)
Lemma tls_send_within `{!SSLSendLaws W} (fuel : nat) (req : list Z)
    (s : SSLSocketWrapper.t) (y : Sys W) :
  (Z.of_nat (length req) < 2 ^ 31)%Z →
  sent_within req tls_write
    (λ x, ssl_accepted (SSLSocketWrapper.m_ssl (fst x)) (env (snd x)))
    fuel 0 (s, y) (SSLSocketWrapper.send fuel req (s, y)).
Proof.
  intros Hl.
  pose proof (loop_within req tls_write tls_fail
    (λ n a b x, SSLSocketWrapper.send_loop n req a b x)
    (λ x, ssl_accepted (SSLSocketWrapper.m_ssl (fst x)) (env (snd x)))
    ltac:(done) (tls_loop_S req)) as Hs.
  specialize (Hs ltac:(intros bs [s' y'] len e x' Hne; unfold tls_write, tls_fail;
    cbn [fst snd]; destruct (ssl_write _ _ _) as [l w] eqn:Hw; intros [= -> <- <-];
    apply write_accepts in Hw; [|done]; cbn [fst snd env held];
    destruct (len <? 0)%Z; [|done];
    destruct (ssl_get_error _ _ w) as [err w'] eqn:He; apply get_error_accepts in He;
    do 2 eexists; split; [reflexivity|]; cbn; congruence)
    Hl fuel 0 (s, y) ltac:(lia)).
  unfold SSLSocketWrapper.send. rewrite i32_id by lia. by rewrite Nat.sub_0_r in Hs.
Qed.

Lemma tls_idle_write :
  idle_write tls_write → ∃ ssl bs w, bs ≠ [] ∧ fst (ssl_write ssl bs w) = 0%Z.
Proof.
  intros (bs & [s y] & Hne & Hz). exists (SSLSocketWrapper.m_ssl s), bs, (env y).
  split; [done|]. unfold tls_write in Hz. cbn [fst snd] in Hz. by destruct (ssl_write _ _ _).
Qed.

Lemma tls_send_sends `{!SSLSendLaws W, !SSLWriteLaws W} (fuel : nat) (req : list Z)
    (s : SSLSocketWrapper.t) (y : Sys W) :
  (Z.of_nat (length req) < 2 ^ 31)%Z → length req < fuel →
  sent_from req
    (λ x, ssl_accepted (SSLSocketWrapper.m_ssl (fst x)) (env (snd x)))
    0 (s, y) (SSLSocketWrapper.send fuel req (s, y)).
Proof.
  intros Hl Hf. pose proof (tls_send_within fuel req s y Hl) as Hw. unfold sent_from.
  destruct (SSLSocketWrapper.send _ _ _) as [[n|e|u|] x']; [done..|].
  destruct Hw as [_ Hz]. destruct (tls_idle_write (Hz ltac:(lia))) as (ssl & bs & w & Hne & Hz').
  by apply write_progress in Hz'.
Qed.

(** C25: [SSLSocketWrapper::send], with a TLS library that documents its answers:
    a positive number of bytes taken, or a failure, which may be 0 as well as
    negative. When it returns, the whole request, below 2 GiB, was sent and its
    length is returned; when it throws, a proper prefix of it was; at any
    moment before, a prefix. One iteration more than the request has bytes is
    enough unless some write answers 0; and a library that answers nothing
    else keeps the loop going for ever: 0 is not taken for an error, and the
    same write is repeated. *)
Theorem tls_send_complete `{!SSLSendLaws W} (fuel : nat) (req : list Z)
    (s : SSLSocketWrapper.t) (y : Sys W) :
  (Z.of_nat (length req) < 2 ^ 31)%Z →
  match SSLSocketWrapper.send fuel req (s, y) with
  | (Ok n, (s', y')) => n = Z.of_nat (length req) ∧
      ssl_accepted (SSLSocketWrapper.m_ssl s') (env y')
      = ssl_accepted (SSLSocketWrapper.m_ssl s) (env y) ++ req
  | (Throw _, (s', y')) => ∃ k, k < length req ∧
      ssl_accepted (SSLSocketWrapper.m_ssl s') (env y')
      = ssl_accepted (SSLSocketWrapper.m_ssl s) (env y) ++ take k req
  | (UB _, _) => False
  | (OutOfFuel, (s', y')) =>
      (∃ k, ssl_accepted (SSLSocketWrapper.m_ssl s') (env y')
            = ssl_accepted (SSLSocketWrapper.m_ssl s) (env y) ++ take k req) ∧
      (length req < fuel → ∃ ssl bs w, bs ≠ [] ∧ fst (ssl_write ssl bs w) = 0%Z)
  end ∧
  (req ≠ [] → (∀ ssl bs w, fst (ssl_write ssl bs w) = 0%Z) →
   fst (SSLSocketWrapper.send fuel req (s, y)) = OutOfFuel).
Proof.
  intros Hl. split.
  - pose proof (tls_send_within fuel req s y Hl) as Hs.
    unfold sent_within in Hs. rewrite drop_0, Nat.sub_0_r in Hs. cbn [fst snd] in Hs.
    destruct (SSLSocketWrapper.send _ _ _) as [[n|e|u|] [s' y']]; [done..|].
    destruct Hs as [Hk Hz]. split; [exact Hk|]. intros Hf. apply tls_idle_write. auto.
  - intros Hne Hz. apply tls_send_loops; [|done]. destruct req; [done|cbn in *; lia].
Qed.
End SSL.

(** ** Reading *)

(** C36: [SocketWrapper::read_into] on every result of [recv], with any
    positive chunk size: bytes are appended to the frame buffer and reported
    as new data; a would-block error and the end of the stream both leave the
    buffer unchanged and return false; any other error is an exception and
    also leaves the buffer unchanged. *)
Theorem tcp_read_into_correct {W : Type} `{OSLaws W} (n : nat)
    (s : SocketWrapper.t) (b : FrameBuffer.t) (y : Sys W) :
  0 < n → FrameBuffer.wf b →
  let '(r, w) := sys_recv (SocketWrapper.m_sockfd s) n (env y) in
  ∃ b', FrameBuffer.wf b' ∧
    SocketWrapper.read_into n (s, b, y)
    = (match r with
       | RecvBytes bs => Ok (negb (length bs =? 0))
       | RecvError e =>
           if ((e =? EAGAIN) || (e =? EWOULDBLOCK))%Z then Ok false
           else Throw (SocketWrapperException ("recv() failed: " +:+ to_string e))
       end, (s, b', mkSys w (held y))) ∧
    FrameBuffer.view b' = FrameBuffer.view b ++
      match r with RecvBytes bs => bs | RecvError _ => [] end.
Proof.
  intros Hn Hw. pose proof (tcp_read_into_eq n s b y Hn Hw) as He.
  destruct (sys_recv _ n (env y)) as [r w]. destruct He as (b' & [Hw' Hv] & ->).
  exists b'. by destruct r.
Qed.

(** C37: [SSLSocketWrapper::read_into] never reports an error: whatever the TLS
    library answers, it returns normally, with the bytes that arrived appended
    to the frame buffer. A failed or closed connection cannot be told from one
    without data. *)
Theorem tls_read_into_correct {W : Type} `{OS W} `{OpenSSLLaws W} (n : nat)
    (s : SSLSocketWrapper.t) (b : FrameBuffer.t) (y : Sys W) :
  0 < n → FrameBuffer.wf b →
  let '(bs, w) := ssl_read_ex (SSLSocketWrapper.m_ssl s) n (env y) in
  ∃ b', FrameBuffer.wf b' ∧ FrameBuffer.view b' = FrameBuffer.view b ++ bs ∧
    SSLSocketWrapper.read_into n (s, b, y)
    = (Ok (negb (length bs =? 0)), (s, b', mkSys w (held y))).
Proof.
  intros Hn Hw. pose proof (ssl_read_into_eq n s b y Hn Hw) as He.
  destruct (ssl_read_ex _ n (env y)) as [bs w]. destruct He as (b' & [Hw' Hv] & ->).
  by exists b'.
Qed.

(** ** Resources *)

(** [socket] returns a descriptor or -1. *)
Definition socket_law (W : Type) `{OS W} : Prop := ∀ f t p w,
  fst (sys_socket f t p w) = (-1)%Z ∨ (0 ≤ fst (sys_socket f t p w))%Z.

(** [SSL_new] needs a context. *)
Definition ssl_new_law (W : Type) `{OpenSSL W} : Prop := ∀ w,
  fst (ssl_new None w) = None.

Lemma drop_one_head r l : drop_one r (r :: l) = l.
Proof. cbn. by rewrite decide_True. Qed.

Lemma drop_one_skip r x l : x ≠ r → drop_one r (x :: l) = x :: drop_one r l.
Proof. intros H. cbn. by rewrite decide_False. Qed.

(** The life of a member socket: a temporary is constructed, moved into the
    default-constructed member and destroyed; later the member is destroyed. *)
Definition life {S W} `{SocketType S W} (host : string) (port : Z) :
    M (Sys W) unit := λ y,
  match st_construct host port y with
  | (Ok tmp, y1) =>
      match st_move_assign tmp (st_default, y1) with
      | (Ok rest, (member, y2)) =>
          match st_destroy (rest, y2) with
          | (Ok _, (_, y3)) =>
              let '(o, (_, y4)) := st_destroy (member, y3) in (o, y4)
          | (o, (_, y3)) => (o, y3)
          end
      | (Throw e, (_, y2)) => (Throw e, y2)
      | (UB u, (_, y2)) => (UB u, y2)
      | (OutOfFuel, (_, y2)) => (OutOfFuel, y2)
      end
  | (Throw e, y1) => (Throw e, y1)
  | (UB u, y1) => (UB u, y1)
  | (OutOfFuel, y1) => (OutOfFuel, y1)
  end.

Section TCPResources.
Context {W : Type} `{OS W}.

Lemma tcp_try_addrs addrs s (y : Sys W) :
  socket_law W →
  match SocketWrapper.try_addrs addrs (s, y) with
  | (Ok true, (s', y')) => (0 ≤ SocketWrapper.m_sockfd s')%Z ∧
      held y' = Fd (SocketWrapper.m_sockfd s') :: held y
  | (Ok false, (_, y')) => held y' = held y
  | _ => False
  end.
Proof.
  intros Hs. revert s y. induction addrs as [|a addrs IH]; intros s y; [done|].
  cbn [SocketWrapper.try_addrs].
  unfold call, call_unit, update_self, acquire, release, modify, mret, M_ret.
  unfold mbind, M_bind. specialize (Hs (ai_family a) (ai_socktype a) (ai_protocol a) (env y)).
  destruct (sys_socket _ _ _ (env y)) as [fd w]. cbn [fst] in Hs.
  destruct (Z.eqb_spec fd (-1)) as [->|Hfd].
  - apply (IH _ (mkSys w (held y))).
  - cbn [env held]. destruct (sys_set_nodelay fd w) as [r1 w1]. cbn [env held].
    destruct (sys_connect fd _ w1) as [rc w2].
    destruct (rc =? 0)%Z.
    + cbn. split; [lia|done].
    + cbn [env held]. rewrite drop_one_head. apply (IH _ (mkSys _ (held y))).
Qed.

Lemma tcp_construct host port (y : Sys W) :
  socket_law W →
  match SocketWrapper.construct host port y with
  | (Ok s, y') => (0 ≤ SocketWrapper.m_sockfd s)%Z ∧
      held y' = Fd (SocketWrapper.m_sockfd s) :: held y
  | (Throw _, y') => held y' = held y
  | _ => False
  end.
Proof.
  intros Hs. unfold SocketWrapper.construct, SocketWrapper.connect.
  unfold self, gets, call, acquire, mret, M_ret, mbind, M_bind. cbn [fst snd].
  cbn [SocketWrapper.m_port SocketWrapper.m_host].
  destruct (sys_getaddrinfo _ _ (env y)) as [[rc addrs] w].
  destruct (rc =? 0)%Z; cbn [negb]; [|done]. cbn [env held].
  pose proof (tcp_try_addrs addrs
    (SocketWrapper.mk host (Some port) (-1) []) (mkSys w (Addrs :: held y)) Hs) as Ht.
  destruct (SocketWrapper.try_addrs _ _) as [[[]| | |] [s' y']]; try done.
  - destruct Ht as [Hfd Hh]. cbn [held] in Hh.
    unfold call_unit, release. cbn [env held orb negb].
    rewrite Hh, drop_one_skip, drop_one_head by done. cbn [fst].
    destruct (Z.eqb_spec (SocketWrapper.m_sockfd s') (-1)); [lia|]. done.
  - cbn [held] in Ht. unfold call_unit, release. cbn [env held orb negb].
    by rewrite Ht, drop_one_head.
Qed.

Lemma tcp_disconnect s (y : Sys W) :
  SocketWrapper.disconnect (s, y) =
    if (SocketWrapper.m_sockfd s >=? 0)%Z then
      (Ok tt, (SocketWrapper.set_sockfd (-1) s,
        mkSys (sys_close (SocketWrapper.m_sockfd s) (env y))
          (drop_one (Fd (SocketWrapper.m_sockfd s)) (held y))))
    else (Ok tt, (s, y)).
Proof.
  unfold SocketWrapper.disconnect, self, gets, when, mbind, M_bind. cbn [fst].
  by destruct (SocketWrapper.m_sockfd s >=? 0)%Z.
Qed.

(** C32: the plain socket leaks nothing and closes nothing twice: whether
    construction succeeds or throws at any point, after the life of the member
    (move included) exactly the resources held before are held. *)
Theorem tcp_life_releases_all (fuel : nat) (host : string) (port : Z) (y : Sys W) :
  socket_law W →
  let '(o, y') := @life _ _ (TCP_SocketType fuel) host port y in
  held y' = held y ∧ match o with Ok _ | Throw _ => True | _ => False end.
Proof.
  intros Hs. unfold life. cbn [st_construct TCP_SocketType].
  pose proof (tcp_construct host port y Hs) as Hc.
  destruct (SocketWrapper.construct host port y) as [[s|e|u|] y1]; try done.
  destruct Hc as [Hfd Hh]. cbn [st_move_assign TCP_SocketType st_default].
  unfold SocketWrapper.move_assign, mbind, M_bind, mret, M_ret, update_self, modify.
  rewrite tcp_disconnect. cbn.
  rewrite tcp_disconnect. cbn. rewrite tcp_disconnect. cbn.
  destruct (Z.geb_spec (SocketWrapper.m_sockfd s) 0); [|lia]. cbn.
  by rewrite Hh, drop_one_head.
Qed.
End TCPResources.

Section TLSResources.
Context {W : Type} `{OS W, OpenSSL W} (fuel : nat).

Lemma tls_try_addrs addrs s (y : Sys W) :
  socket_law W →
  ∃ fd y', SSLSocketWrapper.try_addrs addrs (s, y)
    = (Ok tt, (SSLSocketWrapper.set_sockfd fd s, y')) ∧
    ((fd = -1 ∨ fd = SSLSocketWrapper.m_sockfd s ∧ addrs = [])%Z ∧ held y' = held y
     ∨ (0 ≤ fd)%Z ∧ held y' = Fd fd :: held y).
Proof.
  intros Hs. revert s y. induction addrs as [|a addrs IH]; intros s y.
  { exists (SSLSocketWrapper.m_sockfd s), y. split; [by destruct s|]. left. auto. }
  cbn [SSLSocketWrapper.try_addrs].
  unfold call, call_unit, update_self, acquire, release, modify, mret, M_ret.
  unfold mbind, M_bind. specialize (Hs (ai_family a) (ai_socktype a) (ai_protocol a) (env y)).
  destruct (sys_socket _ _ _ (env y)) as [fd w]. cbn [fst] in Hs.
  destruct (Z.eqb_spec fd (-1)) as [->|Hfd].
  - do 2 eexists. split; [reflexivity|]. left. auto.
  - cbn [env held]. destruct (sys_set_nodelay fd w) as [r1 w1]. cbn [env held].
    destruct (sys_connect fd _ w1) as [rc w2].
    destruct (rc =? 0)%Z.
    + do 2 eexists. split; [reflexivity|]. right. split; [lia|done].
    + cbn [env held]. rewrite drop_one_head.
      destruct (IH (SSLSocketWrapper.set_sockfd (-1) (SSLSocketWrapper.set_sockfd fd s))
        (mkSys (sys_close fd w2) (held y))) as (fd' & y' & Heq & Hr).
      exists fd', y'. split; [exact Heq|]. destruct Hr as [[Hr Hh]|Hr]; [|by right].
      left. split; [|done]. left. destruct Hr as [->|[-> _]]; done.
Qed.

Lemma get_ssl_error_held n out (x : SSLSocketWrapper.t * Sys W) :
  match SSLSocketWrapper.get_ssl_error_loop n out x with
  | (Ok _, (s', y')) | (OutOfFuel, (s', y')) => s' = fst x ∧ held y' = held (snd x)
  | _ => False
  end.
Proof.
  revert out x. induction n as [|n IH]; intros out [s y]; [done|].
  cbn [SSLSocketWrapper.get_ssl_error_loop].
  unfold call, mbind, M_bind. destruct (err_get_error (env y)) as [e w].
  destruct (i32 e =? 0)%Z; [done|].
  apply (IH _ (s, mkSys w (held y))).
Qed.

(** What the members of an object stand for. *)
Definition owned (s : SSLSocketWrapper.t) : list resource :=
  (match SSLSocketWrapper.m_ssl s with Some p => [Ssl p] | None => [] end) ++
  (match SSLSocketWrapper.m_ctx s with Some c => [Ctx c] | None => [] end) ++
  (if (SSLSocketWrapper.m_sockfd s >=? 0)%Z then [Fd (SSLSocketWrapper.m_sockfd s)] else []).

(** A descriptor, a context and a TLS object. *)
Definition complete (s : SSLSocketWrapper.t) : Prop :=
  (0 ≤ SSLSocketWrapper.m_sockfd s)%Z ∧
  is_Some (SSLSocketWrapper.m_ctx s) ∧ is_Some (SSLSocketWrapper.m_ssl s).

Definition resolved (host : string) (port : Z) (y : Sys W) : Z :=
  fst (fst (sys_getaddrinfo host (to_string port) (env y))).

(** The object at the moment [connect] throws [e], [rc] being the result of the
    name resolution: there is no address; no address was connected; the
    connection is there but no TLS object; everything is there but the TLS
    handshake failed. *)
Definition stopped_at (rc : Z) (s : SSLSocketWrapper.t) (e : exn) : Prop :=
  if (rc =? 0)%Z then
    owned s = [] ∧ e = SSLSocketWrapperException "Failed to connect to server." ∨
    (0 ≤ SSLSocketWrapper.m_sockfd s)%Z ∧ SSLSocketWrapper.m_ssl s = None ∧
      e = SSLSocketWrapperException "Failed to create SSL." ∨
    complete s ∧ ∃ msg, e = SSLSocketWrapperException msg
  else owned s = [] ∧ e = SSLSocketWrapperException (sys_gai_strerror rc).

(** The list [getaddrinfo] made. *)
Definition addresses (rc : Z) : list resource := if (rc =? 0)%Z then [Addrs] else [].

(** What [connect] holds, for the object as it is constructed. *)
Definition connect_holds (rc : Z) (h0 : list resource)
    (r : outcome unit * (SSLSocketWrapper.t * Sys W)) : Prop :=
  match r with
  | (Ok _, (s, y')) => complete s ∧ held y' = owned s ++ h0
  | (Throw e, (s, y')) => stopped_at rc s e ∧ held y' = owned s ++ addresses rc ++ h0
  | (OutOfFuel, (s, y')) => complete s ∧ held y' = owned s ++ addresses rc ++ h0
  | (UB _, _) => False
  end.

Definition constructing (host : string) (port : Z) : SSLSocketWrapper.t :=
  SSLSocketWrapper.mk host (Some port) (-1) (-1) None None [].

Lemma owned_complete host port fd sock c p out :
  (0 ≤ fd)%Z →
  owned (SSLSocketWrapper.mk host port fd sock (Some c) (Some p) out) = [Ssl p; Ctx c; Fd fd].
Proof.
  intros Hfd. unfold owned. cbn [SSLSocketWrapper.m_ssl SSLSocketWrapper.m_ctx
    SSLSocketWrapper.m_sockfd]. by destruct (Z.geb_spec fd 0); [|lia].
Qed.

Lemma tls_connect host port (y : Sys W) :
  socket_law W → ssl_new_law W →
  connect_holds (resolved host port y) (held y)
    (SSLSocketWrapper.connect fuel (constructing host port, y)).
Proof.
  intros Hs Hn. unfold resolved, SSLSocketWrapper.connect, constructing.
  unfold self, gets, call, call_unit, acquire, update_self, modify, mret, M_ret,
    mbind, M_bind, throw. cbn [fst snd].
  cbn [SSLSocketWrapper.m_port SSLSocketWrapper.m_host].
  destruct (sys_getaddrinfo _ _ (env y)) as [[rc addrs] w]. cbn [fst].
  destruct (rc =? 0)%Z eqn:Hrc; cbn [negb].
  2: { unfold connect_holds, stopped_at, addresses. by rewrite Hrc. }
  cbn [env held].
  destruct (tls_try_addrs addrs (SSLSocketWrapper.mk host (Some port) (-1) (-1)
    None None []) (mkSys w (Addrs :: held y)) Hs) as (fd & y1 & -> & Hr).
  cbn [SSLSocketWrapper.m_sockfd SSLSocketWrapper.set_sockfd fst] in *.
  destruct Hr as [[Hfd Hh]|[Hfd Hh]]; cbn [held] in Hh.
  { assert (fd = -1)%Z as -> by (destruct Hfd as [?|[? _]]; done). cbn.
    unfold stopped_at, addresses. rewrite Hrc. split; [by left|done]. }
  destruct (Z.eqb_spec fd (-1)); [lia|].
  destruct (ssl_ctx_new (env y1)) as [[c|] w2]; cbn [env held].
  - destruct (ssl_new (Some c) w2) as [[p|] w3]; cbn [env held fst].
    + destruct (ssl_get_fd _ _) as [sfd w4]. cbn [env held fst].
      destruct (ssl_connect _ _) as [r w5]. cbn [env held fst].
      destruct (r <=? 0)%Z.
      * unfold SSLSocketWrapper.get_ssl_error.
        pose proof (λ x, get_ssl_error_held fuel "" x) as Hge.
        match goal with |- context [SSLSocketWrapper.get_ssl_error_loop fuel "" ?x] =>
          specialize (Hge x) end.
        destruct (SSLSocketWrapper.get_ssl_error_loop _ _ _)
          as [[m|e|u|] [s2 y2]]; try done; destruct Hge as [-> Hge]; cbn [snd held] in Hge;
          cbn [connect_holds]; unfold stopped_at, addresses; rewrite Hrc, Hge, Hh;
          cbn; (destruct (Z.geb_spec fd 0); [|lia]); (split; [|done]);
          [right; right; split; [|by eexists]|]; by split_and!; [|eexists..].
      * unfold release. cbn [env held fst SSLSocketWrapper.m_sockfd SSLSocketWrapper.set_ssl
          SSLSocketWrapper.set_ctx SSLSocketWrapper.set_sslsock connect_holds].
        split; [by split_and!; [|eexists..]|].
        rewrite Hh, !drop_one_skip, drop_one_head by done. cbn.
        by destruct (Z.geb_spec fd 0); [|lia].
    + cbn. unfold stopped_at, addresses. rewrite Hrc, Hh. cbn.
      destruct (Z.geb_spec fd 0); [|lia]. split; [by right; left|done].
  - specialize (Hn w2). destruct (ssl_new None w2) as [ssl w3]. cbn in Hn. subst ssl.
    cbn. unfold stopped_at, addresses. rewrite Hrc, Hh. cbn.
    destruct (Z.geb_spec fd 0); [|lia]. split; [by right; left|done].
Qed.

Lemma tls_disconnect_full fd c p h s (y : Sys W) :
  SSLSocketWrapper.m_sockfd s = fd → (0 ≤ fd)%Z →
  SSLSocketWrapper.m_ctx s = Some c → SSLSocketWrapper.m_ssl s = Some p →
  held y = Ssl p :: Ctx c :: Fd fd :: h →
  ∃ y', SSLSocketWrapper.disconnect (s, y) = (Ok tt, (s, y')) ∧ held y' = h.
Proof.
  intros Hfd Hpos Hc Hp Hh. unfold SSLSocketWrapper.disconnect, self, gets, when,
    mbind, M_bind, call_unit, release. cbn [fst]. rewrite Hfd, Hc, Hp.
  destruct (Z.ltb_spec fd 0); [lia|]. cbn [negb env held]. eexists.
  split; [reflexivity|]. cbn [held]. rewrite Hh.
  by rewrite !(drop_one_skip (Fd fd)), drop_one_head, (drop_one_skip (Ctx c)),
    !drop_one_head by done.
Qed.

Lemma tls_disconnect_empty s (y : Sys W) :
  (SSLSocketWrapper.m_sockfd s < 0)%Z → SSLSocketWrapper.m_ctx s = None →
  SSLSocketWrapper.m_ssl s = None →
  SSLSocketWrapper.disconnect (s, y) = (Ok tt, (s, y)).
Proof.
  intros Hfd Hc Hp. unfold SSLSocketWrapper.disconnect, self, gets, when,
    mbind, M_bind. cbn [fst]. rewrite Hc, Hp.
  by destruct (Z.ltb_spec (SSLSocketWrapper.m_sockfd s) 0); [|lia].
Qed.

(** C33: the TLS socket. When [connect], called by the constructor, succeeds,
    what is held is exactly the object's descriptor, context and TLS object, and
    the life of the member (move included) releases each exactly once. When it
    throws, the destructor does not run, and what the object stood for stays
    held for ever, with the address list if there was one: nothing, when the
    name was not resolved; the address list, when no address was connected;
    also the connected descriptor, and the context if there is one, when there
    is no TLS object; also the context and the TLS object, when the TLS
    handshake failed. *)
Theorem tls_life_resources (host : string) (port : Z) (y : Sys W) :
  socket_law W → ssl_new_law W →
  let rc := resolved host port y in
  let lived := @life _ _ (SSL_SocketType fuel) host port y in
  match SSLSocketWrapper.connect fuel (constructing host port, y) with
  | (Ok _, (s, y')) => complete s ∧ held y' = owned s ++ held y ∧
      fst lived = Ok tt ∧ held (snd lived) = held y
  | (Throw e, (s, y')) => stopped_at rc s e ∧ held y' = owned s ++ addresses rc ++ held y ∧
      lived = (Throw e, y')
  | (OutOfFuel, (s, y')) => complete s ∧ held y' = owned s ++ addresses rc ++ held y ∧
      lived = (OutOfFuel, y')
  | (UB _, _) => False
  end.
Proof.
  intros Hs Hn. cbv zeta. unfold life. cbn [st_construct SSL_SocketType].
  pose proof (tls_connect host port y Hs Hn) as Hc. unfold constructing in *.
  unfold SSLSocketWrapper.construct.
  destruct (SSLSocketWrapper.connect _ _) as [[[]|e|u|] [s y1]]; [|by destruct Hc..].
  destruct Hc as [Hcomp Hh]. split; [done|]. split; [done|].
  destruct Hcomp as (Hfd & [c Hx] & [p Hp]).
  cbn [st_move_assign SSL_SocketType st_default st_destroy].
  unfold SSLSocketWrapper.move_assign, mbind, M_bind, mret, M_ret, update_self, modify.
  rewrite tls_disconnect_empty by done.
  rewrite tls_disconnect_empty by done.
  assert (held y1 = Ssl p :: Ctx c :: Fd (SSLSocketWrapper.m_sockfd s) :: held y) as Hh'.
  { destruct s as [h0 p0 fd so c0 p0' o]. cbn in Hfd, Hx, Hp. subst. rewrite Hh.
    by rewrite owned_complete. }
  destruct (tls_disconnect_full (SSLSocketWrapper.m_sockfd s) c p (held y)
    (SSLSocketWrapper.mk (SSLSocketWrapper.m_host s) None
       (SSLSocketWrapper.m_sockfd s) (SSLSocketWrapper.m_sslsock s)
       (SSLSocketWrapper.m_ctx s) (SSLSocketWrapper.m_ssl s)
       (SSLSocketWrapper.m_out s)) y1) as (y2 & Hd & Hh2); [done..|].
  cbn [SSLSocketWrapper.m_port SSLSocketWrapper.default_ctor].
  by rewrite Hd.
Qed.
End TLSResources.

(** ** Witnesses *)

Definition some_socket : SocketWrapper.t := SocketWrapper.mk "localhost" (Some 80%Z) 3 [].

Definition some_tls : SSLSocketWrapper.t :=
  SSLSocketWrapper.mk "localhost" (Some 443%Z) 3 (-1) (Some 1%Z) (Some 2%Z) [].

(** More than 2^31 bytes, never evaluated. *)
Definition huge : list Z := replicate (Z.to_nat (2 ^ 31)) 0%Z.

Lemma length_huge : (2 ^ 31 ≤ Z.of_nat (length huge) < 2 ^ 32)%Z.
Proof. unfold huge. rewrite length_replicate, Z2Nat.id; lia. Qed.

Lemma world_socket_law : socket_law world.
Proof. right. cbn. lia. Qed.

Lemma world_ssl_new_law : ssl_new_law world.
Proof. done. Qed.

Lemma tcp_send_complete_witness :
  match SocketWrapper.send 8 [1; 2; 3; 4; 5; 6; 7]%Z (some_socket, scripted []) with
  | (Ok n, (s', y')) => n = 7%Z ∧ outgoing (env y') = [1; 2; 3; 4; 5; 6; 7]%Z
  | _ => False
  end.
Proof.
  pose proof (tcp_send_complete 8 [1; 2; 3; 4; 5; 6; 7]%Z some_socket (scripted [])
    ltac:(cbn; lia) ltac:(cbn; lia)) as H. exact H.
Defined.

Lemma tcp_send_drops_large_witness :
  SocketWrapper.send 1 huge (some_socket, scripted []) = (Ok 0%Z, (some_socket, scripted [])).
Proof.
  apply tcp_send_drops_large; [exact length_huge|lia].
Defined.

(** Everything is sent; a library that answers 0 keeps the loop going. *)
Lemma tls_send_complete_witness :
  match SSLSocketWrapper.send 8 [1; 2; 3; 4; 5; 6; 7]%Z (some_tls, scripted []) with
  | (Ok n, (s', y')) => n = 7%Z ∧ outgoing (env y') = [1; 2; 3; 4; 5; 6; 7]%Z
  | _ => False
  end ∧
  fst (@SSLSocketWrapper.send world dead_OpenSSL 1000 [7]%Z (some_tls, scripted []))
  = OutOfFuel.
Proof.
  split.
  - pose proof (tls_send_complete 8 [1; 2; 3; 4; 5; 6; 7]%Z some_tls (scripted [])
      ltac:(cbn; lia)) as [H _]. exact H.
  - pose proof (@tls_send_complete world dead_OpenSSL dead_SSLSendLaws 1000 [7]%Z some_tls
      (scripted []) ltac:(cbn; lia)) as [_ H]. by apply H.
Defined.

Lemma tcp_life_releases_all_witness :
  held (snd (@life _ _ (TCP_SocketType 1) "localhost" 80 (scripted []))) = [].
Proof.
  pose proof (tcp_life_releases_all 1 "localhost" 80 (scripted []) world_socket_law) as H.
  destruct (life _ _ _) as [o y']. apply H.
Defined.

Lemma tls_life_resources_witness :
  held (snd (@life _ _ (SSL_SocketType 1) "localhost" 443 (scripted []))) = [].
Proof.
  pose proof (tls_life_resources 1 "localhost" 443 (scripted []) world_socket_law
    world_ssl_new_law) as H. cbv zeta in H.
  destruct (SSLSocketWrapper.connect _ _) as [[u|e|u|] [s y']] eqn:Hl;
    [by destruct H as (_ & _ & _ & H)|..]; vm_compute in Hl; discriminate.
Defined.

Lemma tcp_read_into_correct_witness :
  ∃ b', FrameBuffer.view b' = [5; 6]%Z ∧
    fst (SocketWrapper.read_into 1024
      (some_socket, FrameBuffer.new 16, scripted [[5; 6]%Z])) = Ok true.
Proof.
  pose proof (tcp_read_into_correct 1024 some_socket (FrameBuffer.new 16)
    (scripted [[5; 6]%Z]) ltac:(lia) (FrameBuffer.new_buffer_wf 16)) as H.
  destruct H as (b' & _ & -> & Hv). exists b'. by rewrite Hv.
Defined.

Lemma tls_read_into_correct_witness :
  ∃ b', FrameBuffer.view b' = [5; 6]%Z ∧
    fst (SSLSocketWrapper.read_into 1024
      (some_tls, FrameBuffer.new 16, scripted [[5; 6]%Z])) = Ok true.
Proof.
  pose proof (tls_read_into_correct 1024 some_tls (FrameBuffer.new 16)
    (scripted [[5; 6]%Z]) ltac:(lia) (FrameBuffer.new_buffer_wf 16)) as H.
  destruct H as (b' & _ & Hv & ->). exists b'. by rewrite Hv.
Defined.

End SocketProps.
