(* ===== verification/Dial.v ===== *)
(** Which address a socket is connected to. A [Network] is an outside world
    in which it can be told which descriptors of the process are open and what
    each is connected to, if anything, whether a kind of socket can be made and
    whether an address accepts. In every such world the constructors of the two
    wrappers end up connected to the first of the addresses they were given that
    they can reach, with every other descriptor they made closed again. *)

From stdpp Require Import gmap.
From S2P Require Import Prelude Sys World Sockets SocketSpec.

Module Dial.

(** [socket], [connect] and [close] as documented: [socket] opens a descriptor
    that is not in use, connected to nothing, and answers with it, or with -1;
    [connect] answers with 0 when the descriptor is connected, and otherwise
    leaves it open; [close] closes it; nothing else opens, closes or connects
    one. *)
Class Network (W : Type) `{OS W} : Type := {
  (** the open descriptors, each with what it is connected to *)
  descriptors : W → gmap Z (option (list Z));
  makes : Z → Z → Z → bool;
  accepts : list Z → bool;
  socket_makes f t p w : let '(fd, w') := sys_socket f t p w in
    if makes f t p
    then (0 ≤ fd)%Z ∧ descriptors w !! fd = None ∧ descriptors w' = <[fd := None]> (descriptors w)
    else fd = (-1)%Z ∧ descriptors w' = descriptors w;
  connect_accepts fd a w : let '(rc, w') := sys_connect fd a w in
    if accepts a then rc = 0%Z ∧ descriptors w' = <[fd := Some a]> (descriptors w)
    else rc ≠ 0%Z ∧ descriptors w' = descriptors w;
  close_ends fd w : descriptors (sys_close fd w) = delete fd (descriptors w);
  getaddrinfo_quiet h p w : descriptors (snd (sys_getaddrinfo h p w)) = descriptors w;
  freeaddrinfo_quiet l w : descriptors (sys_freeaddrinfo l w) = descriptors w;
  nodelay_quiet fd w : descriptors (snd (sys_set_nodelay fd w)) = descriptors w;
  nonblock_quiet fd w : descriptors (sys_set_nonblock fd w) = descriptors w
}.

(** The TLS library works on the descriptor it is given, and neither opens
    nor closes one. *)
Class QuietTLS (W : Type) `{Network W, OpenSSL W} : Prop := {
  ctx_new_quiet w : descriptors (snd (ssl_ctx_new w)) = descriptors w;
  new_quiet c w : descriptors (snd (ssl_new c w)) = descriptors w;
  host_name_quiet p h w : descriptors (ssl_set_host_name p h w) = descriptors w;
  get_fd_quiet p w : descriptors (snd (ssl_get_fd p w)) = descriptors w;
  set_fd_quiet p fd w : descriptors (ssl_set_fd p fd w) = descriptors w;
  ssl_connect_quiet p w : descriptors (snd (ssl_connect p w)) = descriptors w;
  error_quiet w : descriptors (snd (err_get_error w)) = descriptors w
}.

Section Dial.
Context {W : Type} `{Network W}.

Definition makeable (a : addrinfo) : bool :=
  makes (ai_family a) (ai_socktype a) (ai_protocol a).

Definition reachable (a : addrinfo) : bool := makeable a && accepts (ai_addr a).

(** The addresses before the first for which no socket can be made. *)
Fixpoint made_first (addrs : list addrinfo) : list addrinfo :=
  match addrs with
  | [] => []
  | a :: addrs' => if makeable a then a :: made_first addrs' else []
  end.

(** [fd] is a new descriptor, connected to [a]; the others are open, closed and
    connected as they were. *)
Definition connected_to (a : addrinfo) (fd : Z) (y y' : Sys W) : Prop :=
  (0 ≤ fd)%Z ∧ descriptors (env y) !! fd = None ∧
  descriptors (env y') = <[fd := Some (ai_addr a)]> (descriptors (env y)).

(** One turn of either loop. *)
Lemma attempt a w :
  let '(fd, w1) := sys_socket (ai_family a) (ai_socktype a) (ai_protocol a) w in
  if makeable a then
    (0 ≤ fd)%Z ∧ descriptors w !! fd = None ∧
    let '(rc, w2) := sys_connect fd (ai_addr a) (snd (sys_set_nodelay fd w1)) in
    if accepts (ai_addr a) then rc = 0%Z ∧ descriptors w2 = <[fd := Some (ai_addr a)]> (descriptors w)
    else rc ≠ 0%Z ∧ descriptors (sys_close fd w2) = descriptors w
  else fd = (-1)%Z ∧ descriptors w1 = descriptors w.
Proof.
  pose proof (socket_makes (ai_family a) (ai_socktype a) (ai_protocol a) w) as Hs.
  fold (makeable a) in Hs. destruct (sys_socket _ _ _ w) as [fd w1].
  destruct (makeable a); [|done]. destruct Hs as (Hfd & Hnew & Hp). split; [done|]. split; [done|].
  pose proof (connect_accepts fd (ai_addr a) (snd (sys_set_nodelay fd w1))) as Hc.
  destruct (sys_connect _ _ _) as [rc w2]. rewrite nodelay_quiet, Hp in Hc.
  destruct (accepts (ai_addr a)), Hc as [Hrc Hc]; (split; [done|]).
  - by rewrite Hc, insert_insert_eq.
  - by rewrite close_ends, Hc, delete_insert_id.
Qed.

Lemma tcp_dials addrs s (y : Sys W) :
  match find reachable addrs with
  | Some a => ∃ fd y', SocketWrapper.try_addrs addrs (s, y)
      = (Ok true, (SocketWrapper.set_sockfd fd s, y')) ∧ connected_to a fd y y'
  | None => ∃ s' y', SocketWrapper.try_addrs addrs (s, y) = (Ok false, (s', y')) ∧
      descriptors (env y') = descriptors (env y)
  end.
Proof.
  revert s y. induction addrs as [|a addrs IH]; intros s y; [by exists s, y|].
  cbn [SocketWrapper.try_addrs find].
  unfold call, call_unit, update_self, acquire, release, modify, mret, M_ret, mbind, M_bind.
  pose proof (attempt a (env y)) as Ha. unfold reachable at 1.
  destruct (sys_socket _ _ _ (env y)) as [fd w].
  destruct (makeable a); cbn [andb] in *.
  - destruct Ha as (Hfd & Hnew & Ha). destruct (Z.eqb_spec fd (-1)); [lia|]. cbn [env held].
    destruct (sys_set_nodelay fd w) as [r1 w1]. cbn [snd env held] in *.
    destruct (sys_connect fd _ w1) as [rc w2]. cbn [env held].
    destruct (accepts (ai_addr a)), Ha as [Hrc Hp].
    + subst rc. by do 2 eexists.
    + destruct (Z.eqb_spec rc 0); [done|].
      match goal with |- context [SocketWrapper.try_addrs addrs (?s1, ?y1)] =>
        specialize (IH s1 y1) end.
      unfold connected_to in *. cbn [env] in IH. by rewrite Hp in IH.
  - destruct Ha as [-> Hp]. cbn [Z.eqb Pos.eqb].
    match goal with |- context [SocketWrapper.try_addrs addrs (?s1, ?y1)] =>
      specialize (IH s1 y1) end.
    unfold connected_to in *. cbn [env] in IH. by rewrite Hp in IH.
Qed.

Lemma tls_dials `{OpenSSL W} addrs s (y : Sys W) :
  SSLSocketWrapper.m_sockfd s = (-1)%Z →
  match find reachable (made_first addrs) with
  | Some a => ∃ fd y', SSLSocketWrapper.try_addrs addrs (s, y)
      = (Ok tt, (SSLSocketWrapper.set_sockfd fd s, y')) ∧ connected_to a fd y y'
  | None => ∃ s' y', SSLSocketWrapper.try_addrs addrs (s, y) = (Ok tt, (s', y')) ∧
      SSLSocketWrapper.m_sockfd s' = (-1)%Z ∧ descriptors (env y') = descriptors (env y)
  end.
Proof.
  revert s y. induction addrs as [|a addrs IH]; intros s y Hs; [by exists s, y|].
  cbn [SSLSocketWrapper.try_addrs made_first].
  unfold call, call_unit, update_self, acquire, release, modify, mret, M_ret, mbind, M_bind.
  pose proof (attempt a (env y)) as Ha.
  destruct (sys_socket _ _ _ (env y)) as [fd w].
  destruct (makeable a) eqn:Hm; cbn [find] in *.
  - unfold reachable at 1. rewrite Hm. cbn [andb].
    destruct Ha as (Hfd & Hnew & Ha). destruct (Z.eqb_spec fd (-1)); [lia|]. cbn [env held].
    destruct (sys_set_nodelay fd w) as [r1 w1]. cbn [snd env held] in *.
    destruct (sys_connect fd _ w1) as [rc w2]. cbn [env held].
    destruct (accepts (ai_addr a)), Ha as [Hrc Hp].
    + subst rc. by do 2 eexists.
    + destruct (Z.eqb_spec rc 0); [done|].
      match goal with |- context [SSLSocketWrapper.try_addrs addrs (?s1, ?y1)] =>
        specialize (IH s1 y1 eq_refl) end.
      unfold connected_to in *. cbn [env] in IH. by rewrite Hp in IH.
  - destruct Ha as [-> Hp]. by do 2 eexists.
Qed.

Lemma get_ssl_error_quiet `{QuietTLS W} n out (x : SSLSocketWrapper.t * Sys W) :
  match SSLSocketWrapper.get_ssl_error_loop n out x with
  | (Ok _, (_, y')) | (OutOfFuel, (_, y')) => descriptors (env y') = descriptors (env (snd x))
  | _ => False
  end.
Proof.
  revert out x. induction n as [|n IH]; intros out [s y]; [done|].
  cbn [SSLSocketWrapper.get_ssl_error_loop]. unfold call, mbind, M_bind.
  pose proof (error_quiet (env y)) as He. destruct (err_get_error (env y)) as [e w].
  destruct (i32 e =? 0)%Z; [exact He|].
  match goal with |- context [SSLSocketWrapper.get_ssl_error_loop n ?o ?x] =>
    specialize (IH o x) end.
  cbn [snd env] in *. by rewrite He in IH.
Qed.

(** What both constructors do before a TLS session is tried: they throw one
    of these two exceptions, having opened nothing. *)
Definition not_connected (rc : Z) (chosen : option addrinfo) (ex : string → exn) (e : exn) : Prop :=
  if (rc =? 0)%Z then chosen = None ∧ e = ex "Failed to connect to server."
  else e = ex (sys_gai_strerror rc).

Definition tcp_constructed (rc : Z) (chosen : option addrinfo) (y : Sys W)
    (r : outcome SocketWrapper.t * Sys W) : Prop :=
  match r with
  | (Ok s, y') => rc = 0%Z ∧
      ∃ a, chosen = Some a ∧ connected_to a (SocketWrapper.m_sockfd s) y y'
  | (Throw e, y') => not_connected rc chosen SocketWrapperException e ∧
      descriptors (env y') = descriptors (env y)
  | _ => False
  end.

(** A TLS session that fails leaves its descriptor open and connected. *)
Definition tls_constructed (rc : Z) (chosen : option addrinfo) (y : Sys W)
    (r : outcome SSLSocketWrapper.t * Sys W) : Prop :=
  match r with
  | (Ok s, y') => rc = 0%Z ∧
      ∃ a, chosen = Some a ∧ connected_to a (SSLSocketWrapper.m_sockfd s) y y'
  | (Throw e, y') =>
      not_connected rc chosen SSLSocketWrapperException e ∧ descriptors (env y') = descriptors (env y) ∨
      rc = 0%Z ∧ ∃ a fd, chosen = Some a ∧ connected_to a fd y y'
  | (OutOfFuel, y') => rc = 0%Z ∧ ∃ a fd, chosen = Some a ∧ connected_to a fd y y'
  | (UB _, _) => False
  end.

Lemma tcp_construct_dials host port (y : Sys W) rc addrs w :
  sys_getaddrinfo host (to_string port) (env y) = ((rc, addrs), w) →
  tcp_constructed rc (find reachable addrs) y (SocketWrapper.construct host port y).
Proof.
  intros Hr. pose proof (getaddrinfo_quiet host (to_string port) (env y)) as Hq.
  unfold SocketWrapper.construct, SocketWrapper.connect.
  unfold self, gets, call, acquire, mret, M_ret, mbind, M_bind. cbn [fst snd].
  cbn [SocketWrapper.m_port SocketWrapper.m_host]. rewrite Hr in *. cbn [snd] in Hq.
  unfold tcp_constructed, not_connected.
  destruct (Z.eqb_spec rc 0) as [->|Hrc]; cbn [negb]; [|done]. cbn [env held].
  pose proof (tcp_dials addrs (SocketWrapper.mk host (Some port) (-1) [])
    (mkSys w (Addrs :: held y))) as Hd. unfold connected_to in *. cbn [env] in Hd.
  destruct (find reachable addrs) as [a|].
  - destruct Hd as (fd & y1 & -> & Hfd & Hnew & Hp). unfold call_unit, release.
    cbn [env held orb negb fst SocketWrapper.m_sockfd SocketWrapper.set_sockfd].
    destruct (Z.eqb_spec fd (-1)); [lia|]. cbn [env SocketWrapper.m_sockfd].
    rewrite nonblock_quiet, freeaddrinfo_quiet, Hp, <-Hq. split; [done|]. by exists a.
  - destruct Hd as (s' & y1 & -> & Hp). unfold call_unit, release.
    cbn. by rewrite freeaddrinfo_quiet, Hp, Hq.
Qed.

(** The rest of the constructor of the TLS socket changes no connection. *)
Lemma tls_construct_dials `{!OpenSSL W, !QuietTLS W} fuel host port (y : Sys W) rc addrs w :
  sys_getaddrinfo host (to_string port) (env y) = ((rc, addrs), w) →
  tls_constructed rc (find reachable (made_first addrs)) y
    (SSLSocketWrapper.construct fuel host port y).
Proof.
  intros Hr. pose proof (getaddrinfo_quiet host (to_string port) (env y)) as Hq.
  unfold SSLSocketWrapper.construct, SSLSocketWrapper.connect.
  unfold self, gets, call, call_unit, acquire, update_self, modify, mret, M_ret,
    mbind, M_bind, throw. cbn [fst snd].
  cbn [SSLSocketWrapper.m_port SSLSocketWrapper.m_host]. rewrite Hr in *. cbn [snd] in Hq.
  unfold tls_constructed, not_connected.
  destruct (Z.eqb_spec rc 0) as [->|Hrc]; cbn [negb]; [|by left]. cbn [env held].
  pose proof (tls_dials addrs (SSLSocketWrapper.mk host (Some port) (-1) (-1) None None [])
    (mkSys w (Addrs :: held y)) eq_refl) as Hd. unfold connected_to in *. cbn [env] in Hd.
  destruct (find reachable (made_first addrs)) as [a|].
  2: { destruct Hd as (s' & y1 & -> & Hfd & Hp). cbn [fst]. rewrite Hfd. cbn.
       left. by rewrite Hp, Hq. }
  destruct Hd as (fd & y1 & -> & Hfd & Hnew & Hp). rewrite Hq in Hnew, Hp.
  cbn [SSLSocketWrapper.m_sockfd SSLSocketWrapper.set_sockfd fst].
  destruct (Z.eqb_spec fd (-1)); [lia|].
  pose proof (ctx_new_quiet (env y1)) as Hc. destruct (ssl_ctx_new (env y1)) as [ctx w2].
  cbn [snd] in Hc. rewrite Hp in Hc. cbn [env held].
  destruct ctx as [c|]; cbn [env held].
  all: match goal with |- context [ssl_new ?o ?w] =>
    pose proof (new_quiet o w) as Hn; destruct (ssl_new o w) as [[p|] w3] end;
    cbn [snd] in Hn; rewrite Hc in Hn; cbn [env held fst];
    [|right; split; [done|]; by exists a, fd].
  all: pose proof (get_fd_quiet p (ssl_set_host_name p host w3)) as Hg;
    destruct (ssl_get_fd p _) as [sfd w4]; rewrite host_name_quiet, Hn in Hg;
    cbn [env held fst snd] in *.
  all: pose proof (ssl_connect_quiet p (ssl_set_fd p fd w4)) as Hs.
  all: destruct (ssl_connect p _) as [r w5]; rewrite set_fd_quiet, Hg in Hs;
    cbn [env held fst snd] in *; destruct (r <=? 0)%Z.
  1,3: unfold SSLSocketWrapper.get_ssl_error;
    match goal with |- context [SSLSocketWrapper.get_ssl_error_loop ?n ?o ?x] =>
      pose proof (get_ssl_error_quiet n o x) as He end;
    destruct (SSLSocketWrapper.get_ssl_error_loop _ _ _) as [[m|e|u|] [s2 y2]]; try done;
    cbn [snd env] in He; rewrite Hs in He; [right|]; split; [done| |done|]; by exists a, fd.
  all: cbn; rewrite nonblock_quiet, freeaddrinfo_quiet, Hs; split; [done|]; by exists a.
Qed.

(** C31: the address. In every network the constructor of the plain socket
    ends connected to the first resolved address for which a socket can be made
    and which accepts, and the TLS socket to the first that accepts among those
    before any address for which no socket can be made. The descriptor is new,
    every other one that was made is closed again, and the descriptors that were
    open before are as they were. If there is no such address, or the name is not resolved, the
    constructor throws, and the descriptors open are those that were; only a TLS
    session that fails leaves its descriptor open, connected. *)
Theorem connects_to_first_reachable `{!OpenSSL W, !QuietTLS W} (fuel : nat)
    (host : string) (port : Z) (y : Sys W) (rc : Z) (addrs : list addrinfo) (w : W) :
  sys_getaddrinfo host (to_string port) (env y) = ((rc, addrs), w) →
  tcp_constructed rc (find reachable addrs) y (SocketWrapper.construct host port y) ∧
  tls_constructed rc (find reachable (made_first addrs)) y
    (SSLSocketWrapper.construct fuel host port y).
Proof.
  intros Hr. split; [by eapply tcp_construct_dials|by eapply tls_construct_dials].
Qed.
End Dial.

(** ** A network: its state is the table of descriptors *)

Definition lines : Type := gmap Z (option (list Z)).

Definition next_fd (w : lines) : Z :=
  Z.of_nat (fresh (set_map Z.to_nat (dom w) : gset nat)).

Lemma next_fd_new w : w !! next_fd w = None.
Proof.
  unfold next_fd. set (X := set_map Z.to_nat (dom w) : gset nat).
  apply not_elem_of_dom. intros Hin.
  apply (is_fresh X), elem_of_map. eexists. split; [|exact Hin]. lia.
Qed.

Definition closed_host : addrinfo := AddrInfo 2 1 6 [10; 0; 0; 1]%Z.
Definition open_host : addrinfo := AddrInfo 2 1 6 [10; 0; 0; 2]%Z.
Definition other_host : addrinfo := AddrInfo 2 1 6 [10; 0; 0; 3]%Z.
Definition strange_host : addrinfo := AddrInfo 99 1 6 [10; 0; 0; 4]%Z.

(** Only sockets of family [AF_INET] can be made; [closed_host] refuses. *)
#[local] Instance lines_OS : OS lines := {
  sys_getaddrinfo host _ w :=
    ((0%Z, if bool_decide (host = "mixed")
           then [closed_host; strange_host; open_host; other_host]
           else [closed_host; open_host; other_host]), w);
  sys_gai_strerror _ := "name resolution failed";
  sys_freeaddrinfo _ w := w;
  sys_socket f _ _ w :=
    if (f =? AF_INET)%Z then (next_fd w, <[next_fd w := None]> w) else ((-1)%Z, w);
  sys_set_nodelay _ w := (0%Z, w);
  sys_connect fd a w :=
    if bool_decide (a = ai_addr closed_host) then ((-1)%Z, w) else (0%Z, <[fd := Some a]> w);
  sys_set_nonblock _ w := w;
  sys_close fd w := delete fd w;
  sys_send _ _ w := ((-1, 32)%Z, w);
  sys_recv _ _ w := (RecvError EAGAIN, w);
  sys_clock w := ((0, 0)%Z, w);
  sys_sleep_ms _ w := w;
  sys_cout _ w := w
}.

#[local] Instance lines_OpenSSL : OpenSSL lines := {
  ssl_ctx_new w := (Some 1%Z, w);
  ssl_ctx_free _ w := w;
  ssl_new _ w := (Some 2%Z, w);
  ssl_free _ w := w;
  ssl_shutdown _ w := w;
  ssl_set_host_name _ _ w := w;
  ssl_get_fd _ w := ((-1)%Z, w);
  ssl_set_fd _ _ w := w;
  ssl_connect _ w := (1%Z, w);
  ssl_write _ _ w := ((-1)%Z, w);
  ssl_get_error _ _ w := (5%Z, w);
  ssl_read_ex _ _ w := ([], w);
  err_get_error w := (0%Z, w);
  err_error_string _ := None
}.

#[local, refine] Instance lines_Network : Network lines := {
  descriptors w := w;
  makes f _ _ := (f =? AF_INET)%Z;
  accepts a := negb (bool_decide (a = ai_addr closed_host))
}.
Proof.
  - intros f t p w. cbn. destruct (f =? AF_INET)%Z; [|done].
    split; [unfold next_fd; lia|]. split; [apply next_fd_new|done].
  - intros fd a w. cbn. by case_bool_decide.
  - done.
  - done.
  - done.
  - done.
  - done.
Defined.

#[local] Instance lines_QuietTLS : QuietTLS lines.
Proof. done. Qed.

(** The plain socket passes over the address it cannot make a socket for, and
    the TLS socket stops there. *)
Lemma connects_to_first_reachable_witness :
  (∃ s y', SocketWrapper.construct "mixed" 80 (mkSys (W:=lines) ∅ []) = (Ok s, y') ∧
     env y' = {[ SocketWrapper.m_sockfd s := Some (ai_addr open_host) ]}) ∧
  (∃ e y', SSLSocketWrapper.construct 1 "mixed" 443 (mkSys (W:=lines) ∅ []) = (Throw e, y') ∧
     env y' = ∅) ∧
  (∃ s y', SSLSocketWrapper.construct 1 "plain" 443 (mkSys (W:=lines) ∅ []) = (Ok s, y') ∧
     env y' = {[ SSLSocketWrapper.m_sockfd s := Some (ai_addr open_host) ]}).
Proof.
  split_and!.
  - pose proof (connects_to_first_reachable 1 "mixed" 80 (mkSys (W:=lines) ∅ []) _ _ _ eq_refl)
      as [H _].
    destruct (SocketWrapper.construct _ _ _) as [[s|e|u|] y'] eqn:E;
      [|vm_compute in E; discriminate..].
    destruct H as (_ & a & Ha & _ & _ & Hp). injection Ha as <-.
    exists s, y'. split; [reflexivity|exact Hp].
  - pose proof (connects_to_first_reachable 1 "mixed" 443 (mkSys (W:=lines) ∅ []) _ _ _ eq_refl)
      as [_ H].
    destruct (SSLSocketWrapper.construct _ _ _ _) as [[s|e|u|] y'] eqn:E;
      [vm_compute in E; discriminate| |vm_compute in E; discriminate..].
    destruct H as [[_ Hp]|(_ & a & fd & Ha & _)]; [|discriminate].
    exists e, y'. split; [reflexivity|exact Hp].
  - pose proof (connects_to_first_reachable 1 "plain" 443 (mkSys (W:=lines) ∅ []) _ _ _ eq_refl)
      as [_ H].
    destruct (SSLSocketWrapper.construct _ _ _ _) as [[s|e|u|] y'] eqn:E;
      [|vm_compute in E; discriminate..].
    destruct H as (_ & a & Ha & _ & _ & Hp). injection Ha as <-.
    exists s, y'. split; [reflexivity|exact Hp].
Defined.
End Dial.
