(* ===== verification/SocketStream.v ===== *)
(** Sockets that account for their bytes: the interface [SocketStream], against
    which the client's protocol is proved, and its two instances, for an
    operating system and a TLS library that account for theirs. *)

From S2P Require Import Prelude Buffer Sys Sockets SocketSpec SocketProps.

Class SocketStream (St W : Type) `{OS W, SocketType St W} : Type := {
  (** the bytes handed to the program, and taken from it, so far *)
  got : St → W → list Z;
  put : St → W → list Z;
  (** what the peer has sent and no read has returned yet *)
  ahead : St → W → list Z;
  (** requests below this size are always sent or refused *)
  send_limit : Z;
  stream_read_into n s b y :
    0 < n → FrameBuffer.wf b →
    match st_read_into n (s, b, y) with
    | (Ok new_data, (s', b', y')) => ∃ c,
        FrameBuffer.extended b c b' ∧ bytes_ok c ∧ new_data = negb (length c =? 0) ∧
        got s' (env y') = got s (env y) ++ c ∧ put s' (env y') = put s (env y) ∧
        ahead s (env y) `prefix_of` c ++ ahead s' (env y') ∧
        (c = [] → ahead s (env y) = [])
    | (Throw _, (s', b', y')) =>
        FrameBuffer.extended b [] b' ∧
        got s' (env y') = got s (env y) ∧ put s' (env y') = put s (env y)
    | _ => False
    end;
  stream_send req s y :
    (Z.of_nat (length req) < send_limit)%Z →
    match st_send req (s, y) with
    | (Ok _, (s', y')) =>
        got s' (env y') = got s (env y) ∧ put s' (env y') = put s (env y) ++ req ∧
        ahead s (env y) `prefix_of` ahead s' (env y')
    | (Throw _, (s', y')) =>
        got s' (env y') = got s (env y) ∧
        (∃ k, k < length req ∧ put s' (env y') = put s (env y) ++ take k req) ∧
        ahead s (env y) `prefix_of` ahead s' (env y')
    | _ => False
    end;
  stream_read n s y :
    0 < n →
    match st_read n (s, y) with
    | (Ok bs, (s', y')) => bytes_ok bs ∧
        got s' (env y') = got s (env y) ++ bs ∧ put s' (env y') = put s (env y) ∧
        ahead s (env y) `prefix_of` bs ++ ahead s' (env y')
    | (Throw _, (s', y')) =>
        got s' (env y') = got s (env y) ∧ put s' (env y') = put s (env y)
    | _ => False
    end;
  stream_clock s w :
    got s (snd (sys_clock w)) = got s w ∧ put s (snd (sys_clock w)) = put s w ∧
    ahead s w `prefix_of` ahead s (snd (sys_clock w));
  stream_sleep s ms w :
    got s (sys_sleep_ms ms w) = got s w ∧ put s (sys_sleep_ms ms w) = put s w ∧
    ahead s w `prefix_of` ahead s (sys_sleep_ms ms w);
  stream_cout s text w :
    got s (sys_cout text w) = got s w ∧ put s (sys_cout text w) = put s w ∧
    ahead s w `prefix_of` ahead s (sys_cout text w);
  stream_destroy s (y : Sys W) : runs st_destroy (s, y) (λ _ _, True)
}.

(** ** The plain socket *)

Section TCP.
Context {W : Type} `{OSLaws W, !SendLaws W, !RecvLaws W} (fuel : nat).

Lemma tcp_send_only_sends n buf (a b : Z) s (y : Sys W) :
  match SocketWrapper.send_loop n buf a b (s, y) with
  | ((Ok _ | Throw _), (s', y')) => s' = s ∧
      delivered (SocketWrapper.m_sockfd s) (env y')
      = delivered (SocketWrapper.m_sockfd s) (env y) ∧
      waiting (SocketWrapper.m_sockfd s) (env y)
      `prefix_of` waiting (SocketWrapper.m_sockfd s) (env y')
  | _ => True
  end.
Proof.
  revert a b y. induction n as [|n IH]; intros a b y; [done|].
  rewrite tcp_send_step. destruct (a >? 0)%Z; [|done].
  destruct (sys_send _ _ (env y)) as [[ret errno] w] eqn:Hw.
  apply send_delivers in Hw as [Hd Hp]. destruct (ret <? 0)%Z; [done|].
  specialize (IH (i32 (a - ret)) (i32 (b + ret)) (mkSys w (held y))).
  destruct (SocketWrapper.send_loop _ _ _ _ _) as [[] [s' y']]; try done;
    (destruct IH as (-> & IH & IHp); split_and!; [done|by rewrite IH|by etrans]).
Qed.

Lemma tcp_disconnect_runs s (y : Sys W) :
  runs SocketWrapper.disconnect (s, y) (λ _ _, True).
Proof.
  unfold SocketWrapper.disconnect, self, gets, mbind, M_bind, when, runs. cbn [fst].
  case_match; by do 2 eexists.
Qed.

#[export, refine] Instance TCP_Stream :
    @SocketStream SocketWrapper.t W _ (TCP_SocketType fuel) := {
  got s := delivered (SocketWrapper.m_sockfd s);
  put s := accepted (SocketWrapper.m_sockfd s);
  ahead s := waiting (SocketWrapper.m_sockfd s);
  send_limit := Z.min (2 ^ 31) (Z.of_nat fuel)
}.
Proof.
  - intros n s b y Hn Hw. cbn [st_read_into TCP_SocketType].
    pose proof (tcp_read_into_eq n s b y Hn Hw) as He.
    destruct (sys_recv _ n (env y)) as [r w] eqn:Hr. destruct He as (b' & Hb & ->).
    pose proof (recv_delivers _ _ _ _ _ Hr) as [Hd Ha].
    pose proof (recv_waiting _ _ _ _ _ Hn Hr) as Hq. destruct r as [e|bs]; cbn in *.
    + rewrite app_nil_r in Hd. destruct ((e =? EAGAIN) || (e =? EWOULDBLOCK))%Z eqn:He; [|done].
      apply orb_true_iff in He. rewrite !Z.eqb_eq in He. specialize (Hq He).
      exists []. rewrite app_nil_r. split_and!; try done; [constructor|].
      rewrite Hq. apply prefix_nil.
    + apply recv_fits in Hr as [_ Hbs]. destruct Hq. by exists bs.
  - intros req s y Hl. cbn [st_send TCP_SocketType].
    pose proof (SocketProps.tcp_send_sends fuel req s y ltac:(lia) ltac:(lia)) as Hs.
    pose proof (tcp_send_only_sends fuel req (i32 (Z.of_nat (length req))) 0 s y) as Hk.
    unfold SocketWrapper.send in *. unfold sent_from in Hs. rewrite drop_0 in Hs.
    destruct (SocketWrapper.send_loop _ _ _ _ _) as [[n|e|u|] [s' y']]; try done.
    + cbn [fst snd] in Hs. destruct Hk as (-> & Hk & Hq). by destruct Hs.
    + cbn [fst snd] in Hs. destruct Hk as (-> & Hk & Hq).
      destruct Hs as (k & ? & ?). split_and!; [done|by exists k|done].
  - intros n s y Hn. cbn [st_read TCP_SocketType].
    unfold SocketWrapper.read, self, update_self, call, gets, modify, mret, M_ret,
      mbind, M_bind. cbn.
    destruct (sys_recv (SocketWrapper.m_sockfd s) n (env y)) as [r w] eqn:Hr.
    pose proof (recv_delivers _ _ _ _ _ Hr) as [Hd Ha].
    pose proof (recv_waiting _ _ _ _ _ Hn Hr) as Hq. destruct r as [e|bs]; cbn.
    + rewrite app_nil_r in Hd.
      destruct ((e =? EAGAIN) || (e =? EWOULDBLOCK))%Z eqn:He; cbn; [|done].
      apply orb_true_iff in He. rewrite !Z.eqb_eq in He. specialize (Hq He).
      rewrite app_nil_r. split_and!; [constructor|done..|]. rewrite Hq. apply prefix_nil.
    + destruct Hq. by apply recv_fits in Hr as [_ Hb].
  - intros s w. apply clock_delivers.
  - intros s ms w. apply sleep_delivers.
  - intros s text w. apply cout_delivers.
  - apply tcp_disconnect_runs.
Defined.
End TCP.

(** ** The TLS socket *)

Section TLS.
Context {W : Type} `{OS W} `{OpenSSLLaws W, !SSLSendLaws W, !SSLWriteLaws W, !SSLReadLaws W} (fuel : nat).

Lemma tls_send_only_sends n buf (a b : Z) s (y : Sys W) :
  match SSLSocketWrapper.send_loop n buf a b (s, y) with
  | ((Ok _ | Throw _), (s', y')) => s' = s ∧
      ssl_delivered (SSLSocketWrapper.m_ssl s) (env y')
      = ssl_delivered (SSLSocketWrapper.m_ssl s) (env y) ∧
      ssl_waiting (SSLSocketWrapper.m_ssl s) (env y)
      `prefix_of` ssl_waiting (SSLSocketWrapper.m_ssl s) (env y')
  | _ => True
  end.
Proof.
  revert a b y. induction n as [|n IH]; intros a b y; [done|].
  rewrite ssl_send_step. destruct (a >? 0)%Z; [|done].
  destruct (ssl_write _ _ (env y)) as [len w] eqn:Hw.
  apply write_delivers in Hw as [Hd Hp]. destruct (len <? 0)%Z.
  { destruct (ssl_get_error _ _ _) as [err w'] eqn:He.
    apply get_error_delivers in He as [Hd' Hp'].
    cbn [env]. split_and!; [done|by rewrite Hd'|by etrans]. }
  specialize (IH (i32 (a - len)) (i32 (b + len)) (mkSys w (held y))).
  destruct (SSLSocketWrapper.send_loop _ _ _ _ _) as [[] [s' y']]; try done;
    (destruct IH as (-> & IH & IHp); split_and!; [done|by rewrite IH|by etrans]).
Qed.

Lemma tls_disconnect_runs s (y : Sys W) :
  runs SSLSocketWrapper.disconnect (s, y) (λ _ _, True).
Proof.
  unfold SSLSocketWrapper.disconnect, self, gets, mbind, M_bind, runs. cbn [fst].
  destruct (negb (SSLSocketWrapper.m_sockfd s <? 0)%Z), (SSLSocketWrapper.m_ctx s),
    (SSLSocketWrapper.m_ssl s); cbn; eauto.
Qed.

#[export, refine] Instance TLS_Stream :
    @SocketStream SSLSocketWrapper.t W _ (SSL_SocketType fuel) := {
  got s := ssl_delivered (SSLSocketWrapper.m_ssl s);
  put s := ssl_accepted (SSLSocketWrapper.m_ssl s);
  ahead s := ssl_waiting (SSLSocketWrapper.m_ssl s);
  send_limit := Z.min (2 ^ 31) (Z.of_nat fuel)
}.
Proof.
  - intros n s b y Hn Hw. cbn [st_read_into SSL_SocketType].
    pose proof (ssl_read_into_eq n s b y Hn Hw) as He.
    destruct (ssl_read_ex _ n (env y)) as [bs w] eqn:Hr. destruct He as (b' & Hb & ->).
    pose proof (read_ex_delivers _ _ _ _ _ Hr) as [Hd Ha].
    pose proof (read_ex_waiting _ _ _ _ _ Hn Hr) as [Hq Hq'].
    apply read_ex_fits in Hr as [_ Hbs]. by exists bs.
  - intros req s y Hl. cbn [st_send SSL_SocketType].
    pose proof (SocketProps.tls_send_sends fuel req s y ltac:(lia) ltac:(lia)) as Hs.
    pose proof (tls_send_only_sends fuel req (i32 (Z.of_nat (length req))) 0 s y) as Hk.
    unfold SSLSocketWrapper.send in *. unfold sent_from in Hs. rewrite drop_0 in Hs.
    destruct (SSLSocketWrapper.send_loop _ _ _ _ _) as [[n|e|u|] [s' y']]; try done.
    + cbn [fst snd] in Hs. destruct Hk as (-> & Hk & Hq). by destruct Hs.
    + cbn [fst snd] in Hs. destruct Hk as (-> & Hk & Hq).
      destruct Hs as (k & ? & ?). split_and!; [done|by exists k|done].
  - intros n s y Hn. cbn [st_read SSL_SocketType].
    unfold SSLSocketWrapper.read, self, update_self, call, gets, modify, mret, M_ret,
      mbind, M_bind. cbn.
    destruct (ssl_read_ex (SSLSocketWrapper.m_ssl s) n (env y)) as [bs w] eqn:Hr.
    pose proof (read_ex_delivers _ _ _ _ _ Hr) as [Hd Ha].
    pose proof (read_ex_waiting _ _ _ _ _ Hn Hr) as [Hq _].
    by apply read_ex_fits in Hr as [_ Hb].
  - intros s w. apply ssl_clock_delivers.
  - intros s ms w. apply ssl_sleep_delivers.
  - intros s text w. apply ssl_cout_delivers.
  - apply tls_disconnect_runs.
Defined.
End TLS.
