(* ===== verification/Handshake.v ===== *)
(** The opening handshake (include/fastws/handshake.hpp): the random key and
    its Base64 form, and the text of the upgrade request. Strings are lists of
    bytes. The random numbers and OpenSSL's BIOs are outside: they are operations
    of the class [Entropy]. How the key's Base64 form is made of them is the
    code's; what each of the BIO operations does is documented, and stated as
    the class [BIOLaws], with the encoding of RFC 4648 as its reference. *)

From S2P Require Import Prelude Sys World.
From stdpp Require Import pretty.

(** The bytes of a literal. *)
Fixpoint str (s : string) : list Z :=
  match s with
  | EmptyString => []
  | String c s' => Z.of_nat (Ascii.nat_of_ascii c) :: str s'
  end.

Definition CRLF : list Z := [13; 10]%Z.

(** [s.find(pat) != npos]. *)
Fixpoint starts_with (pat s : list Z) : bool :=
  match pat, s with
  | [], _ => true
  | p :: pat', c :: s' => (p =? c)%Z && starts_with pat' s'
  | _ :: _, [] => false
  end.

Fixpoint contains (pat s : list Z) : bool :=
  starts_with pat s || match s with [] => false | _ :: s' => contains pat s' end.

Class Entropy (W : Type) : Type := {
  (** what [uniform_int_distribution<uint64_t>] draws next from the
      process-wide generator of [wsframe::device_random] *)
  next_u64 : W → Z * W;
  (** [std::random_device rd; rd()] *)
  random_device : W → Z * W;
  (** the [n]-th number [uniform_int_distribution(0, 255)] draws from
      [std::mt19937] seeded with the first argument *)
  uniform_byte : Z → nat → Z;
  (** a [BIO], or a chain of them *)
  BIO : Type;
  (** [BIO_new(BIO_f_base64())] and [BIO_new(BIO_s_mem())] *)
  BIO_new_f_base64 : BIO;
  BIO_new_s_mem : BIO;
  BIO_set_flags : BIO → Z → BIO;
  BIO_push : BIO → BIO → BIO;
  (** a buffer and the number of its bytes to write *)
  BIO_write : BIO → list Z → Z → Z * BIO;
  BIO_flush : BIO → Z * BIO;
  (** the [data] and [length] of the memory buffer *)
  BIO_get_mem_ptr : BIO → list Z
}.

Definition BIO_FLAGS_BASE64_NO_NL : Z := 256.

Section Handshake.
Context {S W : Type} `{Entropy W}.

(** [wsframe::device_random()]. *)
Definition device_random : M (S * Sys W) Z :=
  z ← call next_u64; mret (u64 z).

(** The second half of [generate_sec_websocket_key]: the results of the write
    and the flush are ignored; [BIO_free_all] afterwards only releases memory. *)
Definition bio_base64 (randomBytes : list Z) : list Z :=
  let b64 := BIO_new_f_base64 in
  let b64 := BIO_set_flags b64 BIO_FLAGS_BASE64_NO_NL in
  let mem := BIO_new_s_mem in
  let b64 := BIO_push b64 mem in
  let '(_, b64) := BIO_write b64 randomBytes (i32 (Z.of_nat (length randomBytes))) in
  let '(_, b64) := BIO_flush b64 in
  BIO_get_mem_ptr b64.

Definition generate_sec_websocket_key : M (S * Sys W) (list Z) :=
  seed ← call random_device;
  let randomBytes := map (λ i, u8 (uniform_byte seed i)) (seq 0 16) in
  mret (bio_base64 randomBytes).

Definition build_websocket_handshake_request
    (host path key extra_headers : list Z) : list Z :=
  (str "GET " ++ path ++ str " HTTP/1.1" ++ CRLF)
  ++ (str "Host: " ++ host ++ CRLF)
  ++ (str "Upgrade: websocket" ++ CRLF)
  ++ (str "Connection: Upgrade" ++ CRLF)
  ++ (str "Sec-WebSocket-Key: " ++ key ++ CRLF)
  ++ (str "Sec-WebSocket-Version: 13" ++ CRLF)
  ++ extra_headers
  ++ CRLF.
End Handshake.

(** ** Searching *)

Lemma starts_with_spec pat s : starts_with pat s = true ↔ ∃ b, s = pat ++ b.
Proof.
  revert s. induction pat as [|p pat IH]; intros s; cbn.
  - split; [by exists s|done].
  - destruct s as [|c s]; [split; [done|by intros (b & ?)]|].
    rewrite andb_true_iff, Z.eqb_eq, IH. split.
    + intros (-> & b & ->). by exists b.
    + intros (b & [= -> ->]). eauto.
Qed.

Lemma contains_spec pat s : contains pat s = true ↔ ∃ a b, s = a ++ pat ++ b.
Proof.
  induction s as [|c s IH]; cbn; rewrite orb_true_iff, starts_with_spec.
  - split.
    + intros [(b & ->)|?]; [by exists [], b|done].
    + intros (a & b & Hs). left. exists b. by destruct a.
  - rewrite IH. split.
    + intros [(b & ->)|(a & b & ->)]; [by exists [], b|by exists (c :: a), b].
    + intros ([|c' a] & b & Hs); [left; by exists b|right].
      injection Hs as -> ->. by exists a, b.
Qed.

(** ** The key *)

(** RFC 4648, section 4. *)
Module Base64.

Definition char (z : Z) : Z :=
  if (z <? 26)%Z then z + 65
  else if (z <? 52)%Z then z + 71
  else if (z <? 62)%Z then z - 4
  else if (z =? 62)%Z then 43 else 47.

Definition value (c : Z) : Z :=
  if (c =? 43)%Z then 62
  else if (c =? 47)%Z then 63
  else if (c <? 65)%Z then c + 4
  else if (c <? 97)%Z then c - 65 else c - 71.

Definition pad : Z := 61.

Fixpoint encode (bs : list Z) : list Z :=
  match bs with
  | a :: b :: c :: r =>
      char (a / 4) :: char (a mod 4 * 16 + b / 16)
      :: char (b mod 16 * 4 + c / 64) :: char (c mod 64) :: encode r
  | [a; b] => [char (a / 4); char (a mod 4 * 16 + b / 16); char (b mod 16 * 4); pad]
  | [a] => [char (a / 4); char (a mod 4 * 16); pad; pad]
  | [] => []
  end%Z.

Fixpoint decode (cs : list Z) : list Z :=
  match cs with
  | p :: q :: r :: s :: cs' =>
      let a := value p * 4 + value q / 16 in
      let b := value q mod 16 * 16 + value r / 4 in
      let c := value r mod 4 * 64 + value s in
      if r =? pad then [a]
      else if s =? pad then [a; b]
      else a :: b :: c :: decode cs'
  | _ => []
  end%Z.

Definition in_alphabet (c : Z) : Prop :=
  (65 ≤ c ≤ 90 ∨ 97 ≤ c ≤ 122 ∨ 48 ≤ c ≤ 57 ∨ c = 43 ∨ c = 47 ∨ c = pad)%Z.

Lemma char_ok z : (0 ≤ z < 64)%Z →
  value (char z) = z ∧ char z ≠ pad ∧ in_alphabet (char z).
Proof.
  intros Hz. unfold value, char, pad, in_alphabet.
  repeat match goal with
  | |- context [(?a <? ?b)%Z] => destruct (Z.ltb_spec a b)
  | |- context [(?a =? ?b)%Z] => destruct (Z.eqb_spec a b)
  end; unfold pad; lia.
Qed.

Ltac sextets := unfold is_byte in *; Z.to_euclidean_division_equations; lia.

(** The four sextets of three bytes, and the bytes they give back. *)
Lemma group a b c :
  is_byte a → is_byte b → is_byte c →
  (0 ≤ a / 4 < 64 ∧ 0 ≤ a mod 4 * 16 + b / 16 < 64 ∧
   0 ≤ b mod 16 * 4 + c / 64 < 64 ∧ 0 ≤ c mod 64 < 64 ∧
   a / 4 * 4 + (a mod 4 * 16 + b / 16) / 16 = a ∧
   (a mod 4 * 16 + b / 16) mod 16 * 16 + (b mod 16 * 4 + c / 64) / 4 = b ∧
   (b mod 16 * 4 + c / 64) mod 4 * 64 + c mod 64 = c)%Z.
Proof. intros. split_and!; sextets. Qed.

Lemma pad_in_alphabet : in_alphabet pad.
Proof. unfold in_alphabet. lia. Qed.

Lemma zero_byte : is_byte 0.
Proof. unfold is_byte. lia. Qed.

Lemma encode_ok n bs :
  length bs ≤ n → bytes_ok bs →
  decode (encode bs) = bs ∧ Forall in_alphabet (encode bs) ∧
  length (encode bs) = 4 * ((length bs + 2) / 3).
Proof.
  revert bs. induction n as [|n IH]; intros bs Hn Hb.
  { destruct bs; [by split_and!|cbn in Hn; lia]. }
  destruct bs as [|a [|b [|c r]]].
  - by split_and!.
  - apply Forall_cons in Hb as [Ha _]. pose proof zero_byte as H0.
    destruct (group a 0 0 Ha H0 H0) as (G1 & G2 & _ & _ & G5 & _).
    cbn [encode decode]. rewrite !Z.add_0_r in *.
    destruct (char_ok _ G1) as (V1 & N1 & A1), (char_ok _ G2) as (V2 & N2 & A2).
    rewrite V1, V2, G5. split_and!; [done| |done].
    rewrite !Forall_cons, Forall_nil. auto using pad_in_alphabet.
  - apply Forall_cons in Hb as [Ha [Hb _]%Forall_cons].
    destruct (group a b 0 Ha Hb zero_byte) as (G1 & G2 & G3 & _ & G5 & G6 & _).
    cbn [encode decode]. rewrite !Z.add_0_r in *.
    destruct (char_ok _ G1) as (V1 & N1 & A1), (char_ok _ G2) as (V2 & N2 & A2),
      (char_ok _ G3) as (V3 & N3 & A3).
    rewrite V1, V2, V3, G5, G6.
    destruct (Z.eqb_spec (char (b mod 16 * 4)) pad); [done|].
    split_and!; [done| |done].
    rewrite !Forall_cons, Forall_nil. auto using pad_in_alphabet.
  - apply Forall_cons in Hb as [Ha [Hb [Hc Hr]%Forall_cons]%Forall_cons].
    destruct (group a b c Ha Hb Hc) as (G1 & G2 & G3 & G4 & G5 & G6 & G7).
    destruct (IH r) as (E1 & E2 & E3); [cbn in Hn; lia|done|].
    cbn [encode decode].
    destruct (char_ok _ G1) as (V1 & N1 & A1), (char_ok _ G2) as (V2 & N2 & A2),
      (char_ok _ G3) as (V3 & N3 & A3), (char_ok _ G4) as (V4 & N4 & A4).
    rewrite V1, V2, V3, V4, G5, G6, G7, E1.
    destruct (Z.eqb_spec (char (b mod 16 * 4 + c / 64)) pad); [done|].
    destruct (Z.eqb_spec (char (c mod 64)) pad); [done|].
    split_and!; [done|by rewrite !Forall_cons|]. cbn [length]. rewrite E3.
    replace (S (S (S (length r))) + 2) with (length r + 2 + 1 * 3) by lia.
    rewrite Nat.div_add by done. lia.
Qed.
End Base64.

(** ** The request as a server reads it *)

(** The bytes before the first CRLF, and those after it. *)
Fixpoint take_line (bs : list Z) : option (list Z * list Z) :=
  match bs with
  | [] => None
  | b :: bs' =>
      if (b =? 13)%Z && starts_with [10]%Z bs' then Some ([], drop 1 bs')
      else match take_line bs' with
           | Some (l, rest) => Some (b :: l, rest)
           | None => None
           end
  end.

(** The lines of a message head up to the empty line, and what follows. *)
Fixpoint split_head_upto (n : nat) (bs : list Z) : option (list (list Z) * list Z) :=
  match n with
  | O => None
  | S n' =>
      match take_line bs with
      | None => None
      | Some ([], rest) => Some ([], rest)
      | Some (l, rest) =>
          match split_head_upto n' rest with
          | Some (ls, rest') => Some (l :: ls, rest')
          | None => None
          end
      end
  end.

(** As many lines as there are bytes are enough. *)
Definition split_head (bs : list Z) : option (list (list Z) * list Z) :=
  split_head_upto (length bs) bs.

(** A line holds no carriage return. *)
Definition line_ok (l : list Z) : Prop := Forall (λ b, b ≠ 13%Z) l.

#[global] Instance line_ok_dec l : Decision (line_ok l).
Proof. unfold line_ok. apply _. Defined.

Lemma take_line_crlf l rest :
  line_ok l → take_line (l ++ CRLF ++ rest) = Some (l, rest).
Proof.
  induction 1 as [|b l Hb Hl IH]; cbn.
  - by rewrite drop_0.
  - destruct (Z.eqb_spec b 13); [done|]. cbn [andb]. cbn in IH. by rewrite IH.
Qed.

(** A head made of lines, each ended by CRLF, then an empty one. *)
Definition head_of (ls : list (list Z)) : list Z :=
  concat (map (λ l, l ++ CRLF) ls) ++ CRLF.

Lemma split_head_upto_head ls rest n :
  Forall line_ok ls → Forall (λ l, l ≠ []) ls → length ls < n →
  split_head_upto n (head_of ls ++ rest) = Some (ls, rest).
Proof.
  intros Hl. revert n. induction Hl as [|l ls Hl Hls IH]; intros n Hne Hn.
  - by destruct n as [|n]; [lia|].
  - destruct n as [|n]; [lia|]. apply Forall_cons in Hne as [Hne Hnes].
    cbn [split_head_upto]. unfold head_of. cbn [map concat].
    replace (((l ++ CRLF) ++ concat (map (λ l, l ++ CRLF) ls)) ++ CRLF) with
      (l ++ CRLF ++ head_of ls) by (unfold head_of; by rewrite <-!app_assoc).
    rewrite <-!app_assoc, take_line_crlf by done. cbn in Hn.
    rewrite IH by (done || lia). by destruct l.
Qed.

Lemma length_head_of ls : length ls < length (head_of ls).
Proof.
  induction ls as [|l ls IH]; cbn; [lia|]. unfold head_of in *. cbn [map concat].
  rewrite !length_app in *. cbn in *. lia.
Qed.

Lemma split_head_of ls rest :
  Forall line_ok ls → Forall (λ l, l ≠ []) ls →
  split_head (head_of ls ++ rest) = Some (ls, rest).
Proof.
  intros Hl Hne. apply split_head_upto_head; [done..|].
  rewrite length_app. pose proof (length_head_of ls). lia.
Qed.

Module HandshakeProps.

(** The lines the request is meant to have. *)
Definition request_lines (host path key : list Z) (extra : list (list Z)) :
    list (list Z) :=
  [ str "GET " ++ path ++ str " HTTP/1.1";
    str "Host: " ++ host;
    str "Upgrade: websocket";
    str "Connection: Upgrade";
    str "Sec-WebSocket-Key: " ++ key;
    str "Sec-WebSocket-Version: 13" ] ++ extra.

Lemma request_is_head host path key extra :
  build_websocket_handshake_request host path key
    (concat (map (λ l, l ++ CRLF) extra))
  = head_of (request_lines host path key extra).
Proof.
  unfold build_websocket_handshake_request, head_of, request_lines.
  cbn [map concat app]. by rewrite <-!app_assoc.
Qed.

Lemma line_ok_app a b : line_ok (a ++ b) ↔ line_ok a ∧ line_ok b.
Proof. apply Forall_app. Qed.

Lemma request_lines_ok host path key extra :
  line_ok host → line_ok path → line_ok key → Forall line_ok extra →
  Forall line_ok (request_lines host path key extra).
Proof.
  intros. unfold request_lines. apply Forall_app. split; [|done].
  repeat (apply Forall_cons; split); rewrite ?line_ok_app; repeat split;
    try done; by apply (bool_decide_unpack _).
Qed.

(** C29: a server that reads the request line by line gets the request line,
    the five headers RFC 6455 asks for with the caller's host and the key, the
    caller's extra header lines in their order, and nothing after the empty
    line - for a host, a path, a key and header lines without carriage
    returns. *)
Theorem request_is_one_head (host path key : list Z) (extra : list (list Z)) :
  line_ok host → line_ok path → line_ok key →
  Forall line_ok extra → Forall (λ l, l ≠ []) extra →
  split_head (build_websocket_handshake_request host path key
                (concat (map (λ l, l ++ CRLF) extra)))
  = Some (request_lines host path key extra, []).
Proof.
  intros Hh Hp Hk He Hne. rewrite request_is_head.
  rewrite <-(app_nil_r (head_of _)). apply split_head_of.
  - by apply request_lines_ok.
  - apply Forall_app. split; [|done].
    repeat (apply Forall_cons; split); done.
Qed.

(** Nothing is checked or escaped: a path with a line break in it adds a
    header of its own to the request. *)
Theorem path_can_add_headers (host key injected path : list Z) :
  line_ok host → line_ok key → line_ok path → line_ok injected → injected ≠ [] →
  split_head (build_websocket_handshake_request host
    (path ++ str " HTTP/1.1" ++ CRLF ++ injected ++ CRLF ++ str "X:") key [])
  = Some ([str "GET " ++ path ++ str " HTTP/1.1"; injected;
           str "X:" ++ str " HTTP/1.1"]
          ++ drop 1 (request_lines host [] key []), []).
Proof.
  intros Hh Hk Hp Hi Hne.
  replace (build_websocket_handshake_request _ _ _ _) with
    (head_of ([str "GET " ++ path ++ str " HTTP/1.1"; injected;
               str "X:" ++ str " HTTP/1.1"]
              ++ drop 1 (request_lines host [] key [])) ++ []).
  2: { rewrite app_nil_r.
       unfold build_websocket_handshake_request, head_of, request_lines.
       rewrite app_nil_r. cbn [drop map concat app].
       by rewrite <-!app_assoc. }
  apply split_head_of.
  - apply Forall_app. split.
    + repeat (apply Forall_cons; split); rewrite ?line_ok_app; repeat split;
        try done; by apply (bool_decide_unpack _).
    + apply Forall_drop, request_lines_ok; by constructor || done.
  - unfold request_lines. cbn [drop app].
    repeat (apply Forall_cons; split); try done; by apply Forall_nil.
Qed.

(** The encoding in lines of 64 characters, as the filter writes it unless it
    is told not to; [n] bounds their number. *)
Fixpoint in_lines (n : nat) (cs : list Z) : list Z :=
  match n, cs with
  | O, _ | _, [] => []
  | S n', _ => take 64 cs ++ [10%Z] ++ in_lines n' (drop 64 cs)
  end.

Definition broken (cs : list Z) : list Z := in_lines (length cs) cs.

(** Documented behaviour of the BIOs, operation by operation. [filter b flags]
    is a Base64 filter with these flags, on its own; [sink m] an empty memory
    sink; [chain b flags bs] such a filter before such a sink, to which [bs] was
    written; [flushed] the same after [BIO_flush], which alone makes the filter
    pass on what it still has. Of a chain that was not flushed nothing is said. *)
Class BIOLaws (W : Type) `{Entropy W} : Type := {
  filter : BIO → Z → Prop;
  sink : BIO → Prop;
  chain : BIO → Z → list Z → Prop;
  flushed : BIO → Z → list Z → Prop;
  new_filter : filter BIO_new_f_base64 0;
  new_sink : sink BIO_new_s_mem;
  set_flags b flags more :
    filter b flags → filter (BIO_set_flags b more) (Z.lor flags more);
  push b flags m : filter b flags → sink m → chain (BIO_push b m) flags [];
  (** memory takes all of it *)
  write b flags bs buf n :
    chain b flags bs → (0 ≤ n ≤ Z.of_nat (length buf))%Z →
    chain (snd (BIO_write b buf n)) flags (bs ++ take (Z.to_nat n) buf);
  flush b flags bs : chain b flags bs → flushed (snd (BIO_flush b)) flags bs;
  get_mem_ptr b flags bs :
    flushed b flags bs → bytes_ok bs →
    BIO_get_mem_ptr b
    = if (Z.land flags BIO_FLAGS_BASE64_NO_NL =? 0)%Z
      then broken (Base64.encode bs) else Base64.encode bs
}.

Lemma bio_base64_encodes {W : Type} `{BIOLaws W} bs :
  bytes_ok bs → (Z.of_nat (length bs) < 2 ^ 31)%Z → bio_base64 bs = Base64.encode bs.
Proof.
  intros Hb Hl. unfold bio_base64. rewrite i32_id by lia.
  pose proof (push _ _ _ (set_flags _ _ BIO_FLAGS_BASE64_NO_NL new_filter) new_sink) as Hc.
  apply (write _ _ _ bs (Z.of_nat (length bs))) in Hc; [|lia].
  destruct (BIO_write _ _ _) as [n b]. cbn [snd] in Hc.
  rewrite Nat2Z.id, firstn_all in Hc. apply flush in Hc.
  destruct (BIO_flush b) as [r b']. cbn [snd] in Hc. by apply get_mem_ptr in Hc as ->.
Qed.

(** C30: the key is the Base64 form of sixteen bytes: 24 characters of the
    Base64 alphabet, in one line, that decode to exactly the bytes drawn, one
    per iteration of the loop. For every library whose BIOs do what their
    documentation says: that the flag is set before the bytes are written, that
    all of them are written, and that the chain is flushed before the buffer is
    read, is the code's. *)
Theorem key_encodes_16_bytes {S W : Type} `{BIOLaws W} (s : S) (y : Sys W) :
  ∃ key y', generate_sec_websocket_key (s, y) = (Ok key, (s, y')) ∧
    length key = 24 ∧ Forall Base64.in_alphabet key ∧
    Base64.decode key
    = map (λ i, u8 (uniform_byte (fst (random_device (env y))) i)) (seq 0 16) ∧
    held y' = held y.
Proof.
  unfold generate_sec_websocket_key, call, mbind, M_bind.
  destruct (random_device (env y)) as [seed w]. cbn [fst].
  set (bs := map _ _).
  assert (bytes_ok bs) as Hok.
  { apply Forall_map, Forall_true. intros i. apply u8_byte. }
  assert (length bs = 16) as Hl by (unfold bs; by rewrite length_map, length_seq).
  do 2 eexists. split; [reflexivity|]. rewrite bio_base64_encodes by (done || lia).
  destruct (Base64.encode_ok 16 bs) as (Hd & Ha & Hn); [lia|done|].
  rewrite Hn, Hl. by split_and!.
Qed.

(** ** Witnesses *)

Lemma request_is_one_head_witness :
  split_head (build_websocket_handshake_request (str "localhost:9001") (str "/chat")
    (str "dGhlIHNhbXBsZSBub25jZQ==") (str "X-Token: 7" ++ CRLF))
  = Some (request_lines (str "localhost:9001") (str "/chat")
      (str "dGhlIHNhbXBsZSBub25jZQ==") [str "X-Token: 7"], []).
Proof.
  apply (request_is_one_head (str "localhost:9001") (str "/chat")
    (str "dGhlIHNhbXBsZSBub25jZQ==") [str "X-Token: 7"]);
    try (apply (bool_decide_unpack _); by vm_compute).
Defined.

Lemma path_can_add_headers_witness :
  split_head (build_websocket_handshake_request (str "localhost")
    (str "/" ++ str " HTTP/1.1" ++ CRLF ++ str "Cookie: stolen" ++ CRLF ++ str "X:")
    (str "key") [])
  = Some ([str "GET / HTTP/1.1"; str "Cookie: stolen"; str "X: HTTP/1.1";
           str "Host: localhost"; str "Upgrade: websocket"; str "Connection: Upgrade";
           str "Sec-WebSocket-Key: key"; str "Sec-WebSocket-Version: 13"], []).
Proof.
  apply (path_can_add_headers (str "localhost") (str "key") (str "Cookie: stolen")
    (str "/")); try (apply (bool_decide_unpack _); by vm_compute).
Defined.

(** A filter before a memory sink: until it is flushed it holds back the bytes
    of an incomplete group. *)
Record bio : Type := Bio {
  b_flags : Z;
  b_chained : bool;
  b_written : list Z;
  b_flushed : bool
}.

Definition bio_memory (b : bio) : list Z :=
  let bs := b_written b in
  let out := Base64.encode
    (if b_flushed b then bs else take (3 * (length bs / 3)) bs) in
  if (Z.land (b_flags b) BIO_FLAGS_BASE64_NO_NL =? 0)%Z then broken out else out.

(** Draws that count up, and these BIOs. *)
#[export] Instance counting_entropy : Entropy world := {
  next_u64 w := (11400714819323198485%Z, w);
  random_device w := (200%Z, w);
  uniform_byte seed i := ((seed + Z.of_nat i * 7) mod 256)%Z;
  BIO := bio;
  BIO_new_f_base64 := Bio 0 false [] false;
  BIO_new_s_mem := Bio 0 false [] false;
  BIO_set_flags b more := Bio (Z.lor (b_flags b) more) (b_chained b) (b_written b) (b_flushed b);
  BIO_push b _ := Bio (b_flags b) true (b_written b) (b_flushed b);
  BIO_write b buf n := (n, Bio (b_flags b) (b_chained b)
    (b_written b ++ take (Z.to_nat n) buf) (b_flushed b));
  BIO_flush b := (1%Z, Bio (b_flags b) (b_chained b) (b_written b) true);
  BIO_get_mem_ptr := bio_memory
}.

#[export, refine] Instance counting_bios : BIOLaws world := {
  filter b flags := b = Bio flags false [] false;
  sink m := m = Bio 0 false [] false;
  chain b flags bs := b = Bio flags true bs false;
  flushed b flags bs := b = Bio flags true bs true
}.
Proof.
  - done.
  - done.
  - by intros b flags more ->.
  - by intros b flags m -> ->.
  - by intros b flags bs buf n ->.
  - by intros b flags bs ->.
  - by intros b flags bs ->.
Defined.

Lemma key_encodes_16_bytes_witness :
  ∃ key, fst (generate_sec_websocket_key (tt, scripted [])) = Ok key ∧ length key = 24.
Proof.
  destruct (key_encodes_16_bytes tt (scripted []))
    as (key & y' & Hg & Hl & _). exists key. by rewrite Hg.
Defined.

End HandshakeProps.
