(* ===== verification/Client.v ===== *)
(** [WSClient] (include/fastws/fastws.hpp): the client on top of a socket, a
    frame parser and a frame factory. The user's handler is code the client
    calls and that calls the client back, so it is a program [prog] over the
    client's public methods; the recursion from a method to the handler and
    back is bounded by a nesting depth. Every other loop runs exactly as often
    as the source says. *)

From S2P Require Import Prelude Buffer Frames Factory Parser Sys Sockets SocketSpec Handshake.

Module WSClient.

(** [enum ConnectionStatus]. *)
Inductive ConnectionStatus : Type :=
  | HEALTHY
  | CLOSED_BY_SERVER
  | CLOSED_BY_CLIENT
  | PING_TIMED_OUT
  | FAILED
  | UNKNOWN.

#[global] Instance ConnectionStatus_eq_dec : EqDecision ConnectionStatus.
Proof. solve_decision. Defined.

(** The methods of [FrameHandler], for frames whose payload is a [P]. *)
Inductive method (P : Type) : Type :=
  | on_open
  | on_close (success : bool)
  | on_text (f : Frame.t P)
  | on_binary (f : Frame.t P)
  | on_continuation (f : Frame.t P).
Arguments on_open {_}.
Arguments on_close {_} _.
Arguments on_text {_} _.
Arguments on_binary {_} _.
Arguments on_continuation {_} _.

(** A frame with the bytes its payload had when it was given to the handler,
    and a call with such a frame. *)
Definition frame : Type := Frame.t (list Z).
Definition event : Type := method (list Z).

(** A call as the handler gets it: of a frame it has the header, and a view of
    the payload, which it reads with [Payload]. *)
Definition notice : Type := method unit.

Definition with_payload {P Q} (payload : Q) (f : Frame.t P) : Frame.t Q :=
  Frame.mk (Frame.fin f) (Frame.mask f) (Frame.opcode f) (Frame.masking_key f) payload.

Definition notice_of (ev : event) : notice :=
  match ev with
  | on_open => on_open
  | on_close success => on_close success
  | on_text f => on_text (with_payload tt f)
  | on_binary f => on_binary (with_payload tt f)
  | on_continuation f => on_continuation (with_payload tt f)
  end.

(** The body of a handler method: it works on the handler's own state, reads
    the payload through its view whenever it likes, calls the client's public
    methods, whose exceptions it may catch, and returns or throws. *)
Inductive prog (Hs : Type) : Type :=
  | Return
  | Raise (e : exn)
  | Payload (k : list Z → prog Hs)
  | Get (k : Hs → prog Hs)
  | Put (h : Hs) (k : prog Hs)
  | SendText (payload : list Z) (k : exn + unit → prog Hs)
  | SendBinary (payload : list Z) (k : exn + unit → prog Hs)
  | Close (timeout : Z) (k : exn + bool → prog Hs)
  | Poll (max_reads : Z) (k : exn + ConnectionStatus → prog Hs)
  | Status (k : ConnectionStatus → prog Hs)
  | LastRtt (k : double → prog Hs).
Arguments Return {_}.
Arguments Raise {_} _.
Arguments Payload {_} _.
Arguments Get {_} _.
Arguments Put {_} _ _.
Arguments SendText {_} _ _.
Arguments SendBinary {_} _ _.
Arguments Close {_} _ _.
Arguments Poll {_} _ _.
Arguments Status {_} _.
Arguments LastRtt {_} _.

Record t (Hs St : Type) : Type := mk {
  m_handler : Hs;
  m_host : string;
  m_path : string;
  m_port : Z;
  m_extra_headers : string;
  m_socket : St;
  m_parser : FrameParser.t;
  m_factory : FrameFactory.t;
  m_status : ConnectionStatus;
  m_connection_open : bool;
  m_ping_timer : nanotimer.t;
  m_waiting_for_ping : bool;
  m_ping_every : double;
  m_ping_timeout : double;
  m_last_rtt : double;
  (** the handler methods called so far; not in the program *)
  calls : list event
}.
Arguments mk {_ _}.
Arguments m_handler {_ _} _.
Arguments m_host {_ _} _.
Arguments m_path {_ _} _.
Arguments m_port {_ _} _.
Arguments m_extra_headers {_ _} _.
Arguments m_socket {_ _} _.
Arguments m_parser {_ _} _.
Arguments m_factory {_ _} _.
Arguments m_status {_ _} _.
Arguments m_connection_open {_ _} _.
Arguments m_ping_timer {_ _} _.
Arguments m_waiting_for_ping {_ _} _.
Arguments m_ping_every {_ _} _.
Arguments m_ping_timeout {_ _} _.
Arguments m_last_rtt {_ _} _.
Arguments calls {_ _} _.

Section Setters.
Context {Hs St : Type}.
Definition set_handler (v : Hs) (c : t Hs St) : t Hs St :=
  mk v (m_host c) (m_path c) (m_port c) (m_extra_headers c) (m_socket c)
     (m_parser c) (m_factory c) (m_status c) (m_connection_open c)
     (m_ping_timer c) (m_waiting_for_ping c) (m_ping_every c)
     (m_ping_timeout c) (m_last_rtt c) (calls c).
Definition set_socket (v : St) (c : t Hs St) : t Hs St :=
  mk (m_handler c) (m_host c) (m_path c) (m_port c) (m_extra_headers c) v
     (m_parser c) (m_factory c) (m_status c) (m_connection_open c)
     (m_ping_timer c) (m_waiting_for_ping c) (m_ping_every c)
     (m_ping_timeout c) (m_last_rtt c) (calls c).
Definition set_parser (v : FrameParser.t) (c : t Hs St) : t Hs St :=
  mk (m_handler c) (m_host c) (m_path c) (m_port c) (m_extra_headers c)
     (m_socket c) v (m_factory c) (m_status c) (m_connection_open c)
     (m_ping_timer c) (m_waiting_for_ping c) (m_ping_every c)
     (m_ping_timeout c) (m_last_rtt c) (calls c).
Definition set_factory (v : FrameFactory.t) (c : t Hs St) : t Hs St :=
  mk (m_handler c) (m_host c) (m_path c) (m_port c) (m_extra_headers c)
     (m_socket c) (m_parser c) v (m_status c) (m_connection_open c)
     (m_ping_timer c) (m_waiting_for_ping c) (m_ping_every c)
     (m_ping_timeout c) (m_last_rtt c) (calls c).
Definition set_status (v : ConnectionStatus) (c : t Hs St) : t Hs St :=
  mk (m_handler c) (m_host c) (m_path c) (m_port c) (m_extra_headers c)
     (m_socket c) (m_parser c) (m_factory c) v (m_connection_open c)
     (m_ping_timer c) (m_waiting_for_ping c) (m_ping_every c)
     (m_ping_timeout c) (m_last_rtt c) (calls c).
Definition set_connection_open (v : bool) (c : t Hs St) : t Hs St :=
  mk (m_handler c) (m_host c) (m_path c) (m_port c) (m_extra_headers c)
     (m_socket c) (m_parser c) (m_factory c) (m_status c) v
     (m_ping_timer c) (m_waiting_for_ping c) (m_ping_every c)
     (m_ping_timeout c) (m_last_rtt c) (calls c).
Definition set_ping_timer (v : nanotimer.t) (c : t Hs St) : t Hs St :=
  mk (m_handler c) (m_host c) (m_path c) (m_port c) (m_extra_headers c)
     (m_socket c) (m_parser c) (m_factory c) (m_status c)
     (m_connection_open c) v (m_waiting_for_ping c) (m_ping_every c)
     (m_ping_timeout c) (m_last_rtt c) (calls c).
Definition set_waiting_for_ping (v : bool) (c : t Hs St) : t Hs St :=
  mk (m_handler c) (m_host c) (m_path c) (m_port c) (m_extra_headers c)
     (m_socket c) (m_parser c) (m_factory c) (m_status c)
     (m_connection_open c) (m_ping_timer c) v (m_ping_every c)
     (m_ping_timeout c) (m_last_rtt c) (calls c).
Definition set_last_rtt (v : double) (c : t Hs St) : t Hs St :=
  mk (m_handler c) (m_host c) (m_path c) (m_port c) (m_extra_headers c)
     (m_socket c) (m_parser c) (m_factory c) (m_status c)
     (m_connection_open c) (m_ping_timer c) (m_waiting_for_ping c)
     (m_ping_every c) (m_ping_timeout c) v (calls c).
Definition set_calls (v : list event) (c : t Hs St) : t Hs St :=
  mk (m_handler c) (m_host c) (m_path c) (m_port c) (m_extra_headers c)
     (m_socket c) (m_parser c) (m_factory c) (m_status c)
     (m_connection_open c) (m_ping_timer c) (m_waiting_for_ping c)
     (m_ping_every c) (m_ping_timeout c) (m_last_rtt c) v.
End Setters.

Definition frame_of (p : FrameParser.t) (f : Frame.t string_view) : frame :=
  with_payload (FrameParser.deref p (Frame.payload f)) f.

(** A view given to a handler, with the capacity of the receive buffer at that
    time. The buffer only grows, and a vector that grows may move: a view whose
    buffer has grown since dangles. *)
Record lent : Type := Lent { lent_view : string_view; lent_capacity : nat }.

Definition parser_capacity (p : FrameParser.t) : nat :=
  FrameBuffer.capacity (FrameParser.m_frame_buffer p).

(** What is lent with a call for the view [v]. *)
Definition lend (p : FrameParser.t) (v : string_view) : lent := Lent v (parser_capacity p).

(** An exception becomes a value. *)
Definition catching {S A} (m : M S A) : M S (exn + A) := λ s,
  match m s with
  | (Ok a, s') => (Ok (inr a), s')
  | (Throw e, s') => (Ok (inl e), s')
  | (UB u, s') => (UB u, s')
  | (OutOfFuel, s') => (OutOfFuel, s')
  end.

Section Client.
Context {Hs St W : Type} `{Target, OS W, Entropy W, SocketType St W}.

Definition state : Type := t Hs St * Sys W.

(** ** Methods of the members *)

Definition on_socket {A} (m : M (St * Sys W) A) : M state A :=
  zoom (λ s, (m_socket (fst s), snd s)) (λ x s, (set_socket (fst x) (fst s), snd x)) m.

Definition on_parser {A} (m : M FrameParser.t A) : M state A :=
  zoom (λ s, m_parser (fst s)) (λ p s, (set_parser p (fst s), snd s)) m.

Definition on_factory {A} (m : M FrameFactory.t A) : M state A :=
  zoom (λ s, m_factory (fst s)) (λ f s, (set_factory f (fst s), snd s)) m.

Definition on_timer {A} (m : M (nanotimer.t * Sys W) A) : M state A :=
  zoom (λ s, (m_ping_timer (fst s), snd s))
    (λ x s, (set_ping_timer (fst x) (fst s), snd x)) m.

(** [m_socket.read_into(m_parser.frame_buffer(), n)]. *)
Definition read_into (n : nat) : M state bool :=
  zoom (λ s, (m_socket (fst s), FrameParser.m_frame_buffer (m_parser (fst s)), snd s))
    (λ x s,
      let p := m_parser (fst s) in
      (set_parser
         (FrameParser.mk (FrameParser.m_parse_stage p) (FrameParser.m_frame p)
            (snd (fst x)) (FrameParser.m_payload_len p) (FrameParser.m_ptr p))
         (set_socket (fst (fst x)) (fst s)), snd x))
    (st_read_into n).

(** A method of an object outside the client. *)
Definition on_local {X A} (x : X) (m : M (X * Sys W) A) : M state A :=
  zoom (λ s, (x, snd s)) (λ x s, (fst s, snd x)) m.

Definition on_sys {A} (m : M (Sys W) A) : M state A :=
  zoom snd (λ y s, (fst s, y)) m.

(** ** Sending *)

Definition send (frame : list Z) : M state unit :=
  _ ← on_socket (st_send frame); mret tt.

Definition send_pong (payload : list Z) : M state unit :=
  out ← on_factory (FrameFactory.pong true payload); send out.

Definition send_close (payload : list Z) : M state unit :=
  out ← on_factory (FrameFactory.close true payload); send out.

Definition send_ping (payload : list Z) : M state unit :=
  out ← on_factory (FrameFactory.ping true payload); send out.

Definition send_text (payload : list Z) : M state unit :=
  out ← on_factory (FrameFactory.text true true payload); send out.

Definition send_binary (payload : list Z) : M state unit :=
  out ← on_factory (FrameFactory.binary true true payload); send out.

(** Reading the bytes of a view. *)
Definition read_payload (l : lent) : M state (list Z) :=
  c ← self;
  if (sv_len (lent_view l) =? 0) || (parser_capacity (m_parser c) =? lent_capacity l)
  then mret (FrameParser.deref (m_parser c) (lent_view l))
  else undef dangling.

Definition status : M state ConnectionStatus := c ← self; mret (m_status c).

Definition last_rtt : M state double := c ← self; mret (m_last_rtt c).

(** ** Pings *)

Definition handle_pong (payload : list Z) : M state unit :=
  rtt ← on_timer nanotimer.get_elapsed_ms;
  update_self (set_last_rtt rtt);;
  on_timer nanotimer.start;;
  update_self (set_waiting_for_ping false).

(** ["ping timed out" << std::endl]. *)
Definition ping_timed_out : string := "ping timed out" +:+ Frame.print_char 10.

Definition update_ping : M state unit :=
  c ← self;
  if m_waiting_for_ping c then
    elapsed ← on_timer nanotimer.get_elapsed_ms;
    when (dgt elapsed (m_ping_timeout c))
      (update_self (set_connection_open false);;
       update_self (set_status PING_TIMED_OUT);;
       call_unit (sys_cout ping_timed_out))
  else
    elapsed ← on_timer nanotimer.get_elapsed_ms;
    when (dgt elapsed (m_ping_every c))
      (update_self (set_waiting_for_ping true);;
       on_timer nanotimer.start;;
       send_ping []).

(** [timeout * 10], an [int]. *)
Definition times_ten (timeout : Z) : M state Z :=
  if decide (-2 ^ 31 ≤ timeout * 10 < 2 ^ 31)%Z
  then mret (timeout * 10)%Z else undef signed_overflow.

(** ** [poll] and [close], for a way to call the handler *)

Section Open.
Context (call_handler : event → string_view → M state unit).

(** One parsed frame; [Some] is an early return of [poll]. *)
Definition dispatch (f : Frame.t string_view) : M state (option ConnectionStatus) :=
  c ← self;
  let frame := frame_of (m_parser c) f in
  match Frame.opcode f with
  | Opcode.TEXT => call_handler (on_text frame) (Frame.payload f);; mret None
  | Opcode.BINARY => call_handler (on_binary frame) (Frame.payload f);; mret None
  | Opcode.PING => send_pong (Frame.payload frame);; mret None
  | Opcode.PONG => handle_pong (Frame.payload frame);; mret None
  | Opcode.CLOSE =>
      update_self (set_connection_open false);;
      update_self (set_status CLOSED_BY_SERVER);;
      send_close [];;
      call_handler (on_close true) empty_view;;
      st ← status;
      mret (Some st)
  | _ => call_handler (on_continuation frame) (Frame.payload f);; mret None
  end.

(** [m_parser.update(m_socket.read_into(m_parser.frame_buffer(), 1024))]. *)
Definition next_frame : M state (option (Frame.t string_view)) :=
  new_data ← read_into 1024;
  on_parser (FrameParser.update new_data).

(** The [for] loop; [n] bounds the frames handled. *)
Fixpoint poll_loop (n : nat) (count_reads max_reads : Z)
    (parsed_frame : option (Frame.t string_view)) :
    M state (option ConnectionStatus) :=
  match parsed_frame with
  | None => mret None
  | Some f =>
      match n with
      | O => out_of_fuel
      | S n' =>
          r ← dispatch f;
          match r with
          | Some st => mret (Some st)
          | None =>
              let count_reads := (count_reads + 1)%Z in
              if (count_reads >=? max_reads)%Z then mret None
              else
                parsed_frame ← next_frame;
                poll_loop n' count_reads max_reads parsed_frame
          end
      end
  end.

Definition poll_with (max_reads : Z) : M state ConnectionStatus :=
  parsed_frame ← next_frame;
  r ← poll_loop (S (Z.to_nat max_reads)) 0 max_reads parsed_frame;
  match r with
  | Some st => mret st
  | None => update_ping;; status
  end.

(** The loop that waits for the server's CLOSE: [n] more iterations. *)
Fixpoint wait_close (n : nat) : M state bool :=
  match n with
  | O => mret false
  | S n' =>
      data ← on_socket (st_read 1024);
      f ← on_parser (FrameParser.update_string data);
      if match f with
         | Some f => bool_decide (Frame.opcode f = Opcode.CLOSE)
         | None => false
         end
      then mret true
      else
        call_unit (sys_sleep_ms 100);;
        wait_close n'
  end.

Definition close_with (timeout : Z) : M state bool :=
  c ← self;
  if negb (m_connection_open c) then mret true
  else
    _ ← poll_with 4;
    on_parser FrameParser.clear;;
    send_close [];;
    update_self (set_status CLOSED_BY_CLIENT);;
    update_self (set_connection_open false);;
    n ← times_ten timeout;
    success ← wait_close (Z.to_nat n);
    call_handler (on_close success) empty_view;;
    mret success.

(** A handler method at work, with the view it was lent. *)
Fixpoint run_prog (l : lent) (p : prog Hs) : M state unit :=
  match p with
  | Return => mret tt
  | Raise e => throw e
  | Payload k => bytes ← read_payload l; run_prog l (k bytes)
  | Get k => c ← self; run_prog l (k (m_handler c))
  | Put h k => update_self (set_handler h);; run_prog l k
  | SendText payload k => r ← catching (send_text payload); run_prog l (k r)
  | SendBinary payload k => r ← catching (send_binary payload); run_prog l (k r)
  | Close timeout k => r ← catching (close_with timeout); run_prog l (k r)
  | Poll max_reads k => r ← catching (poll_with max_reads); run_prog l (k r)
  | Status k => st ← status; run_prog l (k st)
  | LastRtt k => rtt ← last_rtt; run_prog l (k rtt)
  end.
End Open.

(** ** The handler *)

Context (handler : notice → prog Hs).

(** A call of a handler method, whose own calls of the client may call the
    handler [depth - 1] levels deep. *)
Fixpoint callback (depth : nat) (ev : event) (v : string_view) : M state unit :=
  match depth with
  | O => out_of_fuel
  | S depth' =>
      update_self (λ c, set_calls (calls c ++ [ev]) c);;
      c ← self;
      run_prog (callback depth') (lend (m_parser c) v) (handler (notice_of ev))
  end.

Definition poll (depth : nat) (max_reads : Z) : M state ConnectionStatus :=
  poll_with (callback depth) max_reads.

Definition close (depth : nat) (timeout : Z) : M state bool :=
  close_with (callback depth) timeout.

(** ** Connecting *)

(** [m_socket = SocketType<false>(m_host, m_port)]. *)
Definition open_socket : M state unit :=
  c ← self;
  tmp ← on_sys (st_construct (m_host c) (m_port c));
  rest ← on_socket (st_move_assign tmp);
  on_local rest st_destroy.

(** The loop that collects the response: [n] more iterations. *)
Fixpoint read_response (n : nat) (response : list Z) : M state (list Z) :=
  match n with
  | O => mret response
  | S n' =>
      chunk ← on_socket (st_read 4096);
      let response := response ++ chunk in
      if contains (CRLF ++ CRLF) response then mret response
      else
        call_unit (sys_sleep_ms 100);;
        read_response n' response
  end.

Definition connect (depth : nat) (timeout : Z) : M state bool :=
  open_socket;;
  c ← self;
  let host :=
    if (m_port c =? 443)%Z then str (m_host c)
    else str (m_host c) ++ str ":" ++ str (to_string (m_port c)) in
  key ← generate_sec_websocket_key;
  let request := build_websocket_handshake_request host (str (m_path c)) key
                   (str (m_extra_headers c)) in
  _ ← on_socket (st_send request);
  n ← times_ten timeout;
  response ← read_response (Z.to_nat n) [];
  update_self (set_connection_open (contains (str "HTTP/1.1 101") response));;
  c ← self;
  (if m_connection_open c then
     update_self (set_status HEALTHY);;
     callback depth on_open empty_view
   else update_self (set_status FAILED));;
  c ← self;
  mret (m_connection_open c).

(** ** Construction and destruction *)

(** The members before the constructor's body runs. *)
Definition initial (h : Hs) (host path : string) (port : Z) (extra_headers : string)
    (ping_frequency ping_timeout : Z) (junk : Frame.t string_view)
    (factory : FrameFactory.t) : t Hs St :=
  mk h host path port extra_headers st_default (FrameParser.new junk) factory
    UNKNOWN false nanotimer.new false
    (dmul (to_double ping_frequency) (to_double 1000))
    (dmul (to_double ping_timeout) (to_double 1000))
    (to_double 0) [].

(** The body of the constructor. *)
Definition start_up (depth : nat) (connection_timeout : Z) : M state unit :=
  ok ← connect depth connection_timeout;
  if negb ok then throw (runtime_error "Failed to connect to ws server")
  else
    update_self (set_waiting_for_ping true);;
    on_timer nanotimer.start;;
    send_ping [].

(** The body on an initialised object; when it throws, the socket member is
    destroyed and the client's destructor does not run. The handler outlives
    the client. *)
Definition constructed (depth : nat) (connection_timeout : Z)
    (members : Hs → t Hs St) : M (Hs * Sys W) (t Hs St) := λ '(h, y),
  match start_up depth connection_timeout (members h, y) with
  | (Ok _, (c, y')) => (Ok c, (m_handler c, y'))
  | (Throw e, (c, y')) =>
      let '(_, (_, y'')) := st_destroy (m_socket c, y') in
      (Throw e, (m_handler c, y''))
  | (UB u, (c, y')) => (UB u, (m_handler c, y'))
  | (OutOfFuel, (c, y')) => (OutOfFuel, (m_handler c, y'))
  end.

(** The constructor: [m_factory] draws two seeds, then the body runs. *)
Definition construct (depth : nat) (host path : string) (port : Z)
    (extra_headers : string) (connection_timeout ping_frequency ping_timeout : Z)
    (junk : Frame.t string_view) : M (Hs * Sys W) (t Hs St) :=
  seed1 ← (device_random : M (Hs * Sys W) Z);
  seed2 ← (device_random : M (Hs * Sys W) Z);
  match FrameFactory.new 4096 seed1 seed2 with
  | (Ok _, factory) =>
      constructed depth connection_timeout (λ h,
        initial h host path port extra_headers ping_frequency ping_timeout
          junk factory)
  | (Throw e, _) => throw e
  | (UB u, _) => undef u
  | (OutOfFuel, _) => out_of_fuel
  end.

(** [~WSClient] is noexcept: an exception that leaves [close] ends the
    program. *)
Inductive ended : Type :=
  | Destroyed
  | Terminated (e : exn).

Definition destroy (depth : nat) : M state ended :=
  r ← catching (close depth 10);
  match r with
  | inr _ => on_socket st_destroy;; mret Destroyed
  | inl e => mret (Terminated e)
  end.

End Client.

(** The two instances of the template. *)
Definition TLSClient (Hs : Type) : Type := t Hs SSLSocketWrapper.t.
Definition NoTLSClient (Hs : Type) : Type := t Hs SocketWrapper.t.

End WSClient.
