(* ===== verification/ClientSpec.v ===== *)
(** The client's invariant and what every method does to it. [good] is the
    invariant of a client object; [since c0] adds what only grows or shrinks
    after a moment [c0]: a closed client stays closed and the record of handler
    calls is only extended. Both are kept by every method, for every handler,
    every network and every exception. *)

From S2P Require Import Prelude Buffer Rfc6455 Frames Factory Parser ParserSpec Sys Sockets SocketSpec Handshake Client.
Import WSClient.

(** ** Members *)

Lemma safe_zoom {S T A} (prj : S → T) (upd : T → S → S) (m : M T A) s
    (Q : A → S → Prop) (E : S → Prop) :
  safe m (prj s) (λ a t, Q a (upd t s)) (λ t, E (upd t s)) → safe (zoom prj upd m) s Q E.
Proof. unfold safe, zoom. by destruct (m (prj s)) as [[] ?]. Qed.

Lemma safe_catching {S A} (m : M S A) s (Q : exn + A → S → Prop) E :
  safe m s (λ a, Q (inr a)) (λ s', ∀ e, Q (inl e) s') → safe (catching m) s Q E.
Proof. unfold safe, catching. destruct (m s) as [[] ?]; auto. Qed.

Lemma keeps_catching {S A} (I : S → Prop) (m : M S A) : keeps I m → keeps I (catching m).
Proof. intros Hm s Hs. apply safe_catching. eapply safe_keeps; eauto. Qed.

Section Invariants.
Context {Hst St W : Type} `{Target, OS W, Entropy W, !SocketType St W, !SocketTypeLaws St W}.
Context (Hhard : hardened = false).

Local Notation "'state'" := (@state Hst St W).

(** Invariants that do not depend on the socket and the outside, and of the
    factory ask only well-formedness. *)
Record send_stable (I : state → Prop) : Prop := {
  stable_socket c y x y' : I (c, y) → I (set_socket x c, y');
  stable_factory c y : I (c, y) → FrameFactory.wf (m_factory c);
  stable_set_factory c y f : I (c, y) → FrameFactory.wf f → I (set_factory f c, y);
  stable_handler c y h : I (c, y) → I (set_handler h c, y)
}.

Lemma read_no_ub n : no_ub (st_read (S:=St) (W:=W) n).
Proof.
  intros [s y] _. unfold safe. pose proof (read_law n s y) as Hr.
  unfold read_result in Hr. by destruct (st_read n (s, y)) as [[] ?].
Qed.

Section Stable.
Context (I : state → Prop) (HI : send_stable I).

Lemma keeps_socket {A} (m : M (St * Sys W) A) : no_ub m → keeps I (on_socket m).
Proof.
  intros Hm [c y] Hi. apply safe_zoom. eapply safe_mono; [by apply Hm|..]; cbn beta.
  - intros _ [x y'] _. by eapply stable_socket.
  - intros [x y'] _. by eapply stable_socket.
Qed.

Lemma keeps_env c y y' : I (c, y) → I (c, y').
Proof. intros Hi. replace c with (set_socket (m_socket c) c) by (by destruct c). by eapply stable_socket. Qed.

Lemma keeps_call {A} (f : W → A * W) : keeps I (call f).
Proof.
  intros [c y] Hi. unfold safe, call. destruct (f (env y)). by eapply keeps_env.
Qed.

Lemma keeps_call_unit (f : W → W) : keeps I (call_unit f).
Proof. intros [c y] Hi. by eapply keeps_env. Qed.

Lemma keeps_self : keeps I self.
Proof. by intros s Hs. Qed.

Lemma keeps_send frame : keeps I (send frame).
Proof. apply keeps_bind; [apply keeps_socket, send_law|auto with ws]. Qed.

(** The parts of a payload a factory method can rely on. *)
Definition payload_ok (bs : list Z) : Prop :=
  bytes_ok bs ∧ (Z.of_nat (length bs) < 2 ^ 63)%Z.

Lemma keeps_factory opcode payload :
  is_byte (Opcode.to_u8 opcode) → payload_ok payload →
  keeps I (on_factory (FrameFactory.construct true opcode true payload)).
Proof.
  intros Ho [Hb Hl] [c y] Hi. apply safe_zoom, runs_safe.
  eapply runs_mono.
  { apply FrameFactory.factory_construct_runs; try done. by eapply stable_factory. }
  cbn beta. intros out f [_ Hf]. by apply stable_set_factory.
Qed.

Lemma keeps_text payload : payload_ok payload → keeps I (send_text payload).
Proof.
  intros Hp. apply keeps_bind; [|intros; apply keeps_send].
  apply keeps_factory; [cbn; unfold is_byte; lia|done].
Qed.

Lemma keeps_binary payload : payload_ok payload → keeps I (send_binary payload).
Proof.
  intros Hp. apply keeps_bind; [|intros; apply keeps_send].
  apply keeps_factory; [cbn; unfold is_byte; lia|done].
Qed.

(** The control frames: too long a payload is an exception. *)
Lemma keeps_control opcode payload e :
  is_byte (Opcode.to_u8 opcode) → bytes_ok payload →
  keeps I (out ← on_factory
             (if 125 <? length payload then throw e
              else FrameFactory.construct true opcode true payload); send out).
Proof.
  intros Ho Hb. apply keeps_bind; [|intros; apply keeps_send].
  destruct (Nat.ltb_spec 125 (length payload)).
  - intros [c y] Hi. unfold on_factory, safe, zoom, throw. cbn.
    apply stable_set_factory; [done..|]. by eapply stable_factory.
  - apply keeps_factory; [done|]. split; [done|lia].
Qed.

Lemma keeps_pong payload : bytes_ok payload → keeps I (send_pong payload).
Proof. intros. by apply keeps_control; [cbn; unfold is_byte; lia|]. Qed.

Lemma keeps_close payload : bytes_ok payload → keeps I (send_close payload).
Proof. intros. by apply keeps_control; [cbn; unfold is_byte; lia|]. Qed.

Lemma keeps_ping payload : bytes_ok payload → keeps I (send_ping payload).
Proof. intros. by apply keeps_control; [cbn; unfold is_byte; lia|]. Qed.

End Stable.

(** Steps that leave the parser alone, whatever their outcome. *)
Definition leaves_parser {A} (m : M state A) : Prop :=
  ∀ s, m_parser (fst (snd (m s))) = m_parser (fst s).

Lemma send_leaves opcode payload :
  leaves_parser
    (out ← on_factory (FrameFactory.construct true opcode true payload); send out).
Proof.
  intros s. unfold send, on_factory, on_socket, zoom, mbind, M_bind. cbn [fst snd].
  destruct (FrameFactory.construct _ _ _ _ _) as [[out|e|u|] f]; try done.
  cbn [fst snd]. by destruct (st_send out _) as [[]].
Qed.

Lemma catching_leaves {A} (m : M state A) : leaves_parser m → leaves_parser (catching m).
Proof. intros Hm s. specialize (Hm s). unfold catching. by destruct (m s) as [[]]. Qed.

(** What a handler must respect: payloads are bytes of less than 2^63,
    [close] is not asked to wait longer than its [int] counter can, and the
    view of a frame is read only while it is [fresh], before the method calls
    [poll] or [close]. *)
Fixpoint prog_ok (fresh : bool) (p : prog Hst) : Prop :=
  match p with
  | Return | Raise _ => True
  | Payload k => fresh = true ∧ ∀ bytes, prog_ok fresh (k bytes)
  | Get k => ∀ h, prog_ok fresh (k h)
  | Put _ k => prog_ok fresh k
  | SendText payload k | SendBinary payload k =>
      payload_ok payload ∧ ∀ r, prog_ok fresh (k r)
  | Close timeout k =>
      (-2 ^ 31 ≤ timeout * 10 < 2 ^ 31)%Z ∧ ∀ r, prog_ok false (k r)
  | Poll _ k => ∀ r, prog_ok false (k r)
  | Status k => ∀ st, prog_ok fresh (k st)
  | LastRtt k => ∀ rtt, prog_ok fresh (k rtt)
  end.

Definition handler_ok (handler : notice → prog Hst) : Prop := ∀ m, prog_ok true (handler m).

(** A handler method that does not call [poll] or [close]. *)
Fixpoint quiet (p : prog Hst) : Prop :=
  match p with
  | Return | Raise _ => True
  | Payload k => ∀ bytes, quiet (k bytes)
  | Get k => ∀ h, quiet (k h)
  | Put _ k => quiet k
  | SendText _ k | SendBinary _ k => ∀ r, quiet (k r)
  | Close _ _ | Poll _ _ => False
  | Status k => ∀ st, quiet (k st)
  | LastRtt k => ∀ rtt, quiet (k rtt)
  end.

(** The receive buffer has not grown since [l] was lent. *)
Definition lasting (l : lent) (s : state) : Prop :=
  lent_capacity l = parser_capacity (m_parser (fst s)).

Lemma lasting_lend (c : t Hst St) y v : lasting (lend (m_parser c) v) (c, y).
Proof. done. Qed.

Lemma read_payload_eq (l : lent) (s : state) :
  lasting l s →
  read_payload l s = (Ok (FrameParser.deref (m_parser (fst s)) (lent_view l)), s).
Proof.
  unfold lasting, read_payload. intros Hl. destruct s as [c y].
  rewrite (bind_ok _ _ _ c (c, y)) by done. cbn [fst] in Hl. rewrite Hl, Nat.eqb_refl.
  by rewrite orb_true_r.
Qed.

(** [I], while the view can be read. *)
Definition holding (I : state → Prop) (fresh : bool) (l : lent) (s : state) : Prop :=
  I s ∧ (fresh = true → lasting l s).

Lemma holding_stable I fresh l : send_stable I → send_stable (holding I fresh l).
Proof.
  intros [H1' H2' H3 H4]. split.
  - intros c y x y' [Hi Hl]. split; [by eapply H1'|done].
  - intros c y [Hi _]. by eapply H2'.
  - intros c y f [Hi Hl] Hf. split; [by eapply H3|done].
  - intros c y h [Hi Hl]. split; [by eapply H4|done].
Qed.

(** A step of a method that keeps [I] and leaves the view alone, and a call of
    the client, after which the view is not known. *)
Lemma run_prog_step (I : state → Prop) call_handler l fresh {A} (m : M state A)
    (k : A → prog Hst) s :
  keeps (holding I fresh l) m →
  (∀ a s, holding I fresh l s → safe (run_prog call_handler l (k a)) s (λ _, I) I) →
  holding I fresh l s → safe (a ← m; run_prog call_handler l (k a)) s (λ _, I) I.
Proof.
  intros Hm Hk Hs. apply safe_bind. eapply safe_mono; [by apply Hm|..]; cbn beta;
    [by auto|by intros s' []].
Qed.

Lemma run_prog_nest (I : state → Prop) call_handler l fresh {A} (m : M state A)
    (k : exn + A → prog Hst) s :
  keeps I m →
  (∀ a s, holding I false l s → safe (run_prog call_handler l (k a)) s (λ _, I) I) →
  holding I fresh l s → safe (r ← catching m; run_prog call_handler l (k r)) s (λ _, I) I.
Proof.
  intros Hm Hk [Hs _]. apply safe_bind.
  eapply safe_mono; [by apply (keeps_catching I m)|..]; cbn beta; [|done].
  intros a s' Hs'. by apply Hk.
Qed.

Local Ltac go_on IH Hp Hq :=
  by eapply IH; [apply Hp|destruct Hq as [Hq|Hq]; [left; apply Hq|by right]|].

Lemma run_prog_safe I call_handler l fresh p :
  send_stable I → prog_ok fresh p →
  (quiet p ∨ (∀ timeout, (-2 ^ 31 ≤ timeout * 10 < 2 ^ 31)%Z →
                keeps I (close_with call_handler timeout)) ∧
             (∀ max_reads, keeps I (poll_with call_handler max_reads))) →
  ∀ s, holding I fresh l s → safe (run_prog call_handler l p) s (λ _, I) I.
Proof.
  intros HI. revert fresh.
  induction p as [|e|k IH|k IH|h p IH|bs k IH|bs k IH|t k IH|n k IH|k IH|k IH];
    cbn [run_prog prog_ok quiet]; intros fresh Hp Hq s Hs;
    try (pose proof (holding_stable I fresh l HI) as HJ).
  - by destruct Hs.
  - by destruct Hs.
  - destruct Hp as [-> Hp]. destruct Hs as [Hi Hl]. apply safe_bind.
    eapply safe_eq; [apply read_payload_eq; auto|].
    go_on IH Hp Hq.
  - apply run_prog_step with (fresh := fresh); [by apply keeps_self| |done]. intros c s' Hs'.
    go_on IH Hp Hq.
  - apply (run_prog_step I call_handler l fresh _ (λ _, p)); [| |done].
    + intros [c y] Hi. exact (stable_handler _ HJ c y h Hi).
    + intros _ s' Hs'. go_on IH Hp Hq.
  - destruct Hp as [Hb Hp].
    apply run_prog_step with (fresh := fresh); [by apply keeps_catching, keeps_text| |done]. intros r s' Hs'.
    go_on IH Hp Hq.
  - destruct Hp as [Hb Hp].
    apply run_prog_step with (fresh := fresh); [by apply keeps_catching, keeps_binary| |done]. intros r s' Hs'.
    go_on IH Hp Hq.
  - destruct Hp as [Hb Hp]. destruct Hq as [[]|Hq].
    apply run_prog_nest with (fresh := fresh); [by apply Hq| |done]. intros r s' Hs'.
    by eapply IH; [apply Hp|by right|].
  - destruct Hq as [[]|Hq]. apply run_prog_nest with (fresh := fresh); [by apply Hq| |done]. intros r s' Hs'.
    by eapply IH; [apply Hp|by right|].
  - apply run_prog_step with (fresh := fresh); [apply keeps_bind; [by apply keeps_self|auto with ws]| |done].
    intros st s' Hs'.
    go_on IH Hp Hq.
  - apply run_prog_step with (fresh := fresh); [apply keeps_bind; [by apply keeps_self|auto with ws]| |done].
    intros st s' Hs'.
    go_on IH Hp Hq.
Qed.

(** A method with the view it is lent. *)
Lemma keeps_method I call_handler v p :
  send_stable I → prog_ok true p →
  (quiet p ∨ (∀ timeout, (-2 ^ 31 ≤ timeout * 10 < 2 ^ 31)%Z →
                keeps I (close_with call_handler timeout)) ∧
             (∀ max_reads, keeps I (poll_with call_handler max_reads))) →
  keeps I (c ← self; run_prog call_handler (lend (m_parser c) v) p).
Proof.
  intros HI Hp Hq [c y] Hs. apply safe_bind. eapply safe_eq; [reflexivity|].
  by apply (run_prog_safe I call_handler _ true).
Qed.

(** A program that has no view. *)
Lemma keeps_prog I call_handler l p :
  send_stable I → prog_ok false p →
  (quiet p ∨ (∀ timeout, (-2 ^ 31 ≤ timeout * 10 < 2 ^ 31)%Z →
                keeps I (close_with call_handler timeout)) ∧
             (∀ max_reads, keeps I (poll_with call_handler max_reads))) →
  keeps I (run_prog call_handler l p).
Proof. intros HI Hp Hq s Hs. by apply (run_prog_safe I call_handler l false). Qed.

(** ** The invariant *)

Record good (s : state) : Prop := {
  good_parser : ∃ pend, represents (m_parser (fst s)) pend ∧ bytes_ok pend;
  good_factory : FrameFactory.wf (m_factory (fst s));
  good_status : m_connection_open (fst s) = true ↔ m_status (fst s) = HEALTHY
}.

Record since (c0 : t Hst St) (s : state) : Prop := {
  since_good : good s;
  since_started : nanotimer.time1 (m_ping_timer (fst s)) ≠ None;
  since_open : m_connection_open (fst s) = true → m_connection_open c0 = true;
  since_calls : calls c0 `prefix_of` calls (fst s)
}.

Lemma good_stable : send_stable good.
Proof.
  split.
  - by intros c y x y' [? ? ?].
  - by intros c y [? ? ?].
  - by intros c y f [? ? ?] Hf.
  - by intros c y h [? ? ?].
Qed.

Lemma since_stable c0 : send_stable (since c0).
Proof.
  split.
  - intros c y x y' [Hi ? ? ?]. split; [|done..]. by destruct Hi.
  - by intros c y [[] ? ? ?].
  - intros c y f [Hi ? ? ?] Hf. split; [|done..]. by destruct Hi.
  - intros c y h [Hi ? ? ?]. split; [|done..]. by destruct Hi.
Qed.

(** ** Receiving *)

Lemma with_buffer_represents p pend b' :
  represents p pend → FrameBuffer.extended (FrameParser.m_frame_buffer p) [] b' →
  represents (with_buffer p b') pend.
Proof.
  intros [Ht Hset] He. split; [|done].
  rewrite <-(app_nil_r pend). by eapply tracks_append; [..|constructor].
Qed.

(** One step of reading: at most 1024 bytes [c] arrive, and the parser
    delivers the first frame of what it had and [c]. *)
Lemma next_frame_safe (c : t Hst St) (y : Sys W) pend :
  represents (m_parser c) pend →
  safe next_frame (c, y)
    (λ r s', ∃ bs x p, fst s' = set_parser p (set_socket x c) ∧
       bytes_ok bs ∧ length bs ≤ 1024 ∧ delivers (pend ++ bs) r p)
    (λ s', ∃ x p, fst s' = set_parser p (set_socket x c) ∧ represents p pend).
Proof.
  intros Hp. unfold next_frame. apply safe_bind. unfold read_into.
  apply safe_zoom. cbn [fst snd].
  pose proof (read_into_law 1024 (m_socket c) (FrameParser.m_frame_buffer (m_parser c)) y
    ltac:(lia) (inv_buffer _ (proj1 (proj1 Hp)))) as Hr.
  unfold safe. destruct (st_read_into 1024 _) as [[nd|e|u|] [[x b'] y']]; try done.
  - destruct Hr as (bs & He & Hb & Hl & ->).
    destruct (update_delivers _ _ _ _ Hp Hb He) as (r & q & Hu & Hd).
    unfold on_parser, zoom. cbn [fst snd m_parser set_parser set_socket].
    unfold with_buffer in Hu. rewrite Hu. by exists bs, x, q.
  - exists x. eexists. split; [reflexivity|]. by apply with_buffer_represents.
Qed.

Lemma delivers_represents bytes r p :
  bytes_ok bytes → delivers bytes r p →
  (∃ pend, represents p pend ∧ bytes_ok pend) ∧
  (∀ f, r = Some f → f = FrameParser.m_frame p ∧ bytes_ok (FrameParser.deref p (Frame.payload f))).
Proof.
  intros Hb. unfold delivers.
  destruct (Rfc6455.decode code_len64 bytes) as [[w rest]|] eqn:Hd.
  - intros (-> & <- & Hr). apply Rfc6455.decode_bytes_ok in Hd as [Hw Hrest]; [|done].
    split; [by exists rest|]. by intros f [= <-].
  - intros [-> Hr]. split; [by exists bytes|done].
Qed.

(** The payload a delivered frame shows to the client. *)
Definition delivered_ok (r : option (Frame.t string_view)) (s : state) : Prop :=
  ∀ f, r = Some f → bytes_ok (Frame.payload (frame_of (m_parser (fst s)) f)).

Lemma next_frame_since c0 s :
  since c0 s →
  safe next_frame s (λ r s', since c0 s' ∧ delivered_ok r s') (since c0).
Proof.
  destruct s as [c y]. intros [[(pend & Hp & Hb) Hf Hst1] Hs Ho Hc].
  eapply safe_mono; [by apply next_frame_safe|..].
  - intros r [c' y'] (bs & x & p & Heq & Hbs & _ & Hd). cbn [fst] in Heq. subst c'.
    apply delivers_represents in Hd as [Hp' Hr]; [|by apply Forall_app].
    split; [|intros f Hf'; by apply Hr].
    split; [split; try done|done..].
  - intros [c' y'] (x & p & Heq & Hp'). cbn [fst] in Heq. subst c'.
    split; [split; [by exists pend|done..]|done..].
Qed.

Lemma keeps_clear c0 : keeps (since c0) (on_parser FrameParser.clear).
Proof.
  intros [c y] [[_ Hf Hst1] Hs Ho Hc]. apply safe_zoom, runs_safe.
  eapply runs_mono; [apply clear_represents|]. cbn beta. intros _ p Hp.
  split; [split; [by exists []; split; [|constructor]|done..]|done..].
Qed.

Lemma keeps_update_string c0 data :
  bytes_ok data → keeps (since c0) (on_parser (FrameParser.update_string data)).
Proof.
  intros Hb [c y] [[(pend & Hp & Hpb) Hf Hst1] Hs Ho Hc]. apply safe_zoom, runs_safe.
  eapply runs_mono.
  { unfold FrameParser.update_string. replace FrameBuffer.push_back_string
      with FrameBuffer.push_back_view by done. by apply update_view_delivers. }
  cbn beta. intros r p Hd.
  apply delivers_represents in Hd as [Hp' _]; [|by apply Forall_app].
  split; [split; done|done..].
Qed.

(** ** Pings *)

Lemma elapsed_eq (c : t Hst St) (y : Sys W) :
  on_timer nanotimer.get_elapsed_ms (c, y) =
  let '((sec2, nsec2), w) := sys_clock (env y) in
  let s' := (set_ping_timer (nanotimer.mk (nanotimer.time1 (m_ping_timer c))
               (Some (sec2, nsec2))) c, mkSys w (held y)) in
  match nanotimer.time1 (m_ping_timer c) with
  | Some (sec1, nsec1) =>
      (Ok (ddiv (dadd (dmul (to_double 1000000000) (to_double (sec2 - sec1)))
                      (to_double (nsec2 - nsec1))) (to_double 1000000)), s')
  | None => (UB uninitialised, s')
  end.
Proof.
  unfold on_timer, nanotimer.get_elapsed_ms, nanotimer.get_elapsed_ns, zoom, self,
    gets, call, update_self, modify, mret, M_ret, mbind, M_bind. cbn [fst snd].
  destruct (sys_clock (env y)) as [[sec2 nsec2] w]. cbn [fst snd nanotimer.time1].
  by destruct (nanotimer.time1 (m_ping_timer c)) as [[sec1 nsec1]|].
Qed.

(** An update of the client that [since c0] does not see. *)
Lemma keeps_update (I : state → Prop) (f : t Hst St → t Hst St) :
  (∀ c y, I (c, y) → I (f c, y)) → keeps I (update_self f).
Proof. intros Hf. by apply keeps_modify; intros [c y]; apply Hf. Qed.

Lemma keeps_waiting c0 b : keeps (since c0) (update_self (set_waiting_for_ping b)).
Proof. apply keeps_update. intros c y [[? ? ?] ? ? ?]. by split; [split|..]. Qed.

Lemma keeps_rtt c0 rtt : keeps (since c0) (update_self (set_last_rtt rtt)).
Proof. apply keeps_update. intros c y [[? ? ?] ? ? ?]. by split; [split|..]. Qed.

Lemma keeps_record c0 ev :
  keeps (since c0) (update_self (λ c, set_calls (calls c ++ [ev]) c)).
Proof.
  apply keeps_update. intros c y [[? ? ?] ? ? Hc]. split; [by split|done..|].
  by apply prefix_app_r.
Qed.

Lemma keeps_start c0 : keeps (since c0) (on_timer nanotimer.start).
Proof.
  intros [c y] [[? ? ?] ? ? ?]. unfold on_timer. apply safe_zoom. cbn [fst snd].
  unfold nanotimer.start, call, update_self, modify, safe, mbind, M_bind.
  destruct (sys_clock (env y)) as [now w]. by split; [split|..].
Qed.

Lemma keeps_elapsed c0 : keeps (since c0) (on_timer nanotimer.get_elapsed_ms).
Proof.
  intros [c y] [[? ? ?] Ht ? ?]. unfold on_timer. apply safe_zoom.
  cbn [fst snd] in *.
  unfold nanotimer.get_elapsed_ms, nanotimer.get_elapsed_ns, call, self, gets,
    update_self, modify, safe, mret, M_ret, mbind, M_bind.
  destruct (sys_clock (env y)) as [[sec nsec] w]. cbn [fst nanotimer.time1].
  destruct (nanotimer.time1 (m_ping_timer c)) as [[sec1 nsec1]|] eqn:Ht'; [|done].
  split; [by split|cbn; congruence|done|done].
Qed.

(** Closing: the flag and the status change together. *)
Lemma keeps_closing {A} c0 st (m : M state A) :
  st ≠ HEALTHY → keeps (since c0) m →
  keeps (since c0) (update_self (set_connection_open false);;
                    update_self (set_status st);; m).
Proof.
  intros Hne Hm [c y] [[? ? ?] ? ? ?]. apply (Hm (_, _)).
  split; [split|..]; try done.
Qed.

Lemma keeps_timing_out c0 :
  keeps (since c0) (update_self (set_connection_open false);;
                    update_self (set_status PING_TIMED_OUT);;
                    call_unit (sys_cout ping_timed_out)).
Proof. intros [c y] [[? ? ?] ? ? ?]. split; [split|..]; try done. Qed.

Lemma keeps_handle_pong c0 payload : keeps (since c0) (handle_pong payload).
Proof.
  apply keeps_bind; [apply keeps_elapsed|]. intros rtt.
  apply keeps_bind; [apply keeps_rtt|]. intros _.
  apply keeps_bind; [apply keeps_start|]. intros _. apply keeps_waiting.
Qed.

Lemma keeps_update_ping c0 : keeps (since c0) update_ping.
Proof.
  apply keeps_bind; [apply keeps_self|]. intros c. destruct (m_waiting_for_ping c).
  - apply keeps_bind; [apply keeps_elapsed|]. intros e. apply keeps_when. intros _.
    apply keeps_timing_out.
  - apply keeps_bind; [apply keeps_elapsed|]. intros e. apply keeps_when. intros _.
    apply keeps_bind; [apply keeps_waiting|]. intros _.
    apply keeps_bind; [apply keeps_start|]. intros _.
    apply keeps_ping; [apply since_stable|constructor].
Qed.

Lemma keeps_status c0 : keeps (since c0) status.
Proof. apply keeps_bind; [apply keeps_self|auto with ws]. Qed.

(** ** [poll] and [close], for any way of calling the handler *)

Section OpenRecursion.
Context (c0 : t Hst St) (call_handler : event → string_view → M state unit).
Context (Hcall : ∀ ev v, keeps (since c0) (call_handler ev v)).

Lemma dispatch_since f s :
  since c0 s → delivered_ok (Some f) s →
  safe (dispatch call_handler f) s (λ _, since c0) (since c0).
Proof.
  intros Hs Hb. specialize (Hb f eq_refl). unfold dispatch. apply safe_bind.
  eapply safe_eq; [reflexivity|].
  assert (∀ ev v, keeps (since c0)
    (call_handler ev v;; mret (A:=option ConnectionStatus) None)) as Hev by auto with ws.
  assert (keeps (since c0)
    (send_pong (Frame.payload (frame_of (m_parser (fst s)) f));;
     mret (A:=option ConnectionStatus) None)) as Hpong.
  { apply keeps_bind; [|auto with ws]. by apply keeps_pong; [apply since_stable|]. }
  destruct (Frame.opcode f); try (by apply Hev).
  - apply keeps_closing; [done| |done]. apply keeps_bind; [|intros _].
    + apply keeps_close; [apply since_stable|constructor].
    + apply keeps_bind; [apply Hcall|]. intros _.
      apply keeps_bind; [apply keeps_status|auto with ws].
  - by apply Hpong.
  - apply (keeps_bind (since c0)); [apply keeps_handle_pong|auto with ws|done].
Qed.

Lemma poll_loop_since n count max_reads r s :
  since c0 s → delivered_ok r s →
  safe (poll_loop call_handler n count max_reads r) s (λ _, since c0) (since c0).
Proof.
  revert count r s. induction n as [|n IH]; intros count r s Hs Hr;
    (destruct r as [f|]; [|done]); [done|].
  cbn [poll_loop]. apply safe_bind. eapply safe_mono; [by apply dispatch_since|..|done].
  intros [st|] s' Hs'; [done|]. cbv zeta.
  destruct (count + 1 >=? max_reads)%Z; [done|].
  apply safe_bind. eapply safe_mono; [by apply next_frame_since|..|done].
  intros r' s'' [Hs'' Hr']. by apply IH.
Qed.

Lemma keeps_poll_with max_reads : keeps (since c0) (poll_with call_handler max_reads).
Proof.
  intros s Hs. unfold poll_with. apply safe_bind.
  eapply safe_mono; [by apply next_frame_since|..|done]. intros r s' [Hs' Hr].
  apply safe_bind. eapply safe_mono; [by apply poll_loop_since|..|done].
  intros [st|] s'' Hs''; [done|]. revert s'' Hs''. apply keeps_bind.
  - apply keeps_update_ping.
  - intros _. apply keeps_status.
Qed.

Lemma keeps_wait_close n : keeps (since c0) (wait_close n).
Proof.
  induction n as [|n IH]; cbn [wait_close]; [auto with ws|].
  intros [c y] Hs. apply safe_bind. unfold on_socket. apply safe_zoom.
  pose proof (read_law 1024 (m_socket c) y) as Hr. unfold read_result in Hr.
  unfold safe at 1. cbn [fst snd].
  destruct (st_read 1024 (m_socket c, y)) as [[data|e|u|] [x y']]; try done.
  - cbn [fst snd]. cbn in Hr. destruct Hr as [_ Hb].
    assert (since c0 (set_socket x c, y')) as Hs'.
    { by eapply (stable_socket _ (since_stable c0)). }
    revert Hs'. generalize (set_socket x c, y'). apply keeps_bind.
    + by apply keeps_update_string.
    + intros f. case_match; [auto with ws|].
      apply keeps_bind; [|intros _; apply IH]. apply keeps_call_unit, since_stable.
  - by eapply (stable_socket _ (since_stable c0)).
Qed.

Lemma keeps_times_ten timeout :
  (-2 ^ 31 ≤ timeout * 10 < 2 ^ 31)%Z → keeps (since c0) (times_ten timeout).
Proof. intros Ht. unfold times_ten. rewrite decide_True by done. auto with ws. Qed.

Lemma keeps_closed_by_client {A} (m : M state A) :
  keeps (since c0) m →
  keeps (since c0) (update_self (set_status CLOSED_BY_CLIENT);;
                    update_self (set_connection_open false);; m).
Proof.
  intros Hm [c y] [[? ? ?] ? ? ?]. apply (Hm (_, _)). split; [split|..]; try done.
Qed.

Lemma keeps_close_with timeout :
  (-2 ^ 31 ≤ timeout * 10 < 2 ^ 31)%Z →
  keeps (since c0) (close_with call_handler timeout).
Proof.
  intros Ht. apply keeps_bind; [apply keeps_self|]. intros c.
  destruct (negb _); [auto with ws|].
  apply keeps_bind; [apply keeps_poll_with|]. intros _.
  apply keeps_bind; [apply keeps_clear|]. intros _.
  apply keeps_bind; [apply keeps_close; [apply since_stable|constructor]|]. intros _.
  apply keeps_closed_by_client.
  apply keeps_bind; [by apply keeps_times_ten|]. intros n.
  apply keeps_bind; [apply keeps_wait_close|]. intros success.
  apply keeps_bind; [apply Hcall|auto with ws].
Qed.
End OpenRecursion.

(** ** The closed system: any handler *)

Context (handler : notice → prog Hst) (Hhandler : handler_ok handler).

Lemma keeps_callback c0 depth ev v : keeps (since c0) (callback handler depth ev v).
Proof.
  revert ev v. induction depth as [|d IH]; intros ev v; cbn [callback]; [auto with ws|].
  apply keeps_bind; [apply keeps_record|]. intros _.
  apply keeps_method; [apply since_stable|apply Hhandler|]. right. split.
  - intros timeout Ht. by apply keeps_close_with.
  - intros max_reads. by apply keeps_poll_with.
Qed.

Lemma keeps_poll c0 depth max_reads : keeps (since c0) (poll handler depth max_reads).
Proof. apply keeps_poll_with, keeps_callback. Qed.

Lemma keeps_close_client c0 depth timeout :
  (-2 ^ 31 ≤ timeout * 10 < 2 ^ 31)%Z → keeps (since c0) (close handler depth timeout).
Proof. apply keeps_close_with, keeps_callback. Qed.

(** Closed, and the result reported to the handler. *)
Definition reported (c0 : t Hst St) (success : bool) (s : state) : Prop :=
  m_connection_open (fst s) = false ∧ m_status (fst s) ≠ HEALTHY ∧
  ∃ evs evs', calls (fst s) = calls c0 ++ evs ++ on_close success :: evs'.

Lemma closed_status (s : state) :
  good s → m_connection_open (fst s) = false → m_status (fst s) ≠ HEALTHY.
Proof. intros [_ _ Hs] Ho Hh. apply Hs in Hh. congruence. Qed.

(** The last call of [close]: the event is recorded, whatever follows it. *)
Lemma callback_reports c0 depth success s :
  since c0 s → m_connection_open (fst s) = false →
  safe (callback handler depth (on_close success) empty_view) s (λ _, reported c0 success)
    (λ _, True).
Proof.
  intros Hs Ho. destruct depth as [|d]; [done|]. destruct s as [c y].
  cbn [callback]. apply safe_bind. eapply safe_eq; [reflexivity|].
  set (c1 := set_calls (calls c ++ [on_close success]) c).
  assert (since c1 (c1, y)) as Hc1.
  { destruct Hs as [[] ? ? ?]. split; [by split|done|done|done]. }
  eapply safe_keeps; [|exact Hc1| |done].
  { apply keeps_method; [apply since_stable|apply Hhandler|]. right. split.
    - intros timeout Ht. by apply keeps_close_client.
    - intros max_reads. by apply keeps_poll. }
  intros _ s' [Hg _ Ho' [evs' Hc']].
  assert (m_connection_open (fst s') = false) as Hf.
  { apply not_true_iff_false. intros Ht. apply Ho' in Ht. cbn in Ht, Ho. congruence. }
  split_and!; [done|by apply closed_status|].
  destruct Hs as [_ _ _ [evs Hevs]]. exists evs, evs'. cbn in Hc', Hevs.
  by rewrite Hc', Hevs, <-!app_assoc.
Qed.

(** What [close] does after its [poll]: the same whether or not that [poll]
    closed the connection. *)
Lemma close_rest_reports depth timeout s :
  (-2 ^ 31 ≤ timeout * 10 < 2 ^ 31)%Z → since (fst s) s →
  safe (on_parser FrameParser.clear;;
        send_close [];;
        update_self (set_status CLOSED_BY_CLIENT);;
        update_self (set_connection_open false);;
        n ← times_ten timeout;
        success ← wait_close (Z.to_nat n);
        callback handler depth (on_close success) empty_view;;
        mret success) s (λ success, reported (fst s) success) (λ _, True).
Proof.
  intros Ht Hs.
  apply safe_bind. eapply safe_keeps; [apply keeps_clear|exact Hs| |done]. intros _ s2 H2'.
  apply safe_bind. eapply safe_keeps; [apply keeps_close; [apply since_stable|constructor]
    |exact H2'| |done]. intros _ [c3 y3] [[? ? ?] ? ? [evs0 H3']].
  apply safe_bind. eapply safe_eq; [reflexivity|].
  apply safe_bind. eapply safe_eq; [reflexivity|].
  set (c4 := set_connection_open _ _).
  assert (since c4 (c4, y3)) as H4 by (split; [split|..]; done).
  apply safe_bind. eapply safe_keeps; [by apply keeps_times_ten|exact H4| |done].
  intros n s5 H5. apply safe_bind.
  eapply safe_keeps; [apply keeps_wait_close|exact H5| |done]. intros success s6 H6.
  assert (m_connection_open (fst s6) = false) as Hf6.
  { apply not_true_iff_false. intros Hf. by apply (since_open _ _ H6) in Hf. }
  apply safe_bind. eapply safe_mono; [by apply (callback_reports c4)|..|done].
  intros _ s7 (Hf & Hst7 & evs & evs' & Hev). split_and!; [done|done|].
  exists (evs0 ++ evs), evs'. rewrite Hev. cbn in H3' |- *. by rewrite H3', <-!app_assoc.
Qed.

Lemma close_after_poll depth timeout c y st s1 :
  (-2 ^ 31 ≤ timeout * 10 < 2 ^ 31)%Z →
  m_connection_open c = true → since c (c, y) →
  poll handler depth 4 (c, y) = (Ok st, s1) →
  since c s1 ∧
  safe (close handler depth timeout) (c, y) (λ success, reported (fst s1) success)
    (λ _, True).
Proof.
  intros Ht Ho Hc Hp. pose proof (keeps_poll c depth 4 (c, y) Hc) as Hk.
  unfold safe in Hk. rewrite Hp in Hk. split; [done|].
  unfold close, close_with. apply safe_bind.
  eapply safe_eq; [reflexivity|]. cbn [fst]. rewrite Ho. cbn [negb].
  apply safe_bind. eapply safe_eq; [exact Hp|]. apply close_rest_reports; [done|].
  destruct Hk. by split.
Qed.

Lemma close_returns_closed depth timeout c y :
  (-2 ^ 31 ≤ timeout * 10 < 2 ^ 31)%Z →
  good (c, y) → nanotimer.time1 (m_ping_timer c) ≠ None →
  safe (close handler depth timeout) (c, y) (λ success s',
    if m_connection_open c then reported c success s'
    else success = true ∧ s' = (c, y)) (λ _, True).
Proof.
  intros Ht Hg Hs. assert (since c (c, y)) as Hc by (by split).
  destruct (m_connection_open c) eqn:Ho.
  2: { unfold close, close_with. apply safe_bind. eapply safe_eq; [reflexivity|].
       cbn [fst]. by rewrite Ho. }
  pose proof (keeps_poll c depth 4 (c, y) Hc) as Hk.
  destruct (poll handler depth 4 (c, y)) as [[st|e|u|] s1] eqn:Hp.
  - destruct (close_after_poll depth timeout c y st s1 Ht Ho Hc Hp) as [[_ _ _ [evs0 He]] Hr].
    eapply safe_mono; [exact Hr|..|done].
    intros success s' (? & ? & evs & evs' & Hev). split_and!; [done|done|].
    exists (evs0 ++ evs), evs'. by rewrite Hev, He, <-!app_assoc.
  - unfold close, close_with. apply safe_bind. eapply safe_eq; [reflexivity|].
    cbn [fst]. rewrite Ho. cbn [negb]. apply safe_bind. unfold safe.
    unfold poll in Hp. by rewrite Hp.
  - unfold safe in Hk. by rewrite Hp in Hk.
  - unfold close, close_with. apply safe_bind. eapply safe_eq; [reflexivity|].
    cbn [fst]. rewrite Ho. cbn [negb]. apply safe_bind. unfold safe.
    unfold poll in Hp. by rewrite Hp.
Qed.

(** ** Connecting *)

Definition int10 (timeout : Z) : Prop := (-2 ^ 31 ≤ timeout * 10 < 2 ^ 31)%Z.

(** The state once the connection is open and no [poll] has run. *)
Definition opened (s : state) : Prop :=
  good s ∧ m_connection_open (fst s) = true ∧ m_status (fst s) = HEALTHY.

Lemma opened_stable : send_stable opened.
Proof.
  pose proof good_stable as [G1 G2 G3 G4]. split.
  - intros c y x y' (? & ? & ?). split; [by eapply G1|done].
  - intros c y (? & _). by eapply G2.
  - intros c y f (? & ? & ?) ?. split; [by apply G3|done].
  - intros c y h (? & ? & ?). split; [by apply G4|done].
Qed.

Lemma keeps_on_sys (I : state → Prop) {A} (m : M (Sys W) A) :
  send_stable I → no_ub m → keeps I (on_sys m).
Proof.
  intros HI Hm [c y] Hi. apply safe_zoom. cbn [fst snd].
  eapply safe_mono; [by apply no_ub_safe|..]; cbn beta; intros;
    by eapply keeps_env.
Qed.

Lemma keeps_on_local (I : state → Prop) {X A} (x : X) (m : M (X * Sys W) A) :
  send_stable I → no_ub m → keeps I (on_local x m).
Proof.
  intros HI Hm [c y] Hi. apply safe_zoom. cbn [fst snd].
  eapply safe_mono; [by apply no_ub_safe|..]; cbn beta; intros;
    by eapply keeps_env.
Qed.

Lemma keeps_open_socket I : send_stable I → keeps I open_socket.
Proof.
  intros HI. apply keeps_bind; [apply keeps_self|]. intros c.
  apply keeps_bind; [by apply keeps_on_sys, construct_law|]. intros tmp.
  apply keeps_bind; [by apply keeps_socket, move_assign_law|]. intros rest.
  by apply keeps_on_local, destroy_law.
Qed.

Lemma keeps_read_response I n response :
  send_stable I → keeps I (read_response n response).
Proof.
  intros HI. revert response. induction n as [|n IH]; intros response;
    cbn [read_response]; [auto with ws|].
  apply keeps_bind; [by apply keeps_socket, read_no_ub|]. intros chunk. cbv zeta.
  case_match; [auto with ws|].
  apply keeps_bind; [by apply keeps_call_unit|]. intros _. apply IH.
Qed.

(** What [connect] does up to the response. *)
Lemma connect_prefix (I : state → Prop) depth timeout
    (Q : bool → state → Prop) (E : state → Prop) s :
  send_stable I → int10 timeout → I s → (∀ s, I s → E s) →
  (∀ response s', I s' →
     safe (update_self (set_connection_open (contains (str "HTTP/1.1 101") response));;
           c ← self;
           (if m_connection_open c then
              update_self (set_status HEALTHY);; callback handler depth on_open empty_view
            else update_self (set_status FAILED));;
           c ← self; mret (m_connection_open c)) s' Q E) →
  safe (connect handler depth timeout) s Q E.
Proof.
  intros HI Ht Hi HE Hrest. unfold connect. apply safe_bind.
  eapply safe_keeps; [by apply keeps_open_socket|done| |done]. intros _ s1 Hs1.
  apply safe_bind. eapply safe_eq; [reflexivity|]. cbv zeta.
  apply safe_bind. eapply safe_keeps; [|exact Hs1| |done].
  { apply keeps_bind; [by apply keeps_call|auto with ws]. }
  intros key s2 Hs2. apply safe_bind.
  eapply safe_keeps; [by apply keeps_socket, send_law|done| |done]. intros _ s3 Hs3.
  apply safe_bind. unfold times_ten. rewrite decide_True by done.
  eapply safe_eq; [reflexivity|]. apply safe_bind.
  eapply safe_keeps; [by apply keeps_read_response|done| |done].
  intros response s4 Hs4. by apply Hrest.
Qed.

Lemma connect_good depth timeout s :
  int10 timeout → quiet (handler on_open) → good s →
  safe (connect handler depth timeout) s
    (λ ok s', good s' ∧ (ok = true → opened s')) (λ _, True).
Proof.
  intros Ht Hq Hs. eapply (connect_prefix good); [apply good_stable|done..| ].
  intros response [c y] [Hp Hf _]. apply safe_bind.
  eapply safe_eq; [reflexivity|]. apply safe_bind. eapply safe_eq; [reflexivity|].
  apply safe_bind. cbn [fst m_connection_open set_connection_open].
  destruct (contains _ response).
  - assert (keeps opened (callback handler depth on_open empty_view)) as Hcb.
    { destruct depth as [|d]; cbn [callback]; [auto with ws|].
      apply keeps_bind.
      - apply keeps_update. intros c' y' ([] & ? & ?). by split; [split|].
      - intros _. apply keeps_method; [apply opened_stable|apply Hhandler|by left]. }
    apply safe_bind. eapply safe_eq; [reflexivity|].
    eapply (safe_keeps opened); [done|split; [by split|done]| |done].
    intros _ s' Hs'. apply safe_bind. eapply safe_eq; [reflexivity|].
    apply safe_ret. split; [apply Hs'|done].
  - eapply safe_eq; [reflexivity|]. apply safe_bind. eapply safe_eq; [reflexivity|].
    cbn. split; [by split|done].
Qed.

(** A client that has been constructed. *)
Definition running (s : state) : Prop :=
  opened s ∧ nanotimer.time1 (m_ping_timer (fst s)) ≠ None.

Lemma running_stable : send_stable running.
Proof.
  pose proof opened_stable as [G1 G2 G3 G4]. split.
  - intros c y x y' (? & ?). split; [by eapply G1|done].
  - intros c y (? & _). by eapply G2.
  - intros c y f (? & ?) ?. split; [by apply G3|done].
  - intros c y h (? & ?). split; [by apply G4|done].
Qed.

Lemma running_since c y : running (c, y) → since c (c, y).
Proof. intros [[? _] ?]. by split. Qed.

Lemma start_up_running depth timeout s :
  int10 timeout → quiet (handler on_open) → good s →
  safe (start_up handler depth timeout) s (λ _, running) (λ _, True).
Proof.
  intros Ht Hq Hs. unfold start_up. apply safe_bind.
  eapply safe_mono; [by apply connect_good|..|done].
  intros [] [c y] [_ Ho]; cbn [negb]; [|done].
  destruct (Ho eq_refl) as ([] & ? & ?).
  apply safe_bind. eapply safe_eq; [reflexivity|]. apply safe_bind.
  unfold on_timer. apply safe_zoom.
  unfold nanotimer.start, call, update_self, modify, safe at 1, mbind, M_bind.
  cbn [fst snd]. destruct (sys_clock (env y)) as [now w].
  eapply (safe_keeps running); [|..|done|done].
  - apply keeps_ping; [apply running_stable|constructor].
  - split; [|done]. split; [by split|done].
Qed.

Lemma initial_good h host path port extra_headers ping_frequency ping_timeout
    junk factory y :
  length (Frame.masking_key junk) = 4 → FrameFactory.wf factory →
  good (initial h host path port extra_headers ping_frequency ping_timeout
          junk factory, y).
Proof.
  intros Hj Hf. split; cbn; [|done|done].
  exists []. split; [by apply new_represents|constructor].
Qed.

Lemma construct_running depth host path port extra_headers timeout
    ping_frequency ping_timeout junk (s : Hst * Sys W) :
  int10 timeout → quiet (handler on_open) → length (Frame.masking_key junk) = 4 →
  safe (construct handler depth host path port extra_headers timeout
          ping_frequency ping_timeout junk) s
    (λ c s', running (c, snd s') ∧ m_handler c = fst s') (λ _, True).
Proof.
  intros Ht Hq Hj. unfold construct, device_random. apply safe_bind.
  assert (∀ (Q : Z → Hst * Sys W → Prop) (x : Hst * Sys W),
    (∀ z x', (0 ≤ z < 2 ^ 64)%Z → Q z x') →
    safe (z ← call next_u64; mret (u64 z)) x Q (λ _, True)) as Hr.
  { intros Q [h y] HQ. unfold safe, call, mbind, M_bind.
    destruct (next_u64 (env y)) as [z w]. apply HQ, u64_bound. }
  apply Hr. intros seed1 s1 H1'. apply safe_bind, Hr. intros seed2 s2 H2'.
  destruct (FrameFactory.new_factory_runs 4096 seed1 seed2 H1' H2')
    as (f & -> & Hf). destruct s2 as [h y].
  pose proof (start_up_running depth timeout
    (initial h host path port extra_headers ping_frequency ping_timeout junk f, y)
    Ht Hq (initial_good _ _ _ _ _ _ _ _ _ _ Hj Hf)) as Hs.
  unfold constructed, safe in *.
  destruct (start_up _ _ _ _) as [[u|e|u|] [c y']]; try done.
  by destruct (st_destroy _) as [? [? ?]].
Qed.

(** ** A whole session *)

(** Outside the handler there is no frame to view. *)
Definition no_view : lent := Lent empty_view 0.

(** The program that owns the client: it constructs it, works with it through
    its public methods, and destroys it. *)
Definition session (depth : nat) (host path : string) (port : Z)
    (extra_headers : string) (connection_timeout ping_frequency ping_timeout : Z)
    (junk : Frame.t string_view) (main : prog Hst) :
    M (Hst * Sys W) (list event) := λ s,
  match construct handler depth host path port extra_headers connection_timeout
          ping_frequency ping_timeout junk s with
  | (Ok c, s') =>
      let work :=
        _ ← catching (run_prog (callback handler depth) no_view main);
        _ ← destroy handler depth;
        c ← self; mret (calls c) in
      let '(o, (c', y')) := work (c, snd s') in (o, (m_handler c', y'))
  | (Throw e, s') => (Throw e, s')
  | (UB u, s') => (UB u, s')
  | (OutOfFuel, s') => (OutOfFuel, s')
  end.

Lemma keeps_main c0 depth main :
  prog_ok false main → keeps (since c0) (run_prog (callback handler depth) no_view main).
Proof.
  intros Hm. apply keeps_prog; [apply since_stable|done|]. right. split.
  - intros timeout Ht. by apply keeps_close_client.
  - intros max_reads. by apply keeps_poll.
Qed.

Lemma keeps_destroy c0 depth : keeps (since c0) (destroy handler depth).
Proof.
  apply keeps_bind; [by apply keeps_catching, keeps_close_client|].
  intros [e|b]; [auto with ws|].
  apply keeps_bind; [by apply keeps_socket, destroy_law; apply since_stable|auto with ws].
Qed.

Lemma session_no_ub depth host path port extra_headers connection_timeout
    ping_frequency ping_timeout junk main :
  int10 connection_timeout → quiet (handler on_open) →
  length (Frame.masking_key junk) = 4 → prog_ok false main →
  no_ub (session depth host path port extra_headers connection_timeout
           ping_frequency ping_timeout junk main).
Proof.
  intros Ht Hq Hj Hm s _. unfold session.
  pose proof (construct_running depth host path port extra_headers connection_timeout
    ping_frequency ping_timeout junk s Ht Hq Hj) as Hc.
  unfold safe in Hc |- * at 1. destruct (construct _ _ _ _ _ _ _ _ _ _ s) as [[c|e|u|] s'];
    try done. destruct Hc as [Hc _].
  assert (keeps (since c) (_ ← catching (run_prog (callback handler depth) no_view main);
    _ ← destroy handler depth; c ← self; mret (calls c))) as Hk.
  { apply keeps_bind; [by apply keeps_catching, keeps_main|]. intros _.
    apply keeps_bind; [apply keeps_destroy|]. intros _.
    apply keeps_bind; [apply keeps_self|auto with ws]. }
  specialize (Hk (c, snd s') (running_since _ _ Hc)). unfold safe in Hk.
  by destruct ((_ ← catching _; _) _) as [[] [? ?]].
Qed.

End Invariants.
