(* ===== verification/ClientWire.v ===== *)
(** What the client does to the two byte streams of its connection. A socket
    that accounts for its bytes ([SocketStream]) is the interface; [spec_run] is
    the protocol a client promises: every data frame goes to the handler, a PING
    is answered by a PONG with its payload, a CLOSE by a CLOSE and [on_close],
    and what the handler asks to send is sent. [poll] implements it on the
    frames of the received bytes, and [connect] the opening handshake. *)

From S2P Require Import Prelude Buffer Rfc6455 Frames Factory Parser ParserSpec Sys Sockets SocketSpec SocketStream Handshake Client ClientSpec.
Import WSClient.

(** ** The protocol *)

(** A message asked for: its opcode and payload. *)
Definition message : Type := Opcode.t * list Z.

(** [out] is one final masked frame per message, in order. *)
Definition carries (out : list Z) (msgs : list message) : Prop :=
  ∃ pieces, out = concat pieces ∧
    Forall2 (λ piece m, FrameFactory.frame_bytes true (fst m) true (snd m) piece)
      pieces msgs.

Lemma carries_nothing out : carries out [] → out = [].
Proof. intros (pieces & -> & Hpieces). by inversion Hpieces. Qed.

Lemma carries_nil : carries [] [].
Proof. exists []. by split. Qed.

Lemma carries_one op payload out :
  FrameFactory.frame_bytes true op true payload out → carries out [(op, payload)].
Proof. intros H. exists [out]. split; [by rewrite concat_cons, app_nil_r|by repeat constructor]. Qed.

Lemma carries_app o1 o2 m1 m2 :
  carries o1 m1 → carries o2 m2 → carries (o1 ++ o2) (m1 ++ m2).
Proof.
  intros (p1 & -> & H1) (p2 & -> & H2). exists (p1 ++ p2).
  split; [by rewrite concat_app|by apply Forall2_app].
Qed.

Section Protocol.
Context {Hst : Type} (handler : notice → prog Hst).

(** A straight handler method: it sends, letting through what a send throws,
    works on its own state, and may throw; it does not poll, close, or ask for
    the status or the round trip time. The payloads fit the socket's limit. *)
Fixpoint straight (limit : Z) (p : prog Hst) : Prop :=
  match p with
  | Return | Raise _ => True
  | Payload k => ∀ bytes, straight limit (k bytes)
  | Get k => ∀ h, straight limit (k h)
  | Put _ k => straight limit k
  | SendText payload k | SendBinary payload k =>
      payload_ok payload ∧ (Z.of_nat (length payload) + 14 < limit)%Z ∧
      (∀ e, k (inl e) = Raise e) ∧ straight limit (k (inr tt))
  | Close _ _ | Poll _ _ | Status _ | LastRtt _ => False
  end.

(** What such a method asks to send, and the state it leaves, when its frame
    has the payload [bytes]; nothing when it throws. *)
Fixpoint says (bytes : list Z) (p : prog Hst) (h : Hst) : option (list message * Hst) :=
  match p with
  | Return => Some ([], h)
  | Payload k => says bytes (k bytes) h
  | Get k => says bytes (k h) h
  | Put h' k => says bytes k h'
  | SendText payload k =>
      '(msgs, h') ← says bytes (k (inr tt)) h; Some ((Opcode.TEXT, payload) :: msgs, h')
  | SendBinary payload k =>
      '(msgs, h') ← says bytes (k (inr tt)) h; Some ((Opcode.BINARY, payload) :: msgs, h')
  | _ => None
  end.

Definition payload_of (ev : event) : list Z :=
  match ev with
  | on_open | on_close _ => []
  | on_text f | on_binary f | on_continuation f => Frame.payload f
  end.

(** The handler's answer to a call. *)
Definition answers (ev : event) : Hst → option (list message * Hst) :=
  says (payload_of ev) (handler (notice_of ev)).

(** The frame a handler is given for a wire frame; the key of an unmasked
    frame has no meaning. *)
Definition shows (w : Rfc6455.wire) (f : frame) : Prop :=
  w = Rfc6455.Wire (Frame.fin f) (Opcode.to_u8 (Frame.opcode f))
        (if Frame.mask f then Some (Frame.masking_key f) else None)
        (Frame.payload f).

Definition event_of (f : frame) : option event :=
  match Frame.opcode f with
  | Opcode.TEXT => Some (on_text f)
  | Opcode.BINARY => Some (on_binary f)
  | Opcode.PING | Opcode.PONG | Opcode.CLOSE => None
  | _ => Some (on_continuation f)
  end.

Lemma event_of_payload f ev : event_of f = Some ev → payload_of ev = Frame.payload f.
Proof. unfold event_of. destruct (Frame.opcode f); try done; by intros [= <-]. Qed.

(** From handler state [h], receiving the frames [ws] calls the handler with
    [evs], sends [msgs] and leaves [h']; [closed] says that the last frame was
    a CLOSE. *)
Inductive spec_run :
    Hst → list Rfc6455.wire → list event → list message → Hst → bool → Prop :=
  | run_nil h : spec_run h [] [] [] h false
  | run_data h w f ev msgs1 h1 ws evs msgs h' closed :
      shows w f → event_of f = Some ev →
      answers ev h = Some (msgs1, h1) →
      spec_run h1 ws evs msgs h' closed →
      spec_run h (w :: ws) (ev :: evs) (msgs1 ++ msgs) h' closed
  | run_ping h w f ws evs msgs h' closed :
      shows w f → Frame.opcode f = Opcode.PING → length (Frame.payload f) ≤ 125 →
      spec_run h ws evs msgs h' closed →
      spec_run h (w :: ws) evs ((Opcode.PONG, Frame.payload f) :: msgs) h' closed
  | run_pong h w f ws evs msgs h' closed :
      shows w f → Frame.opcode f = Opcode.PONG →
      spec_run h ws evs msgs h' closed →
      spec_run h (w :: ws) evs msgs h' closed
  | run_close h w f msgs h' :
      shows w f → Frame.opcode f = Opcode.CLOSE →
      answers (on_close true) h = Some (msgs, h') →
      spec_run h [w] [on_close true] ((Opcode.CLOSE, []) :: msgs) h' true.
End Protocol.

(** ** Total correctness with exceptions *)

(** As [safe], and no bound is too small. *)
Definition ends {S A} (m : M S A) (s : S) (Q : A → S → Prop) (E : S → Prop) : Prop :=
  match m s with
  | (Ok a, s') => Q a s'
  | (Throw _, s') => E s'
  | _ => False
  end.

Section Ends.
Context {S : Type}.

Lemma ends_bind {A B} (m : M S A) (f : A → M S B) s (Q : B → S → Prop) E :
  ends m s (λ a s', ends (f a) s' Q E) E → ends (m ≫= f) s Q E.
Proof. unfold ends, mbind, M_bind. by destruct (m s) as [[] ?]. Qed.

Lemma ends_mono {A} (m : M S A) s (Q R : A → S → Prop) (E F : S → Prop) :
  ends m s Q E → (∀ a s', Q a s' → R a s') → (∀ s', E s' → F s') → ends m s R F.
Proof. unfold ends. destruct (m s) as [[] ?]; auto. Qed.

Lemma ends_eq {A} (m : M S A) s a s' (Q : A → S → Prop) E :
  m s = (Ok a, s') → Q a s' → ends m s Q E.
Proof. unfold ends. by intros ->. Qed.

Lemma runs_ends {A} (m : M S A) s (Q : A → S → Prop) E : runs m s Q → ends m s Q E.
Proof. intros (a & s' & Hm & HQ). by apply (ends_eq _ _ a s'). Qed.

Lemma ends_zoom {T A} (prj : S → T) (upd : T → S → S) (m : M T A) s
    (Q : A → S → Prop) (E : S → Prop) :
  ends m (prj s) (λ a t, Q a (upd t s)) (λ t, E (upd t s)) → ends (zoom prj upd m) s Q E.
Proof. unfold ends, zoom. by destruct (m (prj s)) as [[] ?]. Qed.

(** Only the normal case matters. *)
Definition returns {A} (m : M S A) (s : S) (Q : A → S → Prop) : Prop :=
  ends m s Q (λ _, True).
End Ends.

Section Wire.
Context {Hst St W : Type} `{Target, OS W, Entropy W, !SocketType St W, !SocketStream St W}.
Context (Hhard : hardened = false) (Hlimit : (139 < send_limit)%Z).

Local Notation "'state'" := (@state Hst St W).

Definition got_of (s : state) : list Z := got (m_socket (fst s)) (env (snd s)).
Definition put_of (s : state) : list Z := put (m_socket (fst s)) (env (snd s)).
Definition ahead_of (s : state) : list Z := ahead (m_socket (fst s)) (env (snd s)).

(** From [s] to [s'], [bs] was received, [msgs] sent and [evs] handled. *)
Record went (s s' : state) (bs : list Z) (msgs : list message) (evs : list event) :
    Prop := {
  went_got : got_of s' = got_of s ++ bs;
  went_put : ∃ out, put_of s' = put_of s ++ out ∧ carries out msgs;
  went_calls : calls (fst s') = calls (fst s) ++ evs;
  went_factory : FrameFactory.wf (m_factory (fst s'));
  went_started : nanotimer.time1 (m_ping_timer (fst s)) ≠ None →
                 nanotimer.time1 (m_ping_timer (fst s')) ≠ None;
  (** nothing the peer has sent is lost *)
  went_ahead : ahead_of s `prefix_of` bs ++ ahead_of s'
}.

Definition link (s : state) : bool * ConnectionStatus :=
  (m_connection_open (fst s), m_status (fst s)).

(** The rest of what a send leaves alone. *)
Definition kept (s s' : state) : Prop :=
  link s' = link s ∧ m_parser (fst s') = m_parser (fst s) ∧
  m_waiting_for_ping (fst s') = m_waiting_for_ping (fst s).

Lemma went_refl s : FrameFactory.wf (m_factory (fst s)) → went s s [] [] [].
Proof.
  intros Hf. split; try done; rewrite ?app_nil_r; try done.
  exists []. rewrite app_nil_r. split; [done|apply carries_nil].
Qed.

Lemma went_trans s s1 s2 b1 b2 m1 m2 e1 e2 :
  went s s1 b1 m1 e1 → went s1 s2 b2 m2 e2 →
  went s s2 (b1 ++ b2) (m1 ++ m2) (e1 ++ e2).
Proof.
  intros [Hg1 (o1 & Hp1 & Hc1) He1 _ Hs1 Ha1] [Hg2 (o2 & Hp2 & Hc2) He2 Hf2 Hs2 Ha2]. split.
  - by rewrite Hg2, Hg1, app_assoc.
  - exists (o1 ++ o2). split; [by rewrite Hp2, Hp1, app_assoc|by apply carries_app].
  - by rewrite He2, He1, app_assoc.
  - done.
  - auto.
  - rewrite <-app_assoc. etrans; [done|by apply prefix_app].
Qed.

Lemma kept_trans s s1 s2 : kept s s1 → kept s1 s2 → kept s s2.
Proof. intros (? & ? & ?) (? & ? & ?). split_and!; congruence. Qed.

(** An update of fields that [went] does not look at. *)
Lemma went_update s f :
  FrameFactory.wf (m_factory (fst s)) →
  m_socket (f (fst s)) = m_socket (fst s) → m_factory (f (fst s)) = m_factory (fst s) →
  calls (f (fst s)) = calls (fst s) → m_ping_timer (f (fst s)) = m_ping_timer (fst s) →
  went s (f (fst s), snd s) [] [] [].
Proof.
  intros Hf Hs Hf' Hc Ht. split; unfold got_of, put_of, ahead_of; cbn [fst snd];
    rewrite ?Hs, ?Hf', ?Hc, ?Ht, ?app_nil_r; try done.
  exists []. rewrite app_nil_r. split; [done|apply carries_nil].
Qed.

(** ** Sending one message *)

Definition sent (s : state) (msgs : list message) (s' : state) : Prop :=
  went s s' [] msgs [] ∧ kept s s' ∧ m_handler (fst s') = m_handler (fst s).

Lemma frame_bytes_fit op payload out :
  is_byte (Opcode.to_u8 op) → payload_ok payload →
  FrameFactory.frame_bytes true op true payload out → length out ≤ length payload + 14.
Proof.
  intros Ho [Hb Hl] (key & Hkey & ->). destruct Hkey as [Hk1 Hk2]; [done|].
  pose proof (Frame.length_encode_to_wire (Frame.mk true true op key payload)) as He.
  cbn [Frame.payload] in He. by specialize (He ltac:(by split)).
Qed.

Lemma send_message op payload (s : state) :
  is_byte (Opcode.to_u8 op) → payload_ok payload →
  (Z.of_nat (length payload) + 14 < send_limit)%Z →
  FrameFactory.wf (m_factory (fst s)) →
  returns (out ← on_factory (FrameFactory.construct true op true payload); send out) s
    (λ _, sent s [(op, payload)]).
Proof.
  intros Ho Hpay Hsmall Hf. destruct s as [c y]. apply ends_bind, ends_zoom.
  apply runs_ends. cbn [fst snd] in *.
  eapply runs_mono; [by destruct Hpay; apply FrameFactory.factory_construct_runs|].
  cbn beta.
  intros out f [Hout Hf']. unfold send. apply ends_bind, ends_zoom.
  cbn [fst snd set_factory m_socket].
  pose proof (frame_bytes_fit op payload out Ho Hpay Hout) as Hfit.
  assert (Z.of_nat (length out) < send_limit)%Z as Hlen by lia.
  pose proof (stream_send out (m_socket c) y Hlen) as Hs. unfold ends.
  destruct (st_send out (m_socket c, y)) as [[n|e|u|] [x y']]; try done.
  destruct Hs as (Hg & Hp & Ha). unfold mret, M_ret. split; [|by split_and!].
  split; unfold got_of, put_of, ahead_of; cbn; rewrite ?app_nil_r; try done.
  exists out. split; [done|by apply carries_one].
Qed.

Lemma send_control op payload e (s : state) :
  is_byte (Opcode.to_u8 op) → bytes_ok payload → FrameFactory.wf (m_factory (fst s)) →
  returns (out ← on_factory
             (if 125 <? length payload then throw e
              else FrameFactory.construct true op true payload); send out) s
    (λ _ s', length payload ≤ 125 ∧ sent s [(op, payload)] s').
Proof.
  intros Ho Hb Hf. destruct (Nat.ltb_spec 125 (length payload)); [done|].
  eapply ends_mono; [apply send_message; [done|split; [done|lia]|lia|done]|auto..].
Qed.

Lemma send_pong_returns payload (s : state) :
  bytes_ok payload → FrameFactory.wf (m_factory (fst s)) →
  returns (send_pong payload) s
    (λ _ s', length payload ≤ 125 ∧ sent s [(Opcode.PONG, payload)] s').
Proof. intros. by apply send_control; [cbn; unfold is_byte; lia|..]. Qed.

Lemma send_close_returns payload (s : state) :
  bytes_ok payload → FrameFactory.wf (m_factory (fst s)) →
  returns (send_close payload) s
    (λ _ s', length payload ≤ 125 ∧ sent s [(Opcode.CLOSE, payload)] s').
Proof. intros. by apply send_control; [cbn; unfold is_byte; lia|..]. Qed.

Lemma send_ping_returns payload (s : state) :
  bytes_ok payload → FrameFactory.wf (m_factory (fst s)) →
  returns (send_ping payload) s
    (λ _ s', length payload ≤ 125 ∧ sent s [(Opcode.PING, payload)] s').
Proof. intros. by apply send_control; [cbn; unfold is_byte; lia|..]. Qed.

(** ** A handler method *)

Definition acted (s : state) (r : option (list message * Hst)) (s' : state) : Prop :=
  ∃ msgs h', r = Some (msgs, h') ∧ went s s' [] msgs [] ∧ kept s s' ∧
    m_handler (fst s') = h'.

Lemma ends_catching {S A} (m : M S A) (s : S) (Q : exn + A → S → Prop) E :
  ends m s (λ a, Q (inr a)) (λ s', ∀ e, Q (inl e) s') → ends (catching m) s Q E.
Proof. unfold ends, catching. destruct (m s) as [[] ?]; auto. Qed.

(** [bytes] is what the view lent shows in [s]. *)
Definition shows_through (l : lent) (bytes : list Z) (s : state) : Prop :=
  lasting l s ∧ FrameParser.deref (m_parser (fst s)) (lent_view l) = bytes.

Lemma shows_through_kept l bytes s s' :
  shows_through l bytes s → m_parser (fst s') = m_parser (fst s) → shows_through l bytes s'.
Proof. unfold shows_through, lasting. by intros [? ?] ->. Qed.

Lemma run_prog_acts call_handler l bytes p (s : state) :
  straight send_limit p → FrameFactory.wf (m_factory (fst s)) → shows_through l bytes s →
  returns (run_prog call_handler l p) s (λ _, acted s (says bytes p (m_handler (fst s)))).
Proof.
  revert s. induction p as [|e|k IH|k IH|h p IH|bs k IH|bs k IH|t k IH|n k IH|k IH|k IH];
    intros s Hp Hf Hv; cbn [run_prog straight says] in *; try done.
  - exists [], (m_handler (fst s)). by split_and!; [|apply went_refl|..].
  - apply ends_bind. eapply ends_eq; [by apply read_payload_eq, Hv|].
    destruct Hv as [Hv <-]. by apply IH.
  - apply ends_bind. eapply ends_eq; [reflexivity|]. by apply IH.
  - apply ends_bind. destruct s as [c y]. eapply ends_eq; [reflexivity|].
    eapply ends_mono; [by apply IH|..|done]. cbn [fst].
    intros _ s' (msgs & h' & Hsay & Hw & Hk & Hh). exists msgs, h'.
    split_and!; [done|..]; [|done|done].
    by destruct Hw as [? (out & ? & ?) ? ? ? ?]; split; [|exists out|..].
  - destruct Hp as (Hpay & Hl & He & Hp). apply ends_bind, ends_catching.
    unfold send_text, FrameFactory.text.
    eapply ends_mono; [by apply send_message; [cbn; unfold is_byte; lia|..]|..].
    + intros [] s1 (Hw & Hk & Hh). eapply ends_mono;
        [apply IH; [done|by destruct Hw|by eapply shows_through_kept; [|apply Hk]]|..|done].
      intros _ s2 (msgs & h' & Hsay & Hw2 & Hk2 & Hh2). rewrite Hh in Hsay.
      exists ((Opcode.TEXT, bs) :: msgs), h'. rewrite Hsay.
      split_and!; [done| |by eapply kept_trans|done].
      by apply (went_trans _ _ _ [] [] [_] msgs [] [] Hw Hw2).
    + intros s1 _ e. by rewrite He.
  - destruct Hp as (Hpay & Hl & He & Hp). apply ends_bind, ends_catching.
    unfold send_binary, FrameFactory.binary.
    eapply ends_mono; [by apply send_message; [cbn; unfold is_byte; lia|..]|..].
    + intros [] s1 (Hw & Hk & Hh). eapply ends_mono;
        [apply IH; [done|by destruct Hw|by eapply shows_through_kept; [|apply Hk]]|..|done].
      intros _ s2 (msgs & h' & Hsay & Hw2 & Hk2 & Hh2). rewrite Hh in Hsay.
      exists ((Opcode.BINARY, bs) :: msgs), h'. rewrite Hsay.
      split_and!; [done| |by eapply kept_trans|done].
      by apply (went_trans _ _ _ [] [] [_] msgs [] [] Hw Hw2).
    + intros s1 _ e. by rewrite He.
Qed.

Context (handler : notice → prog Hst).

(** A call of the handler, as [spec_run] sees it. *)
Definition called (s : state) (ev : event) (s' : state) : Prop :=
  ∃ msgs, answers handler ev (m_handler (fst s)) = Some (msgs, m_handler (fst s')) ∧
    went s s' [] msgs [ev] ∧ kept s s'.

Lemma method_returns depth ev v (s : state) :
  straight send_limit (handler (notice_of ev)) → FrameFactory.wf (m_factory (fst s)) →
  FrameParser.deref (m_parser (fst s)) v = payload_of ev →
  returns (callback handler (S depth) ev v) s (λ _, called s ev).
Proof.
  intros Hm Hf Hv. destruct s as [c y]. cbn [callback]. apply ends_bind.
  eapply ends_eq; [reflexivity|]. apply ends_bind. eapply ends_eq; [reflexivity|].
  eapply ends_mono; [by apply run_prog_acts|..|done]. cbn [fst].
  intros _ s' (msgs & h' & Hsay & [Hg (out & Hp & Ho) Hc Hf' Hs Ha] & Hk & Hh).
  exists msgs. split_and!; [by rewrite Hh| |done].
  split; [done|by exists out| |done|done|done]. cbn in *. by rewrite Hc, app_nil_r.
Qed.

Context (Hhandler : ∀ m, straight send_limit (handler m)).

Lemma callback_returns depth ev v (s : state) :
  FrameFactory.wf (m_factory (fst s)) →
  FrameParser.deref (m_parser (fst s)) v = payload_of ev →
  returns (callback handler (S depth) ev v) s (λ _, called s ev).
Proof. by apply method_returns. Qed.

(** ** Receiving *)

Definition started (s : state) : Prop :=
  nanotimer.time1 (m_ping_timer (fst s)) ≠ None.

Lemma next_frame_returns pend (s : state) :
  represents (m_parser (fst s)) pend → FrameFactory.wf (m_factory (fst s)) →
  returns next_frame s (λ r s', ∃ bs, bytes_ok bs ∧ went s s' bs [] [] ∧
    (bs = [] → ahead_of s = []) ∧ link s' = link s ∧ m_handler (fst s') = m_handler (fst s) ∧
    delivers (pend ++ bs) r (m_parser (fst s'))).
Proof.
  intros Hp Hf. destruct s as [c y]. cbn [fst] in *. unfold next_frame.
  apply ends_bind. unfold read_into. apply ends_zoom. cbn [fst snd].
  pose proof (stream_read_into 1024 (m_socket c) (FrameParser.m_frame_buffer (m_parser c)) y
    ltac:(lia) (inv_buffer _ (proj1 (proj1 Hp)))) as Hr.
  unfold ends. destruct (st_read_into 1024 _) as [[nd|e|u|] [[x b'] y']]; try done.
  destruct Hr as (bs & He & Hb & -> & Hg & Hq & Ha & Hz).
  destruct (update_delivers _ _ _ _ Hp Hb He) as (r & q & Hu & Hd).
  unfold on_parser, zoom. cbn [fst snd m_parser set_parser set_socket].
  unfold with_buffer in Hu. rewrite Hu. exists bs. split_and!; try done.
  split; unfold got_of, put_of, ahead_of; cbn; rewrite ?app_nil_r; try done.
  exists []. rewrite app_nil_r. split; [done|apply carries_nil].
Qed.

(** ** The clock *)

(** Reading the clock, and an update of fields nothing here looks at. *)
Lemma went_clock (s : state) f h :
  FrameFactory.wf (m_factory (fst s)) →
  m_socket (f (fst s)) = m_socket (fst s) → m_factory (f (fst s)) = m_factory (fst s) →
  calls (f (fst s)) = calls (fst s) →
  (started s → nanotimer.time1 (m_ping_timer (f (fst s))) ≠ None) →
  went s (f (fst s), mkSys (snd (sys_clock (env (snd s)))) h) [] [] [].
Proof.
  intros Hf Hs Hf' Hc Ht.
  destruct (stream_clock (m_socket (fst s)) (env (snd s))) as (Hg & Hp & Ha).
  split; unfold got_of, put_of, ahead_of; cbn [fst snd env]; rewrite ?Hs, ?Hf', ?Hc, ?app_nil_r;
    try done.
  exists []. rewrite app_nil_r. split; [done|apply carries_nil].
Qed.

(** The frame of [kept], with the ghost of the clock moved on. *)
Definition ticked (s s' : state) : Prop :=
  went s s' [] [] [] ∧ link s' = link s ∧ m_parser (fst s') = m_parser (fst s) ∧
  m_handler (fst s') = m_handler (fst s) ∧ started s'.

Lemma ticked_trans s s1 s2 : ticked s s1 → ticked s1 s2 → ticked s s2.
Proof.
  intros (Hw & ? & ? & ? & ?) (Hw' & ? & ? & ? & ?).
  split_and!; [|congruence..|done]. apply (went_trans _ _ _ [] [] [] [] [] [] Hw Hw').
Qed.

Lemma elapsed_returns (s : state) :
  started s → FrameFactory.wf (m_factory (fst s)) →
  returns (on_timer nanotimer.get_elapsed_ms) s (λ _, ticked s).
Proof.
  intros Hs Hf. destruct s as [c y]. apply ends_zoom. unfold started in Hs. cbn [fst snd] in *.
  unfold nanotimer.get_elapsed_ms, nanotimer.get_elapsed_ns, call, self, gets,
    update_self, modify, ends, mret, M_ret, mbind, M_bind.
  destruct (sys_clock (env y)) as [[sec nsec] w] eqn:Hc. cbn [fst nanotimer.time1].
  destruct (nanotimer.time1 (m_ping_timer c)) as [[sec1 nsec1]|] eqn:Ht; [|done].
  split_and!; try done.
  replace w with (snd (sys_clock (env y))) by (by rewrite Hc).
  by apply (went_clock (c, y) (λ c, set_ping_timer _ c)).
Qed.

Lemma start_returns (s : state) :
  FrameFactory.wf (m_factory (fst s)) →
  returns (on_timer nanotimer.start) s (λ _, ticked s).
Proof.
  intros Hf. destruct s as [c y]. apply ends_zoom. cbn [fst snd].
  unfold nanotimer.start, call, update_self, modify, ends, mbind, M_bind.
  destruct (sys_clock (env y)) as [now w] eqn:Hc. split_and!; try done.
  replace w with (snd (sys_clock (env y))) by (by rewrite Hc).
  by apply (went_clock (c, y) (λ c, set_ping_timer _ c)).
Qed.

Lemma update_ticked (s : state) f :
  started s → FrameFactory.wf (m_factory (fst s)) →
  m_socket (f (fst s)) = m_socket (fst s) → m_factory (f (fst s)) = m_factory (fst s) →
  calls (f (fst s)) = calls (fst s) → m_ping_timer (f (fst s)) = m_ping_timer (fst s) →
  m_parser (f (fst s)) = m_parser (fst s) → m_handler (f (fst s)) = m_handler (fst s) →
  m_connection_open (f (fst s)) = m_connection_open (fst s) →
  m_status (f (fst s)) = m_status (fst s) →
  returns (update_self f) s (λ _, ticked s).
Proof.
  intros Hs Hf ? ? ? Ht ? ? Ho Hst1. destruct s as [c y]. cbn [fst] in *.
  unfold returns. eapply ends_eq; [reflexivity|].
  split_and!; [by apply (went_update (c, y))| |done|done|].
  - unfold link. cbn. by rewrite Ho, Hst1.
  - unfold started. cbn. by rewrite Ht.
Qed.

Lemma handle_pong_returns payload (s : state) :
  started s → FrameFactory.wf (m_factory (fst s)) →
  returns (handle_pong payload) s (λ _, ticked s).
Proof.
  intros Hs Hf. apply ends_bind.
  eapply ends_mono; [by apply elapsed_returns|..|done]. cbn beta. intros rtt s1 H1'.
  pose proof H1' as ([_ _ _ Hf1 _ _] & _ & _ & _ & Hs1).
  apply ends_bind. eapply ends_mono; [by apply update_ticked|..|done]. intros [] s2 H2'.
  pose proof H2' as ([_ _ _ Hf2 _ _] & _ & _ & _ & Hs2).
  apply ends_bind. eapply ends_mono; [by apply start_returns|..|done]. intros [] s3 H3'.
  pose proof H3' as ([_ _ _ Hf3 _ _] & _ & _ & _ & Hs3).
  eapply ends_mono; [by apply update_ticked|..|done]. intros [] s4 H4'.
  eapply ticked_trans; [done|]. eapply ticked_trans; [done|].
  by eapply ticked_trans.
Qed.

(** ** One frame *)

(** What one frame [w] contributes: either the loop goes on, or it was a
    CLOSE. *)
Definition stepped (w : Rfc6455.wire) (s : state) (r : option ConnectionStatus)
    (s' : state) : Prop :=
  started s' ∧ m_parser (fst s') = m_parser (fst s) ∧
  ∃ msgs evs, went s s' [] msgs evs ∧
    match r with
    | None => link s' = link s ∧
        ∀ ws evs' msgs' h' closed,
          spec_run handler (m_handler (fst s')) ws evs' msgs' h' closed →
          spec_run handler (m_handler (fst s)) (w :: ws) (evs ++ evs') (msgs ++ msgs') h' closed
    | Some st => st = CLOSED_BY_SERVER ∧ link s' = (false, CLOSED_BY_SERVER) ∧
        spec_run handler (m_handler (fst s)) [w] evs msgs (m_handler (fst s')) true
    end.

Lemma data_returns depth f w ev (s : state) :
  started s → FrameFactory.wf (m_factory (fst s)) →
  shows w (frame_of (m_parser (fst s)) f) →
  event_of (frame_of (m_parser (fst s)) f) = Some ev →
  returns (callback handler (S depth) ev (Frame.payload f);; mret None) s (stepped w s).
Proof.
  intros Hs Hf Hw He. apply ends_bind.
  eapply ends_mono; [apply callback_returns; [done|by rewrite (event_of_payload _ _ He)]|..|done].
  intros _ s' (msgs & Hsay & Hwent & Hl & Hp & _).
  split_and!; [by apply (went_started _ _ _ _ _ Hwent)|done|].
  exists msgs, [ev]. split; [done|]. split; [done|].
  intros ws evs' msgs' h' closed Hr. by eapply run_data.
Qed.

Lemma ping_returns f w (s : state) :
  started s → FrameFactory.wf (m_factory (fst s)) →
  shows w (frame_of (m_parser (fst s)) f) → Frame.opcode f = Opcode.PING →
  bytes_ok (Frame.payload (frame_of (m_parser (fst s)) f)) →
  returns (send_pong (Frame.payload (frame_of (m_parser (fst s)) f));; mret None) s
    (stepped w s).
Proof.
  intros Hs Hf Hw Ho Hb. apply ends_bind.
  eapply ends_mono; [by apply send_pong_returns|..|done].
  intros _ s' (Hle & Hwent & (Hl & Hp & _) & Hh).
  split_and!; [by apply (went_started _ _ _ _ _ Hwent)|done|].
  do 2 eexists. split; [done|]. split; [done|]. intros ws evs' msgs' h' closed Hr.
  rewrite Hh in Hr. by apply (run_ping _ _ _ (frame_of (m_parser (fst s)) f)).
Qed.

Lemma close_frame_returns depth f w (s : state) :
  started s → FrameFactory.wf (m_factory (fst s)) →
  shows w (frame_of (m_parser (fst s)) f) → Frame.opcode f = Opcode.CLOSE →
  returns (update_self (set_connection_open false);;
           update_self (set_status CLOSED_BY_SERVER);;
           send_close [];;
           callback handler (S depth) (on_close true) empty_view;;
           st ← status; mret (Some st)) s (stepped w s).
Proof.
  intros Hs Hf Hw Ho. destruct s as [c y]. apply ends_bind.
  eapply ends_eq; [reflexivity|]. apply ends_bind. eapply ends_eq; [reflexivity|].
  apply ends_bind. eapply ends_mono; [apply send_close_returns; [constructor|done]|..|done].
  intros _ s1 (_ & Hw1 & (Hl1 & Hp1 & _) & Hh1). apply ends_bind.
  eapply ends_mono; [apply callback_returns; [by destruct Hw1|done]|..|done].
  intros _ s2 (msgs & Hsay & Hw2 & Hl2 & Hp2 & _).
  apply ends_bind. eapply ends_eq; [reflexivity|].
  unfold mret, M_ret, ends. cbn beta iota.
  pose proof (went_trans _ _ _ [] [] [_] msgs [] [_] Hw1 Hw2) as Hw'.
  assert (link s2 = (false, CLOSED_BY_SERVER)) as Hl by (by rewrite Hl2, Hl1).
  split_and!.
  - by apply (went_started _ _ _ _ _ Hw').
  - by rewrite Hp2, Hp1.
  - do 2 eexists. split.
    + by destruct Hw' as [? ? ? ? ? ?]; split.
    + split_and!; [by injection Hl|done|]. rewrite Hh1 in Hsay.
      by apply (run_close _ _ _ (frame_of (m_parser c) f)).
Qed.

Lemma dispatch_returns depth f w (s : state) :
  started s → FrameFactory.wf (m_factory (fst s)) →
  shows w (frame_of (m_parser (fst s)) f) →
  bytes_ok (Frame.payload (frame_of (m_parser (fst s)) f)) →
  returns (dispatch (callback handler (S depth)) f) s (stepped w s).
Proof.
  intros Hs Hf Hw Hb. unfold dispatch. apply ends_bind.
  eapply ends_eq; [reflexivity|]. cbv zeta.
  destruct (Frame.opcode f) eqn:Ho;
    try (eapply data_returns; [done..|]; unfold event_of, frame_of; cbn; by rewrite Ho).
  - by eapply close_frame_returns.
  - by apply ping_returns.
  - apply ends_bind. eapply ends_mono; [by apply handle_pong_returns|..|done].
    intros _ s' (Hwent & Hl & Hp & Hh & Hs'). split_and!; [done|done|].
    do 2 eexists. split; [done|]. split; [done|]. intros ws evs' msgs' h' closed Hr.
    rewrite Hh in Hr. by eapply run_pong.
Qed.

(** ** The loop of [poll] *)

Lemma decode_all_cons bytes w rest ext :
  Rfc6455.decode code_len64 bytes = Some (w, rest) →
  Rfc6455.decode_all code_len64 (bytes ++ ext)
  = (w :: fst (Rfc6455.decode_all code_len64 (rest ++ ext)),
     snd (Rfc6455.decode_all code_len64 (rest ++ ext))).
Proof.
  intros Hd. apply (Rfc6455.decode_app _ _ ext) in Hd as [Hd _].
  rewrite Rfc6455.decode_all_unfold, Hd. by destruct (Rfc6455.decode_all _ _).
Qed.

(** At most [limit] frames were handled; fewer only because no complete frame
    is left, or because the server closed. *)
Definition paced (limit : nat) (ws : list Rfc6455.wire) (pend : list Z) (closed : bool) :
    Prop :=
  length ws ≤ limit ∧
  (closed = false → length ws < limit → Rfc6455.decode code_len64 pend = None).

(** From [s], with [bytes] received and not yet handled, to [s']: some more
    bytes arrived, the frames [ws] (at most [limit]) were handled by the
    protocol, and the parser holds the rest. *)
Definition polled (limit : nat) (bytes : list Z) (s : state) (closed : bool)
    (s' : state) : Prop :=
  ∃ bs ws msgs evs pend,
    paced limit ws pend closed ∧ bytes_ok bs ∧ went s s' bs msgs evs ∧ started s' ∧
    represents (m_parser (fst s')) pend ∧ bytes_ok pend ∧
    Rfc6455.decode_all code_len64 (bytes ++ bs)
    = (ws ++ fst (Rfc6455.decode_all code_len64 pend),
       snd (Rfc6455.decode_all code_len64 pend)) ∧
    spec_run handler (m_handler (fst s)) ws evs msgs (m_handler (fst s')) closed ∧
    link s' = if closed then (false, CLOSED_BY_SERVER) else link s.

Lemma polled_nothing limit bytes (s : state) :
  started s → FrameFactory.wf (m_factory (fst s)) → bytes_ok bytes →
  represents (m_parser (fst s)) bytes → Rfc6455.decode code_len64 bytes = None →
  polled limit bytes s false s.
Proof.
  intros Hs Hf Hb Hr Hn. exists [], [], [], [], bytes. rewrite app_nil_r.
  split_and!; try done; [by split; [cbn; lia|]|constructor|by apply went_refl| |constructor].
  by destruct (Rfc6455.decode_all code_len64 bytes).
Qed.

(** The last frame of a call. *)
Lemma polled_last limit bytes w rest (s s' : state) r :
  0 < limit → (r = None → limit = 1) → bytes_ok bytes → Rfc6455.decode code_len64 bytes = Some (w, rest) →
  represents (m_parser (fst s)) rest → stepped w s r s' →
  polled limit bytes s (bool_decide (is_Some r)) s'.
Proof.
  intros Hl Hl1 Hb Hd Hr (Hs' & Hp & msgs & evs & Hw & Hstep).
  exists [], [w], msgs, evs, rest.
  assert (paced limit [w] rest (bool_decide (is_Some r))) as Hpace.
  { split; [cbn; lia|]. cbn [length]. destruct r; [done|]. specialize (Hl1 eq_refl). lia. }
  rewrite (decode_all_cons _ _ _ _ Hd), !app_nil_r.
  apply Rfc6455.decode_bytes_ok in Hd as [_ Hrest]; [|done].
  split_and!; try done; [constructor|by rewrite Hp|..]; destruct r as [st|].
  - by destruct Hstep as (_ & _ & ?).
  - destruct Hstep as [_ Hrun].
    specialize (Hrun [] [] [] _ false (run_nil _ _)). by rewrite !app_nil_r in Hrun.
  - by destruct Hstep as (_ & ? & _).
  - by destruct Hstep as [? _].
Qed.

(** One more frame in front. *)
Lemma polled_cons limit bytes bs w rest (s s1 s2 s' : state) closed :
  Rfc6455.decode code_len64 bytes = Some (w, rest) → bytes_ok bs →
  stepped w s None s1 → went s1 s2 bs [] [] → link s2 = link s1 →
  m_handler (fst s2) = m_handler (fst s1) →
  polled limit (rest ++ bs) s2 closed s' → polled (S limit) bytes s closed s'.
Proof.
  intros Hd Hbs (_ & _ & msgs & evs & Hw & Hl & Hrun) Hw1 Hl1 Hh1
    (bs2 & ws & msgs2 & evs2 & pend & Hn & Hb2 & Hw2 & Hs' & Hr & Hp & Hdec & Hrun2 & Hl2).
  exists (bs ++ bs2), (w :: ws), (msgs ++ msgs2), (evs ++ evs2), pend.
  rewrite (decode_all_cons _ _ _ _ Hd), app_assoc, Hdec. rewrite Hh1 in Hrun2.
  split_and!; try done; [|by apply Forall_app| |by apply Hrun|].
  - destruct Hn as [Hn1 Hn2]. split; cbn [length]; [lia|]. intros. apply Hn2; [done|lia].
  - apply (went_trans _ _ _ [] _ _ _ _ _ Hw), (went_trans _ _ _ _ _ [] _ [] _ Hw1 Hw2).
  - rewrite Hl2. destruct closed; congruence.
Qed.

Lemma poll_loop_returns depth n count max_reads r bytes (s : state) :
  started s → FrameFactory.wf (m_factory (fst s)) → bytes_ok bytes →
  delivers bytes r (m_parser (fst s)) →
  1 ≤ n → (max_reads - count ≤ Z.of_nat n)%Z →
  returns (poll_loop (callback handler (S depth)) n count max_reads r) s
    (λ res s', ∃ closed, res = (if closed : bool then Some CLOSED_BY_SERVER else None) ∧
       polled (Nat.max 1 (Z.to_nat (max_reads - count))) bytes s closed s').
Proof.
  revert count r bytes s. induction n as [|n IH]; [lia|].
  intros count r bytes s Hs Hf Hb Hd Hn1 Hn. unfold delivers in Hd.
  destruct (Rfc6455.decode code_len64 bytes) as [[w rest]|] eqn:Hdec.
  2: { destruct Hd as [-> Hr]. exists false. split; [done|]. by apply polled_nothing. }
  destruct Hd as (-> & Hw & Hr). cbn [poll_loop]. apply ends_bind.
  pose proof (Rfc6455.decode_bytes_ok _ _ _ _ Hdec Hb) as [Hwb Hrest].
  eapply ends_mono; [apply (dispatch_returns _ _ w); [done|done|by rewrite <-Hw|]|..|done].
  { by rewrite <-Hw in Hwb. }
  intros [st|] s1 Hstep.
  { exists true. split; [by destruct Hstep as (_ & _ & ? & ? & _ & -> & _)|].
    by eapply (polled_last _ _ _ _ _ _ (Some st)); [lia|..]. }
  cbv zeta. destruct (Z.geb_spec (count + 1) max_reads).
  { exists false. split; [done|].
    by eapply (polled_last _ _ _ _ _ _ None); [lia|lia|..]. }
  pose proof Hstep as (Hs1 & Hp1 & ? & ? & [_ _ _ Hf1 _ _] & _).
  apply ends_bind. eapply ends_mono; [apply next_frame_returns; [by rewrite Hp1|done]|..|done].
  intros r2 s2 (bs & Hbs & Hw2 & _ & Hl2 & Hh2 & Hd2).
  eapply ends_mono; [apply (IH _ _ (rest ++ bs)); [by apply (went_started _ _ _ _ _ Hw2)|by destruct Hw2|
    by apply Forall_app|done|lia|lia]|..|done].
  intros res s' (closed & -> & Hpol). exists closed. split; [done|].
  replace (Nat.max 1 (Z.to_nat (max_reads - count)))
    with (S (Nat.max 1 (Z.to_nat (max_reads - (count + 1))))) by lia.
  by eapply polled_cons.
Qed.

(** ** The end of [poll] *)

(** [update_ping]: nothing, a time-out, or one PING. *)
Definition pinged (s s' : state) : Prop :=
  started s' ∧ m_parser (fst s') = m_parser (fst s) ∧
  m_handler (fst s') = m_handler (fst s) ∧
  ((went s s' [] [] [] ∧ link s' = link s) ∨
   (m_waiting_for_ping (fst s) = true ∧ went s s' [] [] [] ∧
      link s' = (false, PING_TIMED_OUT)) ∨
   (m_waiting_for_ping (fst s) = false ∧ went s s' [] [(Opcode.PING, [])] [] ∧
      link s' = link s)).

Lemma update_ping_returns (s : state) :
  started s → FrameFactory.wf (m_factory (fst s)) →
  returns update_ping s (λ _, pinged s).
Proof.
  intros Hs Hf. unfold update_ping. apply ends_bind. destruct s as [c y].
  eapply ends_eq; [reflexivity|]. cbn [fst].
  destruct (m_waiting_for_ping c) eqn:Hwait; apply ends_bind;
    (eapply ends_mono; [by apply elapsed_returns|..|done]);
    intros e [c1 y1] (Hw1 & Hl1 & Hp1 & Hh1 & Hs1).
  - destruct (dgt _ _); cbn [when]; [|by split_and!; [..|left]].
    apply ends_bind. eapply ends_eq; [reflexivity|]. apply ends_bind.
    eapply ends_eq; [reflexivity|].
    destruct (stream_cout (m_socket c1) ping_timed_out (env y1)) as (Hg & Hp & Ha).
    unfold returns. eapply ends_eq; [reflexivity|]. split_and!; [done|done|done|].
    right. left. split; [done|]. split; [|done].
    destruct Hw1 as [Hg1 (out & Hp1' & Ho) ? ? ? Ha1]; split; try done;
      [etrans; [apply Hg|done]|exists out; split; [etrans; [apply Hp|done]|done]|by etrans].
  - destruct (dgt _ _); cbn [when]; [|by split_and!; [..|left]].
    apply ends_bind. pose proof (went_factory _ _ _ _ _ Hw1) as Hf1.
    eapply ends_mono; [by apply update_ticked|..|done].
    intros [] s2 (Hw2 & Hl2 & Hp2 & Hh2 & Hs2). apply ends_bind.
    eapply ends_mono; [apply start_returns; by destruct Hw2|..|done].
    intros [] s3 (Hw3 & Hl3 & Hp3 & Hh3 & Hs3).
    eapply ends_mono; [apply send_ping_returns; [constructor|by destruct Hw3]|..|done].
    intros [] s4 (_ & Hw4 & (Hl4 & Hp4 & _) & Hh4).
    pose proof (went_trans _ _ _ [] [] [] [_] [] [] Hw1
      (went_trans _ _ _ [] [] [] [_] [] [] Hw2
        (went_trans _ _ _ [] [] [] [_] [] [] Hw3 Hw4))) as Hw.
    split_and!; [by apply (went_started _ _ _ _ _ Hw)|congruence|congruence|].
    right. right. split; [done|]. split; [done|congruence].
Qed.

(** A whole call: the frames, and then, unless the server closed the
    connection, [update_ping]. *)
Lemma poll_returns depth max_reads pend (s : state) :
  started s → FrameFactory.wf (m_factory (fst s)) → bytes_ok pend →
  represents (m_parser (fst s)) pend →
  returns (poll handler (S depth) max_reads) s (λ st s', ∃ closed s1,
    (got_of s1 = got_of s → ahead_of s = []) ∧
    polled (Nat.max 1 (Z.to_nat max_reads)) pend s closed s1 ∧
    st = snd (link s') ∧ if closed : bool then s' = s1 else pinged s1 s').
Proof.
  intros Hs Hf Hb Hr. unfold poll, poll_with. apply ends_bind.
  eapply ends_mono; [by apply next_frame_returns|..|done].
  intros r s1 (bs & Hbs & Hw1 & Hz & Hl1 & Hh1 & Hd1). apply ends_bind.
  eapply ends_mono; [apply (poll_loop_returns _ _ _ _ _ (pend ++ bs));
    [by apply (went_started _ _ _ _ _ Hw1)|by destruct Hw1|by apply Forall_app|done|lia|lia]|..|done].
  rewrite Z.sub_0_r.
  intros res s2 (closed & -> & Hpol).
  assert (got_of s2 = got_of s → ahead_of s = []) as Hz'.
  { destruct Hpol as (bs2 & ? & ? & ? & ? & _ & _ & [Hg2 _ _ _ _ _] & _).
    destruct Hw1 as [Hg1 _ _ _ _ _]. rewrite Hg2, Hg1, <-app_assoc. intros He.
    apply Hz. rewrite <-(app_nil_r (got_of s)) in He at 2.
    by apply app_inv_head, app_nil in He as []. }
  assert (polled (Nat.max 1 (Z.to_nat max_reads)) pend s closed s2) as Hpol'.
  { destruct Hpol as (bs2 & ws & msgs & evs & pend' & ? & ? & Hw2 & ? & ? & ? & Hdec & ? & Hl2).
    exists (bs ++ bs2), ws, msgs, evs, pend'. rewrite app_assoc, Hdec.
    rewrite <-Hh1, <-Hl1.
    split_and!; try done; [by apply Forall_app|].
    apply (went_trans _ _ _ _ _ [] _ [] _ Hw1 Hw2). }
  destruct closed.
  - exists true, s2. split_and!; [done|done| |done].
    destruct Hpol' as (? & ? & ? & ? & ? & _ & _ & _ & _ & _ & _ & _ & _ & ->). done.
  - pose proof Hpol' as (? & ? & ? & ? & ? & _ & _ & [_ _ _ Hf2 _ _] & Hs2 & _).
    apply ends_bind. eapply ends_mono; [by apply update_ping_returns|..|done].
    intros [] s3 Hp. by exists false, s2.
Qed.

(** ** The opening handshake *)

(** The socket, and the world it is in. *)
Definition outside (s : state) : St * Sys W := (m_socket (fst s), snd s).

Definition after_sleep (ms : Z) (x : St * Sys W) : St * Sys W :=
  (fst x, mkSys (sys_sleep_ms ms (env (snd x))) (held (snd x))).

Lemma read_returns n (s : state) :
  0 < n → FrameFactory.wf (m_factory (fst s)) →
  returns (on_socket (st_read n)) s (λ bs s', bytes_ok bs ∧ went s s' bs [] [] ∧
    kept s s' ∧ m_handler (fst s') = m_handler (fst s) ∧
    st_read n (outside s) = (Ok bs, outside s')).
Proof.
  intros Hn Hf. destruct s as [c y]. apply ends_zoom. cbn [fst snd].
  pose proof (stream_read n (m_socket c) y Hn) as Hr. unfold ends.
  destruct (st_read n (m_socket c, y)) as [[bs|e|u|] [x y']] eqn:He; try done.
  destruct Hr as (Hb & Hg & Hp & Ha). split; [done|]. split; [|done].
  split; unfold got_of, put_of, ahead_of; cbn; rewrite ?app_nil_r; try done.
  exists []. rewrite app_nil_r. split; [done|apply carries_nil].
Qed.

Lemma sleep_returns ms (s : state) :
  FrameFactory.wf (m_factory (fst s)) →
  returns (call_unit (sys_sleep_ms ms)) s (λ _ s', went s s' [] [] [] ∧ kept s s' ∧
    m_handler (fst s') = m_handler (fst s) ∧ outside s' = after_sleep ms (outside s)).
Proof.
  intros Hf. destruct s as [c y].
  destruct (stream_sleep (m_socket c) ms (env y)) as (Hg & Hp & Ha).
  split; [|done]. split; unfold got_of, put_of, ahead_of; cbn; rewrite ?app_nil_r; try done.
  exists []. rewrite app_nil_r. split; [done|apply carries_nil].
Qed.

Lemma read_response_returns n response (s : state) :
  FrameFactory.wf (m_factory (fst s)) →
  returns (read_response n response) s (λ response' s', ∃ bs,
    response' = response ++ bs ∧ went s s' bs [] [] ∧ kept s s' ∧
    m_handler (fst s') = m_handler (fst s)).
Proof.
  revert response s. induction n as [|n IH]; intros response s Hf; cbn [read_response].
  { exists []. rewrite app_nil_r. by split_and!; [|apply went_refl|..]. }
  apply ends_bind. eapply ends_mono; [apply read_returns; [lia|done]|..|done].
  intros bs s1 (_ & Hw1 & Hk1 & Hh1 & _). cbv zeta.
  destruct (contains _ _); [by exists bs|].
  apply ends_bind. eapply ends_mono; [apply sleep_returns; by destruct Hw1|..|done].
  intros [] s2 (Hw2 & Hk2 & Hh2 & _). eapply ends_mono; [apply IH; by destruct Hw2|..|done].
  intros response' s3 (bs' & -> & Hw3 & Hk3 & Hh3). exists (bs ++ bs').
  split_and!; [by rewrite app_assoc| |by do 2 (eapply kept_trans; [done|])|congruence].
  apply (went_trans _ _ _ _ _ [] [] [] [] Hw1), (went_trans _ _ _ [] _ [] [] [] [] Hw2 Hw3).
Qed.

(** The key drawn in the world [w], and the request with it. *)
Definition handshake_key (w : W) : list Z :=
  bio_base64 (map (λ i, u8 (uniform_byte (fst (random_device w)) i)) (seq 0 16)).

Definition request_of (c : t Hst St) (key : list Z) : list Z :=
  build_websocket_handshake_request
    (if (m_port c =? 443)%Z then str (m_host c)
     else str (m_host c) ++ str ":" ++ str (to_string (m_port c)))
    (str (m_path c)) key (str (m_extra_headers c)).

(** Drawing a random number is no business of the connection. *)
Definition entropy_silent : Prop := ∀ (x : St) (w : W),
  got x (snd (random_device w)) = got x w ∧ put x (snd (random_device w)) = put x w.

(** After the socket was opened ([s1]): the request goes out, the response
    comes in, and nothing else is looked at. *)
Definition connected (s1 : state) (ok : bool) (s' : state) : Prop :=
  ∃ response msgs out,
    FrameFactory.wf (m_factory (fst s')) ∧ got_of s' = got_of s1 ++ response ∧
    ok = contains (str "HTTP/1.1 101") response ∧
    put_of s' = put_of s1 ++ request_of (fst s1) (handshake_key (env (snd s1))) ++ out ∧
    carries out msgs ∧ m_parser (fst s') = m_parser (fst s1) ∧
    link s' = (ok, if ok then HEALTHY else FAILED) ∧
    if ok then
      calls (fst s') = calls (fst s1) ++ [on_open] ∧
      answers handler on_open (m_handler (fst s1)) = Some (msgs, m_handler (fst s'))
    else calls (fst s') = calls (fst s1) ∧ msgs = [] ∧
      m_handler (fst s') = m_handler (fst s1).

(** From [s1] the request went out, and [response] came in. *)
Definition requested (s1 : state) (response : list Z) (s' : state) : Prop :=
  FrameFactory.wf (m_factory (fst s')) ∧ got_of s' = got_of s1 ++ response ∧
  put_of s' = put_of s1 ++ request_of (fst s1) (handshake_key (env (snd s1))) ∧
  calls (fst s') = calls (fst s1) ∧ m_parser (fst s') = m_parser (fst s1) ∧
  m_handler (fst s') = m_handler (fst s1).

(** The end of [connect]. *)
Definition accept (depth : nat) (response : list Z) : M state bool :=
  update_self (set_connection_open (contains (str "HTTP/1.1 101") response));;
  c ← self;
  (if m_connection_open c then
     update_self (set_status HEALTHY);; callback handler depth on_open empty_view
   else update_self (set_status FAILED));;
  c ← self; mret (m_connection_open c).

Lemma connect_requests depth timeout (s s1 : state) (Q : bool → state → Prop) :
  entropy_silent → open_socket s = (Ok tt, s1) → int10 timeout →
  FrameFactory.wf (m_factory (fst s1)) →
  (Z.of_nat (length (request_of (fst s1) (handshake_key (env (snd s1))))) < send_limit)%Z →
  (∀ response s', requested s1 response s' → returns (accept depth response) s' Q) →
  returns (connect handler depth timeout) s Q.
Proof.
  intros He Ho Ht Hf Hlen Hgo. unfold connect, returns. apply ends_bind.
  eapply ends_eq; [done|]. destruct s1 as [c y]. cbn [fst snd] in *.
  apply ends_bind. eapply ends_eq; [reflexivity|]. cbv zeta. cbn [fst].
  apply ends_bind. unfold generate_sec_websocket_key. apply ends_bind.
  unfold ends at 1. cbn [call fst snd]. unfold requested, request_of, handshake_key in *.
  destruct (He (m_socket c) (env y)) as [Hg Hp].
  destruct (random_device (env y)) as [seed w] eqn:Hrd. cbn [fst snd] in *.
  unfold mret at 1, M_ret, ends at 1.
  apply ends_bind, ends_zoom. cbn [fst snd].
  set (req := build_websocket_handshake_request _ _ _ _) in *.
  pose proof (stream_send req (m_socket c) (mkSys w (held y)) Hlen) as Hs. unfold ends at 1.
  destruct (st_send req _) as [[n|e|u|] [x y2]]; try done. destruct Hs as (Hg2 & Hp2 & _).
  apply ends_bind. unfold times_ten. rewrite decide_True by done.
  eapply ends_eq; [reflexivity|]. apply ends_bind.
  eapply ends_mono; [by apply read_response_returns|..|done].
  intros response s3 (bs & -> & Hw3 & (_ & Hp3 & _) & Hh3). cbn [app fst snd] in *.
  apply Hgo. destruct Hw3 as [Hg3 (out & Hp3' & Hc3) He3 Hf3 _ _].
  apply carries_nothing in Hc3 as ->.
  unfold got_of, put_of in *. cbn [fst snd m_socket set_socket env] in *.
  rewrite Hg3, Hp3', Hg2, Hp2, Hg, Hp, !app_nil_r in *. split_and!; try done. by rewrite Hrd.
Qed.

Lemma accept_returns depth response (s : state) :
  straight send_limit (handler on_open) → FrameFactory.wf (m_factory (fst s)) →
  returns (accept (S depth) response) s
    (λ ok s', ok = contains (str "HTTP/1.1 101") response ∧
       m_parser (fst s') = m_parser (fst s) ∧
       link s' = (ok, if ok then HEALTHY else FAILED) ∧
       if ok then ∃ msgs, went s s' [] msgs [on_open] ∧
         answers handler on_open (m_handler (fst s)) = Some (msgs, m_handler (fst s'))
       else went s s' [] [] [] ∧ m_handler (fst s') = m_handler (fst s)).
Proof.
  intros Hopen Hf. destruct s as [c y]. unfold accept. apply ends_bind. eapply ends_eq; [reflexivity|].
  apply ends_bind. eapply ends_eq; [reflexivity|]. apply ends_bind.
  cbn [fst m_connection_open set_connection_open].
  destruct (contains (str "HTTP/1.1 101") response).
  - apply ends_bind. eapply ends_eq; [reflexivity|].
    eapply ends_mono; [by apply method_returns|..|done].
    intros [] s' (msgs & Hsay & Hw & Hl & Hp & _).
    apply ends_bind. eapply ends_eq; [reflexivity|].
    unfold mret, M_ret, ends. unfold link in Hl. injection Hl as Ho Hs. cbn in Ho, Hs.
    rewrite Ho. split_and!; [done|done|unfold link; by rewrite Ho, Hs|].
    exists msgs. split; [|done]. by destruct Hw; split.
  - eapply ends_eq; [reflexivity|]. apply ends_bind. eapply ends_eq; [reflexivity|].
    unfold mret, M_ret, ends. cbn [fst m_connection_open set_status set_connection_open].
    split_and!; try done. by destruct (went_refl (c, y) Hf); split.
Qed.

Lemma connect_returns depth timeout (s s1 : state) :
  straight send_limit (handler on_open) → entropy_silent → open_socket s = (Ok tt, s1) → int10 timeout →
  FrameFactory.wf (m_factory (fst s1)) →
  (Z.of_nat (length (request_of (fst s1) (handshake_key (env (snd s1))))) < send_limit)%Z →
  returns (connect handler (S depth) timeout) s (connected s1).
Proof.
  intros Hopen He Ho Ht Hf Hlen. eapply connect_requests; [done..|].
  intros response s3 (Hf3 & Hg3 & Hp3 & Hc3 & Hpar3 & Hh3).
  eapply ends_mono; [by apply accept_returns|..|done].
  intros ok s' (-> & Hpar & Hl & Hcase). exists response.
  destruct (contains (str "HTTP/1.1 101") response) eqn:Hok.
  - destruct Hcase as (msgs & [Hg4 (out & Hp4 & Hc4) He4 Hf4 _ _] & Hsay).
    exists msgs, out. rewrite Hg4, Hp4, He4, Hg3, Hp3, Hc3, Hpar, Hpar3, app_nil_r, <-app_assoc.
    rewrite Hh3 in Hsay. by split_and!.
  - destruct Hcase as ([Hg4 (out & Hp4 & Hc4) He4 Hf4 _ _] & Hh).
    exists [], out. rewrite Hg4, Hp4, He4, Hg3, Hp3, Hc3, Hpar, Hpar3, !app_nil_r, <-app_assoc.
    split_and!; try done. by rewrite Hh, Hh3.
Qed.

(** ** The end of [close] *)

(** The reads of [close] are given to the parser as strings. *)
Lemma update_string_returns pend bs (s : state) :
  represents (m_parser (fst s)) pend → FrameFactory.wf (m_factory (fst s)) → bytes_ok bs →
  returns (on_parser (FrameParser.update_string bs)) s (λ r s',
    went s s' [] [] [] ∧ link s' = link s ∧ m_handler (fst s') = m_handler (fst s) ∧
    outside s' = outside s ∧ delivers (pend ++ bs) r (m_parser (fst s'))).
Proof.
  intros Hp Hf Hb. destruct s as [c y]. apply ends_zoom, runs_ends. cbn [fst snd] in *.
  eapply runs_mono; [by apply update_view_delivers|]. cbn beta. intros r q Hd.
  split_and!; try done. split; unfold got_of, put_of, ahead_of; cbn; rewrite ?app_nil_r; try done.
  exists []. rewrite app_nil_r. split; [done|apply carries_nil].
Qed.

(** Bytes whose first frame, if it is complete, is no CLOSE, without it. *)
Definition no_close (bytes rest : list Z) : Prop :=
  match Rfc6455.decode code_len64 bytes with
  | None => rest = bytes
  | Some (w, rest') => rest = rest' ∧ ∃ f, shows w f ∧ Frame.opcode f ≠ Opcode.CLOSE
  end.

(** The wait as the outside sees it, [n] reads being left and [pend] received
    before: a read of at most 1024 bytes; if the first frame of what is there is
    a CLOSE the wait is over with success; otherwise that frame, if it is
    complete, is dropped, and after 100 ms the next read follows. *)
Inductive rounds : nat → list Z → St * Sys W → bool → St * Sys W → Prop :=
  | rounds_over pend x : rounds 0 pend x false x
  | rounds_closed n pend x chunk x1 w rest f :
      st_read 1024 x = (Ok chunk, x1) →
      Rfc6455.decode code_len64 (pend ++ chunk) = Some (w, rest) →
      shows w f → Frame.opcode f = Opcode.CLOSE →
      rounds (S n) pend x true x1
  | rounds_more n pend x chunk x1 pend1 success x2 :
      st_read 1024 x = (Ok chunk, x1) → no_close (pend ++ chunk) pend1 →
      rounds n pend1 (after_sleep 100 x1) success x2 → rounds (S n) pend x success x2.

(** [close] waits: every read may deliver one frame; the first CLOSE ends the
    wait with success, every other frame is dropped. *)
Definition waited (n : nat) (pend : list Z) (s : state) (success : bool) (s' : state) :
    Prop :=
  ∃ bs ws fs pend',
    went s s' bs [] [] ∧ link s' = link s ∧ m_handler (fst s') = m_handler (fst s) ∧
    represents (m_parser (fst s')) pend' ∧ length ws ≤ n ∧
    rounds n pend (outside s) success (outside s') ∧
    Rfc6455.decode_all code_len64 (pend ++ bs)
    = (ws ++ fst (Rfc6455.decode_all code_len64 pend'),
       snd (Rfc6455.decode_all code_len64 pend')) ∧
    Forall2 shows ws fs ∧
    if success
    then ∃ fs0 f, fs = fs0 ++ [f] ∧ Forall (λ f, Frame.opcode f ≠ Opcode.CLOSE) fs0 ∧
                  Frame.opcode f = Opcode.CLOSE
    else Forall (λ f, Frame.opcode f ≠ Opcode.CLOSE) fs.

(** One read that does not end the wait, in front. *)
Lemma waited_cons n pend pend1 bs ws1 fs1 (s s1 s' : state) success :
  went s s1 bs [] [] → link s1 = link s → m_handler (fst s1) = m_handler (fst s) →
  Forall2 shows ws1 fs1 → Forall (λ f, Frame.opcode f ≠ Opcode.CLOSE) fs1 →
  length ws1 ≤ 1 →
  (∀ ext, Rfc6455.decode_all code_len64 ((pend ++ bs) ++ ext)
          = (ws1 ++ fst (Rfc6455.decode_all code_len64 (pend1 ++ ext)),
             snd (Rfc6455.decode_all code_len64 (pend1 ++ ext)))) →
  (∀ x, rounds n pend1 (outside s1) success x → rounds (S n) pend (outside s) success x) →
  waited n pend1 s1 success s' → waited (S n) pend s success s'.
Proof.
  intros Hw Hl Hh Hs1 Hc1 Hn1 Hd Hround (bs2 & ws & fs & pend' & Hw2 & Hl2 & Hh2 & Hr & Hn &
    Hrounds & Hd2 & Hs & Hc).
  exists (bs ++ bs2), (ws1 ++ ws), (fs1 ++ fs), pend'.
  rewrite app_assoc, Hd, Hd2.
  split_and!; [by apply (went_trans _ _ _ _ _ [] [] [] [] Hw Hw2)|congruence|congruence|done
    |rewrite length_app; lia|by apply Hround|cbn [fst snd]; by rewrite <-app_assoc
    |by apply Forall2_app|].
  destruct success; [|by apply Forall_app].
  destruct Hc as (fs0 & f & -> & Hc0 & Hf). exists (fs1 ++ fs0), f.
  split_and!; [by rewrite app_assoc|by apply Forall_app|done].
Qed.

Lemma waited_nothing pend (s : state) :
  FrameFactory.wf (m_factory (fst s)) → represents (m_parser (fst s)) pend →
  waited 0 pend s false s.
Proof.
  intros Hf Hr. exists [], [], [], pend. rewrite app_nil_r.
  split_and!; try done; [by apply went_refl|constructor|].
  by destruct (Rfc6455.decode_all _ _).
Qed.

(** The rest of the wait after a read that does not end it. *)
Lemma wait_more n pend bs ws1 fs1 pend1 (s s2 : state) :
  (∀ pend s, FrameFactory.wf (m_factory (fst s)) → represents (m_parser (fst s)) pend →
     bytes_ok pend → returns (wait_close n) s (waited n pend s)) →
  went s s2 bs [] [] → link s2 = link s → m_handler (fst s2) = m_handler (fst s) →
  Forall2 shows ws1 fs1 → Forall (λ f, Frame.opcode f ≠ Opcode.CLOSE) fs1 →
  length ws1 ≤ 1 →
  (∀ ext, Rfc6455.decode_all code_len64 ((pend ++ bs) ++ ext)
          = (ws1 ++ fst (Rfc6455.decode_all code_len64 (pend1 ++ ext)),
             snd (Rfc6455.decode_all code_len64 (pend1 ++ ext)))) →
  st_read 1024 (outside s) = (Ok bs, outside s2) → no_close (pend ++ bs) pend1 →
  represents (m_parser (fst s2)) pend1 → bytes_ok pend1 →
  returns (call_unit (sys_sleep_ms 100);; wait_close n) s2 (waited (S n) pend s).
Proof.
  intros IH Hw Hl Hh Hs1 Hc1 Hn1 Hd1 Hread Hno Hr1 Hb1. apply ends_bind.
  eapply ends_mono; [by apply sleep_returns; destruct Hw|..|done].
  intros [] s3 (Hw3 & (Hl3 & Hp3 & _) & Hh3 & Ho3).
  eapply ends_mono; [apply (IH pend1); [by destruct Hw3|by rewrite Hp3|done]|..|done].
  intros success s' Hwait.
  pose proof (went_trans _ _ _ _ _ [] [] [] [] Hw Hw3) as Hw'. rewrite app_nil_r in Hw'.
  by eapply (waited_cons n pend pend1 bs ws1 fs1 s s3 s' success);
    [..|congruence|congruence| | | | |intros x; rewrite Ho3; by eapply rounds_more|].
Qed.

Lemma wait_close_returns n pend (s : state) :
  FrameFactory.wf (m_factory (fst s)) → represents (m_parser (fst s)) pend →
  bytes_ok pend → returns (wait_close n) s (waited n pend s).
Proof.
  revert pend s. induction n as [|n IH]; intros pend s Hf Hr Hb; cbn [wait_close].
  { by apply waited_nothing. }
  apply ends_bind. eapply ends_mono; [apply read_returns; [lia|done]|..|done].
  intros bs s1 (Hbs & Hw1 & (Hl1 & Hp1 & _) & Hh1 & Hread). apply ends_bind.
  eapply ends_mono; [apply (update_string_returns pend); [by rewrite Hp1|by destruct Hw1|done]
    |..|done].
  intros r s2 (Hw2 & Hl2 & Hh2 & Ho2 & Hd). rewrite <-Ho2 in Hread.
  pose proof (went_trans _ _ _ _ _ [] [] [] [] Hw1 Hw2) as Hw. rewrite app_nil_r in Hw.
  assert (bytes_ok (pend ++ bs)) as Hpb by (by apply Forall_app).
  unfold delivers in Hd.
  destruct (Rfc6455.decode code_len64 (pend ++ bs)) as [[w rest]|] eqn:Hdec.
  - destruct Hd as (-> & Hwire & Hr2).
    set (f := frame_of (m_parser (fst s2)) (FrameParser.m_frame (m_parser (fst s2)))).
    assert (shows w f) as Hshow by (by rewrite <-Hwire).
    pose proof (λ ext, decode_all_cons _ _ _ ext Hdec) as Hcons.
    pose proof (Rfc6455.decode_bytes_ok _ _ _ _ Hdec Hpb) as [_ Hrest].
    destruct (bool_decide_reflect (Frame.opcode (FrameParser.m_frame (m_parser (fst s2)))
      = Opcode.CLOSE)) as [Ho|Ho].
    + exists bs, [w], [f], rest. specialize (Hcons []). rewrite !app_nil_r in Hcons.
      split_and!; [done|congruence|congruence|done|cbn; lia|by eapply rounds_closed|done
        |by repeat constructor|].
      exists [], f. by split_and!; [|constructor|].
    + apply (wait_more n pend bs [w] [f] rest); [exact IH|exact Hw|congruence|congruence
        |by repeat constructor|by repeat constructor|cbn; lia| |done| |done|done].
      { intros ext. by rewrite Hcons. }
      unfold no_close. rewrite Hdec. split; [done|]. by exists f.
  - destruct Hd as [-> Hr2]. apply (wait_more n pend bs [] [] (pend ++ bs)); [exact IH|exact Hw
      |congruence|congruence|constructor|constructor|cbn; lia| |done| |done|done].
    { intros ext. by destruct (Rfc6455.decode_all _ _). }
    unfold no_close. by rewrite Hdec.
Qed.

(** What [close] does from [s], where its [poll] ended: the pending bytes are
    dropped, a CLOSE goes out ([x0]), it waits for at most [limit] reads until
    a CLOSE comes ([x1]), and the result is reported to the handler. *)
Definition closed_from (limit : nat) (s : state) (success : bool) (s' : state) : Prop :=
  ∃ bs ws fs pend' msgs closing x0 x1 out,
    got (fst x0) (env (snd x0)) = got_of s ∧
    put (fst x0) (env (snd x0)) = put_of s ++ closing ∧ carries closing [(Opcode.CLOSE, [])] ∧
    rounds limit [] x0 success x1 ∧
    got_of s' = got (fst x1) (env (snd x1)) ∧
    put (fst x1) (env (snd x1)) = put (fst x0) (env (snd x0)) ∧
    put_of s' = put (fst x1) (env (snd x1)) ++ out ∧ carries out msgs ∧
    got_of s' = got_of s ++ bs ∧
    Rfc6455.decode_all code_len64 bs
    = (ws ++ fst (Rfc6455.decode_all code_len64 pend'),
       snd (Rfc6455.decode_all code_len64 pend')) ∧
    length ws ≤ limit ∧ Forall2 shows ws fs ∧
    (if success
     then ∃ fs0 f, fs = fs0 ++ [f] ∧ Forall (λ f, Frame.opcode f ≠ Opcode.CLOSE) fs0 ∧
                   Frame.opcode f = Opcode.CLOSE
     else Forall (λ f, Frame.opcode f ≠ Opcode.CLOSE) fs) ∧
    calls (fst s') = calls (fst s) ++ [on_close success] ∧
    answers handler (on_close success) (m_handler (fst s)) = Some (msgs, m_handler (fst s')) ∧
    link s' = (false, CLOSED_BY_CLIENT).

Lemma close_rest_returns depth timeout (s : state) :
  int10 timeout → FrameFactory.wf (m_factory (fst s)) →
  returns (on_parser FrameParser.clear;;
           send_close [];;
           update_self (set_status CLOSED_BY_CLIENT);;
           update_self (set_connection_open false);;
           n ← times_ten timeout;
           success ← wait_close (Z.to_nat n);
           callback handler (S depth) (on_close success) empty_view;;
           mret success) s (closed_from (Z.to_nat (timeout * 10)) s).
Proof.
  intros Ht Hf. destruct s as [c y]. cbn [fst] in *.
  apply ends_bind, ends_zoom, runs_ends. cbn [fst snd].
  eapply runs_mono; [apply clear_represents|]. cbn beta. intros _ q Hq.
  apply ends_bind. eapply ends_mono; [apply send_close_returns; [constructor|done]|..|done].
  intros [] s1 (_ & Hw1 & (Hl1 & Hp1 & _) & Hh1). destruct s1 as [c1 y1].
  apply ends_bind. eapply ends_eq; [reflexivity|].
  apply ends_bind. eapply ends_eq; [reflexivity|].
  set (c2 := set_connection_open false _). cbn [fst] in Hp1, Hh1.
  assert (went (set_parser q c, y) (c2, y1) [] [(Opcode.CLOSE, [])] []) as Hw2
    by (by destruct Hw1; split).
  apply ends_bind. unfold times_ten. rewrite decide_True by done.
  eapply ends_eq; [reflexivity|]. apply ends_bind.
  eapply ends_mono; [apply (wait_close_returns _ []); [by destruct Hw2| |constructor]|..|done].
  { subst c2. cbn. by rewrite Hp1. }
  intros success s3 (bs & ws & fs & pend' & Hw3 & Hl3 & Hh3 & _ & Hn & Hro & Hd & Hs & Hc).
  apply ends_bind. eapply ends_mono; [apply callback_returns; [by destruct Hw3|done]|..|done].
  intros [] s4 (msgs & Hsay & Hw4 & Hl4 & _).
  destruct Hw2 as [Hg2 (closing & Hp2 & Hc2) He2 _ _ _], Hw3 as [Hg3 (none & Hp3 & Hc3) He3 _ _ _],
    Hw4 as [Hg4 (out & Hp4 & Hc4) He4 _ _ _]. apply carries_nothing in Hc3 as ->.
  unfold got_of, put_of, outside in *. cbn [fst snd] in *. rewrite app_nil_r in *.
  exists bs, ws, fs, pend', msgs, closing, (m_socket c2, y1), (m_socket (fst s3), snd s3), out.
  rewrite Hh3 in Hsay. cbn [fst snd]. split_and!; try done; try congruence.
  - etrans; [exact Hg4|]. etrans; [exact Hg3|]. by rewrite Hg2.
  - by rewrite He4, He3, He2.
  - subst c2. cbn in Hsay. by rewrite Hh1 in Hsay.
  - by rewrite Hl4, Hl3.
Qed.

Lemma close_returns depth timeout pend (s : state) :
  int10 timeout → m_connection_open (fst s) = true →
  started s → FrameFactory.wf (m_factory (fst s)) → bytes_ok pend →
  represents (m_parser (fst s)) pend →
  returns (close handler (S depth) timeout) s (λ success s', ∃ st s1,
    poll handler (S depth) 4 s = (Ok st, s1) ∧
    closed_from (Z.to_nat (timeout * 10)) s1 success s').
Proof.
  intros Ht Ho Hs Hf Hb Hr.
  pose proof (poll_returns depth 4 pend s Hs Hf Hb Hr) as Hp.
  unfold close, close_with. apply ends_bind. destruct s as [c y].
  eapply ends_eq; [reflexivity|]. cbn [fst] in *. rewrite Ho. cbn [negb].
  apply ends_bind. unfold returns, ends at 1 in Hp. unfold ends at 1.
  change (poll_with (callback handler (S depth)) 4 (c, y))
    with (poll handler (S depth) 4 (c, y)).
  destruct (poll handler (S depth) 4 (c, y)) as [[st|e|u|] s1]; try done.
  destruct Hp as (closed & s0 & _ & Hpol & _ & Hend).
  assert (FrameFactory.wf (m_factory (fst s1))) as Hf1.
  { destruct Hpol as (? & ? & ? & ? & ? & _ & _ & [_ _ _ Hf0 _ _] & _). destruct closed.
    - by subst.
    - by destruct Hend as (_ & _ & _ & [[[] _]|[(_ & [] & _)|(_ & [] & _)]]). }
  eapply ends_mono; [by apply close_rest_returns|..|done].
  intros success s' Hc. by exists st, s1.
Qed.

(** ** The polling loop of the programs *)

(** What a program does in [while (true) if (client.poll() != HEALTHY) break;],
    for at most [n] polls: [poll]s joined, each followed by at most a PING. *)
Inductive spec_polls :
    Hst → list Rfc6455.wire → list event → list message → Hst → bool → Prop :=
  | polls_nil h : spec_polls h [] [] [] h false
  | polls_close h ws evs msgs h' :
      spec_run handler h ws evs msgs h' true → spec_polls h ws evs msgs h' true
  | polls_cons h ws evs msgs h1 ws' evs' msgs' h' ping closed :
      spec_run handler h ws evs msgs h1 false →
      spec_polls h1 ws' evs' msgs' h' closed →
      spec_polls h (ws ++ ws') (evs ++ evs')
        (msgs ++ (if ping : bool then [(Opcode.PING, [])] else []) ++ msgs') h' closed.

Fixpoint poll_until_closed (depth n : nat) (max_reads : Z) : M state bool :=
  match n with
  | O => mret false
  | S n' =>
      st ← poll handler depth max_reads;
      if bool_decide (st ≠ HEALTHY) then mret true
      else poll_until_closed depth n' max_reads
  end.

Definition looped (pend : list Z) (s s' : state) : Prop :=
  ∃ bs ws msgs evs pend' closed,
    went s s' bs msgs evs ∧ represents (m_parser (fst s')) pend' ∧
    Rfc6455.decode_all code_len64 (pend ++ bs)
    = (ws ++ fst (Rfc6455.decode_all code_len64 pend'),
       snd (Rfc6455.decode_all code_len64 pend')) ∧
    spec_polls (m_handler (fst s)) ws evs msgs (m_handler (fst s')) closed.

Lemma decode_all_extend bytes pend ws ext :
  Rfc6455.decode_all code_len64 bytes
  = (ws ++ fst (Rfc6455.decode_all code_len64 pend),
     snd (Rfc6455.decode_all code_len64 pend)) →
  Rfc6455.decode_all code_len64 (bytes ++ ext)
  = (ws ++ fst (Rfc6455.decode_all code_len64 (pend ++ ext)),
     snd (Rfc6455.decode_all code_len64 (pend ++ ext))).
Proof.
  intros Hd. rewrite !Rfc6455.decode_all_app, Hd.
  destruct (Rfc6455.decode_all code_len64 pend) as [ws1 r]. cbn [fst snd].
  destruct (Rfc6455.decode_all code_len64 (r ++ ext)) as [ws2 r2]. cbn [fst snd].
  by rewrite app_assoc.
Qed.

(** One call, as [spec_polls] needs it. *)
Lemma one_poll depth max_reads pend (s : state) :
  started s → FrameFactory.wf (m_factory (fst s)) → bytes_ok pend →
  represents (m_parser (fst s)) pend →
  returns (poll handler (S depth) max_reads) s (λ st s',
    ∃ bs ws msgs evs pend1 closed ping,
      went s s' bs (msgs ++ if ping : bool then [(Opcode.PING, [])] else []) evs ∧
      (bs = [] → ahead_of s = []) ∧
      started s' ∧ represents (m_parser (fst s')) pend1 ∧ bytes_ok pend1 ∧
      Rfc6455.decode_all code_len64 (pend ++ bs)
      = (ws ++ fst (Rfc6455.decode_all code_len64 pend1),
         snd (Rfc6455.decode_all code_len64 pend1)) ∧
      spec_run handler (m_handler (fst s)) ws evs msgs (m_handler (fst s')) closed ∧
      (closed = true → ping = false ∧ st = CLOSED_BY_SERVER) ∧
      paced (Nat.max 1 (Z.to_nat max_reads)) ws pend1 closed ∧ st = snd (link s') ∧
      if closed then link s' = (false, CLOSED_BY_SERVER)
      else link s' = link s ∨ link s' = (false, PING_TIMED_OUT)).
Proof.
  intros Hs Hf Hb Hr. eapply ends_mono; [by apply (poll_returns depth max_reads pend)|..|done].
  intros st s' (closed & s1 & Hz & Hpol & -> & Hend).
  destruct Hpol as (bs & ws & msgs & evs & pend1 & Hpace & _ & Hw & Hs1 & Hr1 & Hb1 & Hd & Hrun & Hl).
  assert (bs = [] → ahead_of s = []) as Hz'.
  { intros ->. apply Hz. destruct Hw as [-> _ _ _ _ _]. apply app_nil_r. }
  destruct closed.
  - subst s1. exists bs, ws, msgs, evs, pend1, true, false. rewrite app_nil_r.
    split_and!; try done. by rewrite Hl.
  - destruct Hend as (Hs' & Hp & Hh & Hcase).
    rewrite <-Hp in Hr1. rewrite <-Hh in Hrun.
    destruct Hcase as [[Hw1 Hl1]|[(_ & Hw1 & Hl1)|(_ & Hw1 & Hl1)]];
      pose proof (went_trans _ _ _ _ _ _ _ _ _ Hw Hw1) as Hw'; rewrite !app_nil_r in Hw'.
    + exists bs, ws, msgs, evs, pend1, false, false. rewrite app_nil_r, <-Hl.
      split_and!; by (try left).
    + exists bs, ws, msgs, evs, pend1, false, false. rewrite app_nil_r.
      split_and!; by (try right).
    + exists bs, ws, msgs, evs, pend1, false, true. rewrite <-Hl. split_and!; by (try left).
Qed.

Lemma poll_until_closed_returns depth n max_reads pend (s : state) :
  started s → FrameFactory.wf (m_factory (fst s)) → bytes_ok pend →
  represents (m_parser (fst s)) pend →
  returns (poll_until_closed (S depth) n max_reads) s (λ _, looped pend s).
Proof.
  revert pend s. induction n as [|n IH]; intros pend s Hs Hf Hb Hr; cbn [poll_until_closed].
  { exists [], [], [], [], pend, false. rewrite app_nil_r.
    split_and!; [by apply went_refl|done| |constructor].
    by destruct (Rfc6455.decode_all code_len64 pend). }
  apply ends_bind. eapply ends_mono; [by apply (one_poll depth max_reads pend)|..|done].
  intros st s1 (bs & ws & msgs & evs & pend1 & closed & ping & Hw & _ & Hs1 & Hr1 & Hb1 &
    Hd & Hrun & Hclosed & _).
  destruct (bool_decide_reflect (st ≠ HEALTHY)) as [Hst1|Hst1].
  - exists bs, ws, (msgs ++ if ping : bool then [(Opcode.PING, [])] else []), evs, pend1, closed.
    split_and!; try done. destruct closed.
    + destruct (Hclosed eq_refl) as [-> _]. rewrite app_nil_r. by constructor.
    + pose proof (polls_cons _ _ _ _ _ [] [] [] _ ping false Hrun (polls_nil _)) as Hp.
      by rewrite !app_nil_r in Hp.
  - destruct closed; [destruct Hst1; by destruct (Hclosed eq_refl) as [_ ->]|].
    eapply ends_mono; [apply (IH pend1); [done|by destruct Hw|done|done]|..|done].
    intros _ s' (bs' & ws' & msgs' & evs' & pend' & closed & Hw' & Hr' & Hd' & Hrun').
    exists (bs ++ bs'), (ws ++ ws'),
      (msgs ++ (if ping : bool then [(Opcode.PING, [])] else []) ++ msgs'), (evs ++ evs'),
      pend', closed.
    split_and!.
    + pose proof (went_trans _ _ _ _ _ _ _ _ _ Hw Hw') as Hw2.
      by rewrite <-app_assoc in Hw2.
    + done.
    + rewrite app_assoc, (decode_all_extend _ _ _ _ Hd), Hd'. cbn [fst snd].
      by rewrite app_assoc.
    + by eapply polls_cons.
Qed.

End Wire.
