(* ===== verification/Endpoint.v ===== *)
(** An abstract endpoint of a connection: what a client may do, step by step,
    whatever its handler and its network. [step] is the specification that
    [Refinement] proves of the client; here are the facts that hold of every
    trace of it. *)

From S2P Require Import Prelude Rfc6455 Frames Factory Parser ParserSpec Client ClientSpec ClientWire.
Import WSClient.

Module Endpoint.

Section Endpoint.
Context `{Target}.

(** ** The machine *)

(** What the endpoint is about to do. When the connection is made the handler
    is told: [Opening]. Between frames it is [Idle]. A frame it
    has taken it is [Answering]; when the frame was the server's CLOSE, and is
    answered, the handler is to be told: [Notifying]. When it closes the
    connection itself, it drops what is pending - [Leaving] - and sends a CLOSE,
    and is then [Waiting] for the server's. *)
Inductive phase : Type :=
  | Opening
  | Idle
  | Answering (f : frame)
  | Notifying
  | Leaving
  | Waiting (heard : bool).

(** With the bytes received and not yet part of a frame taken, and the
    connection as the client sees it: open or not, and the status. *)
Record endpoint : Type := At {
  now : phase;
  pending : list Z;
  seen : bool * ConnectionStatus
}.

(** What others can see of a step: bytes received, and the frame then taken
    with its bytes; a message sent, or only the beginning of one; a call of the
    handler; received bytes dropped. *)
Inductive action : Type :=
  | Received (bytes : list Z) (taken : option (list Z * frame))
  | Sent (m : message) (bytes : list Z)
  | Broken (m : message) (bytes : list Z)
  | Called (ev : event)
  | Dropped (bytes : list Z)
  | Silent.

Definition message_bytes (m : message) (bytes : list Z) : Prop :=
  FrameFactory.frame_bytes true (fst m) true (snd m) bytes.

(** Some, but not all of the bytes of a message. *)
Definition beginning_of (m : message) (bytes : list Z) : Prop :=
  ∃ whole, message_bytes m whole ∧ bytes `prefix_of` whole ∧ length bytes < length whole.

(** [piece] is a frame, shown as [f]. *)
Definition piece_of (piece : list Z) (f : frame) : Prop :=
  ∃ w, Rfc6455.decode code_len64 piece = Some (w, []) ∧ shows w f.

(** What an idle endpoint sends of its own accord: the messages of its handler,
    and PINGs. *)
Definition unprompted (m : message) : Prop :=
  fst m = Opcode.TEXT ∨ fst m = Opcode.BINARY ∨ m = (Opcode.PING, []).

Inductive step : endpoint → action → endpoint → Prop :=
  | step_open p l : step (At Opening p l) (Called on_open) (At Idle p l)
  (** Receiving: as soon as there is a whole frame, it is taken. *)
  | step_wait p l bs :
      bytes_ok bs → Rfc6455.decode code_len64 (p ++ bs) = None →
      step (At Idle p l) (Received bs None) (At Idle (p ++ bs) l)
  | step_take p l bs piece f rest :
      bytes_ok bs → p ++ bs = piece ++ rest → piece_of piece f →
      step (At Idle p l) (Received bs (Some (piece, f))) (At (Answering f) rest l)
  (** Answering: a data frame by a call, a PING by a PONG - too long a PING not
      at all -, a PONG by nothing, a CLOSE by a CLOSE and a call. *)
  | step_data p l f ev :
      event_of f = Some ev → step (At (Answering f) p l) (Called ev) (At Idle p l)
  | step_ping p l f bs :
      Frame.opcode f = Opcode.PING → message_bytes (Opcode.PONG, Frame.payload f) bs →
      step (At (Answering f) p l) (Sent (Opcode.PONG, Frame.payload f) bs) (At Idle p l)
  | step_ping_broken p l f bs :
      Frame.opcode f = Opcode.PING → beginning_of (Opcode.PONG, Frame.payload f) bs →
      step (At (Answering f) p l) (Broken (Opcode.PONG, Frame.payload f) bs) (At Idle p l)
  | step_ping_refused p l f :
      Frame.opcode f = Opcode.PING → 125 < length (Frame.payload f) →
      step (At (Answering f) p l) Silent (At Idle p l)
  | step_pong p l f :
      Frame.opcode f = Opcode.PONG → step (At (Answering f) p l) Silent (At Idle p l)
  | step_close p l f bs :
      Frame.opcode f = Opcode.CLOSE → message_bytes (Opcode.CLOSE, []) bs →
      step (At (Answering f) p l) (Sent (Opcode.CLOSE, []) bs)
        (At Notifying p (false, CLOSED_BY_SERVER))
  | step_close_broken p l f bs :
      Frame.opcode f = Opcode.CLOSE → beginning_of (Opcode.CLOSE, []) bs →
      step (At (Answering f) p l) (Broken (Opcode.CLOSE, []) bs)
        (At Idle p (false, CLOSED_BY_SERVER))
  | step_notify p l : step (At Notifying p l) (Called (on_close true)) (At Idle p l)
  (** Closing. *)
  | step_leave p l : step (At Idle p l) (Dropped p) (At Leaving [] l)
  | step_left p l bs :
      message_bytes (Opcode.CLOSE, []) bs →
      step (At Leaving p l) (Sent (Opcode.CLOSE, []) bs)
        (At (Waiting false) p (false, CLOSED_BY_CLIENT))
  | step_left_broken p l bs :
      beginning_of (Opcode.CLOSE, []) bs →
      step (At Leaving p l) (Broken (Opcode.CLOSE, []) bs) (At Idle p l)
  | step_hear_nothing p l bs :
      bytes_ok bs → Rfc6455.decode code_len64 (p ++ bs) = None →
      step (At (Waiting false) p l) (Received bs None) (At (Waiting false) (p ++ bs) l)
  | step_hear p l bs piece f rest :
      bytes_ok bs → p ++ bs = piece ++ rest → piece_of piece f →
      step (At (Waiting false) p l) (Received bs (Some (piece, f)))
        (At (Waiting (bool_decide (Frame.opcode f = Opcode.CLOSE))) rest l)
  | step_report p l heard :
      step (At (Waiting heard) p l) (Called (on_close heard)) (At Idle p l)
  | step_abandon p l heard : step (At (Waiting heard) p l) Silent (At Idle p l)
  (** Unprompted. *)
  | step_send p l m bs :
      unprompted m → message_bytes m bs → step (At Idle p l) (Sent m bs) (At Idle p l)
  | step_send_broken p l m bs :
      unprompted m → beginning_of m bs → step (At Idle p l) (Broken m bs) (At Idle p l)
  | step_time_out p l : step (At Idle p l) Silent (At Idle p (false, PING_TIMED_OUT)).

Inductive steps : endpoint → list action → endpoint → Prop :=
  | steps_nil e : steps e [] e
  | steps_snoc e tr e1 act e2 : steps e tr e1 → step e1 act e2 → steps e (tr ++ [act]) e2.

Lemma steps_app e tr1 e1 tr2 e2 : steps e tr1 e1 → steps e1 tr2 e2 → steps e (tr1 ++ tr2) e2.
Proof.
  intros H1. induction 1 as [|e1 tr2 e2 act e3 H2 IH Hs]; [by rewrite app_nil_r|].
  rewrite app_assoc. eapply steps_snoc; [by apply IH|done].
Qed.

(** ** What a trace amounts to *)

Definition received_by (act : action) : list Z :=
  match act with Received bytes _ => bytes | _ => [] end.

Definition emitted_by (act : action) : list Z :=
  match act with Sent _ bytes | Broken _ bytes => bytes | _ => [] end.

Definition called_by (act : action) : list event :=
  match act with Called ev => [ev] | _ => [] end.

Definition taken_by (act : action) : list frame :=
  match act with Received _ (Some (_, f)) => [f] | _ => [] end.

(** The received bytes that are used up: a frame's, or the ones dropped. *)
Definition used_by (act : action) : list Z :=
  match act with
  | Received _ (Some (piece, _)) => piece
  | Dropped bytes => bytes
  | _ => []
  end.

Definition received (tr : list action) : list Z := concat (map received_by tr).
Definition emitted (tr : list action) : list Z := concat (map emitted_by tr).
Definition called (tr : list action) : list event := concat (map called_by tr).
Definition taken (tr : list action) : list frame := concat (map taken_by tr).
Definition used (tr : list action) : list Z := concat (map used_by tr).

Lemma concat_map_snoc {A B} (f : A → list B) l a :
  concat (map f (l ++ [a])) = concat (map f l) ++ f a.
Proof. rewrite map_app, concat_app. cbn. by rewrite app_nil_r. Qed.

(** ** Every byte is accounted for *)

(** The bytes received are, in order, those of the frames taken, those that
    were dropped, and those still pending. *)
Lemma steps_account e tr e' :
  steps e tr e' → pending e ++ received tr = used tr ++ pending e'.
Proof.
  unfold received, used. induction 1 as [|e tr e1 act e2 _ IH Hs]; [by rewrite app_nil_r|].
  rewrite !concat_map_snoc, app_assoc, IH, <-!app_assoc. f_equal.
  destruct Hs; cbn in *; by rewrite ?app_nil_r.
Qed.

Lemma step_pending_ok e act e' : step e act e' → bytes_ok (pending e) → bytes_ok (pending e').
Proof.
  destruct 1 as [|p l bs Hb _|p l bs piece f rest Hb He _| | | | | | | | | | | |p l bs Hb _
    |p l bs piece f rest Hb He _| | | | |]; cbn; intros Hp; try done; try constructor;
    try (by apply Forall_app).
  all: by eapply Forall_app; rewrite <-He; apply Forall_app.
Qed.

(** A connection is not opened again. *)
Lemma step_closed e act e' : step e act e' → fst (seen e) = false → fst (seen e') = false.
Proof. by destruct 1. Qed.

(** The connection is open exactly as long as its status is HEALTHY. *)
Definition agreeing (seen : bool * ConnectionStatus) : Prop := fst seen = true ↔ snd seen = HEALTHY.

Lemma steps_agreeing e tr e' : steps e tr e' → agreeing (seen e) → agreeing (seen e').
Proof.
  induction 1 as [|e tr e1 act e2 _ IH Hs]; [done|]. intros He. specialize (IH He).
  by destruct Hs.
Qed.

(** The connection is reported once, and first. *)
Lemma steps_open e tr e' :
  steps e tr e' → now e = Opening →
  now e' = Opening ∧ called tr = [] ∨
  now e' ≠ Opening ∧ ∃ evs, called tr = on_open :: evs ∧ on_open ∉ evs.
Proof.
  unfold called. induction 1 as [|e tr e1 act e2 _ IH Hs]; intros He; [by left|].
  right. rewrite concat_map_snoc.
  destruct (IH He) as [[Ho Hc]|[Ho (evs & Hc & Hn)]]; rewrite Hc.
  - destruct Hs; try done. split; [done|]. exists []. split; [done|apply not_elem_of_nil].
  - split; [by destruct Hs|]. exists (evs ++ called_by act). split; [done|].
    rewrite elem_of_app. intros [Hin|Hin]; [done|].
    destruct Hs; cbn in Hin; try (by apply not_elem_of_nil in Hin);
      apply list_elem_of_singleton in Hin; subst; try done.
    match goal with He' : event_of ?f = Some on_open |- _ =>
      unfold event_of in He'; by destruct (Frame.opcode f) end.
Qed.

(** The phases a trace starts in. *)
Definition starting (ph : phase) : Prop := ph = Opening ∨ ph = Idle.

Lemma steps_waiting e tr e' heard :
  steps e tr e' → starting (now e) → now e' = Waiting heard → fst (seen e') = false.
Proof.
  intros Ht Hi. revert heard.
  induction Ht as [|e tr e1 act e2 _ IH Hs]; [by destruct Hi as [->| ->]|].
  specialize (IH Hi). intros heard. destruct Hs; cbn in *; try done; intros _; by eapply IH.
Qed.

(** ** Traces that drop nothing *)

Definition lossless (act : action) : Prop :=
  match act with Dropped _ => False | _ => True end.

Lemma decode_all_piece piece w rest :
  Rfc6455.decode code_len64 piece = Some (w, []) →
  Rfc6455.decode_all code_len64 (piece ++ rest)
  = (w :: fst (Rfc6455.decode_all code_len64 rest), snd (Rfc6455.decode_all code_len64 rest)).
Proof. intros Hd. by apply (decode_all_cons _ _ _ rest) in Hd. Qed.

(** The frames taken are the first ones of the bytes received. *)
Lemma lossless_frames e tr e' :
  steps e tr e' → Forall lossless tr → ∃ ws,
    Forall2 shows ws (taken tr) ∧
    Rfc6455.decode_all code_len64 (pending e ++ received tr)
    = (ws ++ fst (Rfc6455.decode_all code_len64 (pending e')),
       snd (Rfc6455.decode_all code_len64 (pending e'))).
Proof.
  unfold received, taken. induction 1 as [e|e tr e1 act e2 _ IH Hs].
  - intros _. exists []. rewrite app_nil_r. by destruct (Rfc6455.decode_all _ _).
  - intros [Hl Ha]%Forall_app. destruct (IH Hl) as (ws & Hsh & Hd).
    rewrite !concat_map_snoc, app_assoc, (decode_all_extend _ _ _ _ Hd).
    apply Forall_inv in Ha. destruct Hs as [| | ? ? ? ? ? ? ? He (w & Hw & Hf)
      | | | | | | | | | | | | |? ? ? ? ? ? ? He (w & Hw & Hf)| | | | |]; try done;
      try (exists ws; cbn [received_by taken_by pending]; by rewrite !app_nil_r).
    all: exists (ws ++ [w]); cbn [received_by taken_by pending] in *;
      split; [by apply Forall2_app; [|repeat constructor]|];
      by rewrite He, (decode_all_piece _ _ _ Hw), <-app_assoc.
Qed.

(** The calls of the handler that the frames make: one per data frame, none
    for a PING or a PONG, at most one for a CLOSE (none when the answer could
    not be sent). *)
Inductive follows : list frame → list event → Prop :=
  | follows_nil : follows [] []
  | follows_data f ev fs evs :
      event_of f = Some ev → follows fs evs → follows (f :: fs) (ev :: evs)
  | follows_control f fs evs :
      event_of f = None → follows fs evs → follows (f :: fs) evs
  | follows_close f fs evs :
      Frame.opcode f = Opcode.CLOSE → follows fs evs →
      follows (f :: fs) (on_close true :: evs).

Lemma follows_app fs1 evs1 fs2 evs2 :
  follows fs1 evs1 → follows fs2 evs2 → follows (fs1 ++ fs2) (evs1 ++ evs2).
Proof.
  induction 1; intros; [done|by apply follows_data; auto|by apply follows_control; auto|].
  by apply follows_close; auto.
Qed.

Lemma control_no_event f :
  Frame.opcode f = Opcode.PING ∨ Frame.opcode f = Opcode.PONG ∨ Frame.opcode f = Opcode.CLOSE →
  event_of f = None.
Proof. unfold event_of. by intros [->|[->| ->]]. Qed.

Lemma follows_control_last fs evs f :
  follows fs evs → event_of f = None → follows (fs ++ [f]) evs.
Proof.
  intros Hf He. rewrite <-(app_nil_r evs).
  by apply follows_app; [|apply follows_control; [|constructor]].
Qed.

(** What is called for before the frame at hand. *)
Definition called_for (ph : phase) (fs : list frame) (evs : list event) : Prop :=
  match ph with
  | Idle => follows fs evs
  | Answering f => ∃ fs', fs = fs' ++ [f] ∧ follows fs' evs
  | Notifying => ∃ fs' f, fs = fs' ++ [f] ∧ Frame.opcode f = Opcode.CLOSE ∧ follows fs' evs
  | _ => False
  end.

Lemma lossless_follows p l tr e' :
  steps (At Idle p l) tr e' → Forall lossless tr → called_for (now e') (taken tr) (called tr).
Proof.
  unfold taken, called. remember (At Idle p l) as e eqn:He.
  induction 1 as [e|e tr e1 act e2 _ IH Hs]; subst; [constructor|].
  intros [Hl Ha]%Forall_app. specialize (IH eq_refl Hl). apply Forall_inv in Ha.
  rewrite !concat_map_snoc.
  destruct Hs; cbn in IH, Ha |- *; rewrite ?app_nil_r; try done; try by eexists.
  all: try (destruct IH as (fs & -> & IH)); try (destruct IH as (fs & f & -> & Ho & IH)).
  all: try (apply follows_control_last; [done|apply control_no_event; by auto]).
  - by apply follows_app; [|apply follows_data; [|constructor]].
  - by eexists _, _.
  - by apply follows_app; [|apply follows_close; [|constructor]].
Qed.

(** ** All traces *)

(** The frames [fs] occur in [bytes], one after the other. *)
Inductive carved : list Z → list frame → Prop :=
  | carved_nil : carved [] []
  | carved_frame bytes fs piece f :
      carved bytes fs → piece_of piece f → carved (bytes ++ piece) (fs ++ [f])
  | carved_drop bytes fs dropped : carved bytes fs → carved (bytes ++ dropped) fs.

Lemma steps_carved e tr e' : steps e tr e' → carved (used tr) (taken tr).
Proof.
  unfold used, taken. induction 1 as [e|e tr e1 act e2 _ IH Hs]; [constructor|].
  rewrite !concat_map_snoc. destruct Hs; cbn; rewrite ?app_nil_r; try done;
    by constructor.
Qed.

Lemma carved_length bytes fs : carved bytes fs → 2 * length fs ≤ length bytes.
Proof.
  induction 1 as [|bytes fs piece f _ IH (w & Hw & _)|bytes fs dropped _ IH];
    [done|..]; rewrite !length_app; [|lia].
  apply Rfc6455.decode_consumes in Hw. cbn in Hw |- *. lia.
Qed.

(** What was said, whole or in part. *)
Definition said_by (act : action) : list (message * list Z) :=
  match act with Sent m bytes | Broken m bytes => [(m, bytes)] | _ => [] end.

Definition said (tr : list action) : list (message * list Z) := concat (map said_by tr).

Lemma steps_said e tr e' :
  steps e tr e' →
  emitted tr = concat (map snd (said tr)) ∧
  Forall (λ x, message_bytes (fst x) (snd x) ∨ beginning_of (fst x) (snd x)) (said tr).
Proof.
  unfold emitted, said. induction 1 as [e|e tr e1 act e2 _ [IH1 IH2] Hs]; [done|].
  rewrite !concat_map_snoc, map_app, concat_app, IH1. split.
  - f_equal. destruct act; cbn; by rewrite ?app_nil_r.
  - apply Forall_app. split; [done|]. destruct Hs; cbn; try done; constructor; auto.
Qed.

(** The payloads of the PONGs among the messages, and of the PINGs among the
    frames. *)
Definition pong_payloads (ms : list message) : list (list Z) :=
  omap (λ m, if bool_decide (fst m = Opcode.PONG) then Some (snd m) else None) ms.

Definition ping_payloads (fs : list frame) : list (list Z) :=
  omap (λ f, if bool_decide (Frame.opcode f = Opcode.PING) then Some (Frame.payload f) else None)
    fs.

(** The calls with data, and the reports of a CLOSE. *)
Definition is_data (ev : event) : Prop :=
  match ev with on_text _ | on_binary _ | on_continuation _ => True | _ => False end.

#[export] Instance is_data_dec ev : Decision (is_data ev).
Proof. destruct ev; apply _. Defined.

Definition is_closed (ev : event) : Prop := ev = on_close true.

#[export] Instance is_closed_dec ev : Decision (is_closed ev).
Proof. destruct ev as [|[]| | |]; (by left) || (by right). Defined.

Definition is_CLOSE (f : frame) : Prop := Frame.opcode f = Opcode.CLOSE.

(** The frames [fs] account for the calls [evs] and the messages [ms]. *)
Record accounts (fs : list frame) (evs : list event) (ms : list message) : Prop := {
  accounts_data : filter is_data evs `sublist_of` omap event_of fs;
  accounts_pong : pong_payloads ms `sublist_of` ping_payloads fs;
  accounts_closed : length (filter is_closed evs) ≤ length (filter is_CLOSE fs)
}.

(** Before the frame at hand. *)
Definition accounted (ph : phase) (fs : list frame) (evs : list event) (ms : list message) :
    Prop :=
  match ph with
  | Answering f => ∃ fs', fs = fs' ++ [f] ∧ accounts fs' evs ms
  | Notifying | Waiting true =>
      ∃ fs' f, fs = fs' ++ [f] ∧ is_CLOSE f ∧ accounts fs' evs ms
  | _ => accounts fs evs ms
  end.

Lemma accounts_app fs evs ms fs' evs' ms' :
  accounts fs evs ms → accounts fs' evs' ms' →
  accounts (fs ++ fs') (evs ++ evs') (ms ++ ms').
Proof.
  intros [H1 H2 H3] [H1' H2' H3']. split.
  - rewrite filter_app, omap_app. by apply sublist_app.
  - unfold pong_payloads, ping_payloads. rewrite !omap_app. by apply sublist_app.
  - rewrite !filter_app, !length_app. lia.
Qed.

Lemma accounts_frame f : accounts [f] [] [].
Proof. split; cbn [filter length]; [apply sublist_nil_l..|cbn; lia]. Qed.

Lemma accounts_message m : fst m ≠ Opcode.PONG → accounts [] [] [m].
Proof.
  intros Hm. split; [done| |cbn; lia]. unfold pong_payloads. cbn. by rewrite bool_decide_false.
Qed.

Lemma accounts_answer f m :
  Frame.opcode f = Opcode.PING → m = (Opcode.PONG, Frame.payload f) → accounts [f] [] [m].
Proof.
  intros Ho ->. split; [apply sublist_nil_l| |cbn; lia].
  unfold pong_payloads, ping_payloads. cbn. by rewrite (bool_decide_true _ Ho).
Qed.

Lemma accounts_data_call f ev : event_of f = Some ev → accounts [f] [ev] [].
Proof.
  intros He. split; cbn [omap]; [|apply sublist_nil_l|].
  - cbn. rewrite He. destruct ev; cbn; (done || apply sublist_nil_l).
  - assert (¬ is_closed ev) as Hn.
    { unfold event_of in He. unfold is_closed. by destruct (Frame.opcode f); try done; injection He as <-. }
    rewrite filter_cons, decide_False by done. cbn. lia.
Qed.

Lemma accounts_closed_call f : is_CLOSE f → accounts [f] [on_close true] [].
Proof.
  intros Ho. split; [apply sublist_nil_l..|]. rewrite !filter_cons, !decide_True by done. done.
Qed.

Lemma accounts_open_call : accounts [] [on_open] [].
Proof. split; [done..|]. by rewrite filter_cons, decide_False by done. Qed.

Lemma accounts_unclosed_call : accounts [] [on_close false] [].
Proof. split; [done..|]. by rewrite filter_cons, decide_False by done. Qed.

Lemma accounted_idle ph fs evs ms : accounted ph fs evs ms → accounts fs evs ms.
Proof.
  assert (∀ fs' f, accounts fs' evs ms → accounts (fs' ++ [f]) evs ms) as Hf.
  { intros fs' f Ha. rewrite <-(app_nil_r evs), <-(app_nil_r ms).
    apply accounts_app; [done|apply accounts_frame]. }
  destruct ph as [| |f| | |[]]; cbn; try done.
  - intros (fs' & -> & Ha). auto.
  - intros (fs' & f & -> & _ & Ha). auto.
  - intros (fs' & f & -> & _ & Ha). auto.
Qed.

Lemma accounts_grow fs evs ms fs' evs' ms' fs1 evs1 ms1 :
  accounts fs evs ms → accounts fs' evs' ms' →
  fs1 = fs ++ fs' → evs1 = evs ++ evs' → ms1 = ms ++ ms' → accounts fs1 evs1 ms1.
Proof. intros ? ? -> -> ->. by apply accounts_app. Qed.

#[local] Ltac grow IH lem :=
  eapply accounts_grow; [exact IH|apply lem; try done|by rewrite ?app_nil_r..].

Lemma steps_accounted e tr e' :
  steps e tr e' → starting (now e) →
  accounted (now e') (taken tr) (called tr) (map fst (said tr)).
Proof.
  unfold taken, called, said. induction 1 as [e|e tr e1 act e2 _ IH Hs]; intros Hi.
  { by destruct Hi as [->| ->]; split. }
  specialize (IH Hi). rewrite !concat_map_snoc, map_app.
  destruct Hs as [| | | | | | | | | | | | | | |p l bs piece f rest| p l []|p l []|p l m bs Hu|p l m bs Hu|];
    cbn in IH |- *; rewrite ?app_nil_r; try done; try (by eexists); try (by case_match).
  all: try (destruct IH as (fs & -> & IH)); try (destruct IH as (fs & g & -> & Hg & IH)).
  - grow IH accounts_open_call.
  - grow IH (accounts_data_call f ev).
  - grow IH (accounts_answer f (Opcode.PONG, Frame.payload f)).
  - grow IH (accounts_answer f (Opcode.PONG, Frame.payload f)).
  - grow IH (accounts_frame f).
  - grow IH (accounts_frame f).
  - exists fs, f. split_and!; [done..|]. grow IH (accounts_message (Opcode.CLOSE, [])).
  - grow (accounts_app _ _ _ _ _ _ IH (accounts_frame f)) (accounts_message (Opcode.CLOSE, [])).
  - grow IH (accounts_closed_call g).
  - grow IH (accounts_message (Opcode.CLOSE, [])).
  - grow IH (accounts_message (Opcode.CLOSE, [])).
  - destruct (bool_decide_reflect (Frame.opcode f = Opcode.CLOSE)); [by eexists _, f|].
    grow IH (accounts_frame f).
  - grow IH (accounts_closed_call g).
  - grow IH accounts_unclosed_call.
  - grow IH (accounts_frame g).
  - grow IH (accounts_message m). by destruct Hu as [->|[->| ->]].
  - grow IH (accounts_message m). by destruct Hu as [->|[->| ->]].
Qed.

End Endpoint.
End Endpoint.
