(* ===== verification/Refinement.v ===== *)
(** The client implements the abstract endpoint of [Endpoint]: whatever its
    handler, its network and its exceptions do, the bytes it reads and sends and
    the calls it makes are those of a trace of the machine. *)

From S2P Require Import Prelude Buffer Rfc6455 Frames Factory Parser ParserSpec Sys Sockets SocketSpec SocketStream Handshake Client ClientSpec ClientWire Endpoint.
Import WSClient Endpoint.

Module Refinement.

(** ** Through exceptions and nested calls *)

(** [safe], with [F] where a bound was too small: [ends] if [F] never holds. *)
Definition upto {S A} (F : S → Prop) (m : M S A) (s : S) (Q : A → S → Prop)
    (E : S → Prop) : Prop :=
  match m s with
  | (Ok a, s') => Q a s'
  | (Throw _, s') => E s'
  | (UB _, _) => False
  | (OutOfFuel, s') => F s'
  end.

Section Upto.
Context {S : Type} (F : S → Prop).

Lemma upto_bind {A B} (m : M S A) (f : A → M S B) s (Q : B → S → Prop) E :
  upto F m s (λ a s', upto F (f a) s' Q E) E → upto F (m ≫= f) s Q E.
Proof. unfold upto, mbind, M_bind. by destruct (m s) as [[] ?]. Qed.

Lemma upto_mono {A} (m : M S A) s (Q R : A → S → Prop) (E E' : S → Prop) :
  upto F m s Q E → (∀ a s', Q a s' → R a s') → (∀ s', E s' → E' s') → upto F m s R E'.
Proof. unfold upto. destruct (m s) as [[] ?]; auto. Qed.

Lemma upto_eq {A} (m : M S A) s a s' (Q : A → S → Prop) E :
  m s = (Ok a, s') → Q a s' → upto F m s Q E.
Proof. unfold upto. by intros ->. Qed.

Lemma runs_upto {A} (m : M S A) s (Q : A → S → Prop) E : runs m s Q → upto F m s Q E.
Proof. intros (a & s' & Hm & HQ). by apply (upto_eq _ _ a s'). Qed.

Lemma upto_zoom {T A} (prj : S → T) (upd : T → S → S) (m : M T A) s
    (Q : A → S → Prop) (E : S → Prop) :
  upto (λ t, F (upd t s)) m (prj s) (λ a t, Q a (upd t s)) (λ t, E (upd t s)) →
  upto F (zoom prj upd m) s Q E.
Proof. unfold upto, zoom. by destruct (m (prj s)) as [[] ?]. Qed.

Lemma upto_catching {A} (m : M S A) s (Q : exn + A → S → Prop) E :
  upto F m s (λ a, Q (inr a)) (λ s', ∀ e, Q (inl e) s') →
  upto F (catching m) s Q E.
Proof. unfold upto, catching. destruct (m s) as [[] ?]; auto. Qed.

(** [keeps], in the same sense. *)
Definition holds {A} (I : S → Prop) (m : M S A) : Prop :=
  ∀ s, I s → upto F m s (λ _, I) I.

Lemma holds_bind {A B} I (m : M S A) (f : A → M S B) :
  holds I m → (∀ a, holds I (f a)) → holds I (m ≫= f).
Proof.
  intros Hm Hf s Hs. apply upto_bind. eapply upto_mono; [by apply Hm|..|done].
  intros a s' Hs'. by apply Hf.
Qed.

Lemma holds_catching {A} I (m : M S A) : holds I m → holds I (catching m).
Proof. intros Hm s Hs. apply upto_catching. eapply upto_mono; [by apply Hm|..]; auto. Qed.
End Upto.

Section Refinement.
Context {Hst St W : Type} `{Target, OS W, Entropy W, !SocketType St W, !SocketStream St W}.
Context (Hhard : hardened = false) (Hlimit : (139 < send_limit)%Z).

Local Notation "'state'" := (@state Hst St W).

(** What is known where the nesting bound was too small. *)
Context (F : state → Prop).

(** A handler method that may do anything: send, poll and close again, look at
    the client, and treat exceptions as it likes. It reads the payload of its
    frame only while that is [fresh], before it polls or closes; payloads fit
    the socket's limit, and unless [closing] it does not close. *)
Fixpoint modest (closing fresh : bool) (limit : Z) (p : prog Hst) : Prop :=
  match p with
  | Return | Raise _ => True
  | Payload k => fresh = true ∧ ∀ bytes, modest closing fresh limit (k bytes)
  | Get k => ∀ h, modest closing fresh limit (k h)
  | Put _ k => modest closing fresh limit k
  | SendText payload k | SendBinary payload k =>
      payload_ok payload ∧ (Z.of_nat (length payload) + 14 < limit)%Z ∧
      ∀ r, modest closing fresh limit (k r)
  | Close timeout k =>
      closing = true ∧ int10 timeout ∧ ∀ r, modest closing false limit (k r)
  | Poll _ k => ∀ r, modest closing false limit (k r)
  | Status k => ∀ st, modest closing fresh limit (k st)
  | LastRtt k => ∀ rtt, modest closing fresh limit (k rtt)
  end.

(** The timer runs, unless the client is still being constructed. *)
Context (timed : bool).

Definition clocked (s : state) : Prop := timed = true → started s.

(** ** Steps that send [out] and do nothing else *)

Record moved (s s' : state) (out : list Z) : Prop := {
  moved_got : got_of s' = got_of s;
  moved_put : put_of s' = put_of s ++ out;
  moved_parser : m_parser (fst s') = m_parser (fst s);
  moved_calls : calls (fst s') = calls (fst s);
  moved_link : link s' = link s;
  moved_factory : FrameFactory.wf (m_factory (fst s'));
  moved_started : clocked s'
}.

Lemma moved_trans s s1 s2 out1 out2 :
  moved s s1 out1 → moved s1 s2 out2 → moved s s2 (out1 ++ out2).
Proof.
  intros [] []. split; try done; try congruence. rewrite app_assoc. congruence.
Qed.

Definition calm (s s' : state) : Prop := moved s s' [].

Definition calmly {A} (m : M state A) : Prop := ∀ s,
  clocked s → FrameFactory.wf (m_factory (fst s)) → upto F m s (λ _, calm s) (calm s).

Lemma calm_trans s s1 s2 : calm s s1 → calm s1 s2 → calm s s2.
Proof. apply moved_trans. Qed.

Lemma calm_refl s : clocked s → FrameFactory.wf (m_factory (fst s)) → calm s s.
Proof. split; by rewrite ?app_nil_r. Qed.

Lemma calmly_ret {A} (a : A) : calmly (mret a).
Proof. intros s ? ?. by apply calm_refl. Qed.

Lemma calmly_throw {A} e : calmly (throw e : M state A).
Proof. intros s ? ?. by apply calm_refl. Qed.

Lemma calmly_self : calmly self.
Proof. intros s ? ?. by apply calm_refl. Qed.

Lemma calmly_bind {A B} (m : M state A) (f : A → M state B) :
  calmly m → (∀ a, calmly (f a)) → calmly (m ≫= f).
Proof.
  intros Hm Hf s Hs Hw. apply upto_bind. eapply upto_mono; [by apply Hm|..|done].
  cbn beta. intros a s1 Hc. eapply upto_mono; [apply Hf; by destruct Hc|..]; cbn beta; intros;
    by eapply calm_trans.
Qed.

Lemma calmly_catching {A} (m : M state A) : calmly m → calmly (catching m).
Proof. intros Hm s ? ?. apply upto_catching. eapply upto_mono; [by apply Hm|..]; auto. Qed.

Lemma calmly_when b (m : M state unit) : calmly m → calmly (when b m).
Proof. intros Hm. destruct b; [done|apply calmly_ret]. Qed.

Lemma calmly_update (f : t Hst St → t Hst St) :
  (∀ c, m_socket (f c) = m_socket c ∧ m_parser (f c) = m_parser c ∧
        calls (f c) = calls c ∧ m_factory (f c) = m_factory c ∧
        m_ping_timer (f c) = m_ping_timer c ∧ m_connection_open (f c) = m_connection_open c ∧
        m_status (f c) = m_status c) →
  calmly (update_self f).
Proof.
  intros Hf [c y] Hs Hw. destruct (Hf c) as (H1' & H2' & H3 & H4 & H5 & H6 & H7).
  split; unfold got_of, put_of, link, clocked, started in *; cbn in *;
    by rewrite ?H1', ?H4, ?H5, ?H6, ?H7, ?app_nil_r.
Qed.

(** The clock moves, the client's other members stay. *)
Lemma calm_clock (s : state) f h :
  FrameFactory.wf (m_factory (fst s)) →
  m_socket (f (fst s)) = m_socket (fst s) → m_factory (f (fst s)) = m_factory (fst s) →
  calls (f (fst s)) = calls (fst s) → m_parser (f (fst s)) = m_parser (fst s) →
  m_connection_open (f (fst s)) = m_connection_open (fst s) →
  m_status (f (fst s)) = m_status (fst s) →
  nanotimer.time1 (m_ping_timer (f (fst s))) ≠ None →
  calm s (f (fst s), mkSys (snd (sys_clock (env (snd s)))) h).
Proof.
  intros Hf Hs Hf' Hc Hp Ho Hst1 Ht.
  destruct (stream_clock (m_socket (fst s)) (env (snd s))) as (Hg & Hput & _).
  split; unfold got_of, put_of, link; cbn [fst snd env];
    rewrite ?Hs, ?Hf', ?Ho, ?Hst1, ?app_nil_r; (done || by intros _).
Qed.

Lemma calmly_elapsed : timed = true → calmly (on_timer nanotimer.get_elapsed_ms).
Proof.
  intros Htimed [c y] Hs Hf. specialize (Hs Htimed). unfold upto. pose proof (elapsed_eq c y) as He.
  unfold started in Hs. cbn [fst] in *.
  destruct (sys_clock (env y)) as [[sec2 nsec2] w] eqn:Hc.
  destruct (nanotimer.time1 (m_ping_timer c)) as [[sec1 nsec1]|] eqn:Ht; [|done].
  rewrite He. replace w with (snd (sys_clock (env y))) by (by rewrite Hc).
  by apply (calm_clock (c, y) (λ c, set_ping_timer _ c)).
Qed.

Lemma calmly_start : calmly (on_timer nanotimer.start).
Proof.
  intros [c y] Hs Hf. apply upto_zoom. cbn [fst snd].
  unfold nanotimer.start, call, update_self, modify, upto, mbind, M_bind.
  destruct (sys_clock (env y)) as [now w] eqn:Hc.
  replace w with (snd (sys_clock (env y))) by (by rewrite Hc).
  by apply (calm_clock (c, y) (λ c, set_ping_timer _ c)).
Qed.


(** ** Sending *)

Lemma sending op payload s :
  is_byte (Opcode.to_u8 op) → payload_ok payload →
  (Z.of_nat (length payload) + 14 < send_limit)%Z →
  clocked s → FrameFactory.wf (m_factory (fst s)) →
  upto F (out ← on_factory (FrameFactory.construct true op true payload); send out) s
    (λ _ s', ∃ bs, message_bytes (op, payload) bs ∧ moved s s' bs)
    (λ s', ∃ bs, beginning_of (op, payload) bs ∧ moved s s' bs).
Proof.
  intros Ho Hpay Hsmall Hs Hf. destruct s as [c y]. apply upto_bind, upto_zoom, runs_upto.
  cbn [fst snd] in *.
  eapply runs_mono; [by destruct Hpay; apply FrameFactory.factory_construct_runs|].
  cbn beta. intros out f [Hout Hf']. apply upto_bind, upto_zoom.
  cbn [fst snd set_factory m_socket].
  pose proof (frame_bytes_fit op payload out Ho Hpay Hout) as Hfit.
  assert (Z.of_nat (length out) < send_limit)%Z as Hlen by lia.
  pose proof (stream_send out (m_socket c) y Hlen) as Hk. unfold upto.
  destruct (st_send out (m_socket c, y)) as [[n|e|u|] [x y']]; try done.
  - destruct Hk as (Hg & Hp & _). exists out. split; [done|]. by split.
  - destruct Hk as (Hg & (k & Hk & Hp) & _). exists (take k out). split; [|by split].
    exists out. split_and!; [done|apply prefix_take|]. rewrite length_take. lia.
Qed.

Lemma controlling op payload e s :
  is_byte (Opcode.to_u8 op) → bytes_ok payload →
  clocked s → FrameFactory.wf (m_factory (fst s)) →
  upto F (out ← on_factory
                (if 125 <? length payload then throw e
                 else FrameFactory.construct true op true payload); send out) s
    (λ _ s', ∃ bs, message_bytes (op, payload) bs ∧ moved s s' bs)
    (λ s', 125 < length payload ∧ calm s s' ∨
       ∃ bs, beginning_of (op, payload) bs ∧ moved s s' bs).
Proof.
  intros Ho Hb Hs Hf. destruct (Nat.ltb_spec 125 (length payload)) as [Hl|Hl].
  - destruct s as [[] y]. left. split; [done|]. by apply calm_refl.
  - eapply upto_mono; [apply sending; [done|split; [done|lia]|lia|done..]|done|].
    cbn beta. auto.
Qed.

Create HintDb calm.
#[local] Hint Resolve calmly_ret calmly_throw calmly_self calmly_bind calmly_catching
  calmly_when calmly_elapsed calmly_start : calm.
#[local] Hint Extern 2 (calmly (update_self _)) => by apply calmly_update : calm.

Lemma calmly_status : calmly status.
Proof. unfold status. auto with calm. Qed.

Lemma calmly_last_rtt : calmly last_rtt.
Proof. unfold last_rtt. auto with calm. Qed.

Lemma calmly_handle_pong payload : timed = true → calmly (handle_pong payload).
Proof. unfold handle_pong. auto 6 with calm. Qed.

(** ** Histories *)

Section History.
Context (s0 : state) (e0 : endpoint) (closing : bool) (Hstart : starting (now e0)).

(** What happened since [s0] is a trace from [e0] to an endpoint in phase
    [ph], which took [k] frames or more; and the connection is closed if
    [shut]. *)
Definition hist (k : nat) (shut : bool) (ph : phase) (s : state) : Prop :=
  clocked s ∧ FrameFactory.wf (m_factory (fst s)) ∧
  ∃ tr pend,
    steps e0 tr (At ph pend (link s)) ∧ (closing = false → Forall lossless tr) ∧
    k ≤ length (taken tr) ∧ (shut = true → m_connection_open (fst s) = false) ∧
    represents (m_parser (fst s)) pend ∧ bytes_ok pend ∧
    got_of s = got_of s0 ++ received tr ∧ put_of s = put_of s0 ++ emitted tr ∧
    calls (fst s) = calls (fst s0) ++ called tr.

Lemma hist_weaken k k' shut shut' ph s :
  hist k shut ph s → k' ≤ k → (shut' = true → shut = true) → hist k' shut' ph s.
Proof.
  intros (Hs & Hf & tr & pend & Ht & Hl & Hk & Hsh & Hrest) Hle Himp.
  split; [done|]. split; [done|]. exists tr, pend. split_and!; try apply Hrest; auto. lia.
Qed.

Section Steps.
Context (k : nat) (shut : bool).

Lemma taken_snoc n tr act : n ≤ length (taken tr) → n ≤ length (taken (tr ++ [act])).
Proof. unfold taken. rewrite concat_map_snoc, length_app. lia. Qed.

(** A step that does not touch the parser. *)
Lemma hist_does ph ph' act s s' :
  hist k shut ph s → (∀ pend, step (At ph pend (link s)) act (At ph' pend (link s'))) →
  lossless act → received_by act = [] →
  got_of s' = got_of s → put_of s' = put_of s ++ emitted_by act →
  calls (fst s') = calls (fst s) ++ called_by act →
  m_parser (fst s') = m_parser (fst s) →
  FrameFactory.wf (m_factory (fst s')) → clocked s' → hist k shut ph' s'.
Proof.
  intros (_ & _ & tr & pend & Ht & Hl & Hk & Hsh & Hr & Hb & Hg & Hp & Hc) Hstep Hla Hra Hg' Hp' Hc' Hpar
    Hf' Hs'.
  split; [done|]. split; [done|]. exists (tr ++ [act]), pend.
  unfold received, emitted, called in *. rewrite !concat_map_snoc, Hra, app_nil_r, Hpar.
  split_and!; try done.
  - by eapply steps_snoc.
  - intros Hcl. by apply Forall_app; split; [by apply Hl|repeat constructor].
  - by apply taken_snoc.
  - intros Hshut. by apply (step_closed _ _ _ (Hstep pend)), Hsh.
  - by rewrite Hg', Hg.
  - by rewrite Hp', Hp, app_assoc.
  - by rewrite Hc', Hc, app_assoc.
Qed.

Lemma hist_moved ph ph' act s s' :
  hist k shut ph s → moved s s' (emitted_by act) →
  (∀ pend, step (At ph pend (link s)) act (At ph' pend (link s))) →
  lossless act → received_by act = [] → called_by act = [] → hist k shut ph' s'.
Proof.
  intros Hs [Hg Hp Hpar Hc Hl Hf Hst1] Hstep Ha Hr Hca.
  apply (hist_does ph ph' act s); try done; [by rewrite Hl|]. by rewrite Hca, app_nil_r.
Qed.

Lemma hist_calm ph s s' : hist k shut ph s → calm s s' → hist k shut ph s'.
Proof.
  intros (_ & _ & Hh) [Hg Hp Hpar Hc Hl Hf Hs]. unfold hist. rewrite app_nil_r in Hp.
  rewrite Hg, Hp, Hpar, Hc, Hl. by injection Hl as -> _.
Qed.

Lemma calmly_hist {A} ph (m : M state A) : calmly m → holds F (hist k shut ph) m.
Proof.
  intros Hm s Hs. pose proof Hs as (Hs1 & Hf & _).
  eapply upto_mono; [by apply Hm|..]; intros; by eapply hist_calm.
Qed.

(** A call of the handler. *)
Lemma hist_call ph ev c y :
  hist k shut ph (c, y) → (∀ pend l, step (At ph pend l) (Called ev) (At Idle pend l)) →
  hist k shut Idle (set_calls (calls c ++ [ev]) c, y).
Proof.
  intros Hs Hstep. pose proof Hs as (Hs1 & Hf & _).
  apply (hist_does ph Idle (Called ev) (c, y)); try done. by cbn; rewrite app_nil_r.
Qed.

(** The messages of an idle endpoint. *)
Lemma sending_hist op payload s :
  is_byte (Opcode.to_u8 op) → payload_ok payload →
  (Z.of_nat (length payload) + 14 < send_limit)%Z → unprompted (op, payload) →
  hist k shut Idle s →
  upto F (out ← on_factory (FrameFactory.construct true op true payload); send out) s
    (λ _, hist k shut Idle) (hist k shut Idle).
Proof.
  intros Ho Hpay Hl Hu Hs. pose proof Hs as (Hs1 & Hf & _).
  eapply upto_mono; [by apply sending|..]; cbn beta.
  - intros _ s' (bs & Hm & Hmv). eapply (hist_moved Idle Idle (Sent (op, payload) bs)); try done.
    intros. by apply step_send.
  - intros s' (bs & Hm & Hmv). eapply (hist_moved Idle Idle (Broken (op, payload) bs)); try done.
    intros. by apply step_send_broken.
Qed.

Lemma text_hist payload :
  payload_ok payload → (Z.of_nat (length payload) + 14 < send_limit)%Z →
  holds F (hist k shut Idle) (send_text payload).
Proof. intros ? ? s Hs. apply sending_hist; [cbn; unfold is_byte; lia|done|done|by left|done]. Qed.

Lemma binary_hist payload :
  payload_ok payload → (Z.of_nat (length payload) + 14 < send_limit)%Z →
  holds F (hist k shut Idle) (send_binary payload).
Proof.
  intros ? ? s Hs. apply sending_hist; [cbn; unfold is_byte; lia|done|done|by right; left|done].
Qed.

Lemma ping_hist : holds F (hist k shut Idle) (send_ping []).
Proof.
  intros s Hs. apply (sending_hist Opcode.PING []);
    [cbn; unfold is_byte; lia|split; [constructor|done]|cbn; lia|by right; right|done].
Qed.

Lemma update_ping_hist : timed = true → holds F (hist k shut Idle) update_ping.
Proof.
  intros Htimed.
  apply holds_bind; [apply calmly_hist; auto with calm|]. intros c.
  destruct (m_waiting_for_ping c); apply holds_bind;
    try (apply calmly_hist; auto with calm); intros elapsed; unfold when; case_match;
    try (by apply calmly_hist; auto with calm).
  - intros [c' y] Hs. pose proof Hs as (Hs1 & Hf & _).
    destruct (stream_cout (m_socket c') ping_timed_out (env y)) as (Hg & Hp & _).
    apply (hist_does Idle Idle Silent (c', y)); try done; cbn; rewrite ?app_nil_r; try done.
    intros. apply step_time_out.
  - apply holds_bind; [apply calmly_hist; auto with calm|]. intros _.
    apply holds_bind; [apply calmly_hist; auto with calm|]. intros _. apply ping_hist.
Qed.

(** ** Receiving *)

(** The phases in which the client reads, and what a frame makes of them. *)
Definition listening (ph : phase) : Prop := ph = Idle ∨ ph = Waiting false.

Definition taking (ph : phase) (f : frame) : phase :=
  match ph with
  | Idle => Answering f
  | _ => Waiting (bool_decide (Frame.opcode f = Opcode.CLOSE))
  end.

(** After a read in phase [ph] that delivered [r]. *)
Definition read_to (ph : phase) (r : option (Frame.t string_view)) (s : state) : Prop :=
  match r with
  | Some f =>
      hist (S k) shut (taking ph (frame_of (m_parser (fst s)) f)) s ∧
      bytes_ok (Frame.payload (frame_of (m_parser (fst s)) f))
  | None => hist k shut ph s
  end.

Lemma hist_reads ph s s' r bs :
  hist k shut ph s → listening ph → bytes_ok bs →
  (∀ pend, represents (m_parser (fst s)) pend → delivers (pend ++ bs) r (m_parser (fst s'))) →
  got_of s' = got_of s ++ bs → put_of s' = put_of s → calls (fst s') = calls (fst s) →
  link s' = link s → FrameFactory.wf (m_factory (fst s')) → clocked s' →
  read_to ph r s'.
Proof.
  intros (_ & _ & tr & pend & Ht & Hl & Hk & Hsh & Hr & Hb & Hg & Hp & Hc) Hph Hbs Hd Hg' Hp' Hc' Hlk Hf' Hs'.
  specialize (Hd pend Hr). unfold delivers in Hd.
  assert (bytes_ok (pend ++ bs)) as Hpb by (by apply Forall_app).
  assert (∀ got ph' pend' k', step (At ph pend (link s)) (Received bs got) (At ph' pend' (link s)) →
    k' ≤ length (taken (tr ++ [Received bs got])) →
    represents (m_parser (fst s')) pend' → bytes_ok pend' → hist k' shut ph' s') as Hgo.
  { intros got' ph' pend' k' Hstep Hk' Hr' Hb'. split; [done|]. split; [done|].
    exists (tr ++ [Received bs got']), pend'. unfold received, emitted, called in *.
    rewrite !concat_map_snoc, Hlk. cbn [received_by emitted_by called_by].
    rewrite !app_nil_r, Hg', Hg, Hp', Hp, Hc', Hc, app_assoc. split_and!; try done.
    - by eapply steps_snoc.
    - intros Hcl. by apply Forall_app; split; [by apply Hl|repeat constructor].
    - intros Hshut. injection Hlk as -> _. auto. }
  destruct (Rfc6455.decode code_len64 (pend ++ bs)) as [[w rest]|] eqn:Hdec.
  - destruct Hd as (-> & Hw & Hr'). cbn [read_to].
    pose proof (Rfc6455.decode_bytes_ok _ _ _ _ Hdec Hpb) as [Hwb Hrest]. rewrite <-Hw in Hwb.
    destruct (Rfc6455.decode_piece _ _ _ _ Hdec) as (piece & Heq & Hpiece).
    split; [|done].
    eapply (Hgo (Some (piece, frame_of (m_parser (fst s')) (FrameParser.m_frame (m_parser (fst s'))))));
      [|unfold taken in *; rewrite concat_map_snoc, length_app; cbn [taken_by length]; lia|done..].
    destruct Hph as [->| ->]; [eapply step_take|eapply step_hear]; try done;
      by exists w; split; [|rewrite <-Hw].
  - destruct Hd as [-> Hr']. cbn [read_to]. eapply Hgo; [|by apply taken_snoc|done..].
    by destruct Hph as [->| ->]; [apply step_wait|apply step_hear_nothing].
Qed.

Lemma next_frame_hist s :
  hist k shut Idle s → upto F next_frame s (read_to Idle) (hist k shut Idle).
Proof.
  intros Hs. pose proof Hs as (Hs1 & Hf & tr & pend & Ht & Hl & Hk & Hsh & Hr & Hb & Hg & Hp & Hc).
  destruct s as [c y]. unfold next_frame. apply upto_bind. unfold read_into. apply upto_zoom.
  cbn [fst snd] in *.
  pose proof (inv_buffer _ (proj1 (proj1 Hr))) as Hwf.
  pose proof (stream_read_into 1024 (m_socket c) (FrameParser.m_frame_buffer (m_parser c)) y
    ltac:(lia) Hwf) as Hrd.
  unfold upto. destruct (st_read_into 1024 _) as [[nd|e|u|] [[x b'] y']]; try done.
  - destruct Hrd as (bs & He & Hbs & -> & Hg' & Hp' & _).
    destruct (update_delivers _ _ _ _ Hr Hbs He) as (r & q & Hu & Hq).
    unfold on_parser, zoom. cbn [fst snd m_parser set_parser set_socket].
    unfold with_buffer in Hu. rewrite Hu.
    eapply (hist_reads Idle (c, y) _ _ bs); try done; [by left|].
    intros pend2 Hr2. cbn [fst m_parser set_parser] in Hr2 |- *.
    destruct (update_delivers _ _ _ _ Hr2 Hbs He) as (r2 & q2 & Hu2 & Hq2).
    unfold with_buffer in Hu2. rewrite Hu in Hu2. by injection Hu2 as <- <-.
  - destruct Hrd as (He & Hg' & Hp'). split; [done|]. split; [done|].
    exists tr, pend. unfold got_of, put_of in *. cbn in *. rewrite Hg', Hp'.
    split_and!; try done. by apply with_buffer_represents.
Qed.


(** ** Answering *)

Lemma answer_ping_hist f s :
  Frame.opcode f = Opcode.PING → bytes_ok (Frame.payload f) → hist k shut (Answering f) s →
  upto F (send_pong (Frame.payload f)) s (λ _, hist k shut Idle) (hist k shut Idle).
Proof.
  intros Ho Hb Hs. pose proof Hs as (Hs1 & Hf & _).
  eapply upto_mono; [apply controlling; [cbn; unfold is_byte; lia|done..]|..]; cbn beta.
  - intros _ s' (bs & Hm & Hmv).
    eapply (hist_moved (Answering f) Idle (Sent _ bs)); try done. intros. by apply step_ping.
  - intros s' [[Hl Hc]|(bs & Hm & Hmv)].
    + eapply (hist_moved (Answering f) Idle Silent); try done. intros. by apply step_ping_refused.
    + eapply (hist_moved (Answering f) Idle (Broken _ bs)); try done.
      intros. by apply step_ping_broken.
Qed.

(** The answer to a CLOSE, after the connection was marked closed. *)
Lemma answer_close_hist f c y :
  Frame.opcode f = Opcode.CLOSE → hist k shut (Answering f) (c, y) →
  upto F (send_close []) (set_status CLOSED_BY_SERVER (set_connection_open false c), y)
    (λ _, hist k shut Notifying) (hist k shut Idle).
Proof.
  intros Ho Hs. pose proof Hs as (Hs1 & Hf & _).
  eapply upto_mono; [apply controlling; [cbn; unfold is_byte; lia|constructor|done..]|..];
    cbn beta.
  - intros _ s' (bs & Hm & [Hg Hp Hpar Hc Hl Hf' Hs']).
    eapply (hist_does (Answering f) Notifying (Sent (Opcode.CLOSE, []) bs)); try done;
      [|by rewrite Hc, app_nil_r]. intros. rewrite Hl. by apply step_close.
  - intros s' [[Hlen _]|(bs & Hm & [Hg Hp Hpar Hc Hl Hf' Hs'])]; [cbn in Hlen; lia|].
    eapply (hist_does (Answering f) Idle (Broken (Opcode.CLOSE, []) bs)); try done;
      [|by rewrite Hc, app_nil_r]. intros. rewrite Hl. by apply step_close_broken.
Qed.

(** ** Closing *)

Lemma abandon_hist b s : hist k shut (Waiting b) s → hist k shut Idle s.
Proof.
  intros Hs. pose proof Hs as (Hs1 & Hf & _).
  eapply (hist_moved (Waiting b) Idle Silent); try done; [by apply calm_refl|].
  intros. apply step_abandon.
Qed.

Lemma clear_hist s :
  closing = true → hist k shut Idle s →
  upto F (on_parser FrameParser.clear) s (λ _, hist k shut Leaving) (hist k shut Idle).
Proof.
  intros Hcl (Hs1 & Hf & tr & pend & Ht & Hl & Hk & Hsh & Hr & Hb & Hg & Hp & Hc).
  destruct s as [c y].
  apply upto_zoom, runs_upto. eapply runs_mono; [apply clear_represents|]. cbn beta.
  intros _ p Hrep. split; [done|]. split; [done|].
  exists (tr ++ [Dropped pend]), []. unfold received, emitted, called in *.
  rewrite !concat_map_snoc. cbn [received_by emitted_by called_by]. rewrite !app_nil_r.
  split_and!; try done; [|by rewrite Hcl|by apply taken_snoc|constructor].
  eapply steps_snoc; [done|apply step_leave].
Qed.

Lemma leave_hist {A} (m : M state A) s (Q : A → state → Prop) :
  hist k shut Leaving s →
  (∀ s', hist k shut (Waiting false) s' → upto F m s' Q (hist k shut Idle)) →
  upto F (send_close [];; update_self (set_status CLOSED_BY_CLIENT);;
              update_self (set_connection_open false);; m) s Q (hist k shut Idle).
Proof.
  intros Hs Hm. pose proof Hs as (Hs1 & Hf & _). apply upto_bind.
  eapply upto_mono; [apply controlling; [cbn; unfold is_byte; lia|constructor|done..]|..];
    cbn beta.
  - intros _ [c' y'] (bs & Hmsg & [Hg Hp Hpar Hc Hl Hf' Hs']).
    apply upto_bind. eapply upto_eq; [reflexivity|].
    apply upto_bind. eapply upto_eq; [reflexivity|]. apply Hm.
    eapply (hist_does Leaving (Waiting false) (Sent (Opcode.CLOSE, []) bs) s); try done;
      [|by cbn in *; rewrite Hc, app_nil_r]. intros. by apply step_left.
  - intros s' [[Hlen _]|(bs & Hmsg & Hmv)]; [cbn in Hlen; lia|].
    eapply (hist_moved Leaving Idle (Broken (Opcode.CLOSE, []) bs)); try done.
    intros. by apply step_left_broken.
Qed.

Lemma update_string_hist data s s1 :
  bytes_ok data → hist k shut (Waiting false) s →
  got_of s1 = got_of s ++ data → put_of s1 = put_of s → calls (fst s1) = calls (fst s) →
  m_parser (fst s1) = m_parser (fst s) → link s1 = link s →
  FrameFactory.wf (m_factory (fst s1)) → clocked s1 →
  upto F (on_parser (FrameParser.update_string data)) s1 (read_to (Waiting false))
    (hist k shut Idle).
Proof.
  intros Hb Hs Hg Hp Hc Hpar Hl Hf Hs1.
  pose proof Hs as (_ & _ & tr & pend & _ & _ & _ & _ & Hr & _). destruct s1 as [c1 y1].
  assert (∀ pend, represents (m_parser c1) pend →
    runs (FrameParser.update_string data) (m_parser c1) (delivers (pend ++ data))) as Hup.
  { intros pend' Hr'. unfold FrameParser.update_string. replace FrameBuffer.push_back_string
      with FrameBuffer.push_back_view by done. by apply update_view_delivers. }
  cbn [fst] in Hpar. rewrite <-Hpar in Hr. destruct (Hup pend Hr) as (r & p & He & _).
  apply upto_zoom. eapply upto_eq; [exact He|].
  eapply (hist_reads (Waiting false) s _ _ data); try done; [by right|].
  intros pend2 Hr2. rewrite <-Hpar in Hr2. destruct (Hup pend2 Hr2) as (r2 & p2 & He2 & Hd2).
  cbn [fst m_parser set_parser snd] in He |- *. rewrite He in He2. by injection He2 as <- <-.
Qed.

Lemma sleep_hist ph ms : holds F (hist k shut ph) (call_unit (sys_sleep_ms ms)).
Proof.
  intros [c y] Hs. pose proof Hs as (Hs1 & Hf & _).
  destruct (stream_sleep (m_socket c) ms (env y)) as (Hg & Hp & _).
  eapply hist_calm; [exact Hs|]. split; try done. by rewrite app_nil_r.
Qed.

Lemma wait_close_hist n s :
  hist k shut (Waiting false) s →
  upto F (wait_close n) s (λ heard, hist k shut (Waiting heard)) (hist k shut Idle).
Proof.
  revert s. induction n as [|n IH]; intros [c y] Hs; cbn [wait_close]; [done|].
  pose proof Hs as (Hs1 & Hf & _). apply upto_bind, upto_zoom. cbn [fst snd].
  pose proof (stream_read 1024 (m_socket c) y ltac:(lia)) as Hrd. unfold upto at 1.
  destruct (st_read 1024 (m_socket c, y)) as [[data|e|u|] [x y']]; try done.
  - destruct Hrd as (Hb & Hg & Hp & _). apply upto_bind.
    eapply upto_mono; [by apply (update_string_hist data (c, y))|..|done].
    intros [f|] s2 Hr2.
    + destruct Hr2 as [Hr2 _]. cbn [taking] in Hr2.
      apply (hist_weaken _ k _ shut) in Hr2; [|lia|done].
      change (Frame.opcode (frame_of (m_parser (fst s2)) f)) with (Frame.opcode f) in Hr2.
      destruct (bool_decide (Frame.opcode f = Opcode.CLOSE)); [done|].
      apply upto_bind. eapply upto_mono; [by apply sleep_hist|..]; cbn beta.
      * intros _ s3 Hs3. by apply IH.
      * apply abandon_hist.
    + apply upto_bind. eapply upto_mono; [by apply sleep_hist|..]; cbn beta.
      * intros _ s3 Hs3. by apply IH.
      * apply abandon_hist.
  - destruct Hrd as [Hg Hp]. apply (abandon_hist false).
    eapply hist_calm; [exact Hs|]. split; try done. by rewrite app_nil_r.
Qed.

End Steps.

(** ** One frame, for a handler whose call settles what it is called for *)

(** Calls of the handler, where the history is of [k] frames. *)
Definition settles (call_handler : event → string_view → M state unit) (k : nat)
    (shut : bool) : Prop := ∀ ph ev v s,
  hist k shut ph s → (∀ pend l, step (At ph pend l) (Called ev) (At Idle pend l)) →
  upto F (call_handler ev v) s (λ _, hist k shut Idle) (hist k shut Idle).

Lemma call_settles {A} call_handler k shut ph ev v (m : M state A) s :
  settles call_handler k shut → holds F (hist k shut Idle) m → hist k shut ph s →
  (∀ pend l, step (At ph pend l) (Called ev) (At Idle pend l)) →
  upto F (call_handler ev v;; m) s (λ _, hist k shut Idle) (hist k shut Idle).
Proof.
  intros Hcall Hm Hs Hf. apply upto_bind. eapply upto_mono; [by eapply Hcall|..|done].
  cbn beta. intros _ s'. apply Hm.
Qed.

(** From here on the client is constructed. *)
Context (Htimed : timed = true).

Lemma dispatch_hist call_handler k shut f s :
  settles call_handler k shut →
  hist k shut (Answering (frame_of (m_parser (fst s)) f)) s →
  bytes_ok (Frame.payload (frame_of (m_parser (fst s)) f)) →
  upto F (dispatch call_handler f) s (λ _, hist k shut Idle) (hist k shut Idle).
Proof.
  intros Hcall Hs Hb. unfold dispatch. apply upto_bind. eapply upto_eq; [reflexivity|]. cbv zeta.
  set (fr := frame_of (m_parser (fst s)) f) in *.
  assert (Frame.opcode f = Frame.opcode fr) as Ho by done. rewrite Ho.
  assert (holds F (hist k shut Idle) (mret (A:=option ConnectionStatus) None)) as Hret
    by (by intros ? ?).
  destruct (Frame.opcode fr) eqn:Hop;
    try (eapply call_settles; [done..|intros; apply step_data; unfold event_of; by rewrite Hop]).
  - destruct s as [c y]. apply upto_bind. eapply upto_eq; [reflexivity|].
    apply upto_bind. eapply upto_eq; [reflexivity|].
    apply upto_bind. eapply upto_mono; [by apply (answer_close_hist k shut fr)|..|done].
    cbn beta. intros _ s' Hs'. eapply call_settles; [done| |done|intros; apply step_notify].
    apply holds_bind; [apply calmly_hist, calmly_status|by intros ? ? ?].
  - apply upto_bind. eapply upto_mono; [by apply answer_ping_hist|..|done].
    cbn beta. by intros _ s'.
  - apply upto_bind. eapply upto_mono; [by apply calmly_hist; [by apply calmly_handle_pong|]|..];
      cbn beta; [intros _ s' Hs'; cbn [upto mret M_ret]|intros s' Hs'];
      pose proof Hs' as (? & ? & _);
      eapply (hist_moved k shut (Answering fr) Idle Silent); try done; try (by apply calm_refl);
      intros; by apply step_pong.
Qed.

Section Open.
Context (call_handler : event → string_view → M state unit) (k : nat) (shut : bool).
Context (Hcall : settles call_handler (S k) shut).

Lemma poll_loop_hist n count max_reads r s :
  1 ≤ n → (max_reads - count ≤ Z.of_nat n)%Z → read_to k shut Idle r s →
  upto F (poll_loop call_handler n count max_reads r) s (λ _, hist k shut Idle)
    (hist k shut Idle).
Proof.
  revert count r s. induction n as [|n IH]; intros count r s Hn1 Hn Hr; [lia|].
  destruct r as [f|]; [|done]. destruct Hr as [Hr Hb].
  assert (∀ s, hist (S k) shut Idle s → hist k shut Idle s) as Hweak
    by (intros; eapply hist_weaken; [done|lia|done]).
  cbn [poll_loop]. apply upto_bind.
  eapply upto_mono; [by apply (dispatch_hist _ (S k) shut)|..]; cbn beta; [|by auto].
  intros [st|] s' Hs'%Hweak; [done|]. cbv zeta. destruct (Z.geb_spec (count + 1) max_reads); [done|].
  apply upto_bind. eapply upto_mono; [by apply next_frame_hist|..|done].
  intros r' s'' Hr'. by apply IH; [lia|lia|].
Qed.

Lemma poll_with_hist max_reads :
  holds F (hist k shut Idle) (poll_with call_handler max_reads).
Proof.
  intros s Hs. unfold poll_with. apply upto_bind.
  eapply upto_mono; [by apply next_frame_hist|..|done]. intros r s' Hr.
  apply upto_bind. eapply upto_mono; [by apply poll_loop_hist; [lia|lia|]|..|done].
  intros [st|] s'' Hs''; [done|]. revert s'' Hs''.
  apply holds_bind; [by apply update_ping_hist|]. intros _. apply calmly_hist, calmly_status.
Qed.

(** A client that waits is closed. *)
Lemma waiting_shut heard s : hist k shut (Waiting heard) s → hist k true (Waiting heard) s.
Proof.
  intros (Hs & Hf & tr & pend & Ht & Hl & Hk & Hsh & Hrest).
  split; [done|]. split; [done|]. exists tr, pend. split_and!; try done; try apply Hrest.
  intros _. by apply (steps_waiting _ _ _ heard Ht).
Qed.

Lemma close_with_hist timeout :
  closing = true → int10 timeout → (shut = false → settles call_handler k true) →
  holds F (hist k shut Idle) (close_with call_handler timeout).
Proof.
  intros Hcl Ht Hcall' s Hs. unfold close_with. apply upto_bind. eapply upto_eq; [reflexivity|].
  destruct (m_connection_open (fst s)) eqn:Ho; cbn [negb]; [|done].
  assert (shut = false) as Hopen.
  { destruct Hs as (_ & _ & tr & pend & _ & _ & _ & Hsh & _). destruct shut; [|done].
    by rewrite Hsh in Ho. }
  apply upto_bind. eapply upto_mono; [by apply poll_with_hist|..|done]. cbn beta.
  intros _ s1 Hs1. apply upto_bind. eapply upto_mono; [by apply clear_hist|..|done]. cbn beta.
  intros _ s2 Hs2. apply leave_hist; [done|]. intros s3 Hs3.
  unfold times_ten. rewrite decide_True by done. apply upto_bind. eapply upto_eq; [reflexivity|].
  apply upto_bind. eapply upto_mono; [by apply wait_close_hist|..|done]. cbn beta.
  intros heard s4 Hs4%waiting_shut.
  assert (∀ s, hist k true Idle s → hist k shut Idle s) as Hweak
    by (intros; by eapply hist_weaken).
  eapply upto_mono; [eapply (call_settles _ k true); [by apply Hcall'|..]|..]; cbn beta;
    [by intros ? ?|exact Hs4|intros; apply step_report|by intros _; apply Hweak|apply Hweak].
Qed.
End Open.

(** ** A handler method, with the view it is lent *)

(** A step that leaves the parser alone, so that the view can still be read. *)
Lemma leaves_hist {A} call_handler k shut (m : M state A) (kp : A → prog Hst) fresh l s :
  leaves_parser m → holds F (hist k shut Idle) m →
  hist k shut Idle s → (fresh = true → lasting l s) →
  (∀ a s', hist k shut Idle s' → (fresh = true → lasting l s') →
     upto F (run_prog call_handler l (kp a)) s' (λ _, hist k shut Idle) (hist k shut Idle)) →
  upto F (a ← m; run_prog call_handler l (kp a)) s (λ _, hist k shut Idle) (hist k shut Idle).
Proof.
  intros Hm Hh Hs Hv Hk. apply upto_bind. specialize (Hh s Hs). specialize (Hm s).
  unfold upto in Hh |- * at 1. destruct (m s) as [[a|e|u|] s']; try done.
  apply Hk; [done|]. unfold lasting in *. cbn [snd] in Hm. by rewrite Hm.
Qed.

(** Polling and closing from the handler. *)
Definition nests (call_handler : event → string_view → M state unit) (k : nat)
    (shut : bool) : Prop :=
  (∀ max_reads, holds F (hist k shut Idle) (poll_with call_handler max_reads)) ∧
  (∀ timeout, closing = true → int10 timeout →
     holds F (hist k shut Idle) (close_with call_handler timeout)).

#[local] Ltac go_on IH Hq Hp :=
  eapply IH; [destruct Hq as [Hq|Hq]; [left; apply Hq|by right]|apply Hp|done|done].

#[local] Ltac stay IH Hq Hp Hs Hv :=
  eapply leaves_hist with (3 := Hs) (4 := Hv); [..|intros a s' Hs' Hv'; go_on IH Hq Hp].

Lemma modest_hist call_handler k shut l fresh p s :
  quiet p ∨ nests call_handler k shut →
  modest closing fresh send_limit p → hist k shut Idle s → (fresh = true → lasting l s) →
  upto F (run_prog call_handler l p) s (λ _, hist k shut Idle) (hist k shut Idle).
Proof.
  revert fresh s.
  induction p as [|e|kp IH|kp IH|h p IH|bs kp IH|bs kp IH|t kp IH|n kp IH|kp IH|kp IH];
    cbn [run_prog modest quiet]; intros fresh s Hq Hp Hs Hv; try done.
  - destruct Hp as [-> Hp]. apply upto_bind.
    eapply upto_eq; [apply read_payload_eq; auto|]. go_on IH Hq Hp.
  - stay IH Hq Hp Hs Hv; [done|apply calmly_hist, calmly_self].
  - stay IH Hq Hp Hs Hv; [by intros []|by apply calmly_hist, calmly_update].
  - stay IH Hq Hp Hs Hv; [apply catching_leaves, (send_leaves Opcode.TEXT)|].
    by destruct Hp as (? & ? & _); apply holds_catching, text_hist.
  - stay IH Hq Hp Hs Hv; [apply catching_leaves, (send_leaves Opcode.BINARY)|].
    by destruct Hp as (? & ? & _); apply holds_catching, binary_hist.
  - destruct Hq as [[]|Hq]. destruct Hp as (Hcl & Ht & Hp). apply upto_bind.
    eapply upto_mono; [by apply holds_catching; [by apply Hq|]|..|done].
    cbn beta. intros r s' Hs'. eapply IH; [by right|apply Hp|done|done].
  - destruct Hq as [[]|Hq]. apply upto_bind.
    eapply upto_mono; [by apply holds_catching; [by apply Hq|]|..|done].
    cbn beta. intros r s' Hs'. eapply IH; [by right|apply Hp|done|done].
  - stay IH Hq Hp Hs Hv; [done|apply calmly_hist, calmly_status].
  - stay IH Hq Hp Hs Hv; [done|apply calmly_hist, calmly_last_rtt].
Qed.

(** ** The client *)

Context (handler : notice → prog Hst).
Context (Hhandler : ∀ m, modest closing true send_limit (handler m)).

(** A call, when what the handler calls in turn is taken care of. *)
Lemma callback_step depth k shut :
  (∀ m, quiet (handler m)) ∨ nests (callback handler depth) k shut →
  settles (callback handler (S depth)) k shut.
Proof.
  intros Hq ph ev v [c y] Hs Hf. cbn [callback].
  apply upto_bind. eapply upto_eq; [reflexivity|].
  apply upto_bind. eapply upto_eq; [reflexivity|].
  eapply modest_hist; [|apply Hhandler|by eapply hist_call|done].
  by destruct Hq as [Hq|Hq]; [left|right].
Qed.

(** The frames that a recursion of [depth] levels takes: a level below a poll
    has taken one; a level below the report of a [close] none, but then the
    connection is closed, and the levels below are all of polls. *)
Definition levels (depth : nat) (shut : bool) : nat :=
  if shut then depth else pred depth.

Context (n : nat) (Hlost : ∀ k shut ph s, hist k shut ph s → n ≤ k → F s).

Lemma callback_settles depth k shut :
  n ≤ k + levels depth shut → settles (callback handler depth) k shut.
Proof.
  revert k shut. induction depth as [|depth IH]; intros k shut Hn.
  - intros ph ev v s Hs _. unfold upto. cbn. eapply Hlost; [exact Hs|].
    unfold levels in Hn. destruct shut; lia.
  - apply callback_step. right. split.
    + intros max_reads. apply poll_with_hist, IH. unfold levels in *. destruct shut; lia.
    + intros timeout Hcl Ht. apply close_with_hist; [..|done|done|].
      * apply IH. unfold levels in *. destruct shut; lia.
      * intros ->. apply IH. unfold levels in *. lia.
Qed.

Lemma callback_nests depth : n ≤ depth → nests (callback handler depth) 0 false.
Proof.
  intros Hn. split; intros; [apply poll_with_hist|apply close_with_hist]; try done; intros;
    apply callback_settles; unfold levels; lia.
Qed.
End History.

(** ** The theorem *)

(** From [s] to [s'] along the trace [tr]. *)
Record follows_trace (s s' : state) (tr : list action) : Prop := {
  trace_got : got_of s' = got_of s ++ received tr;
  trace_put : put_of s' = put_of s ++ emitted tr;
  trace_calls : calls (fst s') = calls (fst s) ++ called tr
}.

(** [s] stands for the idle endpoint [e]. *)
Record stands_for (s : state) (e : endpoint) : Prop := {
  stands_idle : now e = Idle;
  stands_parser : represents (m_parser (fst s)) (pending e);
  stands_bytes : bytes_ok (pending e);
  stands_link : seen e = link s;
  stands_factory : FrameFactory.wf (m_factory (fst s));
  stands_started : started s
}.

Definition refines (closing : bool) (s s' : state) (e : endpoint) : Prop :=
  ∃ tr e', steps e tr e' ∧ stands_for s' e' ∧ follows_trace s s' tr ∧
    (closing = false → Forall lossless tr).

(** Where the nesting bound was too small, [n] frames have been taken. *)
Definition nested (n : nat) (s s' : state) (e : endpoint) : Prop :=
  ∃ tr e', steps e tr e' ∧ n ≤ length (taken tr) ∧ got_of s' = got_of s ++ received tr.

Lemma stands_hist closing s e : stands_for s e → hist s e closing 0 false Idle s.
Proof.
  destruct e as [ph p l]. intros [Hi Hr Hb Hl Hf Hs]. cbn in *. subst ph l.
  split; [by intros _|]. split; [done|]. exists [], p.
  split_and!; try done; [constructor|by rewrite app_nil_r..].
Qed.

Lemma hist_refines closing s e k shut s' :
  timed = true → hist s e closing k shut Idle s' → refines closing s s' e.
Proof.
  intros Htimed (Hs & Hf & tr & pend & Ht & Hl & _ & _ & Hr & Hb & Hg & Hp & Hc).
  exists tr, (At Idle pend (link s')). split_and!; try done. by split; auto.
Qed.

Lemma hist_nested closing s e n k shut ph s' :
  hist s e closing k shut ph s' → n ≤ k → nested n s s' e.
Proof.
  intros (_ & _ & tr & pend & Ht & _ & Hk & _ & _ & _ & Hg & _) Hn.
  exists tr, (At ph pend (link s')). split_and!; [done|lia|done].
Qed.
End Refinement.

Section Refines.
Context {Hst St W : Type} `{Target, OS W, Entropy W, !SocketType St W, !SocketStream St W}.
Context (Hhard : hardened = false) (Hlimit : (139 < send_limit)%Z).
Context (handler : notice → prog Hst) (closing : bool).
Context (Hhandler : ∀ m, modest closing true send_limit (handler m)).

Local Notation "'state'" := (@state Hst St W).

Lemma upto_refines {A} F (m : M state A) s e :
  upto F m s (λ _, hist true s e closing 0 false Idle) (hist true s e closing 0 false Idle) →
  upto F m s (λ _ s', refines closing s s' e) (λ s', refines closing s s' e).
Proof. intros Hm. eapply upto_mono; [exact Hm|..]; cbn beta; intros; by eapply hist_refines. Qed.

Lemma client_nests depth s e :
  starting (now e) →
  nests (λ s', nested depth s s' e) true s e closing (callback handler depth) 0 false.
Proof.
  intros He. eapply (callback_nests Hhard Hlimit _ true s e closing He eq_refl handler Hhandler depth);
    [|done]. intros k shut ph s'. apply hist_nested.
Qed.

Lemma poll_refines depth max_reads s e :
  stands_for s e →
  upto (λ s', nested depth s s' e) (poll handler depth max_reads) s
    (λ _ s', refines closing s s' e) (λ s', refines closing s s' e).
Proof. intros Hs. by apply upto_refines, client_nests, stands_hist; [right; apply Hs|]. Qed.

Lemma close_refines depth timeout s e :
  closing = true → int10 timeout → stands_for s e →
  upto (λ s', nested depth s s' e) (close handler depth timeout) s
    (λ _ s', refines closing s s' e) (λ s', refines closing s s' e).
Proof. intros Hcl Ht Hs. by apply upto_refines, client_nests, stands_hist; [right; apply Hs|..]. Qed.

(** A program of public calls. *)
Lemma prog_refines depth main s e :
  modest closing false send_limit main → stands_for s e →
  upto (λ s', nested depth s s' e) (run_prog (callback handler depth) no_view main) s
    (λ _ s', refines closing s s' e) (λ s', refines closing s s' e).
Proof.
  intros Hm Hs. apply upto_refines.
  eapply (modest_hist Hhard _ true s e closing);
    [right; apply client_nests; right; apply Hs|done|by apply stands_hist|done].
Qed.

(** A handler that does not call back needs one level. *)
Lemma quiet_poll_refines depth max_reads s e :
  (∀ m, quiet (handler m)) → stands_for s e →
  upto (λ _, False) (poll handler (S depth) max_reads) s
    (λ _ s', refines closing s s' e) (λ s', refines closing s s' e).
Proof.
  intros Hq Hs. apply upto_refines.
  by apply (poll_with_hist Hhard Hlimit), stands_hist; [|apply callback_step; [..|left]|].
Qed.
End Refines.
End Refinement.
