(* ===== verification/Programs.v ===== *)
(** The programs that come with the client: examples/example.cpp, ping.cpp and
    coinbase.cpp, tests/test.cpp and benchmark/latency/fastws_latency.cpp. A
    program is a handler, the arguments of
    the client it makes and a polling loop; [main] runs one from its first to
    its last statement. What a handler writes to [std::cout] goes to its
    environment, through a parameter [cout]. *)

From S2P Require Import Prelude Frames Parser Sys Sockets SocketSpec Handshake Client.
Import WSClient.

(** Let an exception through. *)
Definition andthen {A : Type} {Hst} (p : prog Hst) (r : exn + A) : prog Hst :=
  match r with inl e => Raise e | inr _ => p end.

(** ** The handlers *)

Definition newline : string := Frame.print_char 10.
Definition quoted (s : string) : string := Frame.print_char 34 +:+ s +:+ Frame.print_char 34.

Section Handlers.
Context {Hst : Type} (cout : string → Hst → Hst).

(** [std::cout << line << std::endl]. *)
Definition println (line : string) (k : prog Hst) : prog Hst :=
  Get (λ h, Put (cout (line +:+ newline) h) k).

(** [std::cout << what << frame << std::endl]. *)
Definition print_frame (what : string) (f : Frame.t unit) (k : prog Hst) : prog Hst :=
  Payload (λ payload, println (what +:+ Frame.print (with_payload payload f)) k).

Definition closed_line (success : bool) : string :=
  "Connection Closed (success = " +:+ Frame.print_bool success +:+ ")".

(** examples/ping.cpp: greets the echo server and prints what comes. *)
Definition ping_handler (m : notice) : prog Hst :=
  match m with
  | on_open =>
      println "Connection Opened!"
        (SendText (str "Hello, World!") (andthen Return))
  | on_close success => println (closed_line success) Return
  | on_text f => print_frame " > text: " f Return
  | on_binary f => print_frame " > binary: " f Return
  | on_continuation f => print_frame " > continuation: " f Return
  end.

(** examples/example.cpp: closes when the greeting comes back. *)
Definition example_handler (m : notice) : prog Hst :=
  match m with
  | on_open =>
      println "Connection Opened!"
        (SendText (str "Hello, World!") (andthen Return))
  | on_close success => println (closed_line success) Return
  | on_text f =>
      print_frame " > text: " f
        (Payload (λ payload,
           if bool_decide (payload = str "Hello, World!")
           then Close 10 (andthen Return) else Return))
  | on_binary f => print_frame " > binary: " f Return
  | on_continuation f => print_frame " > continuation: " f Return
  end.

(** examples/coinbase.cpp: subscribes to two channels. *)
Definition subscription : string :=
  "{" +:+ quoted "type" +:+ ":" +:+ quoted "subscribe" +:+ "," +:+
  quoted "product_ids" +:+ ":[" +:+ quoted "BTC-USD" +:+ "]," +:+
  quoted "channels" +:+ ":[" +:+ quoted "ticker" +:+ "," +:+ quoted "heartbeat" +:+ "]}".

Definition coinbase_handler (m : notice) : prog Hst :=
  match m with
  | on_open =>
      println "Connection Opened!" (SendText (str subscription) (andthen Return))
  | on_close success => println (closed_line success) Return
  | on_text f => print_frame " > text: " f Return
  | on_binary f => print_frame " > binary: " f Return
  | on_continuation f => print_frame " > continuation: " f Return
  end.

(** tests/test.cpp: a message of one repeated byte, nothing else. *)
Definition handler1_1 (initial_message : list Z) (m : notice) : prog Hst :=
  match m with
  | on_open => SendText initial_message (andthen Return)
  | _ => Return
  end.

Definition handler1_2 (initial_message : list Z) (m : notice) : prog Hst :=
  match m with
  | on_open => SendBinary initial_message (andthen Return)
  | _ => Return
  end.

(** benchmark/latency/fastws_latency.cpp: sends back what comes. *)
Definition latency_handler (m : notice) : prog Hst :=
  match m with
  | on_open => SendText (str "fastws") (andthen Return)
  | on_text f => Payload (λ payload, SendText payload (andthen Return))
  | _ => Return
  end.

(** ** The programs *)

Record program : Type := Program {
  p_handler : notice → prog Hst;
  p_host : string;
  p_path : string;
  p_port : Z
}.

Definition ping_program : program := Program ping_handler "echo.websocket.org" "/" 443.

Definition example_program : program :=
  Program example_handler "echo.websocket.org" "/" 443.

Definition coinbase_program : program :=
  Program coinbase_handler "ws-feed.exchange.coinbase.com" "/" 443.

(** After [set_max_priority], a matter of the scheduler. *)
Definition latency_program : program := Program latency_handler "127.0.0.1" "/" 8765.

(** [initial_message += c], [message_len] times. *)
Definition run_test_1_1 (message_len : nat) (path : string) : program :=
  Program (handler1_1 (replicate message_len 42%Z)) "127.0.0.1" path 9001.

Definition run_test_1_2 (message_len : nat) (path : string) : program :=
  Program (handler1_2 (replicate message_len 254%Z)) "127.0.0.1" path 9001.

Definition case_path (n : Z) : string :=
  "/runCase?case=" +:+ to_string n +:+ "&agent=myagent".

Definition test_lengths : list Z := [0; 125; 126; 127; 128; 65535; 65536]%Z.

(** [test_1_1_1] to [test_1_1_7], and [test_1_2_1] to [test_1_2_7]. *)
Definition tests_1_1 : list program :=
  map (λ '(n, len), run_test_1_1 (Z.to_nat len) (case_path n))
    (zip (seqZ 1 7) test_lengths).

Definition tests_1_2 : list program :=
  map (λ '(n, len), run_test_1_2 (Z.to_nat len) (case_path n))
    (zip (seqZ 9 7) test_lengths).

Definition tests : list program := tests_1_1 ++ tests_1_2.
End Handlers.
Arguments program : clear implicits.
Arguments Program {_}.
Arguments p_handler {_} _ _.
Arguments p_host {_} _.
Arguments p_path {_} _.
Arguments p_port {_} _.

(** ** [main] *)

Section Main.
Context {Hst St W : Type} `{Target, OS W, Entropy W, !SocketType St W}.

Local Notation "'state'" := (@state Hst St W).

(** How a polling loop ended; [Running]: not yet. *)
Inductive stopped : Type :=
  | Broke
  | Interrupted
  | Running.

(** [while (should_run) if (client.poll() != HEALTHY) break;]. The flag is
    set by a signal handler at any moment: [readings] is what the condition
    finds, iteration after iteration. *)
Fixpoint poll_while (handler : notice → prog Hst) (depth : nat) (readings : list bool) :
    M state stopped :=
  match readings with
  | [] => mret Running
  | false :: _ => mret Interrupted
  | true :: readings' =>
      st ← poll handler depth 4;
      if bool_decide (st ≠ HEALTHY) then mret Broke
      else poll_while handler depth readings'
  end.

(** After the loop the client goes out of scope. An exception nobody catches
    ends the program, from the destructor too. *)
Definition run_client (handler : notice → prog Hst) (depth : nat) (readings : list bool) :
    M state stopped :=
  r ← poll_while handler depth readings;
  match r with
  | Running => mret Running
  | _ =>
      e ← destroy handler depth;
      match e with
      | Destroyed => mret r
      | Terminated e => throw e
      end
  end.

(** A client on the stack: it is made, and [body] works with it to the end of
    its scope. *)
Definition owning {A} (depth : nat) (junk : Frame.t string_view) (p : program Hst)
    (body : M state A) : M (Hst * Sys W) A := λ s,
  match construct (p_handler p) depth (p_host p) (p_path p) (p_port p) "" 10 60 10 junk s
  with
  | (Ok c, s') =>
      let '(o, (c', y)) := body (c, snd s') in
      (o, (m_handler c', y))
  | (Throw e, s') => (Throw e, s')
  | (UB u, s') => (UB u, s')
  | (OutOfFuel, s') => (OutOfFuel, s')
  end.

Definition main (depth : nat) (readings : list bool) (junk : Frame.t string_view)
    (p : program Hst) : M (Hst * Sys W) stopped :=
  owning depth junk p (run_client (p_handler p) depth readings).

(** [main] of test.cpp: one program after the other, of at most [fuel] polls. *)
Fixpoint run_tests (depth fuel : nat) (junk : Frame.t string_view) (ps : list (program Hst)) :
    M (Hst * Sys W) unit :=
  match ps with
  | [] => mret tt
  | p :: ps' =>
      r ← main depth (replicate fuel true) junk p;
      match r with
      | Running => out_of_fuel
      | _ => run_tests depth fuel junk ps'
      end
  end.
End Main.
