(* ===== verification/Depth.v ===== *)
(** The nesting bound. Calls of the handler that call the client that calls the
    handler are modelled to a [depth]; a result that is reached within one
    depth is the result at every greater depth, so the bound is not a parameter
    of the program's meaning. *)

From S2P Require Import Prelude Frames Factory Parser Sys Sockets SocketSpec Handshake Client ClientSpec Programs.
Import WSClient.

Module Depth.

(** [m'] does what [m] does, and may go on where [m] gives up. *)
Definition extends {S A} (m m' : M S A) : Prop :=
  ∀ s, m' s = m s ∨ fst (m s) = OutOfFuel.

Section Extends.
Context {S : Type}.

Lemma extends_refl {A} (m : M S A) : extends m m.
Proof. by left. Qed.

Lemma extends_trans {A} (m1 m2 m3 : M S A) : extends m1 m2 → extends m2 m3 → extends m1 m3.
Proof.
  intros H1 H2 s. destruct (H1 s) as [E1|]; [|by right].
  destruct (H2 s) as [E2|E2]; [left; congruence|right; congruence].
Qed.

Lemma extends_bind {A B} (m m' : M S A) (f f' : A → M S B) :
  extends m m' → (∀ a, extends (f a) (f' a)) → extends (m ≫= f) (m' ≫= f').
Proof.
  intros Hm Hf s. unfold mbind, M_bind. destruct (Hm s) as [->|Hs].
  - destruct (m s) as [[a|e|u|] s']; [apply Hf|by left..].
  - right. by destruct (m s) as [[a|e|u|] s'].
Qed.

Lemma extends_catching {A} (m m' : M S A) : extends m m' → extends (catching m) (catching m').
Proof.
  intros Hm s. unfold catching. destruct (Hm s) as [->|Hs]; [by left|right].
  by destruct (m s) as [[]].
Qed.

Lemma extends_elim {A} (m m' : M S A) s :
  extends m m' → fst (m s) ≠ OutOfFuel → m' s = m s.
Proof. intros Hm Hs. by destruct (Hm s). Qed.
End Extends.

Create HintDb depth.
#[export] Hint Resolve extends_refl extends_bind extends_catching : depth.

Section Depth.
Context {Hst St W : Type} `{Target, OS W, Entropy W, !SocketType St W}.

Local Notation "'state'" := (@state Hst St W).

Section Open.
Context (call call' : event → string_view → M state unit).
Context (Hcall : ∀ ev v, extends (call ev v) (call' ev v)).
#[local] Hint Resolve Hcall : depth.

Lemma dispatch_extends f : extends (dispatch call f) (dispatch call' f).
Proof.
  unfold dispatch. apply extends_bind; [auto with depth|]. intros c. cbv zeta.
  destruct (Frame.opcode f); auto 8 with depth.
Qed.
#[local] Hint Resolve dispatch_extends : depth.

Lemma poll_loop_extends n count max_reads r :
  extends (poll_loop call n count max_reads r) (poll_loop call' n count max_reads r).
Proof.
  revert count r. induction n as [|n IH]; intros count [f|]; cbn [poll_loop];
    auto with depth.
  apply extends_bind; [auto with depth|]. intros [st|]; [auto with depth|]. cbv zeta.
  destruct (_ >=? _)%Z; auto with depth.
Qed.

Lemma poll_with_extends max_reads :
  extends (poll_with call max_reads) (poll_with call' max_reads).
Proof.
  apply extends_bind; [auto with depth|]. intros r.
  apply extends_bind; [apply poll_loop_extends|auto with depth].
Qed.
#[local] Hint Resolve poll_with_extends : depth.

Lemma close_with_extends timeout :
  extends (close_with call timeout) (close_with call' timeout).
Proof.
  apply extends_bind; [auto with depth|]. intros c.
  destruct (negb _); [auto with depth|]. auto 12 with depth.
Qed.
#[local] Hint Resolve close_with_extends : depth.

Lemma run_prog_extends l p : extends (run_prog call l p) (run_prog call' l p).
Proof. induction p; cbn [run_prog]; auto with depth. Qed.
End Open.

Context (handler : notice → prog Hst).

Lemma callback_extends d d' ev v :
  d ≤ d' → extends (callback handler d ev v) (callback handler d' ev v).
Proof.
  revert d' ev v. induction d as [|d IH]; intros d' ev v Hd; [by right|].
  destruct d' as [|d']; [lia|]. cbn [callback].
  apply extends_bind; [auto with depth|]. intros _.
  apply extends_bind; [auto with depth|]. intros c.
  apply run_prog_extends. intros. apply IH. lia.
Qed.

Section Le.
Context (d d' : nat) (Hd : d ≤ d').

Lemma callback_le ev v : extends (callback handler d ev v) (callback handler d' ev v).
Proof. by apply callback_extends. Qed.

Lemma poll_extends max_reads : extends (poll handler d max_reads) (poll handler d' max_reads).
Proof. apply poll_with_extends, callback_le. Qed.

Lemma close_extends timeout : extends (close handler d timeout) (close handler d' timeout).
Proof. apply close_with_extends, callback_le. Qed.

Lemma prog_extends l p :
  extends (run_prog (callback handler d) l p) (run_prog (callback handler d') l p).
Proof. apply run_prog_extends, callback_le. Qed.

Lemma destroy_extends : extends (destroy handler d) (destroy handler d').
Proof. apply extends_bind; [apply extends_catching, close_extends|auto with depth]. Qed.

Lemma connect_extends timeout : extends (connect handler d timeout) (connect handler d' timeout).
Proof.
  unfold connect. repeat (apply extends_bind; [auto with depth|intros ?]); [|auto with depth].
  destruct (m_connection_open _); [|auto with depth].
  apply extends_bind; [auto with depth|]. intros _. apply callback_le.
Qed.

Lemma start_up_extends timeout : extends (start_up handler d timeout) (start_up handler d' timeout).
Proof. apply extends_bind; [apply connect_extends|auto with depth]. Qed.

Lemma constructed_extends timeout members :
  extends (constructed handler d timeout members) (constructed handler d' timeout members).
Proof.
  intros [h y]. unfold constructed.
  destruct (start_up_extends timeout (members h, y)) as [->|Hs]; [by left|right].
  by destruct (start_up handler d timeout (members h, y)) as [[] []].
Qed.

Lemma construct_extends host path port extra_headers timeout frequency ping_timeout junk :
  extends (construct handler d host path port extra_headers timeout frequency ping_timeout junk)
    (construct handler d' host path port extra_headers timeout frequency ping_timeout junk).
Proof.
  apply extends_bind; [auto with depth|]. intros seed1.
  apply extends_bind; [auto with depth|]. intros seed2.
  destruct (FrameFactory.new _ _ _) as [[] ?]; auto with depth. apply constructed_extends.
Qed.

(** Working with a constructed client. *)
Definition after {A B} (c : M (Hst * Sys W) A) (k : A → M state B)
    (start : A → Hst * Sys W → state) : M (Hst * Sys W) B := λ s,
  match c s with
  | (Ok a, s') => let '(o, (c1, y)) := k a (start a s') in (o, (m_handler c1, y))
  | (Throw e, s') => (Throw e, s')
  | (UB u, s') => (UB u, s')
  | (OutOfFuel, s') => (OutOfFuel, s')
  end.

Lemma after_extends {A B} (c c' : M (Hst * Sys W) A) (k k' : A → M state B) start :
  extends c c' → (∀ a, extends (k a) (k' a)) → extends (after c k start) (after c' k' start).
Proof.
  intros Hc Hk s. unfold after. destruct (Hc s) as [->|Hs].
  - destruct (c s) as [[a|e|u|] s']; try by left.
    destruct (Hk a (start a s')) as [->|Hs']; [by left|right].
    by destruct (k a (start a s')) as [[] [? ?]].
  - right. by destruct (c s) as [[] ?].
Qed.

Lemma session_extends host path port extra_headers timeout frequency ping_timeout junk main :
  extends
    (session handler d host path port extra_headers timeout frequency ping_timeout junk main)
    (session handler d' host path port extra_headers timeout frequency ping_timeout junk main).
Proof.
  pose (work d := λ _ : t Hst St, _ ← catching (run_prog (callback handler d) no_view main);
          _ ← destroy handler d; c ← self; mret (calls c)).
  apply (after_extends _ _ (work d) (work d') (λ c s', (c, snd s')));
    [apply construct_extends|]. intros c. unfold work.
  apply extends_bind; [apply extends_catching, prog_extends|]. intros _.
  apply extends_bind; [apply destroy_extends|auto with depth].
Qed.

(** ** The programs *)

Lemma poll_while_extends readings :
  extends (poll_while handler d readings) (poll_while handler d' readings).
Proof.
  induction readings as [|[] readings IH]; cbn [poll_while]; auto with depth.
  apply extends_bind; [apply poll_extends|]. intros st. case_bool_decide; auto with depth.
Qed.

Lemma run_client_extends readings :
  extends (run_client handler d readings) (run_client handler d' readings).
Proof.
  apply extends_bind; [apply poll_while_extends|]. intros r.
  assert (extends
    (e ← destroy handler d; match e with Destroyed => mret r | Terminated e => throw e end)
    (e ← destroy handler d'; match e with Destroyed => mret r | Terminated e => throw e end))
    as Hd'.
  { apply extends_bind; [apply destroy_extends|auto with depth]. }
  by destruct r; auto with depth.
Qed.
End Le.

(** What holds of the sessions with one level or more, and where the bound was
    too small, holds of all. *)
Lemma session_positive (P : outcome (list event) * (Hst * Sys W) → Prop) d host path port
    extra_headers timeout frequency ping_timeout junk main s :
  (∀ d, P (session handler (S d) host path port extra_headers timeout frequency ping_timeout
             junk main s)) →
  (∀ s', P (OutOfFuel, s')) →
  P (session handler d host path port extra_headers timeout frequency ping_timeout junk main s).
Proof.
  intros Hs Hf. destruct d as [|d]; [|apply Hs].
  destruct (session_extends 0 1 (le_S _ _ (le_n 0)) host path port extra_headers timeout frequency
    ping_timeout junk main s) as [<-|Ho]; [apply Hs|].
  destruct (session handler 0 _ _ _ _ _ _ _ _ _ s) as [o s']. cbn in Ho. by rewrite Ho.
Qed.
End Depth.

Section Main.
Context {Hst St W : Type} `{Target, OS W, Entropy W, !SocketType St W}.

Lemma owning_extends {A} d d' junk (p : program Hst) (body body' : M (t Hst St * Sys W) A) :
  d ≤ d' → extends body body' → extends (owning d junk p body) (owning d' junk p body').
Proof.
  intros Hd Hbody s.
  exact (after_extends _ _ (λ _, body) (λ _, body') (λ c s', (c, snd s'))
    (construct_extends (p_handler p) d d' Hd (p_host p) (p_path p) (p_port p) "" 10 60 10 junk)
    (λ _, Hbody) s).
Qed.

(** What holds with one level or more, and where the bound was too small. *)
Lemma owning_positive {A} (P : outcome A * (Hst * Sys W) → Prop) d junk (p : program Hst)
    (body : nat → M (t Hst St * Sys W) A) s :
  extends (body 0) (body 1) →
  (∀ d, P (owning (S d) junk p (body (S d)) s)) → (∀ s', P (OutOfFuel, s')) →
  P (owning d junk p (body d) s).
Proof.
  intros Hbody Hs Hf. destruct d as [|d]; [|apply Hs].
  destruct (owning_extends 0 1 junk p _ _ (le_S _ _ (le_n 0)) Hbody s) as [<-|Ho]; [apply Hs|].
  destruct (owning 0 _ _ _ s) as [o s']. cbn in Ho. by rewrite Ho.
Qed.
End Main.
End Depth.
