(* ===== verification/ClientProps.v ===== *)
(** Properties of [WSClient]: the protocol [poll] implements, the invariant and
    the safety of whole sessions, opening, closing, pings, and the behaviours
    that differ from what the interface suggests, on concrete connections. *)

From S2P Require Import Prelude Buffer Rfc6455 Frames Factory Parser ParserSpec Stream Sys World Binary64 Timer Sockets SocketSpec SocketProps SocketStream Handshake Client ClientSpec ClientWire Programs.
Import WSClient.

Module ClientProps.

Section Properties.
Context {Hst St W : Type} `{Target, OS W, Entropy W, !SocketType St W}.

Local Notation "'state'" := (@state Hst St W).

(** ** The protocol *)

(** What a call of [poll] that returns [st] did to the client and its two
    byte streams, [pend] being received before and not handled: [bs] arrived,
    the frames [ws] at the front of [pend ++ bs] were handled by the protocol,
    in order and once, [pend'] is what is left; [msgs] were sent, and possibly
    a PING after them. *)
Definition poll_implements `{!SocketStream St W} (handler : notice → prog Hst)
    (max_reads : Z) (pend : list Z) (s : state) (st : ConnectionStatus) (s' : state) :
    Prop :=
  ∃ bs ws msgs evs pend' closed ping,
    got_of s' = got_of s ++ bs ∧
    Rfc6455.decode_all code_len64 (pend ++ bs)
    = (ws ++ fst (Rfc6455.decode_all code_len64 pend'),
       snd (Rfc6455.decode_all code_len64 pend')) ∧
    represents (m_parser (fst s')) pend' ∧
    length ws ≤ Nat.max 1 (Z.to_nat max_reads) ∧
    spec_run handler (m_handler (fst s)) ws evs msgs (m_handler (fst s')) closed ∧
    calls (fst s') = calls (fst s) ++ evs ∧
    (∃ out, put_of s' = put_of s ++ out ∧
       carries out (msgs ++ if ping : bool then [(Opcode.PING, [])] else [])) ∧
    (closed = true → ping = false) ∧
    st = m_status (fst s') ∧
    (m_connection_open (fst s'), st)
    = if closed then (false, CLOSED_BY_SERVER)
      else if bool_decide (st = PING_TIMED_OUT) && negb (m_connection_open (fst s'))
      then (false, PING_TIMED_OUT) else (m_connection_open (fst s), m_status (fst s)).

(** C1: [poll] implements the protocol. On any socket that accounts for its
    bytes, for a handler that sends and updates its own state, and a client
    with the bytes [pend] pending, [poll] returns or throws, always within its
    bounds; and when it returns, it has handled the first frames of [pend]
    followed by what it received: at most [max(1, max_reads)] of them, in
    order, each once, data frames by the handler, PING by a PONG with the same
    payload, CLOSE by a CLOSE and [on_close(true)] and nothing after it; the
    bytes sent are exactly the encodings of these messages, of the handler's
    own, and at most one PING. *)
Theorem poll_implements_protocol `{!SocketStream St W} (handler : notice → prog Hst)
    (depth : nat) (max_reads : Z) (pend : list Z) (s : state) :
  hardened = false → (139 < send_limit)%Z →
  (∀ m, straight send_limit (handler m)) →
  nanotimer.time1 (m_ping_timer (fst s)) ≠ None → FrameFactory.wf (m_factory (fst s)) →
  bytes_ok pend → represents (m_parser (fst s)) pend →
  match poll handler (S depth) max_reads s with
  | (Ok st, s') => poll_implements handler max_reads pend s st s'
  | (Throw _, _) => True
  | _ => False
  end.
Proof.
  intros Hhard Hlim Hh Hs Hf Hb Hr.
  pose proof (poll_returns Hhard Hlim handler Hh depth max_reads pend s Hs Hf Hb Hr) as Hp.
  unfold returns, ends in Hp.
  destruct (poll handler (S depth) max_reads s) as [[st|e|u|] s']; try done.
  destruct Hp as (closed & s1 & _ & Hpol & -> & Hend).
  destruct Hpol as (bs & ws & msgs & evs & pend' & [Hn _] & _ & Hw & _ & Hr' & _ & Hd & Hrun & Hl).
  pose proof Hw as [Hg (out & Ho & Hc) He _ _]. destruct closed.
  - subst s1. exists bs, ws, msgs, evs, pend', true, false. rewrite app_nil_r.
    split_and!; try done. by exists out.
  - destruct Hend as (_ & Hp1 & Hh1 & Hcase).
    destruct Hcase as [[Hw1 Hl1]|[(_ & Hw1 & Hl1)|(_ & Hw1 & Hl1)]];
      pose proof (went_trans _ _ _ _ _ _ _ _ _ Hw Hw1) as [Hg' (out' & Ho' & Hc') He' _ _];
      rewrite app_nil_r in Hg', He'; rewrite <-Hp1 in Hr'; rewrite <-Hh1 in Hrun.
    1, 2: exists bs, ws, msgs, evs, pend', false, false; split_and!; try done; [by exists out'|].
    3: exists bs, ws, msgs, evs, pend', false, true; split_and!; try done; [by exists out'|].
    all: unfold link in *; rewrite ?Hl in Hl1; injection Hl1 as Ho1 Hs1; cbn [snd].
    2: by rewrite Ho1, Hs1.
    all: rewrite Ho1, Hs1; by case_match eqn:Hcm;
      [apply andb_true_iff in Hcm as [?%bool_decide_eq_true ?%negb_true_iff]; congruence|].
Qed.

(** The loop every program around the client runs, [while (true) if
    (client.poll() != HEALTHY) break;], after any number of polls: all bytes
    ever received ([pend ++ bs]) are the frames [ws] that were handled by the
    protocol, each once and in order across all the polls, followed by what is
    still in the parser; what was sent is the messages of the protocol with at
    most one PING after each poll, and after a CLOSE nothing was handled or
    sent. *)
Theorem polling_loop_implements_protocol `{!SocketStream St W}
    (handler : notice → prog Hst) (depth n : nat) (max_reads : Z) (pend : list Z)
    (s : state) :
  hardened = false → (139 < send_limit)%Z →
  (∀ m, straight send_limit (handler m)) →
  nanotimer.time1 (m_ping_timer (fst s)) ≠ None → FrameFactory.wf (m_factory (fst s)) →
  bytes_ok pend → represents (m_parser (fst s)) pend →
  match poll_until_closed handler (S depth) n max_reads s with
  | (Ok _, s') => ∃ bs ws msgs evs pend' closed out,
      got_of s' = got_of s ++ bs ∧
      Rfc6455.decode_all code_len64 (pend ++ bs)
      = (ws ++ fst (Rfc6455.decode_all code_len64 pend'),
         snd (Rfc6455.decode_all code_len64 pend')) ∧
      represents (m_parser (fst s')) pend' ∧
      spec_polls handler (m_handler (fst s)) ws evs msgs (m_handler (fst s')) closed ∧
      calls (fst s') = calls (fst s) ++ evs ∧
      put_of s' = put_of s ++ out ∧ carries out msgs
  | (Throw _, _) => True
  | _ => False
  end.
Proof.
  intros Hhard Hlim Hh Hs Hf Hb Hr.
  pose proof (poll_until_closed_returns Hhard Hlim handler Hh depth n max_reads pend s
    Hs Hf Hb Hr) as Hp. unfold returns, ends in Hp.
  destruct (poll_until_closed _ _ _ _ s) as [[b|e|u|] s']; try done.
  destruct Hp as (bs & ws & msgs & evs & pend' & closed & [Hg (out & Ho & Hc) Hca _ _] &
    Hr' & Hd & Hrun).
  by exists bs, ws, msgs, evs, pend', closed, out.
Qed.

(** C10: [close] on an open client, for a handler all of whose methods are
    straight: they send, letting exceptions through, update their own state and
    may throw, but do not poll, close or ask the client for anything. When it
    returns, it has first polled, with everything [poll] does; then it has
    dropped what was pending, sent a CLOSE and waited, in rounds: each is one
    read of at most 1024 bytes, of which the first frame, once it is complete,
    is looked at and, if it is no CLOSE, dropped, and then a sleep of 100 ms. The
    first CLOSE ends the wait, at once and with success; without one it ends
    after exactly [timeout * 10] rounds, [timeout] seconds of sleep, without
    success (a negative time-out is one of no rounds). [close] passes the result to [on_close], sends what the handler
    says, and returns it; the client is closed with the status
    CLOSED_BY_CLIENT. *)
Theorem close_implements_protocol `{!SocketStream St W} (handler : notice → prog Hst)
    (depth : nat) (timeout : Z) (pend : list Z) (s : state) :
  hardened = false → (139 < send_limit)%Z →
  (∀ m, straight send_limit (handler m)) → int10 timeout →
  m_connection_open (fst s) = true →
  nanotimer.time1 (m_ping_timer (fst s)) ≠ None → FrameFactory.wf (m_factory (fst s)) →
  bytes_ok pend → represents (m_parser (fst s)) pend →
  match close handler (S depth) timeout s with
  | (Ok success, s') => ∃ st s1,
      poll handler (S depth) 4 s = (Ok st, s1) ∧
      closed_from handler (Z.to_nat (timeout * 10)) s1 success s'
  | (Throw _, _) => True
  | _ => False
  end.
Proof.
  intros Hhard Hlim Hh Ht Ho Hs Hf Hb Hr.
  pose proof (close_returns Hhard Hlim handler Hh depth timeout pend s Ht Ho Hs Hf Hb Hr)
    as Hp. unfold returns, ends in Hp.
  by destruct (close handler (S depth) timeout s) as [[b|e|u|] s'].
Qed.

(** ** The opening handshake *)

(** C20: the opening handshake, for a handler whose [on_open] is straight: it
    sends, letting exceptions through, and updates its own state, but does not
    poll, close or ask the client for anything. (The other methods, which
    [connect] does not call, may do anything: the handler of example.cpp is one.)
    Once the socket is open ([s1]), [connect] sends exactly the request for the
    client's host, path, headers and fresh key, and collects the response; it
    succeeds exactly when "HTTP/1.1 101" occurs anywhere in what was received;
    only then the status is HEALTHY and [on_open] is called, once, its messages
    following the request. The bytes that came after the response head are
    dropped: the parser is the one the client had before. *)
Theorem connect_implements_handshake `{!SocketStream St W}
    (handler : notice → prog Hst) (depth : nat) (timeout : Z) (s s1 : state) :
  hardened = false →
  straight send_limit (handler on_open) → entropy_silent (St:=St) (W:=W) →
  int10 timeout → FrameFactory.wf (m_factory (fst s1)) →
  open_socket s = (Ok tt, s1) →
  (Z.of_nat (length (request_of (fst s1) (handshake_key (env (snd s1))))) < send_limit)%Z →
  match connect handler (S depth) timeout s with
  | (Ok ok, s') => ∃ response msgs out,
      got_of s' = got_of s1 ++ response ∧
      put_of s' = put_of s1 ++ request_of (fst s1) (handshake_key (env (snd s1))) ++ out ∧
      carries out msgs ∧ m_parser (fst s') = m_parser (fst s1) ∧
      (ok = true ↔ ∃ a b, response = a ++ str "HTTP/1.1 101" ++ b) ∧
      m_connection_open (fst s') = ok ∧
      if ok then
        m_status (fst s') = HEALTHY ∧ calls (fst s') = calls (fst s1) ++ [on_open] ∧
        answers handler on_open (m_handler (fst s1)) = Some (msgs, m_handler (fst s'))
      else
        m_status (fst s') = FAILED ∧ calls (fst s') = calls (fst s1) ∧ msgs = []
  | (Throw _, _) => True
  | _ => False
  end.
Proof.
  intros Hhard Hh He Ht Hf Ho Hlen.
  pose proof (connect_returns Hhard handler depth timeout s s1 Hh He Ho Ht Hf Hlen)
    as Hc. unfold returns, ends in Hc.
  destruct (connect handler (S depth) timeout s) as [[ok|e|u|] s']; try done.
  destruct Hc as (response & msgs & out & _ & Hg & Hok & Hp & Hca & Hpar & Hl & Hcase).
  exists response, msgs, out. rewrite <-contains_spec, <-Hok.
  unfold link in Hl. injection Hl as Hopen Hst1. rewrite Hst1.
  split_and!; try done.
  destruct ok; cbv iota; [by destruct Hcase|by destruct Hcase as (? & ? & _)].
Qed.

(** ** Safety and the invariant, for any handler *)

(** C8: no session does anything undefined. For every socket type with the
    laws, every handler and every program that uses the client through its
    public methods (from the handler or from outside, nested to any depth,
    catching exceptions or not), and whatever the network, the TLS library and
    the clock do: constructing the client, running the program and destroying
    the client reads and writes only inside its buffers, uses only values that
    were set, and does not overflow a counter - provided [on_open] does not
    call [poll] or [close], no method reads the payload of its frame after it
    has polled or closed (the view may dangle then, as
    [payload_dangles_after_growth] shows), time-outs are below 2^31 / 10
    seconds, payloads are sequences of bytes, below 2^63 of them, and the
    library does not check [operator[]]. The one
    exception is outside [undefined]: the shifts by 32 and more in a 64-bit
    length field are given the value the target's instruction gives them. *)
Theorem session_is_safe `{!SocketTypeLaws St W} (handler : notice → prog Hst)
    (main : prog Hst) (depth : nat) (host path : string) (port : Z)
    (extra_headers : string) (connection_timeout ping_frequency ping_timeout : Z)
    (junk : Frame.t string_view) (s : Hst * Sys W) (u : undefined) :
  hardened = false →
  handler_ok handler → quiet (handler on_open) → prog_ok false main →
  int10 connection_timeout → length (Frame.masking_key junk) = 4 →
  fst (session handler depth host path port extra_headers connection_timeout
         ping_frequency ping_timeout junk main s) ≠ UB u.
Proof.
  intros Hhard Hh Hq Hm Ht Hj. by apply no_ub_elim, session_no_ub.
Qed.


(** A constructor that returns leaves an open, healthy client with the
    invariant and a running timer; [on_open] may send. *)
Theorem construct_establishes `{!SocketTypeLaws St W} (handler : notice → prog Hst)
    (depth : nat) (host path : string) (port : Z) (extra_headers : string)
    (connection_timeout ping_frequency ping_timeout : Z) (junk : Frame.t string_view)
    (s : Hst * Sys W) :
  hardened = false →
  handler_ok handler → quiet (handler on_open) →
  int10 connection_timeout → length (Frame.masking_key junk) = 4 →
  match construct handler depth host path port extra_headers connection_timeout
          ping_frequency ping_timeout junk s with
  | (Ok c, (h', y')) =>
      good (c, y') ∧ m_connection_open c = true ∧ m_status c = HEALTHY ∧
      nanotimer.time1 (m_ping_timer c) ≠ None ∧ m_handler c = h'
  | (UB _, _) => False
  | _ => True
  end.
Proof.
  intros Hhard Hh Hq Ht Hj.
  pose proof (construct_running Hhard handler Hh depth host path port extra_headers
    connection_timeout ping_frequency ping_timeout junk s Ht Hq Hj) as Hc.
  unfold safe in Hc. destruct (construct _ _ _ _ _ _ _ _ _ _ s) as [[c|e|u|] [h' y']];
    try done. by destruct Hc as [[(? & ? & ?) ?] ?].
Qed.

(** ** Closing *)

(** [close] on a client that is not open does nothing and reports
    success, whatever the reason it was closed for. *)
Theorem close_when_closed (handler : notice → prog Hst) (depth : nat) (timeout : Z)
    (c : t Hst St) (y : Sys W) :
  m_connection_open c = false → close handler depth timeout (c, y) = (Ok true, (c, y)).
Proof.
  intros Ho. unfold close, close_with. rewrite (bind_ok _ _ _ c (c, y)) by done.
  by rewrite Ho.
Qed.


(** A run that ends with a CLOSE ends with its answer and the report. *)
Lemma closed_run_reports (handler : notice → prog Hst) h ws evs msgs h' closed :
  spec_run handler h ws evs msgs h' closed → closed = true →
  ∃ evs0 msgs0 msgs1, evs = evs0 ++ [on_close true] ∧
    msgs = msgs0 ++ (Opcode.CLOSE, []) :: msgs1.
Proof.
  induction 1 as [h|h w f ev msgs1 h1 ws evs msgs h' closed _ _ _ _ IH
    |h w f ws evs msgs h' closed _ _ _ _ IH|h w f ws evs msgs h' closed _ _ _ IH
    |h w f msgs h' _ _ _]; intros Hc; [done| | |by apply IH|by exists [], [], msgs];
    destruct (IH Hc) as (evs0 & msgs0 & msgs2 & -> & ->).
  - exists (ev :: evs0), (msgs1 ++ msgs0), msgs2. by rewrite <-app_assoc.
  - by exists evs0, ((Opcode.PONG, Frame.payload f) :: msgs0), msgs2.
Qed.

(** C23: a CLOSE of the server that [close] itself reads, in its [poll], does
    not end it. For a handler with straight methods, as in C10, on a healthy
    client: if that poll reports CLOSED_BY_SERVER, the CLOSE was
    answered with a CLOSE and reported by [on_close(true)] ([s1]), and the
    connection is closed; [close] all the same sends a second CLOSE, waits for
    another one to come, as in C10, and reports a second time, with what the wait
    came to. The status becomes CLOSED_BY_CLIENT. (In the witness the server
    sends nothing after its CLOSE: the handler is told [on_close(true)] and then
    [on_close(false)].) *)
Theorem close_reports_again `{!SocketStream St W} (handler : notice → prog Hst)
    (depth : nat) (timeout : Z) (pend : list Z) (s s1 : state) :
  hardened = false → (139 < send_limit)%Z →
  (∀ m, straight send_limit (handler m)) → int10 timeout → link s = (true, HEALTHY) →
  nanotimer.time1 (m_ping_timer (fst s)) ≠ None → FrameFactory.wf (m_factory (fst s)) →
  bytes_ok pend → represents (m_parser (fst s)) pend →
  poll handler (S depth) 4 s = (Ok CLOSED_BY_SERVER, s1) →
  (∃ evs out msgs msgs',
     calls (fst s1) = calls (fst s) ++ evs ++ [on_close true] ∧
     put_of s1 = put_of s ++ out ∧ carries out (msgs ++ (Opcode.CLOSE, []) :: msgs') ∧
     link s1 = (false, CLOSED_BY_SERVER)) ∧
  match close handler (S depth) timeout s with
  | (Ok success, s') => closed_from handler (Z.to_nat (timeout * 10)) s1 success s' ∧
      ∃ evs out msgs msgs' msgs'',
        calls (fst s') = calls (fst s) ++ evs ++ [on_close true; on_close success] ∧
        put_of s' = put_of s ++ out ∧
        carries out (msgs ++ (Opcode.CLOSE, []) :: msgs' ++ (Opcode.CLOSE, []) :: msgs'') ∧
        link s' = (false, CLOSED_BY_CLIENT)
  | (Throw _, _) => True
  | _ => False
  end.
Proof.
  intros Hhard Hlim Hh Ht Hl Hs Hf Hb Hr Hpoll.
  pose proof (poll_returns Hhard Hlim handler Hh depth 4 pend s Hs Hf Hb Hr) as Hp.
  unfold returns, ends in Hp. rewrite Hpoll in Hp.
  destruct Hp as (closed & s0 & _ & (bs & ws & msgs & evs & pend' & _ & _ & Hw & _ & _ & _ & _ &
    Hrun & Hl0) & Est & Hend).
  assert (closed = true) as ->.
  { destruct closed; [done|]. destruct Hend as (_ & _ & _ & Hcase). rewrite Hl in Hl0.
    rewrite Hl0 in Hcase. by destruct Hcase as [[_ E]|[(_ & _ & E)|(_ & _ & E)]]; rewrite E in Est. }
  subst s0. apply (closed_run_reports handler) in Hrun as (evs0 & msgs0 & msgs1 & -> & ->); [|done].
  destruct Hw as [_ (out1 & Hp1 & Hc1) He1 _ _ _].
  split; [by exists evs0, out1, msgs0, msgs1|].
  assert (m_connection_open (fst s) = true) as Ho by (by injection Hl).
  pose proof (close_returns Hhard Hlim handler Hh depth timeout pend s Ht Ho Hs Hf Hb Hr) as Hc.
  unfold returns, ends in Hc.
  destruct (close handler (S depth) timeout s) as [[success|e|u|] s']; try done.
  destruct Hc as (st & s1' & E & Hc). rewrite Hpoll in E. injection E as <- <-.
  split; [exact Hc|].
  destruct Hc as (bs2 & ws2 & fs & pend2 & msgs2 & closing & x0 & x1 & out & _ & Hput0 & Hcl & _ & _ &
    Hput1 & Hput & Hcar & _ & _ & _ & _ & _ & Hcalls & _ & Hlink).
  exists evs0, ((out1 ++ closing) ++ out), msgs0, msgs1, msgs2.
  split_and!; [by rewrite Hcalls, He1, <-!app_assoc|by rewrite Hput, Hput1, Hput0, Hp1, <-!app_assoc| |done].
  pose proof (carries_app _ _ _ _ (carries_app _ _ _ _ Hc1 Hcl) Hcar) as Hcc.
  assert (msgs0 ++ (Opcode.CLOSE, []) :: msgs1 ++ (Opcode.CLOSE, []) :: msgs2
    = ((msgs0 ++ (Opcode.CLOSE, []) :: msgs1) ++ [(Opcode.CLOSE, [])]) ++ msgs2) as ->
    by (by rewrite <-!app_assoc).
  exact Hcc.
Qed.

(** ** The payload view *)

(** [p] with the payload as a value: it sees [bytes] wherever it reads the
    payload before it polls or closes. *)
Fixpoint given (bytes : list Z) (p : prog Hst) : prog Hst :=
  match p with
  | Payload k => given bytes (k bytes)
  | Get k => Get (λ h, given bytes (k h))
  | Put h k => Put h (given bytes k)
  | SendText payload k => SendText payload (λ r, given bytes (k r))
  | SendBinary payload k => SendBinary payload (λ r, given bytes (k r))
  | Status k => Status (λ st, given bytes (k st))
  | LastRtt k => LastRtt (λ rtt, given bytes (k rtt))
  | Return | Raise _ | Close _ _ | Poll _ _ => p
  end.

(** A program that does not read the payload needs no view. *)
Lemma run_prog_no_view (call_handler : event → string_view → M state unit) l l' p s :
  prog_ok false p → run_prog call_handler l p s = run_prog call_handler l' p s.
Proof.
  revert s. induction p as [|e|k IH|k IH|h p IH|bs k IH|bs k IH|t k IH|n k IH|k IH|k IH];
    cbn [run_prog prog_ok]; intros s Hp; try done; try (by destruct Hp);
    apply bind_agree; intros a s' _; apply IH; try done; by apply Hp.
Qed.

(** C21: a view is as good as a copy until the handler polls or closes. A
    handler method that reads the payload of its frame only before it calls
    [poll] or [close] - between any sends, which may have thrown - does what it
    would do if it had been given, instead of a view into the receive buffer,
    a copy of the bytes the view denoted when the method was called: the same
    outcome and the same state of everything, whatever the calls it makes do. *)
Theorem view_is_as_good_as_copy (call_handler : event → string_view → M state unit)
    (p : prog Hst) (v : string_view) (l' : lent) (s : state) :
  prog_ok true p →
  run_prog call_handler (lend (m_parser (fst s)) v) p s
  = run_prog call_handler l' (given (FrameParser.deref (m_parser (fst s)) v) p) s.
Proof.
  remember (m_parser (fst s)) as q eqn:Hq. revert s Hq.
  induction p as [|e|k IH|k IH|h p IH|bs k IH|bs k IH|t k IH|n k IH|k IH|k IH];
    cbn [run_prog given prog_ok]; intros s Hq Hp; try done;
    try (apply bind_agree; intros a s' Hs').
  - destruct Hp as [_ Hp]. erewrite bind_ok by (apply read_payload_eq; unfold lasting; by rewrite <-Hq).
    rewrite <-Hq. by apply IH.
  - apply IH; [|done]. by injection Hs' as _ <-.
  - apply IH; [|done]. rewrite Hq. change s' with (snd (Ok a, s')). rewrite <-Hs'. by destruct s.
  - apply IH; [|apply Hp]. change s' with (snd (Ok a, s')). rewrite Hq, <-Hs'.
    symmetry. apply catching_leaves, (send_leaves Opcode.TEXT).
  - apply IH; [|apply Hp]. change s' with (snd (Ok a, s')). rewrite Hq, <-Hs'.
    symmetry. apply catching_leaves, (send_leaves Opcode.BINARY).
  - apply run_prog_no_view, Hp.
  - apply run_prog_no_view, Hp.
  - apply IH; [|done]. by injection Hs' as _ <-.
  - apply IH; [|done]. by injection Hs' as _ <-.
Qed.

(** ** Pings *)

(** The periods the constructor computes, in milliseconds. *)
Lemma seconds_ms n :
  (-2 ^ 31 ≤ n < 2 ^ 31)%Z → dmul (to_double n) (to_double 1000) = to_double (n * 1000).
Proof.
  intros Hn. destruct (decide (n = 0)%Z) as [->|Hz]; [done|].
  apply dmul_int; unfold small; lia.
Qed.

(** The branches of [update_ping], for a timer started at [(sec1, nsec1)]. *)
Lemma update_ping_cases (c : t Hst St) (y : Sys W) (sec1 nsec1 : Z) :
  nanotimer.time1 (m_ping_timer c) = Some (sec1, nsec1) →
  let '((sec2, nsec2), w) := sys_clock (env y) in
  let elapsed :=
    ddiv (dadd (dmul (to_double 1000000000) (to_double (sec2 - sec1)))
               (to_double (nsec2 - nsec1))) (to_double 1000000) in
  let s' := (set_ping_timer (nanotimer.mk (Some (sec1, nsec1)) (Some (sec2, nsec2))) c,
             mkSys w (held y)) in
  update_ping (c, y) =
    if m_waiting_for_ping c then
      if dgt elapsed (m_ping_timeout c)
      then (Ok tt, (set_status PING_TIMED_OUT (set_connection_open false (fst s')),
                    mkSys (sys_cout ping_timed_out w) (held y)))
      else (Ok tt, s')
    else
      if dgt elapsed (m_ping_every c)
      then (on_timer nanotimer.start;; send_ping [])
             (set_waiting_for_ping true (fst s'), snd s')
      else (Ok tt, s').
Proof.
  intros Ht. pose proof (elapsed_eq c y) as He. rewrite Ht in He.
  destruct (sys_clock (env y)) as [[sec2 nsec2] w]. cbv zeta.
  unfold update_ping. rewrite (bind_ok _ _ _ c (c, y)) by done.
  destruct (m_waiting_for_ping c); rewrite (bind_ok _ _ _ _ _ He);
    by destruct (dgt _ _).
Qed.

(** C34: [update_ping] is exact. For a client made with the given period and
    time-out in seconds, a timer started at [t1] and a clock that reads [t2], at
    most 52 days later: with a PONG outstanding the connection is closed as
    PING_TIMED_OUT, and "ping timed out" printed, exactly when more than
    [ping_timeout] seconds, to the nanosecond, have passed, and without one a PING is sent and the timer
    restarted exactly when more than [ping_frequency] seconds have; otherwise
    nothing but the clock reading happens. The computation in [double] - a
    product, a sum, a rounded quotient - never changes the comparison. *)
Theorem update_ping_exact (c : t Hst St) (y : Sys W) (ping_frequency ping_timeout : Z)
    (t1 t2 : Z * Z) (w : W) :
  m_ping_every c = dmul (to_double ping_frequency) (to_double 1000) →
  m_ping_timeout c = dmul (to_double ping_timeout) (to_double 1000) →
  (-2 ^ 31 ≤ ping_frequency < 2 ^ 31)%Z → (-2 ^ 31 ≤ ping_timeout < 2 ^ 31)%Z →
  nanotimer.time1 (m_ping_timer c) = Some t1 → sys_clock (env y) = (t2, w) →
  reading_ok t1 → reading_ok t2 → (0 ≤ ns t2 - ns t1 < 2 ^ 52)%Z →
  let s' := (set_ping_timer (nanotimer.mk (Some t1) (Some t2)) c, mkSys w (held y)) in
  update_ping (c, y) =
    if m_waiting_for_ping c then
      if (ping_timeout * 1000000000 <? ns t2 - ns t1)%Z
      then (Ok tt, (set_status PING_TIMED_OUT (set_connection_open false (fst s')),
                    mkSys (sys_cout ping_timed_out w) (held y)))
      else (Ok tt, s')
    else
      if (ping_frequency * 1000000000 <? ns t2 - ns t1)%Z
      then (on_timer nanotimer.start;; send_ping [])
             (set_waiting_for_ping true (fst s'), snd s')
      else (Ok tt, s').
Proof.
  intros He Ho Hf Ht Ht1 Hc Hr1 Hr2 Hd. destruct t1 as [sec1 nsec1].
  pose proof (update_ping_cases c y sec1 nsec1 Ht1) as Hu. rewrite Hc in Hu.
  destruct t2 as [sec2 nsec2]. cbv zeta in Hu |- *. rewrite Hu.
  pose proof (seconds_ms ping_frequency Hf) as Hf'. pose proof (seconds_ms ping_timeout Ht) as Ht'.
  rewrite He, Ho, Hf', Ht'.
  pose proof (λ limit, elapsed_ms_exact (sec1, nsec1) (sec2, nsec2) limit Hr1 Hr2 Hd) as Hx.
  cbn [fst snd] in Hx. rewrite !Hx by (unfold small; lia).
  by rewrite <-!Z.mul_assoc.
Qed.

(** A timer that was never started is read: between the opening of the
    connection and the end of the constructor - that is, in [on_open] -
    [poll] and [close] use an indeterminate value. *)
Theorem unstarted_timer_is_read (c : t Hst St) (y : Sys W) :
  nanotimer.time1 (m_ping_timer c) = None → fst (update_ping (c, y)) = UB uninitialised.
Proof.
  intros Ht. pose proof (elapsed_eq c y) as He. rewrite Ht in He.
  destruct (sys_clock (env y)) as [[sec2 nsec2] w].
  unfold update_ping. rewrite (bind_ok _ _ _ c (c, y)) by done.
  destruct (m_waiting_for_ping c); by rewrite (bind_ub _ _ _ _ _ He).
Qed.

(** A PING with more than 125 bytes - legal for no peer, but up to the
    peer - makes [poll] throw: the PONG with the same payload is refused by
    the factory. Nothing is sent and the connection stays open. *)
Theorem oversized_ping_throws (call_handler : event → string_view → M state unit)
    (f : Frame.t string_view) (s : state) :
  Frame.opcode f = Opcode.PING →
  125 < length (FrameParser.deref (m_parser (fst s)) (Frame.payload f)) →
  dispatch call_handler f s
  = (Throw (runtime_error "Payload should be <= 125 for pong frames"), s).
Proof.
  intros Ho Hl. destruct s as [c y]. unfold dispatch.
  rewrite (bind_ok _ _ _ c (c, y)) by done. rewrite Ho. cbv zeta.
  unfold send_pong, FrameFactory.pong, frame_of, with_payload. cbn [Frame.payload fst] in *.
  destruct (Nat.ltb_spec 125 (length (FrameParser.deref (m_parser c) (Frame.payload f))));
    [|lia].
  unfold on_factory, zoom, throw, mbind, M_bind. cbn [fst snd].
  by destruct c.
Qed.

End Properties.
(** ** Concrete connections *)

(** A client of the plain socket on the scripted network, whose handler
    greets on opening and echoes text frames. *)
#[local] Existing Instance masked_shift_target.
#[local] Instance tcp : SocketType SocketWrapper.t world := TCP_SocketType 400.
#[local] Instance tcp_stream : SocketStream SocketWrapper.t world := TCP_Stream 400.
#[local] Existing Instance HandshakeProps.counting_entropy.

#[local] Instance bytes_ok_dec bs : Decision (bytes_ok bs).
Proof. unfold bytes_ok. apply _. Defined.

Definition echo (m : notice) : prog unit :=
  match m with
  | on_open => SendText (str "hi") (andthen Return)
  | on_text f => Payload (λ payload,
      if decide (bytes_ok payload ∧ (Z.of_nat (length payload) < 300)%Z)
      then SendText payload (andthen Return) else Return)
  | _ => Return
  end.

Lemma echo_straight m : straight 400 (echo m).
Proof.
  destruct m; try done; cbn [echo].
  - repeat split; try done. by apply (bool_decide_unpack _).
  - intros payload. case_decide as Hd; [|done]. destruct Hd.
    cbn [straight]. split; [split; [done|lia]|]. by split; [lia|].
Qed.

Lemma echo_ok : handler_ok echo.
Proof.
  intros m. destruct m; try done; cbn [echo].
  - split; [split; [by apply (bool_decide_unpack _)|done]|]. by intros [].
  - split; [done|]. intros payload. case_decide as Hd; [|done]. destruct Hd.
    split; [split; [done|lia]|]. by intros [].
Qed.

Definition accepting : list Z :=
  str "HTTP/1.1 101 Switching Protocols" ++ CRLF ++ CRLF.

(** A frame as a server sends it. *)
Definition from_server (opcode : Z) (payload : list Z) : list Z :=
  Rfc6455.encode (Rfc6455.Wire true opcode None payload).

Definition some_factory : FrameFactory.t := snd (FrameFactory.new 4096 1 2).

Lemma some_factory_wf : FrameFactory.wf some_factory.
Proof.
  destruct (FrameFactory.new_factory_runs 4096 1 2) as (f & Hf & Hw); [lia|lia|].
  unfold some_factory. by rewrite Hf.
Qed.

(** A client whose connection is open, started at time 0. *)
Definition some_client : t unit SocketWrapper.t :=
  set_connection_open true (set_status HEALTHY
    (set_ping_timer (nanotimer.mk (Some (0, 0)%Z) None)
      (set_socket SocketProps.some_socket
        (initial tt "localhost" "/" 80 "" 60 10 FrameParser.empty_frame some_factory)))).


(** Two text frames and a PING, in two chunks. *)
Definition some_traffic : Sys world :=
  scripted [from_server 1 (str "a") ++ from_server 9 (str "p"); from_server 1 (str "b")].

Lemma poll_implements_protocol_witness :
  match poll echo 1 4 (some_client, some_traffic) with
  | (Ok st, s') => poll_implements echo 4 [] (some_client, some_traffic) st s' ∧
      length (calls (fst s')) = 2
  | _ => False
  end.
Proof.
  pose proof (poll_implements_protocol echo 0 4 [] (some_client, some_traffic)
    ltac:(done) ltac:(by vm_compute) echo_straight ltac:(done) some_factory_wf
    (Forall_nil_2 _) ltac:(by apply new_represents)) as H.
  destruct (poll echo 1 4 (some_client, some_traffic)) as [[st|e|u|] s'] eqn:Hp;
    [|vm_compute in Hp; discriminate|done|done].
  split; [exact H|]. vm_compute in Hp. by injection Hp as _ <-.
Defined.

Lemma polling_loop_implements_protocol_witness :
  match poll_until_closed echo 1 10 4 (some_client,
          scripted [from_server 1 (str "a"); from_server 1 (str "b") ++ from_server 8 []]) with
  | (Ok stopped, s') => (stopped, length (calls (fst s'))) = (true, 3) ∧
      ∃ msgs, carries (put_of s') msgs
  | _ => False
  end.
Proof.
  assert ((let '(o, s') := poll_until_closed echo 1 10 4 (some_client,
      scripted [from_server 1 (str "a"); from_server 1 (str "b") ++ from_server 8 []]) in
    (o, length (calls (fst s')))) = (Ok true, 3)) as E by (by vm_compute).
  pose proof (polling_loop_implements_protocol echo 0 10 4 [] (some_client,
    scripted [from_server 1 (str "a"); from_server 1 (str "b") ++ from_server 8 []])
    ltac:(done) ltac:(by vm_compute) echo_straight ltac:(done) some_factory_wf
    (Forall_nil_2 _) ltac:(by apply new_represents)) as H.
  destruct (poll_until_closed echo 1 10 4 _) as [[b|e|u|] s'];
    [|discriminate|done|done].
  destruct H as (bs & ws & msgs & evs & pend' & closed & out & _ & _ & _ & _ & _ & Ho & Hc).
  split; [by injection E as -> ->|]. exists msgs. by rewrite Ho.
Defined.

Lemma close_implements_protocol_witness :
  match close echo 1 10 (some_client, scripted [[]; from_server 1 (str "late"); from_server 8 []]) with
  | (Ok success, s') => success = true ∧ ∃ st s1,
      poll echo 1 4 (some_client, scripted [[]; from_server 1 (str "late"); from_server 8 []])
      = (Ok st, s1) ∧ closed_from echo 100 s1 success s'
  | _ => False
  end.
Proof.
  assert (fst (close echo 1 10 (some_client,
    scripted [[]; from_server 1 (str "late"); from_server 8 []])) = Ok true) as E
    by (by vm_compute).
  pose proof (close_implements_protocol echo 0 10 [] (some_client,
    scripted [[]; from_server 1 (str "late"); from_server 8 []])
    ltac:(done) ltac:(by vm_compute) echo_straight ltac:(by apply (bool_decide_unpack _))
    ltac:(done) ltac:(done) some_factory_wf
    (Forall_nil_2 _) ltac:(by apply new_represents)) as H.
  destruct (close echo 1 10 _) as [[b|e|u|] s']; [|discriminate|done|done].
  split; [by injection E|exact H].
Defined.

Lemma connect_implements_handshake_witness :
  match connect echo 1 10 (some_client, scripted [accepting]) with
  | (Ok ok, s') => ok = m_connection_open (fst s')
  | _ => False
  end.
Proof.
  pose proof (connect_implements_handshake echo 0 10 (some_client, scripted [accepting])
    (snd (open_socket (some_client, scripted [accepting])))
    ltac:(done) (echo_straight on_open) ltac:(done) ltac:(by apply (bool_decide_unpack _))
    some_factory_wf ltac:(by vm_compute) ltac:(by vm_compute)) as H.
  destruct (connect echo 1 10 (some_client, scripted [accepting])) as [[ok|e|u|] s'] eqn:Hc;
    [|vm_compute in Hc; discriminate|done|done].
  by destruct H as (? & ? & ? & _ & _ & _ & _ & _ & -> & _).
Defined.

(** A program that polls twice, whatever the first poll gives. *)
Definition poll_twice : prog unit := Poll 4 (λ _, Poll 4 (λ _, Return)).

Definition session_on (script : list (list Z)) (main : prog unit) :
    outcome (list event) * (unit * Sys world) :=
  session echo 3 "localhost" "/" 80 "" 10 60 10 FrameParser.empty_frame main
    (tt, scripted script).

Lemma session_is_safe_witness :
  match fst (session_on [accepting; from_server 1 (str "yo")] poll_twice) with
  | UB _ => False
  | _ => True
  end.
Proof.
  unfold session_on.
  pose proof (λ u, session_is_safe echo poll_twice 3 "localhost" "/" 80 "" 10 60 10
    FrameParser.empty_frame (tt, scripted [accepting; from_server 1 (str "yo")]) u
    eq_refl echo_ok ltac:(by intros []) ltac:(by intros r r')
    ltac:(by apply (bool_decide_unpack _)) eq_refl) as H.
  destruct (fst _) as [evs|e|u|]; [done|done|by apply (H u)|done].
Defined.


Lemma construct_establishes_witness :
  match construct echo 1 "localhost" "/" 80 "" 10 60 10 FrameParser.empty_frame
          (tt, scripted [accepting]) with
  | (Ok c, _) => m_connection_open c = true
  | _ => False
  end.
Proof.
  pose proof (construct_establishes echo 1 "localhost" "/" 80 "" 10 60 10
    FrameParser.empty_frame (tt, scripted [accepting]) ltac:(done) echo_ok
    ltac:(by intros []) ltac:(by apply (bool_decide_unpack _)) ltac:(done)) as H.
  destruct (construct _ _ _ _ _ _ _ _ _ _ _) as [[c|e|u|] [h y]] eqn:Hc;
    [|vm_compute in Hc; discriminate|done|vm_compute in Hc; discriminate].
  apply H.
Defined.

(** The client when the first frame of [some_traffic] is delivered. *)
Definition delivered : t unit SocketWrapper.t * Sys world :=
  snd (next_frame (some_client, some_traffic)).

(** Send, then read the payload and send it back. *)
Definition late_echo : prog unit :=
  SendText (str "ok") (λ _, Payload (λ payload,
    if decide (bytes_ok payload ∧ (Z.of_nat (length payload) < 300)%Z)
    then SendBinary payload (λ _, Return) else Return)).

Lemma late_echo_ok : prog_ok true late_echo.
Proof.
  cbn [late_echo prog_ok]. split; [split; [by apply (bool_decide_unpack _)|done]|].
  intros _. split; [done|]. intros payload. case_decide as Hd; [|done].
  by destruct Hd; split; [split; [done|lia]|].
Qed.

Lemma view_is_as_good_as_copy_witness :
  let v := Frame.payload (FrameParser.m_frame (m_parser (fst delivered))) in
  run_prog (callback echo 1) (lend (m_parser (fst delivered)) v) late_echo delivered
  = run_prog (callback echo 1) no_view
      (SendText (str "ok") (λ _, SendBinary (str "a") (λ _, Return))) delivered.
Proof.
  cbv zeta.
  rewrite (view_is_as_good_as_copy (callback echo 1) late_echo
    (Frame.payload (FrameParser.m_frame (m_parser (fst delivered)))) no_view delivered
    late_echo_ok).
  assert (FrameParser.deref (m_parser (fst delivered))
    (Frame.payload (FrameParser.m_frame (m_parser (fst delivered)))) = str "a") as ->
    by (by vm_compute).
  cbn [given late_echo]. by rewrite decide_True by (by apply (bool_decide_unpack _)).
Defined.

Lemma close_when_closed_witness :
  close echo 1 10 (set_connection_open false some_client, scripted [])
  = (Ok true, (set_connection_open false some_client, scripted [])).
Proof. apply close_when_closed. reflexivity. Defined.


Lemma close_reports_again_witness :
  match close echo 1 1 (some_client, scripted [from_server 8 []]) with
  | (Ok success, s') => success = false ∧ ∃ evs,
      calls (fst s') = evs ++ [on_close true; on_close false]
  | _ => False
  end.
Proof.
  pose proof (close_reports_again echo 0 1 [] (some_client, scripted [from_server 8 []])
    (snd (poll echo 1 4 (some_client, scripted [from_server 8 []])))
    ltac:(done) ltac:(by vm_compute) echo_straight ltac:(by apply (bool_decide_unpack _))
    ltac:(done) ltac:(done) some_factory_wf (Forall_nil_2 _) ltac:(by apply new_represents)
    ltac:(by vm_compute)) as [_ H].
  assert (fst (close echo 1 1 (some_client, scripted [from_server 8 []])) = Ok false) as E
    by (by vm_compute).
  destruct (close echo 1 1 _) as [[b|e|u|] s']; [|discriminate E|done|discriminate E].
  injection E as ->. destruct H as (_ & evs & _ & _ & _ & _ & Hcalls & _).
  split; [done|]. by exists evs.
Defined.

(** The time-out is over at 10 seconds and one nanosecond. *)
Lemma update_ping_exact_witness :
  let at_time t := mkSys (World [] [] [] 0 t 2) [] in
  let late t := m_status (fst (snd (update_ping
    (set_waiting_for_ping true some_client, at_time t)))) in
  late (10 * 1000000000)%Z = HEALTHY ∧ late (10 * 1000000000 + 1)%Z = PING_TIMED_OUT.
Proof.
  cbv zeta. split.
  - rewrite (update_ping_exact (set_waiting_for_ping true some_client)
      (mkSys (World [] [] [] 0 (10 * 1000000000) 2) []) 60 10 (0, 0)%Z (10, 0)%Z
      (World [] [] [] (10 * 1000000000) (10 * 1000000000) 2));
      [reflexivity|reflexivity|reflexivity|lia|lia|reflexivity|reflexivity
      |by vm_compute|by vm_compute|unfold ns; cbn; lia].
  - rewrite (update_ping_exact (set_waiting_for_ping true some_client)
      (mkSys (World [] [] [] 0 (10 * 1000000000 + 1) 2) []) 60 10 (0, 0)%Z (10, 1)%Z
      (World [] [] [] (10 * 1000000000 + 1) (10 * 1000000000 + 1) 2));
      [reflexivity|reflexivity|reflexivity|lia|lia|reflexivity|reflexivity
      |by vm_compute|by vm_compute|unfold ns; cbn; lia].
Defined.

Lemma unstarted_timer_is_read_witness :
  fst (update_ping (set_ping_timer nanotimer.new some_client, scripted []))
  = UB uninitialised.
Proof. apply unstarted_timer_is_read. reflexivity. Defined.

(** A parser that has just delivered a PING of 126 bytes. *)
Definition big_ping : list Z := from_server 9 (replicate 126 7%Z).

Definition after_big_ping : @state unit SocketWrapper.t world :=
  snd (next_frame (some_client, scripted [big_ping])).

Lemma oversized_ping_throws_witness :
  fst (dispatch (callback echo 1)
         (FrameParser.m_frame (m_parser (fst after_big_ping))) after_big_ping)
  = Throw (runtime_error "Payload should be <= 125 for pong frames").
Proof.
  rewrite (oversized_ping_throws (callback echo 1)
    (FrameParser.m_frame (m_parser (fst after_big_ping))) after_big_ping);
    [done|by vm_compute|]. apply Nat.ltb_lt. by vm_compute.
Defined.

(** ** Surprises, on concrete connections *)

(** Opcodes of the frames the client sent after its request. *)
Definition opcodes_sent (request : nat) (y : Sys world) : list Z :=
  map Rfc6455.w_opcode
    (fst (Rfc6455.decode_all Rfc6455.rfc_len64 (drop request (outgoing (env y))))).

(** The length of the request the sessions below send. *)
Definition request_length : nat :=
  length (build_websocket_handshake_request (str "localhost:80") (str "/")
    (replicate 24 65%Z) []).

(** The server's CLOSE arrives while the client closes: [close] reads it in its
    [poll], which answers it and calls [on_close(true)]; [close] then sends a
    second CLOSE, waits in vain for another answer, and calls [on_close(false)]. *)
Fact close_reports_twice :
  let r := session_on [accepting; from_server 8 []] Return in
  fst r = Ok [on_open; on_close true; on_close false] ∧
  opcodes_sent request_length (snd (snd r)) = [1; 9; 8; 8]%Z.
Proof. by vm_compute. Qed.

(** A network without data whose clock moves by [tick] at every reading. *)
Definition ticking (tick : Z) (script : list (list Z)) : Sys world :=
  mkSys (World script [] [] 0 tick 2) [].

(** Poll and note the status, [n] times. *)
Fixpoint poll_and_note (n : nat) : prog (list ConnectionStatus) :=
  match n with
  | O => Return
  | S n' => Poll 4 (λ r, match r with
      | inl e => Raise e
      | inr st => Get (λ seen, Put (seen ++ [st]) (poll_and_note n'))
      end)
  end.

Definition statuses (handler : notice → prog (list ConnectionStatus)) (n : nat)
    (y : Sys world) : outcome (list event) * (list ConnectionStatus * Sys world) :=
  session handler 3 "localhost" "/" 80 "" 10 60 10 FrameParser.empty_frame
    (poll_and_note n) ([], y).

(** The example with the default time-outs, against a server that echoes but
    does not answer the CLOSE: [poll] reports not CLOSED_BY_CLIENT but
    PING_TIMED_OUT, because [update_ping] runs on the connection just closed. *)
Fact status_overwritten_after_close :
  let r := statuses (example_handler (λ _ h, h)) 1
    (ticking 1000 [accepting; from_server 1 (str "Hello, World!")]) in
  fst (snd r) = [PING_TIMED_OUT].
Proof. by vm_compute. Qed.

(** After the server's CLOSE, [poll] still pings and then times out: the
    status changes from CLOSED_BY_SERVER to PING_TIMED_OUT, and a PING follows
    the CLOSE. *)
Fact closed_client_keeps_pinging :
  let r := statuses (λ _, Return) 3
    (ticking (61 * 1000000000) [accepting; from_server 10 [] ++ from_server 8 []]) in
  fst (snd r) = [CLOSED_BY_SERVER; CLOSED_BY_SERVER; PING_TIMED_OUT] ∧
  opcodes_sent request_length (snd (snd r)) = [9; 8; 9]%Z.
Proof. by vm_compute. Qed.

(** A refused upgrade that quotes the wanted status line counts as accepted. *)
Fact refused_upgrade_accepted :
  fst (session_on [str "HTTP/1.1 404 Not Found" ++ CRLF ++
                   str "X-Wanted: HTTP/1.1 101" ++ CRLF ++ CRLF] Return)
  = Ok [on_open; on_close false].
Proof. by vm_compute. Qed.

(** A frame in the same read as the response is lost; on its own it is not. *)
Fact frames_with_response_lost :
  fst (session_on [accepting ++ from_server 1 (str "yo")] poll_twice)
  = Ok [on_open; on_close false] ∧
  ∃ f, fst (session_on [accepting; from_server 1 (str "yo")] poll_twice)
       = Ok [on_open; on_text f; on_close false].
Proof. split; [by vm_compute|]. eexists. by vm_compute. Qed.

(** A handler that polls, or closes, in [on_open]. *)
Fact on_open_must_not_poll :
  (∀ m, m ∈ [Poll 4 (λ _, Return); Close 10 (λ _, Return)] →
    fst (session (λ ev, match ev with on_open => m | _ => Return end) 3
           "localhost" "/" 80 "" 10 60 10 FrameParser.empty_frame Return
           (tt, scripted [accepting])) = UB uninitialised).
Proof.
  intros m Hm. do 2 (apply elem_of_cons in Hm as [->|Hm]; [by vm_compute|]).
  by apply elem_of_nil in Hm.
Qed.

(** A handler that polls in [on_text] and only then looks at its frame, which
    it keeps. *)
Definition late_reader (max_reads : Z) (m : notice) : prog (list (list Z)) :=
  match m with
  | on_text _ =>
      Get (λ seen, match seen with
        | [] => Put [[]] (Poll max_reads (λ _,
                  Payload (λ payload, Get (λ seen, Put (payload :: seen) Return))))
        | _ => Return
        end)
  | _ => Return
  end.

Definition late_reading (max_reads : Z) (script : list (list Z)) :
    outcome ConnectionStatus * (t (list (list Z)) SocketWrapper.t * Sys world) :=
  poll (late_reader max_reads) 3 4
    (mk [] "localhost" "/" 80 "" SocketProps.some_socket (FrameParser.new FrameParser.empty_frame)
       some_factory HEALTHY true (nanotimer.mk (Some (0, 0)%Z) None) false
       (to_double 60000) (to_double 10000) (to_double 0) [], scripted script).

(** Two text frames in one chunk: the handler was called with "a", and what it
    reads after its poll is the payload of the second frame. *)
Fact payload_changes_in_nested_poll :
  let '(r, s) := late_reading 1 [from_server 1 (str "a") ++ from_server 1 (str "b")] in
  r = Ok HEALTHY ∧ m_handler (fst s) = [str "b"; []] ∧
  ∃ f g, calls (fst s) = [on_text f; on_text g] ∧ Frame.payload f = str "a".
Proof. vm_compute. by split_and!; [..|do 2 eexists]. Qed.

(** The nested poll receives so much that the buffer grows: the handler reads
    through a dangling view. *)
Fact payload_dangles_after_growth :
  fst (late_reading 8 (from_server 1 (str "a") :: replicate 8 (replicate 1024 7%Z)))
  = UB dangling.
Proof. by vm_compute. Qed.

End ClientProps.
