(* ===== verification/Delivery.v ===== *)
(** What reaches the handler. While the program keeps polling, every frame the
    peer has sent is handled: enough polls, and no more than one per byte and
    frame. And no exception - of the socket, of the factory, of the handler -
    and no [poll] from inside the handler loses a frame, repeats one or changes
    the order. *)

From S2P Require Import Prelude Buffer Rfc6455 Frames Factory Parser ParserSpec Sys World Sockets SocketSpec SocketProps SocketStream Handshake Client ClientSpec ClientWire Endpoint Refinement Programs Depth ClientProps.
Import WSClient Endpoint Refinement.

Module Delivery.

(** ** Prefixes *)

Lemma prefix_drop {A} (t a b : list A) :
  t `prefix_of` a ++ b → drop (length a) t `prefix_of` b.
Proof.
  revert a. induction t as [|x t IH]; intros [|y a] [k Hk]; cbn in *; try by exists k.
  - apply prefix_nil.
  - injection Hk as -> Hk. apply IH. by exists k.
Qed.

Lemma prefix_undrop {A} (t a b c : list A) :
  t `prefix_of` a ++ b → drop (length a) t `prefix_of` c → t `prefix_of` a ++ c.
Proof.
  revert a. induction t as [|x t IH]; intros [|y a] [k Hk] Hc; cbn in *; try done;
    try apply prefix_nil.
  injection Hk as -> Hk. apply prefix_cons, IH; [by exists k|done].
Qed.

Section Delivery.
Context {Hst St W : Type} `{Target, OS W, Entropy W, !SocketType St W, !SocketStream St W}.
Context (Hhard : hardened = false) (Hlimit : (139 < send_limit)%Z).
Context (handler : notice → prog Hst).

Local Notation "'state'" := (@state Hst St W).

(** ** Enough polls *)

Definition frames_in (bytes : list Z) : list Rfc6455.wire :=
  fst (Rfc6455.decode_all code_len64 bytes).

(** More bytes only add frames. *)
Lemma frames_extend bytes ext : frames_in bytes `prefix_of` frames_in (bytes ++ ext).
Proof.
  unfold frames_in. rewrite Rfc6455.decode_all_app.
  destruct (Rfc6455.decode_all code_len64 bytes) as [ws r].
  destruct (Rfc6455.decode_all code_len64 (r ++ ext)) as [ws' r']. by exists ws'.
Qed.

(** What is still to come of [R] and of the frames [T] in it, after one poll
    that read [bs] and handled [ws]. *)
Lemma target_step pend R T bs ws pend1 (A : list Z) :
  R `prefix_of` bs ++ A → T `prefix_of` frames_in (pend ++ R) →
  Rfc6455.decode_all code_len64 (pend ++ bs)
  = (ws ++ fst (Rfc6455.decode_all code_len64 pend1),
     snd (Rfc6455.decode_all code_len64 pend1)) →
  drop (length bs) R `prefix_of` A ∧
  T `prefix_of` ws ++ frames_in (pend1 ++ drop (length bs) R).
Proof.
  intros HR HT Hd. split; [by apply prefix_drop|].
  assert (R `prefix_of` bs ++ drop (length bs) R) as [k Hk] by (by eapply prefix_undrop).
  etrans; [done|]. etrans; [apply (frames_extend _ k)|].
  rewrite <-app_assoc, <-Hk, app_assoc. unfold frames_in.
  by rewrite (decode_all_extend _ _ _ _ Hd).
Qed.

(** A poll that reads nothing and handles nothing had nothing to do. *)
Lemma target_done (limit : nat) (R : list Z) (T : list Rfc6455.wire) (bs : list Z) ws pend1
    (A : list Z) :
  0 < limit → R `prefix_of` A → (bs = [] → A = []) →
  T `prefix_of` ws ++ frames_in (pend1 ++ drop (length bs) R) →
  paced limit ws pend1 false →
  length (drop (length bs) R) + length (drop (length ws) T) < length R + length T ∨
  R = [] ∧ T = [].
Proof.
  intros Hl HR Hz HT [_ Hp]. rewrite !length_drop.
  destruct R as [|b R].
  - destruct T as [|w T]; [by right|]. left. rewrite drop_nil, app_nil_r in HT.
    destruct ws as [|w' ws]; [|cbn; lia].
    specialize (Hp eq_refl ltac:(done)). unfold frames_in in HT.
    rewrite Rfc6455.decode_all_unfold, Hp in HT. by apply prefix_nil_inv in HT.
  - left. destruct bs as [|c bs]; [|cbn; lia].
    rewrite (Hz eq_refl) in HR. by apply prefix_nil_inv in HR.
Qed.

(** What [n] polls did, when [R] was on its way and [T] are frames in it. *)
Definition served (pend R : list Z) (T : list Rfc6455.wire) (s : state) (stopped : bool)
    (s' : state) : Prop :=
  ∃ bs ws msgs evs pend' closed,
    went s s' bs msgs evs ∧ represents (m_parser (fst s')) pend' ∧
    Rfc6455.decode_all code_len64 (pend ++ bs)
    = (ws ++ fst (Rfc6455.decode_all code_len64 pend'),
       snd (Rfc6455.decode_all code_len64 pend')) ∧
    spec_polls handler (m_handler (fst s)) ws evs msgs (m_handler (fst s')) closed ∧
    if stopped
    then link s' = (false, if closed then CLOSED_BY_SERVER else PING_TIMED_OUT)
    else closed = false ∧ link s' = (true, HEALTHY) ∧ R `prefix_of` bs ∧ T `prefix_of` ws.

Context (Hhandler : ∀ m, straight send_limit (handler m)).

Lemma served_nothing pend (s : state) :
  FrameFactory.wf (m_factory (fst s)) → represents (m_parser (fst s)) pend →
  link s = (true, HEALTHY) → served pend [] [] s false s.
Proof.
  intros Hf Hr Hl. exists [], [], [], [], pend, false. rewrite app_nil_r.
  split_and!; [by apply went_refl|done| |constructor|done..].
  by destruct (Rfc6455.decode_all code_len64 pend).
Qed.

Lemma polls_deliver depth n max_reads pend R T (s : state) :
  started s → FrameFactory.wf (m_factory (fst s)) → bytes_ok pend →
  represents (m_parser (fst s)) pend → link s = (true, HEALTHY) →
  R `prefix_of` ahead_of s → T `prefix_of` frames_in (pend ++ R) →
  length R + length T ≤ n →
  returns (poll_until_closed handler (S depth) n max_reads) s (served pend R T s).
Proof.
  revert pend R T s. induction n as [|n IH]; intros pend R T s Hs Hf Hb Hr Hl HR HT Hn;
    cbn [poll_until_closed].
  { destruct R, T; cbn in Hn; try lia. by apply served_nothing. }
  apply ends_bind.
  eapply ends_mono; [by apply (one_poll Hhard Hlimit _ Hhandler depth max_reads pend)|..|done].
  intros st s1 (bs & ws & msgs & evs & pend1 & closed & ping & Hw & Hz & Hs1 & Hr1 & Hb1 &
    Hd & Hrun & Hclosed & Hpace & -> & Hlink).
  destruct closed.
  { rewrite Hlink. cbn [snd]. rewrite bool_decide_true by done.
    destruct (Hclosed eq_refl) as [-> _]. rewrite app_nil_r in Hw.
    exists bs, ws, msgs, evs, pend1, true. split_and!; try done. by constructor. }
  destruct Hlink as [Hlink|Hlink]; rewrite Hlink, ?Hl; cbn [snd].
  2: { rewrite bool_decide_true by done.
    exists bs, ws, (msgs ++ if ping : bool then [(Opcode.PING, [])] else []), evs, pend1, false.
    split_and!; try done.
    pose proof (polls_cons _ _ _ _ _ _ [] [] [] _ ping false Hrun (polls_nil _ _)) as Hp.
    by rewrite !app_nil_r in Hp. }
  rewrite bool_decide_false by (intros Hne; by apply Hne).
  assert (ahead_of s `prefix_of` bs ++ ahead_of s1) as Ha by apply Hw.
  assert (R `prefix_of` bs ++ ahead_of s1) as HR1 by (by etrans).
  destruct (target_step pend R T bs ws pend1 _ HR1 HT Hd) as [HR2 HT2].
  assert (length (drop (length bs) R) + length (drop (length ws) T) ≤ n) as Hn'.
  { destruct (target_done (Nat.max 1 (Z.to_nat max_reads)) R T bs ws pend1 (ahead_of s)
        ltac:(lia) HR Hz HT2 Hpace)
      as [?|[-> ->]]; [lia|]. rewrite !drop_nil. cbn. lia. }
  eapply ends_mono; [apply (IH pend1 (drop (length bs) R) (drop (length ws) T));
    [done|by destruct Hw|done|done|congruence|done|by apply prefix_drop|done]|..|done].
  intros stopped s' (bs' & ws' & msgs' & evs' & pend' & closed & Hw' & Hr' & Hd' & Hrun' & Hc).
  exists (bs ++ bs'), (ws ++ ws'),
    (msgs ++ (if ping : bool then [(Opcode.PING, [])] else []) ++ msgs'), (evs ++ evs'),
    pend', closed.
  split_and!.
  - pose proof (went_trans _ _ _ _ _ _ _ _ _ Hw Hw') as Hw2. by rewrite <-app_assoc in Hw2.
  - done.
  - rewrite app_assoc, (decode_all_extend _ _ _ _ Hd), Hd'. cbn [fst snd].
    by rewrite app_assoc.
  - by eapply polls_cons.
  - destruct stopped; [done|]. destruct Hc as (? & ? & HRs & HTs).
    split_and!; [done|done| |]; by eapply prefix_undrop.
Qed.

End Delivery.

(** ** Properties *)

Section Properties.
Context {Hst St W : Type} `{Target, OS W, Entropy W, !SocketType St W, !SocketStream St W}.

Local Notation "'state'" := (@state Hst St W).

(** C11: the loop of ping.cpp, [while (client.poll() == HEALTHY)], for handlers
    whose methods are straight, as those of ping.cpp are: they send, letting
    exceptions through, update their own state and may throw, but do not poll,
    close or ask the client for anything (example.cpp runs the same loop, but its handler closes
    the connection; it is not covered here). After any number [n] of polls: the
    bytes read are those of the frames handled, in order and by the protocol,
    and of what the parser holds; the loop stops only on a CLOSE of the server
    or a ping time-out (an exception apart). And it gets through everything: if
    it has not stopped and [n] is at least the number of bytes the peer had sent
    plus the number of frames in them and in what the parser held, all those
    bytes have been read and all those frames handled - however few frames each
    [poll] handles. *)
Theorem polling_handles_everything (handler : notice → prog Hst) (depth n : nat)
    (max_reads : Z) (pend : list Z) (s : state) :
  hardened = false → (139 < send_limit)%Z →
  (∀ m, straight send_limit (handler m)) →
  nanotimer.time1 (m_ping_timer (fst s)) ≠ None → FrameFactory.wf (m_factory (fst s)) →
  bytes_ok pend → represents (m_parser (fst s)) pend →
  m_connection_open (fst s) = true → m_status (fst s) = HEALTHY →
  match poll_until_closed handler (S depth) n max_reads s with
  | (Ok stopped, s') => ∃ bs ws msgs evs out pend' closed,
      got_of s' = got_of s ++ bs ∧
      Rfc6455.decode_all code_len64 (pend ++ bs)
      = (ws ++ fst (Rfc6455.decode_all code_len64 pend'),
         snd (Rfc6455.decode_all code_len64 pend')) ∧
      represents (m_parser (fst s')) pend' ∧
      spec_polls handler (m_handler (fst s)) ws evs msgs (m_handler (fst s')) closed ∧
      calls (fst s') = calls (fst s) ++ evs ∧
      put_of s' = put_of s ++ out ∧ carries out msgs ∧
      if stopped
      then link s' = (false, if closed then CLOSED_BY_SERVER else PING_TIMED_OUT)
      else closed = false ∧ link s' = (true, HEALTHY) ∧
           (length (ahead_of s) + length (frames_in (pend ++ ahead_of s)) ≤ n →
            ahead_of s `prefix_of` bs ∧ frames_in (pend ++ ahead_of s) `prefix_of` ws)
  | (Throw _, _) => True
  | _ => False
  end.
Proof.
  intros Hhard Hlim Hh Hs Hf Hb Hr Ho Hst1.
  assert (link s = (true, HEALTHY)) as Hl by (unfold link; congruence).
  pose proof (λ R T, polls_deliver Hhard Hlim handler Hh depth n max_reads pend R T s Hs Hf Hb
    Hr Hl) as Hp.
  assert (∃ R T, returns (poll_until_closed handler (S depth) n max_reads) s
      (served handler pend R T s) ∧
    (length (ahead_of s) + length (frames_in (pend ++ ahead_of s)) ≤ n →
     R = ahead_of s ∧ T = frames_in (pend ++ ahead_of s))) as (R & T & Hrun & HRT).
  { destruct (decide (length (ahead_of s) + length (frames_in (pend ++ ahead_of s)) ≤ n)).
    - do 2 eexists. split; [by apply Hp|done].
    - exists [], []. split; [apply Hp; [apply prefix_nil|apply prefix_nil|cbn; lia]|done]. }
  unfold returns, ends in Hrun.
  destruct (poll_until_closed handler (S depth) n max_reads s) as [[stopped|e|u|] s'];
    try done.
  destruct Hrun as (bs & ws & msgs & evs & pend' & closed & [Hg (out & Ho' & Hc) He _ _ _] &
    Hr' & Hd & Hpolls & Hend).
  exists bs, ws, msgs, evs, out, pend', closed. split_and!; try done.
  destruct stopped; [done|]. destruct Hend as (? & ? & HR & HT). split_and!; [done..|].
  intros Hn. by destruct (HRT Hn) as [<- <-].
Qed.

(** C2: the client implements the endpoint. For every handler, which may send,
    poll and close again at any depth, throw, and catch what its calls throw -
    it only may not read its frame once it has polled or closed -, for every
    program of public calls around it, and on every outcome but the end of the
    nesting bound: what was received, what was sent, to the byte, and the calls
    of the handler are those of a trace of the abstract endpoint, from the one
    the client stands for before to the one it stands for after. Nothing
    undefined happens. *)
Theorem client_refines_endpoint (handler : notice → prog Hst) (main : prog Hst)
    (depth : nat) (pend : list Z) (s : state) :
  hardened = false → (139 < send_limit)%Z →
  (∀ m, modest true true send_limit (handler m)) → modest true false send_limit main →
  nanotimer.time1 (m_ping_timer (fst s)) ≠ None → FrameFactory.wf (m_factory (fst s)) →
  bytes_ok pend → represents (m_parser (fst s)) pend →
  match run_prog (callback handler depth) no_view main s with
  | ((Ok _ | Throw _), s') => ∃ tr pend',
      steps (At Idle pend (link s)) tr (At Idle pend' (link s')) ∧
      represents (m_parser (fst s')) pend' ∧
      got_of s' = got_of s ++ received tr ∧ put_of s' = put_of s ++ emitted tr ∧
      calls (fst s') = calls (fst s) ++ called tr
  | (UB _, _) => False
  | (OutOfFuel, _) => True
  end.
Proof.
  intros Hhard Hlim Hh Hm Hs Hf Hb Hr.
  assert (stands_for s (At Idle pend (link s))) as He by done.
  pose proof (prog_refines Hhard Hlim handler true Hh depth main s _ Hm He) as Hp.
  unfold upto in Hp.
  destruct (run_prog _ _ _ _) as [[[]|e|u|] s']; try done;
    destruct Hp as (tr & [ph pend' l] & Ht & [Hi Hr' _ Hl _ _] & [Hg Hp Hc] & _); cbn in *;
    subst ph l; by exists tr, pend'.
Qed.

(** C13: nothing is made up. For the same handlers and programs, on every such
    outcome: the received bytes are those used and those pending, and frames
    [fs] of the used bytes, in order, account for all the calls and messages -
    the data the handler is given is that of frames, each at most once and in
    order; the payloads of the PONGs begun are those of PINGs among them, each
    at most once and in order; and the handler is told that the server closed
    at most once per CLOSE frame. What was sent is a sequence of messages, each
    whole or - when its send threw - its beginning. *)
Theorem calls_and_answers_accounted (handler : notice → prog Hst) (main : prog Hst)
    (depth : nat) (pend : list Z) (s : state) :
  hardened = false → (139 < send_limit)%Z →
  (∀ m, modest true true send_limit (handler m)) → modest true false send_limit main →
  nanotimer.time1 (m_ping_timer (fst s)) ≠ None → FrameFactory.wf (m_factory (fst s)) →
  bytes_ok pend → represents (m_parser (fst s)) pend →
  match run_prog (callback handler depth) no_view main s with
  | ((Ok _ | Throw _), s') => ∃ bs used pend' fs evs sayings,
      got_of s' = got_of s ++ bs ∧ pend ++ bs = used ++ pend' ∧
      represents (m_parser (fst s')) pend' ∧ carved used fs ∧
      calls (fst s') = calls (fst s) ++ evs ∧
      put_of s' = put_of s ++ concat (map snd sayings) ∧
      Forall (λ x, message_bytes (fst x) (snd x) ∨ beginning_of (fst x) (snd x)) sayings ∧
      accounts fs evs (map fst sayings)
  | (UB _, _) => False
  | (OutOfFuel, _) => True
  end.
Proof.
  intros Hhard Hlim Hh Hm Hs Hf Hb Hr.
  assert (stands_for s (At Idle pend (link s))) as He by done.
  pose proof (prog_refines Hhard Hlim handler true Hh depth main s _ Hm He) as Hp.
  unfold upto in Hp.
  destruct (run_prog _ _ _ _) as [[[]|e|u|] s']; try done;
    destruct Hp as (tr & e' & Ht & [_ Hr' _ _ _ _] & [Hg Hp Hc] & _);
    pose proof (steps_said _ _ _ Ht) as [Hsaid Hall]; rewrite Hsaid in Hp;
    exists (received tr), (used tr), (pending e'), (taken tr), (called tr), (said tr);
    (split_and!; [done|apply (steps_account _ _ _ Ht)|done|by eapply steps_carved|done..|]);
    by eapply accounted_idle, steps_accounted; [|right].
Qed.

(** C14: the recursion between the client and its handler. However the handler
    polls and closes from within its methods, a recursion of [depth] levels has
    taken [depth] frames from the connection: where [depth] levels do not
    suffice, two bytes per level have been received. So a program of public
    calls needs no more levels, and no more stack, than half of the bytes the
    peer sends, and comes to an end if these do; and once the levels suffice,
    more of them change nothing. *)
Theorem nesting_bounded (handler : notice → prog Hst) (main : prog Hst)
    (depth : nat) (pend : list Z) (s : state) :
  hardened = false → (139 < send_limit)%Z →
  (∀ m, modest true true send_limit (handler m)) → modest true false send_limit main →
  nanotimer.time1 (m_ping_timer (fst s)) ≠ None → FrameFactory.wf (m_factory (fst s)) →
  bytes_ok pend → represents (m_parser (fst s)) pend →
  let '(o, s') := run_prog (callback handler depth) no_view main s in
  match o with
  | OutOfFuel => ∃ bs, got_of s' = got_of s ++ bs ∧ 2 * depth ≤ length pend + length bs
  | UB _ => False
  | _ => ∀ depth', depth ≤ depth' →
      run_prog (callback handler depth') no_view main s = (o, s')
  end.
Proof.
  intros Hhard Hlim Hh Hm Hs Hf Hb Hr.
  assert (stands_for s (At Idle pend (link s))) as He by done.
  pose proof (prog_refines Hhard Hlim handler true Hh depth main s _ Hm He) as Hp.
  pose proof (λ d' Hd, Depth.extends_elim _ _ s (Depth.prog_extends handler depth d' Hd no_view main))
    as Hmore.
  unfold upto in Hp. destruct (run_prog _ _ _ _) as [[[]|e|u|] s']; try done;
    try (by intros d' Hd; apply Hmore).
  destruct Hp as (tr & e' & Ht & Hn & Hg). exists (received tr). split; [done|].
  pose proof (carved_length _ _ (steps_carved _ _ _ Ht)) as Hl.
  pose proof (f_equal length (steps_account _ _ _ Ht)) as Ha.
  cbn [pending] in Ha. rewrite !length_app in Ha. lia.
Qed.

(** C12: no frame is lost, reported twice or reported out of order: for every
    handler that does not call [close] and reads the payload of a frame only
    before it polls in the method that was given it - it may send, call [poll]
    again, throw, and catch what [poll] and the sends throw; what it sends fits
    the socket - whether [poll] returns or throws, the frames [fs] that were
    taken from the received bytes are the first ones, in order, the parser holds
    the rest, and the handler was called once for each data frame, in order, not
    at all for a PING or a PONG, and at most once for a CLOSE. Nothing is
    undefined for these handlers (a read of the payload after a poll may be), and
    if the handler does not call [poll] either, the call always comes to an
    end. *)
Theorem frames_delivered_once (handler : notice → prog Hst) (depth : nat)
    (max_reads : Z) (pend : list Z) (s : state) :
  hardened = false → (139 < send_limit)%Z →
  (∀ m, modest false true send_limit (handler m)) →
  nanotimer.time1 (m_ping_timer (fst s)) ≠ None → FrameFactory.wf (m_factory (fst s)) →
  bytes_ok pend → represents (m_parser (fst s)) pend →
  match poll handler depth max_reads s with
  | ((Ok _ | Throw _), s') => ∃ bs ws fs pend' evs,
      got_of s' = got_of s ++ bs ∧
      Rfc6455.decode_all code_len64 (pend ++ bs)
      = (ws ++ fst (Rfc6455.decode_all code_len64 pend'),
         snd (Rfc6455.decode_all code_len64 pend')) ∧
      represents (m_parser (fst s')) pend' ∧ Forall2 shows ws fs ∧
      calls (fst s') = calls (fst s) ++ evs ∧ follows fs evs
  | (UB _, _) => False
  | (OutOfFuel, _) => ¬ (0 < depth ∧ ∀ m, quiet (handler m))
  end.
Proof.
  intros Hhard Hlim Hh Hs Hf Hb Hr.
  assert (stands_for s (At Idle pend (link s))) as He by done.
  pose proof (poll_refines Hhard Hlim handler false Hh depth max_reads s _ He) as Hp.
  pose proof (λ d Hq, quiet_poll_refines Hhard Hlim handler false Hh d max_reads s _ Hq He) as Hp'.
  unfold upto in *.
  destruct (poll handler depth max_reads s) as [[st|e|u|] s'] eqn:Hpoll; [..|done|];
    [| |intros [Hd Hq]; destruct depth as [|depth]; [lia|];
        specialize (Hp' depth Hq); by rewrite Hpoll in Hp'];
    destruct Hp as (tr & e' & Ht & [Hi Hr' _ _ _ _] & [Hg _ Hc] & Hl);
    specialize (Hl eq_refl); destruct (lossless_frames _ _ _ Ht Hl) as (ws & Hsh & Hd);
    pose proof (lossless_follows _ _ _ _ Ht Hl) as Hfol; rewrite Hi in Hfol;
    by exists (received tr), ws, (taken tr), (pending e'), (called tr).
Qed.

End Properties.

(** ** Witnesses *)

Import ClientProps.
#[local] Existing Instance masked_shift_target.
#[local] Existing Instance tcp.
#[local] Existing Instance tcp_stream.
#[local] Existing Instance HandshakeProps.counting_entropy.
#[local] Existing Instance bytes_ok_dec.

(** Three frames in two chunks; 13 bytes and 3 frames. *)
Definition three_frames : Sys world :=
  scripted [from_server 1 (str "a") ++ from_server 9 (str "p"); from_server 1 (str "bc")].

Lemma polling_handles_everything_witness :
  match poll_until_closed echo 1 13 1 (some_client, three_frames) with
  | (Ok stopped, s') => stopped = false ∧ length (calls (fst s')) = 2 ∧
      ahead_of (some_client, three_frames) `prefix_of` got_of s'
  | _ => False
  end.
Proof.
  pose proof (polling_handles_everything echo 0 13 1 [] (some_client, three_frames)
    ltac:(done) ltac:(by vm_compute) echo_straight ltac:(done) some_factory_wf
    (Forall_nil_2 _) ltac:(by apply new_represents) ltac:(done) ltac:(done)) as H.
  assert ((let '(o, s') := poll_until_closed echo 1 13 1 (some_client, three_frames) in
    (o, length (calls (fst s')))) = (Ok false, 2)) as E by (by vm_compute).
  destruct (poll_until_closed echo 1 13 1 (some_client, three_frames)) as [o s'].
  injection E as -> E. cbn iota in H.
  destruct H as (bs & ws & msgs & evs & out & pend' & closed & Hg & _ & _ & _ & _ & _ & _ &
    _ & _ & Hp).
  destruct Hp as [Hp _]; [by apply (bool_decide_unpack _); vm_compute|].
  split_and!; [done|done|]. by rewrite Hg.
Defined.

(** A handler that polls again, and throws in the end. *)
Definition nosy (m : notice) : prog unit :=
  match m with
  | on_text _ => Poll 2 (λ _, SendText (str "seen") (λ _, Raise (runtime_error "enough")))
  | _ => Return
  end.

Lemma frames_delivered_once_witness :
  match poll nosy 3 4 (some_client, three_frames) with
  | (Throw _, s') => length (calls (fst s')) = 2 ∧
      ∃ fs, follows fs (calls (fst s'))
  | _ => False
  end.
Proof.
  assert (∀ m, modest false true 400 (nosy m)) as Hm.
  { intros []; try done. cbn [nosy modest]. intros _.
    split; [split; [by apply (bool_decide_unpack _)|done]|done]. }
  pose proof (frames_delivered_once nosy 3 4 [] (some_client, three_frames)
    ltac:(done) ltac:(by vm_compute) Hm ltac:(done) some_factory_wf
    (Forall_nil_2 _) ltac:(by apply new_represents)) as H.
  assert ((let '(o, s') := poll nosy 3 4 (some_client, three_frames) in
    (o, length (calls (fst s')))) = (Throw (runtime_error "enough"), 2)) as E by (by vm_compute).
  destruct (poll nosy 3 4 (some_client, three_frames)) as [o s'].
  injection E as -> E. cbn iota in H.
  destruct H as (bs & ws & fs & pend' & evs & _ & _ & _ & _ & Hc & Hf).
  split; [done|]. exists fs. by rewrite Hc.
Defined.

(** The handler of example.cpp, which closes the connection when its greeting
    comes back, polled twice. *)
Definition example : notice → prog unit := example_handler (λ _ h, h).

Definition poll_4 : prog unit := Poll 4 (andthen Return).

Lemma example_modest {Hst} (cout : string → Hst → Hst) m :
  modest true true 400 (example_handler cout m).
Proof.
  destruct m; try done; cbn [example_handler print_frame println modest].
  - intros _. split; [split; [by apply (bool_decide_unpack _)|done]|]. split; [done|].
    by intros [].
  - split; [done|]. intros _ _. split; [done|]. intros payload. case_bool_decide; [|done].
    cbn [modest]. split; [done|]. split; [by apply (bool_decide_unpack _)|]. by intros [].
Qed.

Lemma poll_4_modest : modest true false 400 poll_4.
Proof. by intros []. Qed.

Definition greeting_returns : Sys world :=
  scripted [from_server 1 (str "Hello, World!"); []; from_server 9 (str "late"); from_server 8 []].

#[local] Abbreviation example_run :=
  (run_prog (callback example 2) no_view poll_4 (some_client, greeting_returns)).

(** The trace has the frame, its call, the CLOSE of the handler, the PING it
    ignores while it waits, the server's CLOSE and its report. *)
Lemma client_refines_endpoint_witness :
  match example_run with
  | (Ok _, s') => length (calls (fst s')) = 2 ∧ ∃ tr pend',
      steps (At Idle [] (true, HEALTHY)) tr (At Idle pend' (link s')) ∧
      put_of s' = emitted tr ∧ calls (fst s') = called tr
  | _ => False
  end.
Proof.
  pose proof (client_refines_endpoint example poll_4 2 [] (some_client, greeting_returns)
    ltac:(done) ltac:(by vm_compute) (example_modest _) poll_4_modest ltac:(done) some_factory_wf
    (Forall_nil_2 _) ltac:(by apply new_represents)) as H.
  assert ((let '(o, s') := example_run in (o, length (calls (fst s')))) = (Ok tt, 2)) as E
    by (by vm_compute).
  destruct example_run as [o s']. injection E as -> E. cbn iota in H.
  destruct H as (tr & pend' & Ht & _ & _ & Hp & Hc). split; [done|]. by exists tr, pend'.
Defined.

Lemma calls_and_answers_accounted_witness :
  match example_run with
  | (Ok _, s') => ∃ fs ms, accounts fs (calls (fst s')) ms ∧
      filter is_closed (calls (fst s')) = [on_close true]
  | _ => False
  end.
Proof.
  pose proof (calls_and_answers_accounted example poll_4 2 [] (some_client, greeting_returns)
    ltac:(done) ltac:(by vm_compute) (example_modest _) poll_4_modest ltac:(done) some_factory_wf
    (Forall_nil_2 _) ltac:(by apply new_represents)) as H.
  assert ((let '(o, s') := example_run in (o, filter is_closed (calls (fst s'))))
    = (Ok tt, [on_close true])) as E by (by vm_compute).
  destruct example_run as [o s']. injection E as -> E. cbn iota in H.
  destruct H as (bs & used & pend' & fs & evs & sayings & _ & _ & _ & _ & Hc & _ & _ & Ha).
  exists fs, (map fst sayings). split; [|done]. rewrite Hc. exact Ha.
Defined.

(** One level is too little for a handler that polls; three are enough. *)
Lemma nesting_bounded_witness :
  fst (run_prog (callback nosy 1) no_view poll_4 (some_client, three_frames)) = OutOfFuel ∧
  (∃ bs, got_of (snd (run_prog (callback nosy 1) no_view poll_4 (some_client, three_frames)))
         = bs ∧ 2 ≤ length bs) ∧
  (∀ depth', 3 ≤ depth' →
    fst (run_prog (callback nosy depth') no_view poll_4 (some_client, three_frames))
    = Throw (runtime_error "enough")).
Proof.
  assert (∀ m, modest true true 400 (nosy m)) as Hm.
  { intros []; try done. cbn [nosy modest]. intros _.
    split; [split; [by apply (bool_decide_unpack _)|done]|done]. }
  pose proof (λ d, nesting_bounded nosy poll_4 d [] (some_client, three_frames)
    ltac:(done) ltac:(by vm_compute) Hm poll_4_modest ltac:(done) some_factory_wf
    (Forall_nil_2 _) ltac:(by apply new_represents)) as H.
  assert (fst (run_prog (callback nosy 1) no_view poll_4 (some_client, three_frames)) = OutOfFuel)
    as E1 by (by vm_compute).
  assert (fst (run_prog (callback nosy 3) no_view poll_4 (some_client, three_frames))
    = Throw (runtime_error "enough")) as E3 by (by vm_compute).
  pose proof (H 1) as Hone. pose proof (H 3) as Hthree. clear H.
  destruct (run_prog (callback nosy 1) _ _ _) as [o1 s1]. cbn [fst snd] in E1 |- *. subst o1.
  destruct (run_prog (callback nosy 3) _ _ _) as [o3 s3]. cbn [fst] in E3. subst o3.
  split; [done|]. split.
  - destruct Hone as (bs & Hg & Hl). exists bs. split; [exact Hg|cbn in Hl; lia].
  - intros d Hd. by rewrite (Hthree d Hd).
Defined.

End Delivery.
