(* ===== verification/Session.v ===== *)
(** Whole programs on the wire: [main] from the constructor to the destructor,
    as one statement on the bytes received and sent, for the plain loop of
    ping.cpp and the interruptible one of coinbase.cpp. *)

From S2P Require Import Prelude Buffer Rfc6455 Frames Factory Parser ParserSpec Sys World Sockets SocketSpec SocketProps SocketStream Handshake Client ClientSpec ClientWire Programs ClientProps.
Import WSClient.

Section Wire.
Context {Hst St W : Type} `{Target, OS W, Entropy W, !SocketType St W, !SocketStream St W}.
Context (Hhard : hardened = false) (Hlimit : (139 < send_limit)%Z).
Context (handler : notice → prog Hst).
Context (Hhandler : ∀ m, straight send_limit (handler m)).

Local Notation "'state'" := (@state Hst St W).

(** ** The polling loop *)

(** One more poll at the end. *)
Lemma spec_polls_snoc h ws evs msgs h1 ws' evs' msgs' h' closed ping :
  spec_polls handler h ws evs msgs h1 false → spec_run handler h1 ws' evs' msgs' h' closed →
  (closed = true → ping = false) →
  spec_polls handler h (ws ++ ws') (evs ++ evs')
    (msgs ++ msgs' ++ if ping : bool then [(Opcode.PING, [])] else []) h' closed.
Proof.
  intros Hp Hr Hc. remember false as b eqn:Hb in Hp.
  induction Hp as [h|h ws evs msgs h1 Hrun|h ws evs msgs h0 ws0 evs0 msgs0 h1 p b Hrun Hp IH];
    [|done|].
  - cbn [app]. destruct closed.
    + rewrite (Hc eq_refl), app_nil_r. by constructor.
    + pose proof (polls_cons _ _ _ _ _ _ [] [] [] h' ping false Hr (polls_nil _ _)) as Hq.
      by rewrite !app_nil_r in Hq.
  - specialize (IH Hb Hr). rewrite <-!app_assoc.
    by eapply polls_cons.
Qed.

(** From [s], with [pend] pending, to [s'], by polls: as [looped], with what
    the next poll starts from. *)
Definition wound (pend : list Z) (s : state) (closed : bool) (s' : state) : Prop :=
  ∃ bs ws msgs evs pend',
    went s s' bs msgs evs ∧ started s' ∧ represents (m_parser (fst s')) pend' ∧
    bytes_ok pend' ∧
    Rfc6455.decode_all code_len64 (pend ++ bs)
    = (ws ++ fst (Rfc6455.decode_all code_len64 pend'),
       snd (Rfc6455.decode_all code_len64 pend')) ∧
    spec_polls handler (m_handler (fst s)) ws evs msgs (m_handler (fst s')) closed.

Lemma wound_nothing pend (s : state) :
  started s → FrameFactory.wf (m_factory (fst s)) → bytes_ok pend →
  represents (m_parser (fst s)) pend → wound pend s false s.
Proof.
  intros Hs Hf Hb Hr. exists [], [], [], [], pend. rewrite app_nil_r.
  split_and!; [by apply went_refl|done|done|done| |constructor].
  by destruct (Rfc6455.decode_all code_len64 pend).
Qed.

(** What one poll contributes, which leaves [pend'] pending. *)
Definition wound_once (pend pend' : list Z) (s : state) (closed : bool) (s' : state) :
    Prop :=
  ∃ bs ws msgs evs ping,
    went s s' bs (msgs ++ if ping : bool then [(Opcode.PING, [])] else []) evs ∧
    started s' ∧ represents (m_parser (fst s')) pend' ∧ bytes_ok pend' ∧
    Rfc6455.decode_all code_len64 (pend ++ bs)
    = (ws ++ fst (Rfc6455.decode_all code_len64 pend'),
       snd (Rfc6455.decode_all code_len64 pend')) ∧
    spec_run handler (m_handler (fst s)) ws evs msgs (m_handler (fst s')) closed ∧
    (closed = true → ping = false).

Lemma poll_wound depth max_reads pend (s : state) :
  started s → FrameFactory.wf (m_factory (fst s)) → bytes_ok pend →
  represents (m_parser (fst s)) pend →
  returns (poll handler (S depth) max_reads) s (λ st s', ∃ closed pend',
    wound_once pend pend' s closed s' ∧ st = snd (link s') ∧
    if closed : bool then link s' = (false, CLOSED_BY_SERVER)
    else link s' = link s ∨ link s' = (false, PING_TIMED_OUT)).
Proof.
  intros Hs Hf Hb Hr. eapply ends_mono; [by apply one_poll|..|done].
  intros st s' (bs & ws & msgs & evs & pend1 & closed & ping & Hw & _ & Hs1 & Hr1 & Hb1 &
    Hd & Hrun & Hc & _ & Hst1 & Hl).
  exists closed, pend1. split_and!; [|done|done]. exists bs, ws, msgs, evs, ping.
  split_and!; try done. intros Ht. by destruct (Hc Ht).
Qed.

Lemma wound_cons pend pend1 (s s1 s' : state) closed :
  wound_once pend pend1 s false s1 → wound pend1 s1 closed s' → wound pend s closed s'.
Proof.
  intros (bs & ws & msgs & evs & ping & Hw & Hs1 & Hr1 & Hb1 & Hd & Hrun & _)
    (bs' & ws' & msgs' & evs' & pend' & Hw' & Hs' & Hr' & Hb' & Hd' & Hrun').
  exists (bs ++ bs'), (ws ++ ws'),
    (msgs ++ (if ping : bool then [(Opcode.PING, [])] else []) ++ msgs'), (evs ++ evs'), pend'.
  split_and!; try done.
  - pose proof (went_trans _ _ _ _ _ _ _ _ _ Hw Hw') as Hw2. by rewrite <-app_assoc in Hw2.
  - rewrite app_assoc, (decode_all_extend _ _ _ _ Hd), Hd'. cbn [fst snd].
    by rewrite app_assoc.
  - by eapply polls_cons.
Qed.

Lemma wound_last pend pend1 (s s' : state) closed :
  wound_once pend pend1 s closed s' → wound pend s closed s'.
Proof.
  intros Hw. pose proof Hw as (bs & ws & msgs & evs & ping & Hwent & Hs1 & Hr1 & Hb1 & Hd &
    Hrun & Hp). destruct closed.
  - rewrite (Hp eq_refl), app_nil_r in Hwent. exists bs, ws, msgs, evs, pend1.
    split_and!; try done. by constructor.
  - eapply wound_cons; [exact Hw|]. apply wound_nothing; [done|by destruct Hwent|done..].
Qed.

(** How the loop ended, and the connection then. *)
Definition loop_link (how : stopped) (closed : bool) (s' : state) : Prop :=
  match how with
  | Broke => link s' = (false, if closed then CLOSED_BY_SERVER else PING_TIMED_OUT)
  | _ => closed = false ∧ link s' = (true, HEALTHY)
  end.

Lemma poll_while_returns depth readings pend (s : state) :
  started s → FrameFactory.wf (m_factory (fst s)) → bytes_ok pend →
  represents (m_parser (fst s)) pend → link s = (true, HEALTHY) →
  returns (poll_while handler (S depth) readings) s (λ how s', ∃ closed,
    wound pend s closed s' ∧ loop_link how closed s').
Proof.
  revert pend s. induction readings as [|[] readings IH]; intros pend s Hs Hf Hb Hr Hl;
    cbn [poll_while].
  - exists false. by split; [apply wound_nothing|].
  - apply ends_bind. eapply ends_mono; [by apply poll_wound|..|done].
    intros st s1 (closed & pend1 & Hw & -> & Hl1).
    destruct closed; [|destruct Hl1 as [Hl1|Hl1]]; rewrite Hl1; cbn [snd].
    + exists true. by split; [eapply wound_last|].
    + rewrite Hl. cbn [snd]. rewrite bool_decide_eq_false_2 by (by intros []).
      pose proof Hw as (bs & ws & msgs & evs & ping & Hwent & Hs1 & Hr1 & Hb1 & _).
      eapply ends_mono;
        [apply (IH pend1); [done|by destruct Hwent|done|done|congruence]|..|done].
      intros how s' (closed & Hw' & Hlk). exists closed. split; [|done].
      by eapply wound_cons.
    + exists false. by split; [eapply wound_last|].
  - exists false. by split; [apply wound_nothing|].
Qed.

(** ** Closing at the end *)

(** The destructor of a client whose loop has ended: nothing if the connection
    is closed, and otherwise everything [close] does, whose poll is one more
    poll of the loop. *)
Definition finished (pend : list Z) (s s' : state) : Prop :=
  ∃ closed s2 success,
    wound pend s closed s2 ∧ closed_from handler 100 s2 success s'.

Lemma wound_snoc pend (s s1 : state) :
  wound pend s false s1 → ∃ pend1, started s1 ∧ FrameFactory.wf (m_factory (fst s1)) ∧
    bytes_ok pend1 ∧ represents (m_parser (fst s1)) pend1 ∧
    ∀ closed pend2 s2, wound_once pend1 pend2 s1 closed s2 → wound pend s closed s2.
Proof.
  intros (bs & ws & msgs & evs & pend1 & Hw & Hs1 & Hr1 & Hb1 & Hd & Hrun).
  exists pend1. split_and!; [done|by destruct Hw|done|done|].
  intros closed pend2 s2 (bs2 & ws2 & msgs2 & evs2 & ping & Hw2 & Hs2 & Hr2 & Hb2 & Hd2 &
    Hrun2 & Hp).
  exists (bs ++ bs2), (ws ++ ws2),
    (msgs ++ msgs2 ++ if ping : bool then [(Opcode.PING, [])] else []), (evs ++ evs2), pend2.
  split_and!; try done.
  - by apply (went_trans _ _ _ _ _ _ _ _ _ Hw Hw2).
  - rewrite app_assoc, (decode_all_extend _ _ _ _ Hd), Hd2. cbn [fst snd].
    by rewrite app_assoc.
  - by eapply spec_polls_snoc.
Qed.

(** [s'] is [s] with the socket destroyed. *)
Definition socket_gone (s s' : state) : Prop :=
  m_handler (fst s') = m_handler (fst s) ∧ calls (fst s') = calls (fst s) ∧
  st_destroy (m_socket (fst s), snd s) = (Ok tt, (m_socket (fst s'), snd s')).

Lemma destroy_socket_returns (s : state) :
  returns (on_socket st_destroy;; mret Destroyed) s (λ e s',
    e = Destroyed ∧ socket_gone s s').
Proof.
  destruct s as [c y]. apply ends_bind, ends_zoom, runs_ends. cbn [fst snd].
  destruct (stream_destroy (m_socket c) y) as ([] & [x y'] & Hd & _).
  exists tt, (x, y'). split; [done|]. by unfold mret, M_ret, ends.
Qed.

Lemma destroy_closed_returns depth (s : state) :
  m_connection_open (fst s) = false →
  returns (destroy handler depth) s (λ e s', e = Destroyed ∧ socket_gone s s').
Proof.
  intros Ho. apply ends_bind, ends_catching. eapply ends_eq; [|apply destroy_socket_returns].
  unfold close, close_with. destruct s as [c y]. rewrite (bind_ok _ _ _ c (c, y)) by done.
  cbn [fst] in Ho. by rewrite Ho.
Qed.

Lemma destroy_open_returns depth pend (s s1 : state) :
  wound pend s false s1 → link s1 = (true, HEALTHY) →
  returns (destroy handler (S depth)) s1 (λ e s',
    e = Destroyed → ∃ s2, finished pend s s2 ∧ socket_gone s2 s').
Proof.
  intros Hw Hl. destruct (wound_snoc _ _ _ Hw) as (pend1 & Hs1 & Hf1 & Hb1 & Hr1 & Hsnoc).
  assert (m_connection_open (fst s1) = true) as Ho by (by injection Hl).
  apply ends_bind, ends_catching.
  pose proof (poll_wound depth 4 pend1 s1 Hs1 Hf1 Hb1 Hr1) as Hp.
  eapply ends_mono; [by apply (close_returns Hhard Hlimit handler Hhandler depth 10 pend1)|..].
  2: { intros s2 _ e. by unfold mret, M_ret, ends. }
  intros success s2 (st & s3 & Hpoll & Hc).
  unfold returns, ends in Hp. rewrite Hpoll in Hp.
  destruct Hp as (closed & pend2 & Hw2 & _).
  eapply ends_mono; [apply destroy_socket_returns|..|done].
  intros e s' [-> Hg] _. exists s2. split; [|done]. exists closed, s3, success.
  split; [by eapply Hsnoc|done].
Qed.

(** The loop and the end of the scope. *)
Definition client_ran (pend : list Z) (s : state) (how : stopped) (s' : state) : Prop :=
  match how with
  | Broke => ∃ closed s1, wound pend s closed s1 ∧
      link s1 = (false, if closed then CLOSED_BY_SERVER else PING_TIMED_OUT) ∧
      socket_gone s1 s'
  | Interrupted => ∃ s1, finished pend s s1 ∧ socket_gone s1 s'
  | Running => wound pend s false s' ∧ link s' = (true, HEALTHY)
  end.

Lemma run_client_returns depth readings pend (s : state) :
  started s → FrameFactory.wf (m_factory (fst s)) → bytes_ok pend →
  represents (m_parser (fst s)) pend → link s = (true, HEALTHY) →
  returns (run_client handler (S depth) readings) s (client_ran pend s).
Proof.
  intros Hs Hf Hb Hr Hl. apply ends_bind.
  eapply ends_mono; [by apply (poll_while_returns depth readings pend)|..|done].
  intros [] s1 (closed & Hw & Hlk); cbn [loop_link] in Hlk.
  - apply ends_bind. eapply ends_mono; [apply destroy_closed_returns; by injection Hlk|..|done].
    intros e s' [-> Hg]. unfold mret, M_ret, ends. by exists closed, s1.
  - destruct Hlk as [-> Hlk]. apply ends_bind.
    eapply ends_mono; [by apply (destroy_open_returns depth pend s)|..|done].
    intros [|e] s' Hd; [|done]. destruct (Hd eq_refl) as (s2 & ? & ?). by exists s2.
  - destruct Hlk as [-> Hlk]. by unfold mret, M_ret, ends.
Qed.

(** ** The constructor *)

(** Opening the socket changes the socket member only. *)
Lemma open_socket_frame (c : t Hst St) (y : Sys W) :
  let '(_, (c', _)) := open_socket (c, y) in c' = set_socket (m_socket c') c.
Proof.
  unfold open_socket. rewrite (bind_ok _ _ _ c (c, y)) by done.
  unfold on_sys, on_socket, on_local, zoom, mbind, M_bind. cbn [fst snd].
  destruct (st_construct _ _ y) as [[tmp|e|u|] y1]; try (by destruct c).
  cbn [fst snd]. destruct (st_move_assign tmp _) as [[rest|e|u|] [x y2]]; try done.
  cbn [fst snd]. by destruct (st_destroy _) as [o [x' y3]].
Qed.

(** From the connected socket ([s1]) to the end of the constructor's body. *)
Definition started_up (s1 s' : state) : Prop :=
  ∃ response msgs out,
    got_of s' = got_of s1 ++ response ∧ contains (str "HTTP/1.1 101") response = true ∧
    put_of s' = put_of s1 ++ request_of (fst s1) (handshake_key (env (snd s1))) ++ out ∧
    carries out (msgs ++ [(Opcode.PING, [])]) ∧
    calls (fst s') = calls (fst s1) ++ [on_open] ∧
    answers handler on_open (m_handler (fst s1)) = Some (msgs, m_handler (fst s')) ∧
    m_parser (fst s') = m_parser (fst s1) ∧ link s' = (true, HEALTHY) ∧
    started s' ∧ FrameFactory.wf (m_factory (fst s')).

(** The parameters the session depends on: random numbers are no business of
    the connection, opening a socket ends, the request fits. *)
Record connectable (c : t Hst St) : Prop := {
  conn_silent : entropy_silent (St:=St) (W:=W);
  conn_opens : ∀ s : state, returns open_socket s (λ _ _, True);
  conn_fits : ∀ w : W,
    (Z.of_nat (length (request_of c (handshake_key w))) < send_limit)%Z
}.

Lemma start_up_returns depth timeout (s : state) :
  connectable (fst s) → int10 timeout → FrameFactory.wf (m_factory (fst s)) →
  returns (start_up handler (S depth) timeout) s (λ _ s', ∃ s1,
    open_socket s = (Ok tt, s1) ∧ fst s1 = set_socket (m_socket (fst s1)) (fst s) ∧
    started_up s1 s').
Proof.
  intros [He Ho Hfit] Ht Hf. apply ends_bind. destruct s as [c y]. cbn [fst] in *.
  pose proof (Ho (c, y)) as Hopen. pose proof (open_socket_frame c y) as Hframe.
  unfold returns, ends in Hopen.
  destruct (open_socket (c, y)) as [[[]|e|u|] [c1 y1]] eqn:Hos; try done.
  2: { unfold ends, connect. by rewrite (bind_throw _ _ _ _ _ Hos). }
  assert (request_of c1 = request_of c) as Hreq by (by rewrite Hframe).
  eapply ends_mono; [apply (connect_returns Hhard handler depth timeout (c, y)
    (c1, y1) (Hhandler on_open)); [done|done|done|by rewrite Hframe|cbn [fst]; by rewrite Hreq]|..|done].
  intros ok s2 (response & msgs & out & Hf2 & Hg & Hok & Hp & Hca & Hpar & Hl & Hcase).
  destruct ok; cbn [negb]; [|done]. destruct Hcase as [Hcalls Hsay].
  apply ends_bind. destruct s2 as [c2 y2]. eapply ends_eq; [reflexivity|].
  apply ends_bind. eapply ends_mono; [by apply start_returns|..|done].
  intros [] s3 (Hw3 & Hl3 & Hp3 & Hh3 & Hs3).
  eapply ends_mono; [apply send_ping_returns; [done|done|constructor|by destruct Hw3]|..|done].
  intros [] s4 (_ & Hw4 & (Hl4 & Hp4 & _) & Hh4).
  pose proof (went_trans _ _ _ [] [] [] [_] [] [] Hw3 Hw4)
    as [Hg5 (out5 & Hp5 & Hc5) Hca5 Hf5 _].
  exists (c1, y1). split; [done|]. split; [done|].
  exists response, msgs, (out ++ out5).
  unfold got_of, put_of in *. cbn [fst snd m_socket set_waiting_for_ping calls] in *.
  rewrite !app_nil_r in *. split_and!; try done.
  - by rewrite Hg5.
  - rewrite Hp5, Hp. by rewrite <-!app_assoc.
  - by apply carries_app.
  - by rewrite Hca5.
  - by rewrite Hh4, Hh3.
  - by rewrite Hp4, Hp3.
  - by rewrite Hl4, Hl3.
  - by apply (went_started _ _ _ _ _ Hw4).
Qed.

Lemma device_random_returns (s : Hst * Sys W) :
  returns (device_random : M (Hst * Sys W) Z) s (λ z s', (0 ≤ z < 2 ^ 64)%Z ∧ fst s' = fst s).
Proof.
  destruct s as [h y]. unfold device_random, call, mbind, M_bind, returns, ends, mret, M_ret.
  destruct (next_u64 (env y)) as [z w]. split; [apply u64_bound|done].
Qed.

(** The constructor, from what its body does to the members. *)
Lemma construct_starts depth host path port extra_headers timeout ping_frequency
    ping_timeout junk (h : Hst) (y : Sys W) (P : FrameFactory.t → Sys W → state → Prop) :
  (∀ f y2, FrameFactory.wf f →
     returns (start_up handler depth timeout)
       (initial h host path port extra_headers ping_frequency ping_timeout junk f, y2)
       (λ _, P f y2)) →
  returns (construct handler depth host path port extra_headers timeout
             ping_frequency ping_timeout junk) (h, y) (λ c s', ∃ factory y2,
    P factory y2 (c, snd s') ∧ m_handler c = fst s').
Proof.
  intros Hstart. unfold construct. apply ends_bind.
  eapply ends_mono; [apply device_random_returns|..|done]. intros seed1 s1 [H1' Hh1].
  apply ends_bind. eapply ends_mono; [apply device_random_returns|..|done].
  intros seed2 [h2 y2] [H2' Hh2]. cbn [fst] in *.
  destruct (FrameFactory.new_factory_runs 4096 seed1 seed2 H1' H2') as (f & -> & Hf).
  assert (h2 = h) as -> by congruence. specialize (Hstart f y2 Hf).
  unfold constructed, ends. unfold returns, ends in Hstart.
  destruct (start_up _ _ _ _) as [[u|e|u|] [c y']]; try done.
  - by exists f, y2.
  - by destruct (st_destroy _) as [? [? ?]].
Qed.

Lemma construct_returns depth host path port extra_headers timeout ping_frequency
    ping_timeout junk (h : Hst) (y : Sys W) :
  (∀ factory, connectable (initial h host path port extra_headers ping_frequency
     ping_timeout junk factory)) → int10 timeout →
  returns (construct handler (S depth) host path port extra_headers timeout
             ping_frequency ping_timeout junk) (h, y) (λ c s', ∃ factory y0 s1,
    open_socket (initial h host path port extra_headers ping_frequency ping_timeout
                   junk factory, y0) = (Ok tt, s1) ∧
    fst s1 = set_socket (m_socket (fst s1))
      (initial h host path port extra_headers ping_frequency ping_timeout junk factory) ∧
    started_up s1 (c, snd s') ∧ m_handler c = fst s').
Proof.
  intros Hc Ht. eapply ends_mono; [eapply construct_starts|..|done]; cbn beta.
  - intros f y2 Hf. apply start_up_returns; [apply Hc|done|done].
  - intros c s' (f & y2 & (s1 & Hos & Hfr & Hup) & Hh). by exists f, y2, s1.
Qed.
End Wire.

Module Session.

Section Properties.
Context {Hst St W : Type} `{Target, OS W, Entropy W, !SocketType St W, !SocketStream St W}.

(** The client of a program before its constructor's body runs. *)
Definition members (p : program Hst) (h : Hst) (junk : Frame.t string_view)
    (factory : FrameFactory.t) : t Hst St :=
  initial h (p_host p) (p_path p) (p_port p) "" 60 10 junk factory.

(** What was said on the wire between [s1], the client with its socket
    connected, and [s2]: the request and the response; [on_open]'s messages and
    the first PING; the protocol of the polls on the frames [ws] received, up
    to a CLOSE if [closed]. *)
Definition spoke (p : program Hst) (s1 : @state Hst St W) (closed : bool) (s2 : state) : Prop :=
  ∃ response msgs0 h0 bs ws evs msgs pend out,
    got_of s2 = got_of s1 ++ response ++ bs ∧
    contains (str "HTTP/1.1 101") response = true ∧
    put_of s2 = put_of s1 ++ request_of (fst s1) (handshake_key (env (snd s1))) ++ out ∧
    carries out (msgs0 ++ (Opcode.PING, []) :: msgs) ∧
    answers (p_handler p) on_open (m_handler (fst s1)) = Some (msgs0, h0) ∧
    spec_polls (p_handler p) h0 ws evs msgs (m_handler (fst s2)) closed ∧
    calls (fst s2) = on_open :: evs ∧
    Rfc6455.decode_all code_len64 bs
    = (ws ++ fst (Rfc6455.decode_all code_len64 pend),
       snd (Rfc6455.decode_all code_len64 pend)).

Lemma started_wound_spoke (p : program Hst) (s1 s0 s2 : state) closed :
  calls (fst s1) = [] → started_up (p_handler p) s1 s0 →
  wound (p_handler p) [] s0 closed s2 → spoke p s1 closed s2.
Proof.
  intros Hn (response & msgs0 & out0 & Hg0 & Hok & Hp0 & Hc0 & Hca0 & Hsay & _)
    (bs & ws & msgs & evs & pend & [Hg (out & Hp & Ho) Hca _ _] & _ & _ & _ & Hd & Hrun).
  exists response, msgs0, (m_handler (fst s0)), bs, ws, evs, msgs, pend, (out0 ++ out).
  split_and!; try done.
  - by rewrite Hg, Hg0, app_assoc.
  - by rewrite Hp, Hp0, <-!app_assoc.
  - replace (msgs0 ++ (Opcode.PING, []) :: msgs) with ((msgs0 ++ [(Opcode.PING, [])]) ++ msgs)
      by (by rewrite <-app_assoc). by apply carries_app.
  - by rewrite Hca, Hca0, Hn.
Qed.

(** C15: a program with a straight handler - its methods send, letting
    exceptions through, update their own state and may throw, but do not poll,
    close or ask the client for anything -, like ping.cpp and coinbase.cpp, from
    its first to its last statement, on the wire. (example.cpp, whose handler closes the connection,
    is not one of them: its loop also ends after that close; the traces of
    Lifetime are about it.) [s1] is the client when its socket is
    connected, [s2] when the loop has made its last poll (in the destructor, if a
    signal ended the loop). What was sent in between is exactly: the opening
    request; the messages of [on_open] and the first PING; then the protocol of
    the polls. What was received is the response, which contains the accepting
    status line, and then the frames that the handler and the client handled by
    the protocol, each once and in order, and what is left over. The loop of such
    a program ends by itself only when the server closed the connection or a
    ping timed out, and then nothing more is sent; after a signal the destructor
    closes the connection by the closing protocol. Running [main] of such a
    program never does anything undefined and keeps within its bounds. *)
Theorem main_implements_protocol (p : program Hst) (depth : nat) (readings : list bool)
    (junk : Frame.t string_view) (h : Hst) (y : Sys W) :
  hardened = false → (139 < send_limit)%Z →
  (∀ m, straight send_limit (p_handler p m)) →
  (∀ factory, connectable (members p h junk factory)) →
  length (Frame.masking_key junk) = 4 →
  match main (St:=St) (S depth) readings junk p (h, y) with
  | (Ok how, (h', y')) => ∃ factory y0 (s1 s2 s' : state) closed,
      open_socket (members p h junk factory, y0) = (Ok tt, s1) ∧
      spoke p s1 closed s2 ∧
      match how with
      | Broke =>
          m_status (fst s2) = (if closed then CLOSED_BY_SERVER else PING_TIMED_OUT) ∧
          socket_gone s2 s'
      | Interrupted => ∃ success s3,
          closed_from (p_handler p) 100 s2 success s3 ∧ socket_gone s3 s'
      | Running => closed = false ∧ m_status (fst s2) = HEALTHY ∧ s' = s2
      end ∧
      h' = m_handler (fst s') ∧ y' = snd s'
  | (Throw _, _) => True
  | _ => False
  end.
Proof.
  intros Hhard Hlim Hh Hc Hj. unfold main, owning.
  pose proof (construct_returns Hhard Hlim (p_handler p) Hh depth (p_host p) (p_path p)
    (p_port p) "" 10 60 10 junk h y Hc ltac:(by apply (bool_decide_unpack _))) as Hcon.
  unfold returns, ends in Hcon.
  destruct (construct _ _ _ _ _ _ _ _ _ _ (h, y)) as [[c|e|u|] s0]; try done.
  destruct Hcon as (factory & y0 & s1 & Hos & Hfr & Hup & Hh0).
  assert (∀ closed s2, wound (p_handler p) [] (c, snd s0) closed s2 → spoke p s1 closed s2)
    as Hspoke by (intros; eapply started_wound_spoke; [by rewrite Hfr|done..]).
  destruct Hup as (_ & _ & _ & _ & _ & _ & _ & _ & _ & Hpar & Hl & Hs & Hf).
  rewrite Hfr in Hpar. cbn [fst snd] in Hpar.
  assert (represents (m_parser c) []) as Hr by (rewrite Hpar; by apply new_represents).
  pose proof (run_client_returns Hhard Hlim (p_handler p) Hh depth readings []
    (c, snd s0) Hs Hf (Forall_nil_2 _) Hr Hl) as Hrun.
  unfold returns, ends in Hrun.
  destruct (run_client _ _ _ _) as [[how|e|u|] [c' y']]; try done.
  exists factory, y0, s1. destruct how; cbn [client_ran] in Hrun.
  - destruct Hrun as (closed & s2 & Hw & Hl2 & Hgone). exists s2, (c', y'), closed.
    injection Hl2 as _ Hst2. split_and!; auto.
  - destruct Hrun as (s3 & (closed & s2 & success & Hw & Hcl) & Hgone).
    exists s2, (c', y'), closed. split_and!; eauto.
  - destruct Hrun as [Hw Hl2]. exists (c', y'), (c', y'), false.
    injection Hl2 as _ Hst2. split_and!; auto.
Qed.
End Properties.

(** ** ping.cpp, run *)

#[local] Existing Instance masked_shift_target.
#[local] Instance tls : SocketType SSLSocketWrapper.t world := SSL_SocketType 400.
#[local] Instance tls_stream : SocketStream SSLSocketWrapper.t world := TLS_Stream 400.
#[local] Existing Instance HandshakeProps.counting_entropy.

(** The console, and ping.cpp writing to it. *)
Definition ping : program string := ping_program (λ line out, out +:+ line).

#[local] Instance bytes_ok_dec bs : Decision (bytes_ok bs).
Proof. unfold bytes_ok. apply _. Defined.

Lemma ping_straight m : straight 400 (p_handler ping m).
Proof.
  destruct m; try done. cbn [p_handler ping ping_program ping_handler println].
  cbn [straight]. intros h. split; [split; [by apply (bool_decide_unpack _)|done]|].
  by split.
Qed.

Lemma tls_connectable {Hst} (c : t Hst SSLSocketWrapper.t) :
  (∀ w : world, (Z.of_nat (length (request_of c (handshake_key w))) < send_limit)%Z) →
  connectable c.
Proof.
  intros Hfit. split; [by intros x w| |exact Hfit].
  clear c Hfit. intros [c y]. unfold returns, ends, open_socket.
  rewrite (bind_ok _ _ _ c (c, y)) by done.
  unfold on_sys, on_socket, on_local, zoom, mbind, M_bind. cbn [fst snd].
  assert (∃ tmp y1, st_construct (m_host c) (m_port c) y = (Ok tmp, y1)) as (tmp & y1 & ->).
  { do 2 eexists. cbn. reflexivity. }
  cbn [fst snd].
  assert (∃ rest x, st_move_assign tmp (m_socket c, y1) = (Ok rest, x)) as (rest & x & ->).
  { destruct (tls_disconnect_runs (m_socket c) y1) as ([] & [x y2] & Hd & _).
    do 2 eexists. cbn [st_move_assign tls SSL_SocketType].
    unfold SSLSocketWrapper.move_assign. rewrite (bind_ok _ _ _ _ _ Hd). reflexivity. }
  cbn [fst snd].
  by destruct (stream_destroy rest (snd x)) as ([] & [x3 y3] & -> & _).
Qed.

Lemma ping_connectable factory :
  connectable (members (St:=SSLSocketWrapper.t) ping "" FrameParser.empty_frame factory).
Proof. apply tls_connectable. intros w. by vm_compute. Qed.

(** The echo server answers the greeting, then closes. *)
Definition echo_session : Sys world :=
  scripted [ClientProps.accepting; ClientProps.from_server 1 (str "Hello, World!");
            ClientProps.from_server 8 []].

#[local] Abbreviation ping_run :=
  (main (St:=SSLSocketWrapper.t) 1 (replicate 5 true) FrameParser.empty_frame ping
    ("", echo_session)).

Lemma main_implements_protocol_witness :
  fst ping_run = Ok Broke ∧
  fst (snd ping_run)
  = "Connection Opened!" +:+ newline +:+
    " > text: [fin=1][Opcode::TEXT][mask=0][payload=" +:+ quoted "Hello, World!" +:+ "]" +:+
    newline +:+ "Connection Closed (success = 1)" +:+ newline ∧
  ∃ s1 s2 closed, spoke (St:=SSLSocketWrapper.t) ping s1 closed s2.
Proof.
  assert (fst ping_run = Ok Broke) as E1 by (by vm_compute).
  assert (fst (snd ping_run)
    = "Connection Opened!" +:+ newline +:+
      " > text: [fin=1][Opcode::TEXT][mask=0][payload=" +:+ quoted "Hello, World!" +:+ "]" +:+
      newline +:+ "Connection Closed (success = 1)" +:+ newline) as E2 by (by vm_compute).
  split; [exact E1|]. split; [exact E2|].
  pose proof (main_implements_protocol (St:=SSLSocketWrapper.t) ping 0 (replicate 5 true)
    FrameParser.empty_frame "" echo_session ltac:(done) ltac:(by vm_compute) ping_straight
    ping_connectable ltac:(done)) as Hm.
  clear E2.
  destruct (main _ _ _ _ _) as [o [h' y']]. cbn [fst] in E1. subst o.
  destruct Hm as (factory & y0 & s1 & s2 & s' & closed & _ & Hsp & _).
  by exists s1, s2, closed.
Defined.

(** coinbase.cpp, interrupted after two polls: it has subscribed; the
    destructor closes, and the server's answer ends the wait. *)
Fact coinbase_interrupted :
  let r := main (St:=SSLSocketWrapper.t) 1 [true; true; false] FrameParser.empty_frame
    (coinbase_program (λ line out, out +:+ line))
    ("", scripted [ClientProps.accepting; ClientProps.from_server 1 (str "tick"); []; []; [];
                   ClientProps.from_server 8 []]) in
  fst r = Ok Interrupted ∧
  fst (snd r)
  = "Connection Opened!" +:+ newline +:+
    " > text: [fin=1][Opcode::TEXT][mask=0][payload=" +:+ quoted "tick" +:+ "]" +:+
    newline +:+ "Connection Closed (success = 1)" +:+ newline.
Proof. by vm_compute. Qed.
End Session.
