(* ===== verification/Lifetime.v ===== *)
(** The life of a client, for every handler: from the constructor through any
    program of public calls to the destructor, what it receives, sends and
    reports is a trace of the abstract endpoint, after the handshake. *)

From S2P Require Import Prelude Buffer Rfc6455 Frames Factory Parser ParserSpec Sys World Sockets SocketSpec SocketProps SocketStream Handshake Client ClientSpec ClientWire Endpoint Refinement Programs Depth ClientProps Delivery Session.
Import WSClient Endpoint Refinement.

Module Lifetime.

Section Lifetime.
Context {Hst St W : Type} `{Target, OS W, Entropy W, !SocketType St W, !SocketStream St W}.
Context (Hhard : hardened = false) (Hlimit : (139 < send_limit)%Z).
Context (handler : notice → prog Hst).
Context (Hhandler : ∀ m, modest true true send_limit (handler m)).
Context (Hquiet : quiet (handler on_open)).

Local Notation "'state'" := (@state Hst St W).

Lemma ends_upto {A} (m : M state A) s (Q : A → state → Prop) :
  upto (λ _, False) m s Q (λ _, True) → returns m s Q.
Proof. unfold returns, ends, upto. by destruct (m s) as [[] ?]. Qed.

(** ** The handshake and [on_open] *)

(** The client when the connection is accepted, and the endpoint then. *)
Definition opened_from (s : state) : state :=
  (set_status HEALTHY (set_connection_open true (fst s)), snd s).

Definition opening : endpoint := At Opening [] (true, HEALTHY).

Lemma opened_hist (s : state) :
  FrameFactory.wf (m_factory (fst s)) → represents (m_parser (fst s)) [] →
  hist false (opened_from s) opening true 0 false Opening (opened_from s).
Proof.
  intros Hf Hr. split; [done|]. split; [done|]. exists [], [].
  split_and!; try done; [constructor|constructor|by rewrite app_nil_r..].
Qed.

(** A history that started when the connection was accepted. *)
Definition alive (timed : bool) (s0 s : state) : Prop :=
  hist timed s0 opening true 0 false Idle s.

Lemma on_open_alive depth (s : state) :
  FrameFactory.wf (m_factory (fst s)) → represents (m_parser (fst s)) [] →
  returns (callback handler (S depth) on_open empty_view) (opened_from s)
    (λ _, alive false (opened_from s)).
Proof.
  intros Hf Hr. apply ends_upto.
  apply upto_mono with (Q := λ _, alive false (opened_from s)) (E := alive false (opened_from s));
    [|done|done]. cbn [callback opened_from].
  apply upto_bind. eapply upto_eq; [reflexivity|].
  apply upto_bind. eapply upto_eq; [reflexivity|].
  eapply modest_hist; [done|by left|apply Hhandler| |done].
  eapply hist_call; [|intros; apply step_open]. by apply opened_hist.
Qed.

Lemma accept_alive depth response (s : state) :
  FrameFactory.wf (m_factory (fst s)) → represents (m_parser (fst s)) [] →
  returns (accept handler (S depth) response) s (λ ok s', ok = true →
    contains (str "HTTP/1.1 101") response = true ∧ alive false (opened_from s) s').
Proof.
  intros Hf Hr. destruct s as [c y]. unfold accept.
  apply ends_bind. eapply ends_eq; [reflexivity|].
  apply ends_bind. eapply ends_eq; [reflexivity|]. apply ends_bind.
  cbn [fst m_connection_open set_connection_open].
  destruct (contains (str "HTTP/1.1 101") response).
  - apply ends_bind. eapply ends_eq; [reflexivity|].
    eapply ends_mono; [by apply (on_open_alive depth (c, y))|..|done].
    intros [] s' Hs'. apply ends_bind. destruct s' as [c' y']. eapply ends_eq; [reflexivity|].
    unfold mret, M_ret, ends. by intros _.
  - eapply ends_eq; [reflexivity|]. apply ends_bind. by eapply ends_eq; [reflexivity|].
Qed.

(** The connection with the request sent and the response received, and the
    client from then on. *)
Definition shaken (s1 : state) (s' : state) : Prop :=
  ∃ response s3, requested s1 response s3 ∧
    contains (str "HTTP/1.1 101") response = true ∧ alive true (opened_from s3) s'.

Lemma started_alive s0 s : alive false s0 s → started s → alive true s0 s.
Proof. intros (_ & Hf & Hh) Hs. split; [by intros _|done]. Qed.

(** The end of the constructor: the timer is started and a PING is sent. *)
Lemma timer_alive s0 s :
  alive false s0 s →
  returns (update_self (set_waiting_for_ping true);; on_timer nanotimer.start;; send_ping []) s
    (λ _, alive true s0).
Proof.
  intros Hs. apply ends_bind. destruct s as [c y]. eapply ends_eq; [reflexivity|].
  assert (alive false s0 (set_waiting_for_ping true c, y)) as Hs1
    by (eapply hist_calm; [done|by pose proof Hs as (? & ? & _); split; rewrite ?app_nil_r]).
  apply ends_bind. pose proof Hs1 as (_ & Hf & _).
  pose proof (start_returns (set_waiting_for_ping true c, y) Hf) as Hst1.
  pose proof (calmly_hist (λ _, False) false s0 opening true 0 false Idle _
    (calmly_start _ _) _ Hs1) as Hal.
  unfold returns, ends, upto in *.
  destruct (on_timer nanotimer.start _) as [[[]|e|u|] s2]; try done.
  assert (alive true s0 s2) as Hs2 by (apply started_alive; [done|apply Hst1]).
  apply ends_upto. eapply upto_mono; [by apply (ping_hist Hhard Hlimit)|done|done].
Qed.

Lemma start_up_alive depth timeout (s : state) :
  connectable (fst s) → int10 timeout → FrameFactory.wf (m_factory (fst s)) →
  represents (m_parser (fst s)) [] →
  returns (start_up handler (S depth) timeout) s (λ _ s', ∃ s1,
    open_socket s = (Ok tt, s1) ∧ fst s1 = set_socket (m_socket (fst s1)) (fst s) ∧
    shaken s1 s').
Proof.
  intros [He Ho Hfit] Ht Hf Hr. apply ends_bind. destruct s as [c y]. cbn [fst] in *.
  pose proof (Ho (c, y)) as Hopen. pose proof (open_socket_frame c y) as Hframe.
  unfold returns, ends in Hopen.
  destruct (open_socket (c, y)) as [[[]|e|u|] [c1 y1]] eqn:Hos; try done.
  2: { unfold ends, connect. by rewrite (bind_throw _ _ _ _ _ Hos). }
  assert (request_of c1 = request_of c) as Hreq by (by rewrite Hframe).
  eapply ends_mono with (Q := λ ok s', ok = true → ∃ response s3,
    requested (c1, y1) response s3 ∧ contains (str "HTTP/1.1 101") response = true ∧
    alive false (opened_from s3) s'); [|..|done].
  { eapply connect_requests; [done|done|done|by rewrite Hframe|cbn [fst]; by rewrite Hreq|].
    intros response s3 Hreq3. pose proof Hreq3 as (Hf3 & _ & _ & _ & Hpar & _).
    eapply ends_mono; [apply accept_alive; [done|]|..|done].
    - rewrite Hpar. cbn [fst]. by rewrite Hframe.
    - intros ok s' Hok Ht'. destruct (Hok Ht'). by exists response, s3. }
  cbn beta. intros ok s2 Hok. destruct ok; cbn [negb]; [|done].
  destruct (Hok eq_refl) as (response & s3 & Hreq3 & Hacc & Halive).
  eapply ends_mono; [by apply timer_alive|..|done]. intros [] s' Hs'.
  exists (c1, y1). split; [done|]. split; [done|]. by exists response, s3.
Qed.

(** ** A program of public calls, and the destructor *)

Lemma alive_nests depth s0 :
  nests (λ _, True) true s0 opening true (callback handler depth) 0 false.
Proof.
  eapply (callback_nests Hhard Hlimit _ true s0 opening true (or_introl eq_refl) eq_refl
    handler Hhandler 0); [done|lia].
Qed.

Lemma prog_alive depth main s0 s :
  modest true false send_limit main → alive true s0 s →
  upto (λ _, True) (run_prog (callback handler depth) no_view main) s
    (λ _, alive true s0) (alive true s0).
Proof. intros Hm Hs. by eapply (modest_hist Hhard); [right; apply alive_nests|..]. Qed.

(** [s'] is [s], or [s] with its socket destroyed. *)
Definition gone (s s' : state) : Prop := s' = s ∨ socket_gone s s'.

Lemma destroy_alive depth s0 s :
  alive true s0 s →
  upto (λ _, True) (destroy handler depth) s (λ _ s', ∃ s1, alive true s0 s1 ∧ gone s1 s')
    (λ _, False).
Proof.
  intros Hs. unfold destroy. apply upto_bind, upto_catching.
  eapply upto_mono; [apply (alive_nests depth s0); [done|by apply (bool_decide_unpack _)|done]|..];
    cbn beta.
  - intros _ s1 Hs1. destruct s1 as [c y].
    destruct (stream_destroy (m_socket c) y) as ([] & [x y'] & Hd & _).
    apply upto_bind, upto_zoom. cbn [fst snd]. eapply upto_eq; [exact Hd|].
    exists (c, y). split; [done|]. right. by split_and!.
  - intros s1 Hs1 e. exists s1. by split; [|left].
Qed.

(** ** The whole life *)

Lemma work_alive depth main s0 s :
  modest true false send_limit main → alive true s0 s →
  upto (λ _, True)
    (_ ← catching (run_prog (callback handler depth) no_view main);
     _ ← destroy handler depth;
     c ← self; mret (calls c)) s
    (λ evs s', ∃ s1, alive true s0 s1 ∧ gone s1 s' ∧ evs = calls (fst s1)) (λ _, False).
Proof.
  intros Hm Hs. apply upto_bind, upto_catching.
  assert (∀ s1, alive true s0 s1 → upto (λ _, True)
    (_ ← destroy handler depth; c ← self; mret (calls c)) s1
    (λ evs s', ∃ s1, alive true s0 s1 ∧ gone s1 s' ∧ evs = calls (fst s1)) (λ _, False)) as Hrest.
  { intros s1 Hs1. apply upto_bind. eapply upto_mono; [by apply destroy_alive|..|done].
    cbn beta. intros _ s2 (s3 & Hs3 & Hg). apply upto_bind. destruct s2 as [c2 y2].
    eapply upto_eq; [reflexivity|]. exists s3. split_and!; [done|done|].
    destruct Hg as [Hg|(_ & Hc & _)]; [by rewrite <-Hg|exact Hc]. }
  eapply upto_mono; [by apply prog_alive|..]; cbn beta; [intros _ s1 Hs1|intros s1 Hs1 e];
    by apply Hrest.
Qed.

(** The loop of a program, and the end of its scope. *)
Lemma poll_while_alive depth readings s0 :
  holds (λ _, True) (alive true s0) (poll_while handler depth readings).
Proof.
  induction readings as [|[] readings IH]; cbn [poll_while]; [by intros s Hs| |by intros s Hs].
  apply holds_bind; [apply (alive_nests depth s0)|]. intros st.
  case_bool_decide; [by intros s Hs|done].
Qed.

Lemma run_client_alive depth readings s0 s :
  alive true s0 s →
  upto (λ _, True) (run_client handler depth readings) s
    (λ _ s', ∃ s1, alive true s0 s1 ∧ gone s1 s') (λ s', ∃ s1, alive true s0 s1 ∧ gone s1 s').
Proof.
  intros Hs. apply upto_bind. eapply upto_mono; [by apply poll_while_alive|..]; cbn beta.
  2: { intros s1 Hs1. exists s1. by split; [|left]. }
  assert (∀ (r : stopped) s1, alive true s0 s1 → upto (λ _, True)
    (e ← destroy handler depth; match e with Destroyed => mret r | Terminated e => throw e end) s1
    (λ _ s', ∃ s1, alive true s0 s1 ∧ gone s1 s') (λ s', ∃ s1, alive true s0 s1 ∧ gone s1 s'))
    as Hend.
  { intros r s1 Hs1. apply upto_bind. eapply upto_mono; [by apply destroy_alive|..|done].
    by intros [|e] s2 Hs2. }
  intros [] s1 Hs1; [by apply Hend..|]. exists s1. by split; [|left].
Qed.

Lemma construct_alive depth host path port extra_headers timeout frequency ping_timeout junk
    (h : Hst) (y : Sys W) :
  (∀ factory, connectable (St:=St) (initial h host path port extra_headers frequency
     ping_timeout junk factory)) → int10 timeout → length (Frame.masking_key junk) = 4 →
  returns (construct handler (S depth) host path port extra_headers timeout frequency
             ping_timeout junk) (h, y) (λ c s', ∃ factory y0 s1,
    open_socket (initial h host path port extra_headers frequency ping_timeout junk
                   factory, y0) = (Ok tt, s1) ∧
    fst s1 = set_socket (m_socket (fst s1)) (initial h host path port extra_headers frequency
               ping_timeout junk factory) ∧
    shaken s1 (c, snd s')).
Proof.
  intros Hc Ht Hj. eapply ends_mono; [eapply construct_starts|..|done]; cbn beta.
  - intros f y2 Hf. apply start_up_alive; [apply Hc|done|done|by apply new_represents].
  - intros c s' (f & y2 & (s1 & Hos & Hfr & Hup) & _). by exists f, y2, s1.
Qed.
(** From the client as it is initialised to the end of its life with the
    handler state [h'] and the outside [y']: after the handshake on the
    connected socket, the calls [evs] and everything received and sent are
    those of a trace, which begins by reporting the connection. *)
Definition traced (c0 : FrameFactory.t → t Hst St) (evs : list event) (h' : Hst) (y' : Sys W) :
    Prop :=
  ∃ factory y0 (s1 s' s'' : state) response tr pend,
    open_socket (c0 factory, y0) = (Ok tt, s1) ∧
    contains (str "HTTP/1.1 101") response = true ∧
    steps (At Opening [] (true, HEALTHY)) tr (At Idle pend (link s')) ∧
    got_of s' = got_of s1 ++ response ++ received tr ∧
    put_of s' = put_of s1 ++ request_of (fst s1) (handshake_key (env (snd s1))) ++ emitted tr ∧
    evs = called tr ∧ gone s' s'' ∧ h' = m_handler (fst s'') ∧ y' = snd s''.

Lemma alive_traced (c0 : FrameFactory.t → t Hst St) factory y0 (s1 s3 s' s'' : state) response :
  open_socket (c0 factory, y0) = (Ok tt, s1) →
  fst s1 = set_socket (m_socket (fst s1)) (c0 factory) → calls (c0 factory) = [] →
  requested s1 response s3 → contains (str "HTTP/1.1 101") response = true →
  alive true (opened_from s3) s' → gone s' s'' →
  traced c0 (calls (fst s')) (m_handler (fst s'')) (snd s'').
Proof.
  intros Hos Hfr Hn (_ & Hg3 & Hp3 & Hc3 & _) Hacc
    (_ & _ & tr & pend & Htr & _ & _ & _ & _ & _ & Hg & Hp & Hcl) Hgone.
  exists factory, y0, s1, s', s'', response, tr, pend.
  unfold got_of, put_of, opened_from in *.
  cbn [fst snd m_socket set_status set_connection_open calls] in *.
  split_and!; try done.
  - by rewrite Hg, Hg3, app_assoc.
  - by rewrite Hp, Hp3, <-!app_assoc.
  - rewrite Hfr in Hc3. cbn in Hc3. by rewrite Hcl, Hc3, Hn.
Qed.

(** The constructor, any program of public calls, the destructor: an exception
    is the constructor's. *)
Lemma session_alive depth host path port extra_headers timeout frequency ping_timeout junk main
    (h : Hst) (y : Sys W) :
  modest true false send_limit main →
  (∀ factory, connectable (St:=St) (initial h host path port extra_headers frequency
     ping_timeout junk factory)) → int10 timeout → length (Frame.masking_key junk) = 4 →
  match session handler (S depth) host path port extra_headers timeout frequency ping_timeout
          junk main (h, y) with
  | (Ok evs, (h', y')) =>
      traced (initial h host path port extra_headers frequency ping_timeout junk) evs h' y'
  | (Throw e, s') =>
      construct handler (S depth) host path port extra_headers timeout frequency ping_timeout
        junk (h, y) = (Throw e, s')
  | (UB _, _) => False
  | (OutOfFuel, _) => True
  end.
Proof.
  intros Hm Hc Ht Hj.
  pose proof (construct_alive depth host path port extra_headers timeout frequency ping_timeout
    junk h y Hc Ht Hj) as Hcon.
  unfold session. unfold returns, ends in Hcon.
  destruct (construct _ _ _ _ _ _ _ _ _ _ (h, y)) as [[c|e|u|] [h1 y1]]; try done.
  destruct Hcon as (factory & y0 & s1 & Hos & Hfr & response & s3 & Hreq & Hacc & Halive).
  pose proof (work_alive (S depth) main _ _ Hm Halive) as Hw.
  unfold upto in Hw. cbn [snd] in *. cbv zeta.
  match type of Hw with match ?m with _ => _ end => destruct m as [[evs|e|u|] [c' y']] end; try done.
  destruct Hw as (s' & Hs' & Hgone & ->).
  exact (alive_traced _ _ _ _ _ _ _ _ Hos Hfr eq_refl Hreq Hacc Hs' Hgone).
Qed.
End Lifetime.

(** ** The property *)

Section Properties.
Context {Hst St W : Type} `{Target, OS W, Entropy W, !SocketType St W, !SocketStream St W}.

Local Notation "'state'" := (@state Hst St W).

(** C3: every life of a client is a trace. For every handler - one that sends,
    polls and closes at any depth, throws and catches; [on_open] alone may not
    poll or close, and a frame is not read after a poll or close - and every
    program of public calls between construction and destruction: if the
    constructor returns, then once the socket was connected ([s1]) the client
    sent the opening request, received a response with the accepting status
    line, and from then to the end of the destructor what it received, what it
    sent, to the byte, and all the calls of the handler are those of a trace of
    the abstract endpoint, which begins by reporting the connection. Exceptions
    of the program are its own, and nothing is undefined. *)
Theorem life_is_a_trace (handler : notice → prog Hst) (main : prog Hst) (depth : nat)
    (host path : string) (port : Z) (extra_headers : string)
    (connection_timeout ping_frequency ping_timeout : Z) (junk : Frame.t string_view)
    (h : Hst) (y : Sys W) :
  hardened = false → (139 < send_limit)%Z →
  (∀ m, modest true true send_limit (handler m)) → quiet (handler on_open) →
  modest true false send_limit main →
  (∀ factory, connectable (St:=St) (initial h host path port extra_headers ping_frequency
     ping_timeout junk factory)) →
  int10 connection_timeout → length (Frame.masking_key junk) = 4 →
  match session handler depth host path port extra_headers connection_timeout
          ping_frequency ping_timeout junk main (h, y) with
  | (Ok evs, (h', y')) =>
      traced (initial h host path port extra_headers ping_frequency ping_timeout junk) evs h' y'
  | (UB _, _) => False
  | _ => True
  end.
Proof.
  intros Hhard Hlim Hh Hq Hm Hc Ht Hj.
  pattern (session handler depth host path port extra_headers connection_timeout
    ping_frequency ping_timeout junk main (h, y)).
  apply Depth.session_positive; [|by intros []]. intros d.
  pose proof (session_alive Hhard Hlim handler Hh Hq d host path port extra_headers
    connection_timeout ping_frequency ping_timeout junk main h y Hm Hc Ht Hj) as Ha.
  by destruct (session _ _ _ _ _ _ _ _ _ _ _ _) as [[] []].
Qed.

(** The constructor of the program's client throws [e]. *)
Definition never_made (p : program Hst) (junk : Frame.t string_view) (s : Hst * Sys W)
    (e : exn) (s' : Hst * Sys W) : Prop :=
  ∃ depth, construct (St:=St) (p_handler p) depth (p_host p) (p_path p) (p_port p) "" 10 60 10
             junk s = (Throw e, s').

(** A program that comes to its end, by an exception or not, and what is known
    of its client there. *)
Lemma program_traced {A} (I : outcome A → t Hst St → Prop) (p : program Hst) (depth : nat)
    (body : nat → M (@state Hst St W) A)
    (junk : Frame.t string_view) (h : Hst) (y : Sys W) :
  hardened = false → (139 < send_limit)%Z →
  (∀ m, modest true true send_limit (p_handler p m)) → quiet (p_handler p on_open) →
  (∀ factory, connectable (St:=St) (Session.members p h junk factory)) →
  length (Frame.masking_key junk) = 4 →
  Depth.extends (body 0) (body 1) →
  (∀ d s0 s, alive true s0 s → upto (λ _, True) (body (S d)) s
     (λ _ s', ∃ s1, alive true s0 s1 ∧ gone s1 s') (λ s', ∃ s1, alive true s0 s1 ∧ gone s1 s')) →
  (∀ d c s0 s1 o c' y',
     construct (p_handler p) (S d) (p_host p) (p_path p) (p_port p) "" 10 60 10 junk (h, y)
     = (Ok c, s1) → alive true s0 (c, snd s1) →
     body (S d) (c, snd s1) = (o, (c', y')) → I o c') →
  match owning (St:=St) depth junk p (body depth) (h, y) with
  | (Ok a, (h', y')) => ∃ c', I (Ok a) c' ∧ h' = m_handler c' ∧
      traced (Session.members p h junk) (calls c') h' y'
  | (Throw e, (h', y')) => never_made p junk (h, y) e (h', y') ∨
      ∃ c', I (Throw e) c' ∧ h' = m_handler c' ∧
        traced (Session.members p h junk) (calls c') h' y'
  | (UB _, _) => False
  | _ => True
  end.
Proof.
  intros Hhard Hlim Hh Hq Hc Hj Hext Hbody HI.
  pattern (owning (St:=St) depth junk p (body depth) (h, y)).
  apply Depth.owning_positive; [done| |by intros []]. clear depth. intros depth.
  pose proof (construct_alive Hhard Hlim (p_handler p) Hh Hq depth (p_host p) (p_path p)
    (p_port p) "" 10 60 10 junk h y Hc ltac:(by apply (bool_decide_unpack _)) Hj) as Hcon.
  specialize (HI depth). unfold owning. unfold returns, ends in Hcon.
  destruct (construct _ _ _ _ _ _ _ _ _ _ (h, y)) as [[c|e|u|] [h1 y1]] eqn:Econ; try done.
  2: { left. by exists (S depth). }
  destruct Hcon as (factory & y0 & s1 & Hos & Hfr & response & s3 & Hreq & Hacc & Halive).
  pose proof (Hbody depth _ _ Halive) as Hw. unfold upto in Hw. cbn [snd] in *.
  pose proof (λ o c' y', HI c _ (h1, y1) o c' y' eq_refl Halive) as HI'. cbn [snd] in HI'.
  assert (∀ c' y', (∃ s', alive true (opened_from s3) s' ∧ gone s' (c', y')) →
    traced (Session.members p h junk) (calls c') (m_handler c') y') as Hend.
  { intros c' y' (s' & Hs' & Hgone).
    assert (calls c' = calls (fst s')) as -> by (by destruct Hgone as [<-|(_ & Hcl & _)]).
    exact (alive_traced _ _ _ _ _ _ _ _ Hos Hfr eq_refl Hreq Hacc Hs' Hgone). }
  destruct (body _ _) as [[a|e|u|] [c' y']]; try done; [|right];
    exists c'; (split_and!; [by eapply HI'|done|by apply Hend]).
Qed.

(** C4: the programs, whatever their handler: example.cpp too, whose handler
    closes the connection from within a poll. Running [main] of a program of
    any such handler - construction, the polling loop with any readings of its
    flag, the end of the scope - does nothing undefined, and when it comes to an
    end, or is still polling, all that was received, sent and reported since the
    socket was connected are the handshake and a trace of the abstract
    endpoint. *)
Theorem program_is_a_trace (p : program Hst) (depth : nat) (readings : list bool)
    (junk : Frame.t string_view) (h : Hst) (y : Sys W) :
  hardened = false → (139 < send_limit)%Z →
  (∀ m, modest true true send_limit (p_handler p m)) → quiet (p_handler p on_open) →
  (∀ factory, connectable (St:=St) (Session.members p h junk factory)) →
  length (Frame.masking_key junk) = 4 →
  match main (St:=St) depth readings junk p (h, y) with
  | (Ok how, (h', y')) => ∃ evs, traced (Session.members p h junk) evs h' y'
  | (UB _, _) => False
  | _ => True
  end.
Proof.
  intros Hhard Hlim Hh Hq Hc Hj.
  pose proof (program_traced (λ _ _, True) p depth (λ d, run_client (p_handler p) d readings)
    junk h y Hhard Hlim Hh Hq Hc Hj
    (Depth.run_client_extends _ 0 1 (le_S _ _ (le_n 0)) readings)
    (λ d s0 s, run_client_alive Hhard Hlim (p_handler p) Hh (S d) readings s0 s)
    ltac:(done)) as Ht.
  unfold main.
  destruct (owning _ _ _ _ _) as [[how|e|u|] [h' y']]; try done.
  destruct Ht as (c' & _ & _ & Ht). by exists (calls c').
Qed.
End Properties.

(** ** example.cpp: it greets, closes when the greeting comes back, and ends *)

#[local] Existing Instance masked_shift_target.
#[local] Existing Instance Session.tls.
#[local] Existing Instance Session.tls_stream.
#[local] Existing Instance HandshakeProps.counting_entropy.

Definition console (line out : string) : string := out +:+ line.

Definition polls_once : prog string := Poll 4 (andthen Return).

#[local] Abbreviation example_life :=
  (session (St:=SSLSocketWrapper.t) (example_handler console) 2 "echo.websocket.org" "/" 443 ""
    10 60 10 FrameParser.empty_frame polls_once
    ("", scripted [ClientProps.accepting; ClientProps.from_server 1 (str "Hello, World!"); [];
                   ClientProps.from_server 8 []])).

Lemma life_is_a_trace_witness :
  fst (snd example_life)
  = "Connection Opened!" +:+ newline +:+
    " > text: [fin=1][Opcode::TEXT][mask=0][payload=" +:+ quoted "Hello, World!" +:+ "]" +:+
    newline +:+ "Connection Closed (success = 1)" +:+ newline ∧
  match example_life with
  | (Ok evs, (h', y')) => length evs = 3 ∧
      traced (St:=SSLSocketWrapper.t)
        (initial "" "echo.websocket.org" "/" 443 "" 60 10 FrameParser.empty_frame) evs h' y'
  | _ => False
  end.
Proof.
  split; [by vm_compute|].
  pose proof (life_is_a_trace (St:=SSLSocketWrapper.t) (example_handler console) polls_once 2
    "echo.websocket.org" "/" 443 "" 10 60 10 FrameParser.empty_frame ""
    (scripted [ClientProps.accepting; ClientProps.from_server 1 (str "Hello, World!"); [];
               ClientProps.from_server 8 []])
    ltac:(done) ltac:(by vm_compute) (Delivery.example_modest console) ltac:(by intros ? [])
    ltac:(by intros []) Session.ping_connectable ltac:(by apply (bool_decide_unpack _))
    ltac:(done)) as H.
  assert (match fst example_life with Ok evs => length evs | _ => 0 end = 3) as E
    by (by vm_compute).
  destruct example_life as [[evs|e|u|] [h' y']]; [|discriminate..].
  cbn [fst] in E. split; [exact E|exact H].
Defined.

(** [main] of example.cpp: the loop ends because the handler has closed the
    connection, which the server confirms. *)
#[local] Abbreviation example_main :=
  (main (St:=SSLSocketWrapper.t) 2 (replicate 5 true) FrameParser.empty_frame
    (example_program console)
    ("", scripted [ClientProps.accepting; ClientProps.from_server 1 (str "Hello, World!"); [];
                   ClientProps.from_server 8 []])).

Lemma program_is_a_trace_witness :
  match example_main with
  | (Ok how, (h', y')) => how = Broke ∧ ∃ evs,
      traced (St:=SSLSocketWrapper.t)
        (Session.members (example_program console) "" FrameParser.empty_frame) evs h' y'
  | _ => False
  end.
Proof.
  pose proof (program_is_a_trace (St:=SSLSocketWrapper.t) (example_program console) 2
    (replicate 5 true) FrameParser.empty_frame ""
    (scripted [ClientProps.accepting; ClientProps.from_server 1 (str "Hello, World!"); [];
               ClientProps.from_server 8 []])
    ltac:(done) ltac:(by vm_compute) (Delivery.example_modest console) ltac:(by intros ? [])
    Session.ping_connectable ltac:(done)) as H.
  assert (fst example_main = Ok Broke) as E by (by vm_compute).
  destruct example_main as [o [h' y']]. cbn [fst] in E. subst o. split; [done|exact H].
Defined.

End Lifetime.
