(* ===== verification/Handlers.v ===== *)
(** What a handler makes of its calls. The client calls the handler, whose
    methods call the client, which may call the handler again. For a handler
    whose methods bring its state in line with their call before they poll or
    close, the state is at any moment in line with all the calls made so far,
    however they were nested and whatever was thrown. *)

From S2P Require Import Prelude Frames Factory Parser Sys World Sockets SocketSpec SocketStream Handshake Client ClientSpec Refinement Programs Depth ClientProps Session Lifetime.
Import WSClient Refinement Lifetime.

Module Handlers.

(** The bytes of the payload a method is given. *)
Definition payload_of (ev : event) : list Z :=
  match ev with
  | on_text f | on_binary f | on_continuation f => Frame.payload f
  | _ => []
  end.

Section Handlers.
Context {Hst St W : Type} `{Target, OS W, Entropy W, SocketType St W}.

Local Notation "'state'" := (@state Hst St W).

(** ** Steps that are not the handler's *)

Definition aloof {A} (m : M state A) : Prop := ∀ s,
  m_handler (fst (snd (m s))) = m_handler (fst s) ∧ calls (fst (snd (m s))) = calls (fst s).

Lemma aloof_ret {A} (a : A) : aloof (mret a).
Proof. done. Qed.

Lemma aloof_throw {A} e : aloof (throw (A:=A) e).
Proof. done. Qed.

Lemma aloof_undef {A} u : aloof (undef (A:=A) u).
Proof. done. Qed.

Lemma aloof_out_of_fuel {A} : aloof (out_of_fuel (A:=A)).
Proof. done. Qed.

Lemma aloof_self : aloof self.
Proof. done. Qed.

Lemma aloof_bind {A B} (m : M state A) (f : A → M state B) :
  aloof m → (∀ a, aloof (f a)) → aloof (m ≫= f).
Proof.
  intros Hm Hf s. unfold mbind, M_bind. specialize (Hm s).
  destruct (m s) as [[a|e|u|] s']; [|done..]. cbn [snd] in Hm.
  destruct (Hf a s') as [-> ->]. exact Hm.
Qed.

Lemma aloof_when b (m : M state unit) : aloof m → aloof (when b m).
Proof. by destruct b. Qed.

Lemma aloof_update (f : t Hst St → t Hst St) :
  (∀ c, m_handler (f c) = m_handler c ∧ calls (f c) = calls c) → aloof (update_self f).
Proof. intros Hf [c y]. apply Hf. Qed.

Lemma aloof_zoom {T A} (prj : state → T) (upd : T → state → state) (m : M T A) :
  (∀ x s, m_handler (fst (upd x s)) = m_handler (fst s) ∧
          calls (fst (upd x s)) = calls (fst s)) →
  aloof (zoom prj upd m).
Proof. intros Hu s. unfold zoom. destruct (m (prj s)) as [[] x]; apply Hu. Qed.

Lemma aloof_on_socket {A} (m : M (St * Sys W) A) : aloof (on_socket m).
Proof. by apply aloof_zoom. Qed.
Lemma aloof_on_parser {A} (m : M FrameParser.t A) : aloof (on_parser m).
Proof. by apply aloof_zoom. Qed.
Lemma aloof_on_factory {A} (m : M FrameFactory.t A) : aloof (on_factory m).
Proof. by apply aloof_zoom. Qed.
Lemma aloof_on_timer {A} (m : M (nanotimer.t * Sys W) A) : aloof (on_timer m).
Proof. by apply aloof_zoom. Qed.
Lemma aloof_read_into n : aloof (read_into n).
Proof. by apply aloof_zoom. Qed.
Lemma aloof_on_local {X A} (x : X) (m : M (X * Sys W) A) : aloof (on_local x m).
Proof. by apply aloof_zoom. Qed.
Lemma aloof_on_sys {A} (m : M (Sys W) A) : aloof (on_sys m).
Proof. by apply aloof_zoom. Qed.
Lemma aloof_call_unit (f : W → W) : aloof (call_unit f).
Proof. by intros []. Qed.
Lemma aloof_call {A} (f : W → A * W) : aloof (call f).
Proof. intros [c y]. unfold call. by destruct (f (env y)). Qed.

Create HintDb aloof.
#[local] Hint Resolve aloof_ret aloof_throw aloof_undef aloof_out_of_fuel aloof_self
  aloof_bind aloof_when aloof_on_socket aloof_on_parser aloof_on_factory aloof_on_timer
  aloof_read_into aloof_on_local aloof_on_sys aloof_call_unit aloof_call : aloof.
#[local] Hint Extern 2 (aloof (update_self _)) => by apply aloof_update : aloof.

Lemma aloof_catching {A} (m : M state A) : aloof m → aloof (catching m).
Proof. intros Hm s. specialize (Hm s). unfold catching. by destruct (m s) as [[]]. Qed.

Lemma aloof_send frame : aloof (send frame).
Proof. unfold send. auto with aloof. Qed.
#[local] Hint Resolve aloof_send : aloof.

Lemma aloof_control (m : M FrameFactory.t (list Z)) : aloof (out ← on_factory m; send out).
Proof. auto with aloof. Qed.

Lemma aloof_status : aloof status.
Proof. unfold status. auto with aloof. Qed.

Lemma aloof_last_rtt : aloof last_rtt.
Proof. unfold last_rtt. auto with aloof. Qed.

Lemma aloof_handle_pong payload : aloof (handle_pong payload).
Proof. unfold handle_pong. auto 7 with aloof. Qed.

Lemma aloof_next_frame : aloof next_frame.
Proof. unfold next_frame. auto with aloof. Qed.

Lemma aloof_times_ten timeout : aloof (times_ten timeout).
Proof. unfold times_ten. case_decide; auto with aloof. Qed.

Lemma aloof_update_ping : aloof update_ping.
Proof.
  apply aloof_bind; [auto with aloof|]. intros c.
  destruct (m_waiting_for_ping c); unfold send_ping, FrameFactory.ping; auto 9 with aloof.
Qed.

Lemma aloof_wait_close n : aloof (wait_close n).
Proof.
  induction n as [|n IH]; cbn [wait_close]; [auto with aloof|].
  apply aloof_bind; [auto with aloof|]. intros data.
  apply aloof_bind; [auto with aloof|]. intros f. case_match; auto with aloof.
Qed.

Lemma aloof_open_socket : aloof open_socket.
Proof. unfold open_socket. auto 9 with aloof. Qed.

Lemma aloof_read_response n response : aloof (read_response n response).
Proof.
  revert response. induction n as [|n IH]; intros response; cbn [read_response];
    [auto with aloof|]. apply aloof_bind; [auto with aloof|]. intros chunk.
  case_match; auto with aloof.
Qed.

Lemma aloof_key : aloof generate_sec_websocket_key.
Proof. unfold generate_sec_websocket_key. auto with aloof. Qed.

(** ** The calls of the constructor *)

(** Steps that call no method, and steps that at most report the connection. *)
Definition unheard {A} (m : M state A) : Prop := ∀ s,
  calls (fst (snd (m s))) = calls (fst s).

Definition opens {A} (m : M state A) : Prop := ∀ s,
  calls (fst (snd (m s))) = calls (fst s) ∨
  calls (fst (snd (m s))) = calls (fst s) ++ [on_open].

Lemma unheard_aloof {A} (m : M state A) : aloof m → unheard m.
Proof. intros Hm s. apply Hm. Qed.

Lemma unheard_bind {A B} (m : M state A) (f : A → M state B) :
  unheard m → (∀ a, unheard (f a)) → unheard (m ≫= f).
Proof.
  intros Hm Hf s. unfold mbind, M_bind. specialize (Hm s).
  destruct (m s) as [[a|e|u|] s']; [|done..]. cbn [snd] in Hm. by rewrite Hf.
Qed.

Lemma opens_after {A B} (m : M state A) (f : A → M state B) :
  unheard m → (∀ a, opens (f a)) → opens (m ≫= f).
Proof.
  intros Hm Hf s. unfold mbind, M_bind. specialize (Hm s).
  destruct (m s) as [[a|e|u|] s']; [|by left..]. cbn [snd] in Hm. rewrite <-Hm. apply Hf.
Qed.

Lemma opens_before {A B} (m : M state A) (f : A → M state B) :
  opens m → (∀ a, unheard (f a)) → opens (m ≫= f).
Proof.
  intros Hm Hf s. unfold mbind, M_bind. specialize (Hm s).
  destruct (m s) as [[a|e|u|] s']; [|done..]. cbn [snd] in Hm. by rewrite Hf.
Qed.

Lemma opens_unheard {A} (m : M state A) : unheard m → opens m.
Proof. intros Hm s. left. apply Hm. Qed.

Lemma quiet_unheard call l p : quiet p → unheard (run_prog call l p : M state unit).
Proof.
  induction p as [|e|k IH|k IH|h p IH|bs k IH|bs k IH|t k IH|n k IH|k IH|k IH];
    cbn [run_prog quiet]; intros Hp; try done; apply unheard_bind; auto.
  - apply unheard_aloof. unfold read_payload.
    apply aloof_bind; [auto with aloof|]. intros c. case_match; auto with aloof.
  - by intros [].
  - by intros [].
  - apply unheard_aloof, aloof_catching, aloof_control.
  - apply unheard_aloof, aloof_catching, aloof_control.
  - apply unheard_aloof, aloof_status.
  - apply unheard_aloof, aloof_last_rtt.
Qed.

Section Constructor.
Context (handler : notice → prog Hst) (Hquiet : quiet (handler on_open)).

Lemma on_open_opens depth : opens (callback handler depth on_open empty_view).
Proof.
  intros s. destruct depth as [|depth]; [by left|]. right. destruct s as [c y]. cbn [callback].
  exact (quiet_unheard _ _ _ Hquiet (set_calls (calls c ++ [on_open]) c, y)).
Qed.

#[local] Hint Resolve aloof_control aloof_status aloof_last_rtt aloof_next_frame
  aloof_times_ten aloof_wait_close aloof_open_socket aloof_read_response aloof_key : aloof.
#[local] Hint Extern 5 (unheard _) => apply unheard_aloof; solve [eauto 9 with aloof] : aloof.

Lemma connect_opens depth timeout : opens (connect handler depth timeout).
Proof.
  unfold connect. apply opens_after; [auto with aloof|]. intros _.
  do 5 (apply opens_after; [auto with aloof|]; intros ?).
  apply opens_after; [auto with aloof|]. intros _.
  apply opens_after; [auto with aloof|]. intros c.
  apply opens_before; [|intros ?; auto with aloof]. case_match.
  - apply opens_after; [auto with aloof|]. intros _. apply on_open_opens.
  - apply opens_unheard. auto with aloof.
Qed.

Lemma start_up_opens depth timeout : opens (start_up handler depth timeout).
Proof.
  unfold start_up, send_ping, FrameFactory.ping. apply opens_before; [apply connect_opens|].
  intros []; cbn [negb]; auto with aloof.
Qed.
End Constructor.

(** ** The account of the calls *)

(** What the handler's state should be after the calls so far. *)
Context (R : list event → Hst → Prop).

(** [p] settles the account: with the state [h] and the calls [evs], the last
    of which is being handled, [R] holds of the state whenever [p] polls,
    closes, returns or throws. A poll or a close may add calls, which have been
    accounted for when it returns or throws; the payload is then no longer
    known, and before it is [bytes]. *)
Fixpoint settles (fresh : bool) (bytes : list Z) (evs : list event) (h : Hst) (p : prog Hst) :
    Prop :=
  match p with
  | Return | Raise _ => R evs h
  | Payload k =>
      if fresh then settles fresh bytes evs h (k bytes)
      else ∀ read, settles fresh bytes evs h (k read)
  | Get k => settles fresh bytes evs h (k h)
  | Put h' k => settles fresh bytes evs h' k
  | SendText _ k | SendBinary _ k => ∀ r, settles fresh bytes evs h (k r)
  | Close _ k => R evs h ∧ ∀ more h' r, R (evs ++ more) h' →
      settles false bytes (evs ++ more) h' (k r)
  | Poll _ k => R evs h ∧ ∀ more h' r, R (evs ++ more) h' →
      settles false bytes (evs ++ more) h' (k r)
  | Status k => ∀ st, settles fresh bytes evs h (k st)
  | LastRtt k => ∀ rtt, settles fresh bytes evs h (k rtt)
  end.

(** Every method accounts for its call. *)
Definition accounting (handler : notice → prog Hst) : Prop := ∀ ev evs h,
  R evs h → settles true (payload_of ev) (evs ++ [ev]) h (handler (notice_of ev)).

(** All calls are accounted for, and the first ones are [base]. *)
Definition settled (base : list event) (s : state) : Prop :=
  R (calls (fst s)) (m_handler (fst s)) ∧ base `prefix_of` calls (fst s).

Definition settling {A} (m : M state A) (base : list event) (s : state) : Prop :=
  match m s with
  | (Ok _, s') | (Throw _, s') => settled base s'
  | _ => True
  end.

Definition keeping {A} (m : M state A) : Prop := ∀ base s,
  settled base s → settling m base s.

Lemma keeping_aloof {A} (m : M state A) : aloof m → keeping m.
Proof.
  intros Hm base s [Hr Hb]. unfold settling, settled. destruct (Hm s) as [Eh Ec].
  destruct (m s) as [[] s']; cbn [snd] in *; by rewrite ?Eh, ?Ec.
Qed.

Lemma settling_bind {A B} (m : M state A) (f : A → M state B) base s :
  (∀ e s', m s = (Throw e, s') → settled base s') →
  (∀ a s', m s = (Ok a, s') → settling (f a) base s') →
  settling (m ≫= f) base s.
Proof.
  intros Hm Hf. unfold settling, mbind, M_bind in *.
  destruct (m s) as [[a|e|u|] s'] eqn:E; [by apply Hf|by eapply Hm|done..].
Qed.

(** Steps that return; [settling_bind] without exceptions. *)
Lemma settling_ok {A B} (m : M state A) (f : A → M state B) base s a s' :
  m s = (Ok a, s') → settling (f a) base s' → settling (m ≫= f) base s.
Proof. intros E Hf. unfold settling, mbind, M_bind. by rewrite E. Qed.

Lemma settling_elim {A} (m : M state A) base s o s' :
  settling m base s → m s = (o, s') → (∀ u, o ≠ UB u) → o ≠ OutOfFuel → settled base s'.
Proof. unfold settling. intros Hm E Hu Hf. rewrite E in Hm. destruct o; try done. by edestruct Hu. Qed.

Lemma keeping_bind {A B} (m : M state A) (f : A → M state B) :
  keeping m → (∀ a, keeping (f a)) → keeping (m ≫= f).
Proof.
  intros Hm Hf base s Hs. pose proof (Hm base s Hs) as Hm'. apply settling_bind.
  - intros e s' E. by eapply settling_elim.
  - intros a s' E. apply Hf. by eapply settling_elim.
Qed.

Lemma keeping_catching {A} (m : M state A) : keeping m → keeping (catching m).
Proof.
  intros Hm base s Hs. specialize (Hm base s Hs). unfold settling, catching in *.
  by destruct (m s) as [[]].
Qed.

#[local] Hint Resolve aloof_control aloof_status aloof_last_rtt aloof_handle_pong
  aloof_next_frame aloof_times_ten aloof_update_ping aloof_wait_close aloof_open_socket
  aloof_read_response aloof_key : aloof.
#[local] Hint Resolve keeping_bind keeping_catching : aloof.
#[local] Hint Extern 5 (keeping _) => apply keeping_aloof; solve [eauto 9 with aloof] : aloof.

(** ** The client, for a way to call the handler that accounts for the call *)

Section Open.
Context (call : event → string_view → M state unit).

Context (Hcall : ∀ ev v base s,
  settled base s → FrameParser.deref (m_parser (fst s)) v = payload_of ev →
  settling (call ev v) base s).

Lemma call_keeping ev : payload_of ev = [] → keeping (call ev empty_view).
Proof. intros He base s Hs. apply Hcall; [done|]. by rewrite He. Qed.
#[local] Hint Extern 2 (keeping (call _ _)) => by apply call_keeping : aloof.

Lemma dispatch_keeping f : keeping (dispatch call f).
Proof.
  intros base [c y] Hs. unfold dispatch.
  eapply settling_ok; [reflexivity|]. cbn [fst].
  assert (∀ ev, payload_of ev = Frame.payload (frame_of (m_parser c) f) →
    settling (call ev (Frame.payload f);; mret (A:=option ConnectionStatus) None) base (c, y))
    as Hev.
  { intros ev He. pose proof (Hcall ev (Frame.payload f) base (c, y) Hs (eq_sym He)) as Hc.
    apply settling_bind; [intros e s' E|intros [] s' E]; by eapply settling_elim in Hc. }
  destruct (Frame.opcode f); try (by apply Hev).
  all: match goal with |- settling ?m _ _ => assert (keeping m) as Hk; [|by apply Hk] end.
  - unfold send_close. auto 12 with aloof.
  - unfold send_pong. auto with aloof.
  - auto with aloof.
Qed.
#[local] Hint Resolve dispatch_keeping : aloof.

Lemma poll_loop_keeping n count_reads max_reads r :
  keeping (poll_loop call n count_reads max_reads r).
Proof.
  revert count_reads r. induction n as [|n IH]; intros count_reads [f|]; cbn [poll_loop];
    [auto with aloof..| |auto with aloof].
  apply keeping_bind; [auto with aloof|]. intros [st|]; [auto with aloof|].
  case_match; auto with aloof.
Qed.
#[local] Hint Resolve poll_loop_keeping : aloof.

Lemma poll_keeping max_reads : keeping (poll_with call max_reads).
Proof.
  unfold poll_with. apply keeping_bind; [auto with aloof|]. intros r.
  apply keeping_bind; [auto with aloof|]. intros [st|]; auto with aloof.
Qed.
#[local] Hint Resolve poll_keeping : aloof.

Lemma close_keeping timeout : keeping (close_with call timeout).
Proof.
  unfold close_with, send_close. apply keeping_bind; [auto with aloof|]. intros c.
  case_match; [auto with aloof|]. auto 15 with aloof.
Qed.

(** ** A handler method *)

#[local] Hint Resolve close_keeping : aloof.

Lemma read_payload_cases (l : lent) (s : state) :
  read_payload l s = (Ok (FrameParser.deref (m_parser (fst s)) (lent_view l)), s) ∨
  ∃ u, read_payload l s = (UB u, s).
Proof.
  unfold read_payload, self, gets, mbind, M_bind. destruct s as [c y]. cbn [fst].
  case_match; [by left|right; by eexists].
Qed.

Lemma catching_never_throws {A} (m : M state A) s e s' : catching m s ≠ (Throw e, s').
Proof. unfold catching. by destruct (m s) as [[]]. Qed.

(** A step that touches neither the handler's state nor the calls. *)
Lemma step_settling {A} (m : M state A) (k : A → prog Hst) l fresh bytes base s :
  aloof m → leaves_parser m →
  (fresh = true → FrameParser.deref (m_parser (fst s)) (lent_view l) = bytes) →
  base `prefix_of` calls (fst s) →
  (∀ e s', m s ≠ (Throw e, s')) →
  (∀ a s', base `prefix_of` calls (fst s') →
    (fresh = true → FrameParser.deref (m_parser (fst s')) (lent_view l) = bytes) →
    calls (fst s') = calls (fst s) → m_handler (fst s') = m_handler (fst s) →
    settling (run_prog call l (k a)) base s') →
  settling (a ← m; run_prog call l (k a)) base s.
Proof.
  intros Hm Hp Hd Hb Hthrow Hk. unfold settling, mbind, M_bind in *.
  destruct (Hm s) as [Eh Ec]. specialize (Hp s).
  destruct (m s) as [[a|e|u|] s'] eqn:E; cbn [snd] in *; [|by destruct (Hthrow e s')|done..].
  apply Hk; [by rewrite Ec|by rewrite Hp|done..].
Qed.

Lemma nested_settling {A} (m : M state A) (k : exn + A → prog Hst) l base s :
  keeping m → settled base s →
  (∀ r s' more, base `prefix_of` calls (fst s') → calls (fst s') = calls (fst s) ++ more →
    R (calls (fst s) ++ more) (m_handler (fst s')) →
    settling (run_prog call l (k r)) base s') →
  settling (r ← catching m; run_prog call l (k r)) base s.
Proof.
  intros Hm [Hr Hb] Hk. unfold settling, mbind, M_bind, catching.
  pose proof (Hm (calls (fst s)) s (conj Hr (reflexivity _))) as Hs. unfold settling in Hs.
  destruct (m s) as [[a|e|u|] s']; [| |done..]; destruct Hs as [Hr' [more Hmore]];
    (eapply Hk; [rewrite Hmore; by apply prefix_app_r|exact Hmore|by rewrite <-Hmore]).
Qed.

Lemma run_prog_settling p fresh l bytes base s :
  (fresh = true → FrameParser.deref (m_parser (fst s)) (lent_view l) = bytes) →
  base `prefix_of` calls (fst s) →
  settles fresh bytes (calls (fst s)) (m_handler (fst s)) p →
  settling (run_prog call l p) base s.
Proof.
  revert fresh s. induction p as [|e|k IH|k IH|h p IH|bs k IH|bs k IH|t k IH|n k IH|k IH|k IH];
    cbn [run_prog settles]; intros fresh s Hd Hb Hs.
  - by split.
  - by split.
  - destruct (read_payload_cases l s) as [Er|[u Er]].
    + eapply settling_ok; [exact Er|]. apply (IH _ fresh); [done..|].
      destruct fresh; [by rewrite Hd|done].
    + unfold settling, mbind, M_bind. by rewrite Er.
  - eapply settling_ok; [reflexivity|]. by apply (IH _ fresh).
  - destruct s as [c y]. eapply settling_ok; [reflexivity|]. by apply (IH fresh).
  - apply (step_settling _ _ _ fresh bytes); [apply aloof_catching, aloof_control
      |apply catching_leaves, (send_leaves Opcode.TEXT)|done|done|apply catching_never_throws|].
    intros r s' Hb' Hd' Ec Eh. apply (IH r fresh); [done..|]. by rewrite Ec, Eh.
  - apply (step_settling _ _ _ fresh bytes); [apply aloof_catching, aloof_control
      |apply catching_leaves, (send_leaves Opcode.BINARY)|done|done|apply catching_never_throws|].
    intros r s' Hb' Hd' Ec Eh. apply (IH r fresh); [done..|]. by rewrite Ec, Eh.
  - destruct Hs as [Hr Hk]. apply nested_settling; [auto with aloof|done|].
    intros r s' more Hb' Ec Hr'. apply (IH r false); [done..|]. rewrite Ec. by apply Hk.
  - destruct Hs as [Hr Hk]. apply nested_settling; [auto with aloof|done|].
    intros r s' more Hb' Ec Hr'. apply (IH r false); [done..|]. rewrite Ec. by apply Hk.
  - destruct s as [c y]. eapply settling_ok; [reflexivity|]. by apply (IH _ fresh).
  - destruct s as [c y]. eapply settling_ok; [reflexivity|]. by apply (IH _ fresh).
Qed.
End Open.

(** ** The client with its handler *)

Context (handler : notice → prog Hst) (Hhandler : accounting handler).
Context (Hquiet : quiet (handler on_open)).

Lemma callback_settling depth ev v base s :
  settled base s → FrameParser.deref (m_parser (fst s)) v = payload_of ev →
  settling (callback handler depth ev v) base s.
Proof.
  revert ev v base s. induction depth as [|depth IH]; intros ev v base [c y] [Hr Hb] Hv; [done|].
  cbn [callback]. eapply settling_ok; [reflexivity|]. eapply settling_ok; [reflexivity|].
  apply (run_prog_settling _ IH _ true _ (payload_of ev)); [by intros _|by apply prefix_app_r|].
  by apply Hhandler.
Qed.

Lemma callback_keeping depth ev :
  payload_of ev = [] → keeping (callback handler depth ev empty_view).
Proof. intros He. by apply call_keeping; [apply callback_settling|]. Qed.

Lemma client_poll_keeping depth max_reads : keeping (poll handler depth max_reads).
Proof. apply poll_keeping, callback_settling. Qed.

Lemma client_close_keeping depth timeout : keeping (close handler depth timeout).
Proof. apply close_keeping, callback_settling. Qed.

Lemma connect_keeping depth timeout : keeping (connect handler depth timeout).
Proof.
  unfold connect. apply keeping_bind; [auto with aloof|]. intros _.
  do 5 (apply keeping_bind; [auto with aloof|]; intros ?).
  apply keeping_bind; [auto with aloof|]. intros _.
  apply keeping_bind; [auto with aloof|]. intros c.
  pose proof (callback_keeping depth on_open eq_refl). case_match; auto 9 with aloof.
Qed.

Lemma start_up_keeping depth timeout : keeping (start_up handler depth timeout).
Proof.
  unfold start_up, send_ping, FrameFactory.ping. pose proof (connect_keeping depth timeout).
  apply keeping_bind; [done|]. intros []; cbn [negb]; auto 9 with aloof.
Qed.

Lemma destroy_keeping depth : keeping (destroy handler depth).
Proof.
  unfold destroy. pose proof (client_close_keeping depth 10).
  apply keeping_bind; [auto with aloof|]. intros []; auto with aloof.
Qed.

Lemma poll_while_keeping depth readings : keeping (poll_while handler depth readings).
Proof.
  pose proof (client_poll_keeping depth 4).
  induction readings as [|[] readings IH]; cbn [poll_while]; [auto with aloof| |auto with aloof].
  apply keeping_bind; [done|]. intros st. case_bool_decide; auto with aloof.
Qed.

Lemma run_client_keeping depth readings : keeping (run_client handler depth readings).
Proof.
  unfold run_client. pose proof (destroy_keeping depth).
  apply keeping_bind; [apply poll_while_keeping|].
  intros []; [..|auto with aloof]; (apply keeping_bind; [done|]); intros []; auto with aloof.
Qed.

(** A program of public calls that has no frame. *)
Lemma main_keeping depth (main : prog Hst) :
  (∀ evs h, R evs h → settles false [] evs h main) →
  keeping (run_prog (callback handler depth) no_view main).
Proof.
  intros Hm base s [Hr Hb].
  by apply (run_prog_settling _ (callback_settling depth) _ false _ []); [|done|apply Hm].
Qed.

(** After construction, in the client or, with no call or one, in what is left
    of the handler. *)
Definition settled_construction (r : outcome (t Hst St) * (Hst * Sys W)) : Prop :=
  match r with
  | (Ok c, _) => R (calls c) (m_handler c)
  | (Throw _, (h', _)) => R [] h' ∨ R [on_open] h'
  | _ => True
  end.

Lemma device_random_ok (h : Hst) (y : Sys W) :
  ∃ z y', (device_random : M (Hst * Sys W) Z) (h, y) = (Ok z, (h, y')).
Proof.
  unfold device_random, call, mbind, M_bind, mret, M_ret.
  destruct (next_u64 (env y)) as [z w]. by do 2 eexists.
Qed.

Lemma constructed_settled depth timeout (members : Hst → t Hst St) (h : Hst) (y : Sys W) :
  calls (members h) = [] → R [] (m_handler (members h)) →
  settled_construction (constructed handler depth timeout members (h, y)).
Proof.
  intros Hn Hr. unfold constructed.
  assert (settled [] (members h, y)) as Hs0
    by (split; [cbn [fst]; by rewrite Hn|apply prefix_nil]).
  pose proof (start_up_keeping depth timeout [] _ Hs0) as Hs.
  pose proof (start_up_opens handler Hquiet depth timeout (members h, y)) as Ho.
  cbn [fst] in Ho. rewrite Hn in Ho. unfold settling in Hs.
  destruct (start_up _ _ _ _) as [[[]|e|u|] [c y']]; try done.
  - apply Hs.
  - cbn [fst snd] in Ho. destruct (st_destroy _) as [? [? ?]], Hs as [Hs _].
    destruct Ho as [Ho|Ho]; cbn in Ho, Hs; rewrite Ho in Hs; [by left|by right].
Qed.

Lemma construct_settled depth host path port extra_headers timeout frequency ping_timeout junk
    (h : Hst) (y : Sys W) :
  R [] h →
  settled_construction (construct handler depth host path port extra_headers timeout
    frequency ping_timeout junk (h, y)).
Proof.
  intros Hr. unfold construct.
  destruct (device_random_ok h y) as (seed1 & y1 & E1). erewrite bind_ok by exact E1.
  destruct (device_random_ok h y1) as (seed2 & y2 & E2). erewrite bind_ok by exact E2.
  destruct (FrameFactory.new 4096 seed1 seed2) as [[u|e|u|] f]; try done.
  - by apply constructed_settled.
  - by left.
Qed.
End Handlers.

Section Properties.
Context {Hst St W : Type} `{Target, OS W, Entropy W, !SocketType St W}.

(** The account of a whole session that ends: no assumption on the socket, the
    system or the server. *)
Lemma session_accounts (R : list event → Hst → Prop) (handler : notice → prog Hst)
    (main : prog Hst) (depth : nat) (host path : string) (port : Z) (extra_headers : string)
    (connection_timeout ping_frequency ping_timeout : Z) (junk : Frame.t string_view)
    (h : Hst) (y : Sys W) :
  R [] h → accounting R handler → quiet (handler on_open) →
  (∀ evs h, R evs h → settles R false [] evs h main) →
  match session handler depth host path port extra_headers connection_timeout
          ping_frequency ping_timeout junk main (h, y) with
  | (Ok evs, (h', _)) => R evs h'
  | _ => True
  end.
Proof.
  intros Hr Hacc Hq Hm. unfold session.
  pose proof (construct_settled R handler Hacc Hq depth host path port extra_headers
    connection_timeout ping_frequency ping_timeout junk h y Hr) as Hc.
  unfold settled_construction in Hc.
  destruct (construct _ _ _ _ _ _ _ _ _ _ (h, y)) as [[c|e|u|] s1]; [|by destruct s1..].
  assert (keeping R (_ ← catching (run_prog (callback handler depth) no_view main);
                     _ ← destroy handler depth; self)) as Hk.
  { apply keeping_bind; [apply keeping_catching, (main_keeping R handler Hacc depth main Hm)|].
    intros _. apply keeping_bind; [apply (destroy_keeping R handler Hacc)|]. intros _.
    apply keeping_aloof, aloof_self. }
  specialize (Hk [] (c, snd s1) (conj Hc (prefix_nil _))).
  unfold settling, mbind, M_bind in *.
  destruct (catching _ _) as [[r|e|u|] s2]; [|by destruct s2..].
  destruct (destroy _ _ _) as [[r'|e|u|] [c3 y3]]; try done. apply Hk.
Qed.

(** C5: what a handler keeps of a connection. [R] is any relation between a
    list of calls and the handler's state: it holds of no calls and the initial
    state, and every method, started with [R] before its call, establishes [R]
    with it whenever it polls, closes, returns or throws - assuming of a poll or
    a close only that [R] holds after it. The methods may send, poll and close
    at any depth, throw and catch; [on_open] alone may not poll or close, and a
    frame is not read after a poll or a close. Then at the end of every session
    whose constructor returns, [R] relates the handler's state to the calls of a
    trace of the abstract endpoint that accounts for everything received and
    sent from the handshake to the destructor, so that a frame handled twice or
    not at all, or a frame without its answer, would show. When the constructor
    throws - nothing else does - [R] relates the state to no call, or to that of
    [on_open] alone. Nothing is
    undefined, for any server and any socket whose bytes are accounted for; the
    statement is about runs that the bound on the nesting does not cut short. *)
Theorem handler_keeps_account `{!SocketStream St W} (R : list event → Hst → Prop)
    (handler : notice → prog Hst)
    (main : prog Hst) (depth : nat) (host path : string) (port : Z) (extra_headers : string)
    (connection_timeout ping_frequency ping_timeout : Z) (junk : Frame.t string_view)
    (h : Hst) (y : Sys W) :
  R [] h → accounting R handler → (∀ evs h, R evs h → settles R false [] evs h main) →
  hardened = false → (139 < send_limit)%Z →
  (∀ m, modest true true send_limit (handler m)) → quiet (handler on_open) →
  modest true false send_limit main →
  (∀ factory, connectable (St:=St) (initial h host path port extra_headers ping_frequency
     ping_timeout junk factory)) →
  int10 connection_timeout → length (Frame.masking_key junk) = 4 →
  match session handler depth host path port extra_headers connection_timeout
          ping_frequency ping_timeout junk main (h, y) with
  | (Ok evs, (h', y')) => R evs h' ∧
      traced (initial h host path port extra_headers ping_frequency ping_timeout junk) evs h' y'
  | (Throw e, (h', y')) => (R [] h' ∨ R [on_open] h') ∧ ∃ d,
      construct handler d host path port extra_headers connection_timeout ping_frequency
        ping_timeout junk (h, y) = (Throw e, (h', y'))
  | (UB _, _) => False
  | (OutOfFuel, _) => True
  end.
Proof.
  intros Hr Hacc Hsm Hhard Hlim Hh Hq Hm Hc Ht Hj.
  pattern (session handler depth host path port extra_headers connection_timeout
    ping_frequency ping_timeout junk main (h, y)).
  apply Depth.session_positive; [|by intros []]. intros d.
  pose proof (session_alive Hhard Hlim handler Hh Hq d host path port extra_headers
    connection_timeout ping_frequency ping_timeout junk main h y Hm Hc Ht Hj) as Htr.
  pose proof (session_accounts R handler main (S d) host path port extra_headers
    connection_timeout ping_frequency ping_timeout junk h y Hr Hacc Hq Hsm) as Hk.
  pose proof (construct_settled R handler Hacc Hq (S d) host path port extra_headers
    connection_timeout ping_frequency ping_timeout junk h y Hr) as Hcon.
  destruct (session _ _ _ _ _ _ _ _ _ _ _ _) as [[] []]; try done.
  rewrite Htr in Hcon. split; [exact Hcon|]. by exists (S d).
Qed.

(** ** Handlers that add up their calls *)

(** The state is what [react] makes of the calls, one after the other. *)
Definition sums (react : Hst → event → Hst) (h0 : Hst) (evs : list event) (h : Hst) : Prop :=
  h = foldl react h0 evs.

Lemma sums_snoc react h0 evs ev h :
  sums react h0 evs h → sums react h0 (evs ++ [ev]) (react h ev).
Proof. intros ->. unfold sums. by rewrite foldl_app. Qed.

(** The line each of the example programs prints at a call. *)
Definition report (ev : event) : string :=
  match ev with
  | on_open => "Connection Opened!"
  | on_close success => closed_line success
  | on_text f => " > text: " +:+ Frame.print f
  | on_binary f => " > binary: " +:+ Frame.print f
  | on_continuation f => " > continuation: " +:+ Frame.print f
  end.

Context (cout : string → Hst → Hst).

Definition reporting (h : Hst) (ev : event) : Hst := cout (report ev +:+ newline) h.

Lemma with_payload_back (f : frame) : with_payload (Frame.payload f) (with_payload tt f) = f.
Proof. by destruct f. Qed.

(** The programs under examples/. *)
Definition examples : list (program Hst) :=
  [ping_program cout; example_program cout; coinbase_program cout].

Lemma examples_cases (P : program Hst → Prop) p :
  p ∈ examples → P (ping_program cout) → P (example_program cout) → P (coinbase_program cout) →
  P p.
Proof.
  unfold examples. intros Hp H1' H2' H3. rewrite !elem_of_cons in Hp.
  by destruct Hp as [->|[->|[->|Hp%not_elem_of_nil]]].
Qed.

Lemma examples_account (p : program Hst) (h0 : Hst) :
  p ∈ examples → accounting (sums reporting h0) (p_handler p).
Proof.
  intros Hp ev evs h Hr. apply (sums_snoc _ _ _ ev) in Hr. pattern p.
  apply (examples_cases _ p Hp); destruct ev as [|b|f|f|f]; cbn;
    rewrite ?with_payload_back; try done; try (by intros []).
  case_bool_decide; [|done]. split; [done|]. by intros more h' [].
Qed.

Lemma examples_modest (p : program Hst) limit :
  p ∈ examples → (139 < limit)%Z →
  (∀ m, modest true true limit (p_handler p m)) ∧ quiet (p_handler p on_open).
Proof.
  intros Hp Hl. pattern p. apply (examples_cases _ p Hp); split; try (by intros ? []).
  all: intros []; cbn [p_handler ping_program example_program coinbase_program ping_handler
    example_handler coinbase_handler print_frame println modest]; try done.
  all: try (intros _; split; [split; [by apply (bool_decide_unpack _)|done]|];
    split; [eapply Z.le_lt_trans; [|exact Hl]; by vm_compute|by intros []]).
  split; [done|]. intros _ _. split; [done|]. intros payload. case_bool_decide; [|done].
  cbn [modest]. split; [done|]. split; [by apply (bool_decide_unpack _)|]. by intros [].
Qed.

(** A program of such a handler: its trace, and the account of the calls when it
    ends, where [body] may have made of it the account [E]. *)
Lemma program_accounts `{!SocketStream St W} {A} (R : list event → Hst → Prop)
    (E : outcome A → list event → Hst → Prop)
    (p : program Hst) (depth : nat) (body : nat → M (@state Hst St W) A)
    (junk : Frame.t string_view) (h : Hst) (y : Sys W) :
  R [] h → accounting R (p_handler p) →
  (∀ d s0 c y, R (calls c) (m_handler c) → alive true s0 (c, y) →
     let '(o, (c', _)) := body (S d) (c, y) in E o (calls c') (m_handler c')) →
  hardened = false → (139 < send_limit)%Z →
  (∀ m, modest true true send_limit (p_handler p m)) → quiet (p_handler p on_open) →
  (∀ factory, connectable (St:=St) (Session.members p h junk factory)) →
  length (Frame.masking_key junk) = 4 →
  Depth.extends (body 0) (body 1) →
  (∀ d s0 s, alive true s0 s → upto (λ _, True) (body (S d)) s
     (λ _ s', ∃ s1, alive true s0 s1 ∧ gone s1 s') (λ s', ∃ s1, alive true s0 s1 ∧ gone s1 s')) →
  match owning (St:=St) depth junk p (body depth) (h, y) with
  | (Ok a, (h', y')) =>
      ∃ evs, traced (Session.members p h junk) evs h' y' ∧ E (Ok a) evs h'
  | (Throw e, (h', y')) =>
      never_made p junk (h, y) e (h', y') ∧ (R [] h' ∨ R [on_open] h') ∨
      ∃ evs, traced (Session.members p h junk) evs h' y' ∧ E (Throw e) evs h'
  | (UB _, _) => False
  | (OutOfFuel, _) => True
  end.
Proof.
  intros Hr Hacc Hk Hhard Hlim Hm Hq Hc Hj Hext Hbody.
  unshelve epose proof (program_traced (λ o c', E o (calls c') (m_handler c')) p depth body junk
    h y Hhard Hlim Hm Hq Hc Hj Hext Hbody _) as Ht.
  - intros d c s0 s1 o c1 y1 Hcon Halive Hrun.
    pose proof (construct_settled R _ Hacc Hq (S d) (p_host p) (p_path p) (p_port p) "" 10 60 10
      junk h y Hr) as Hs. rewrite Hcon in Hs.
    specialize (Hk d _ c (snd s1) Hs Halive). by rewrite Hrun in Hk.
  - destruct (owning _ _ _ _ _) as [[a|e|u|] [h' y']]; [| |done..].
    + destruct Ht as (c' & HE & -> & Ht). by exists (calls c').
    + destruct Ht as [[d Hd]|(c' & HE & -> & Ht)]; [left|right; by exists (calls c')].
      pose proof (construct_settled R _ Hacc Hq d (p_host p) (p_path p) (p_port p) "" 10 60 10
        junk h y Hr) as Hs. rewrite Hd in Hs. split; [by exists d|exact Hs].
Qed.

(** C6: what the handlers of the programs under examples/ print. Each of the
    three handlers, run by its program against any server over any socket whose
    bytes are accounted for, writes exactly one line per call, in the order of
    the calls, with what it was told. When [main] comes to an end, or is still
    polling, or an exception leaves it, the calls are those of a
    trace of the abstract endpoint that accounts for all the bytes of the
    connection; when the client could not be made nothing was printed, or the
    line of [on_open] alone. This includes example.cpp, which closes the connection while it handles
    a frame, so that lines are printed by calls nested in that call. The
    library's own line, when a PING is not answered in time, is not the
    handler's: [update_ping] writes it to the world. *)
Theorem examples_print `{!SocketStream St W} (p : program Hst) (depth : nat)
    (readings : list bool) (junk : Frame.t string_view) (h : Hst) (y : Sys W) :
  p ∈ examples → hardened = false → (139 < send_limit)%Z →
  (∀ factory, connectable (St:=St) (Session.members p h junk factory)) →
  length (Frame.masking_key junk) = 4 →
  let printed evs := foldl (λ out ev, cout (report ev +:+ newline) out) h evs in
  match main (St:=St) depth readings junk p (h, y) with
  | (Ok _, (h', y')) => ∃ evs,
      traced (Session.members p h junk) evs h' y' ∧ h' = printed evs
  | (Throw e, (h', y')) =>
      never_made p junk (h, y) e (h', y') ∧ (h' = h ∨ h' = printed [on_open]) ∨
      ∃ evs, traced (Session.members p h junk) evs h' y' ∧ h' = printed evs
  | (UB _, _) => False
  | (OutOfFuel, _) => True
  end.
Proof.
  intros Hp Hhard Hlim Hc Hj. destruct (examples_modest p send_limit Hp Hlim) as [Hm Hq].
  pose proof (examples_account p h Hp) as Hacc. unfold main.
  assert (∀ d s0 c y, sums reporting h (calls c) (m_handler c) → alive true s0 (c, y) →
    let '(o, (c', _)) := run_client (p_handler p) (S d) readings (c, y) in
    match o with Ok _ | Throw _ => sums reporting h (calls c') (m_handler c') | _ => True end)
    as Hk.
  { intros d s0 c y0 Hr _.
    pose proof (run_client_keeping _ _ Hacc (S d) readings [] (c, y0) (conj Hr (prefix_nil _)))
      as Hk. unfold settling in Hk.
    destruct (run_client _ _ _ _) as [[] [c' y']]; (apply Hk || done). }
  pose proof (program_accounts (sums reporting h)
    (λ o evs out, match o with Ok _ | Throw _ => sums reporting h evs out | _ => True end) p depth
    (λ d, run_client (p_handler p) d readings) junk h y eq_refl Hacc Hk Hhard Hlim Hm Hq Hc Hj
    (Depth.run_client_extends _ 0 1 (le_S _ _ (le_n 0)) readings)
    (λ d s0 s, run_client_alive Hhard Hlim _ Hm (S d) readings s0 s)) as Ht.
  by destruct (owning _ _ _ _ _) as [[a|e|u|] [h' y']].
Qed.
End Properties.

(** ** A handler that polls while it handles a text *)

#[local] Existing Instance masked_shift_target.
#[local] Existing Instance Session.tls.
#[local] Existing Instance Session.tls_stream.
#[local] Existing Instance HandshakeProps.counting_entropy.

Definition is_text (ev : event) : bool := match ev with on_text _ => true | _ => false end.

Definition texts (evs : list event) : nat := length (List.filter is_text evs).

(** It counts the texts, and reads on at once. *)
Definition eager (m : notice) : prog nat :=
  match m with
  | on_text _ => Get (λ n, Put (S n) (Poll 1 (andthen Return)))
  | _ => Return
  end.

Definition reads_on : prog nat := Poll 4 (andthen Return).

Lemma texts_snoc evs ev : texts (evs ++ [ev]) = texts evs + (if is_text ev then 1 else 0).
Proof. unfold texts. rewrite List.filter_app, length_app. cbn. by destruct (is_text ev). Qed.

Lemma eager_accounting : accounting (λ evs n, n = texts evs) eager.
Proof.
  intros ev evs n ->. destruct ev; cbn; rewrite texts_snoc; cbn; try lia.
  split; [lia|]. by intros more h' [] ->.
Qed.

Lemma eager_modest m : modest true true 400 (eager m).
Proof. destruct m; cbn; try done. by intros n []. Qed.

Lemma eager_connectable factory :
  connectable (initial (St:=SSLSocketWrapper.t) 0 "localhost" "/" 443 "" 60 10
    FrameParser.empty_frame factory).
Proof. apply Session.tls_connectable. intros w. by vm_compute. Qed.

Lemma handler_keeps_account_witness :
  match session (St:=SSLSocketWrapper.t) eager 5 "localhost" "/" 443 "" 10 60 10
          FrameParser.empty_frame reads_on
          (0, scripted [ClientProps.accepting; ClientProps.from_server 1 (str "a");
                        ClientProps.from_server 1 (str "b"); ClientProps.from_server 1 (str "c");
                        []; ClientProps.from_server 8 []]) with
  | (Ok evs, (n, _)) => n = texts evs ∧ n = 3
  | _ => False
  end.
Proof.
  pose proof (handler_keeps_account (St:=SSLSocketWrapper.t) (λ evs n, n = texts evs) eager
    reads_on 5 "localhost" "/" 443 "" 10 60 10 FrameParser.empty_frame 0
    (scripted [ClientProps.accepting; ClientProps.from_server 1 (str "a");
               ClientProps.from_server 1 (str "b"); ClientProps.from_server 1 (str "c");
               []; ClientProps.from_server 8 []])
    eq_refl eager_accounting ltac:(by intros evs h ->; split; [|intros more h' []])
    ltac:(done) ltac:(by vm_compute) eager_modest ltac:(done) ltac:(by intros [])
    eager_connectable ltac:(by apply (bool_decide_unpack _)) ltac:(done)) as H.
  match type of H with match ?r with _ => _ end =>
    assert (match r with (Ok _, (n, _)) => Some n | _ => None end = Some 3) as E by (by vm_compute);
    destruct r as [[evs|e|u|] [n y']]; try discriminate end.
  injection E as ->. destruct H as [H _]. by split.
Defined.

Lemma examples_print_witness :
  match main (St:=SSLSocketWrapper.t) 2 (replicate 5 true) FrameParser.empty_frame
          (example_program console)
          ("", scripted [ClientProps.accepting; ClientProps.from_server 1 (str "Hello, World!");
                         []; ClientProps.from_server 8 []]) with
  | (Ok how, (out, _)) => how = Broke ∧ ∃ evs,
      out = foldl (λ out ev, console (report ev +:+ newline) out) "" evs
  | _ => False
  end.
Proof.
  pose proof (examples_print (St:=SSLSocketWrapper.t) console (example_program console) 2
    (replicate 5 true) FrameParser.empty_frame ""
    (scripted [ClientProps.accepting; ClientProps.from_server 1 (str "Hello, World!"); [];
               ClientProps.from_server 8 []])
    ltac:(by right; left) ltac:(done) ltac:(by vm_compute)
    Session.ping_connectable ltac:(done)) as H.
  cbv zeta in H. match type of H with match ?r with _ => _ end =>
    assert (fst r = Ok Broke) as E by (by vm_compute);
    destruct r as [o [h' y']] end.
  cbn [fst] in E. subst o. destruct H as (evs & _ & ->). split; [done|]. by exists evs.
Defined.

End Handlers.
