(* ===== verification/Benchmark.v ===== *)
(** benchmark/echo_test/fastws_benchmark.cpp: it sends a message whenever the
    message comes back, and closes the connection after [NSENDS] times. The
    process has a clock, [std::chrono::high_resolution_clock], and an output;
    both belong to the environment the handler works in. How [operator<<]
    prints a [double] is a parameter. *)

From S2P Require Import Prelude Frames Factory Parser Sys World Sockets SocketSpec SocketProps SocketStream Handshake Client ClientSpec ClientWire Endpoint Refinement Programs Depth ClientProps Session Lifetime Handlers.
From Stdlib Require Import SpecFloat.
Import WSClient Refinement Lifetime Handlers.

Module Benchmark.

(** ** The process *)

(** [clock] gives the readings of the clock, in nanoseconds, one after the
    other; [looks] of them have been taken. *)
Record process : Type := Process {
  clock : nat → Z;
  looks : nat;
  out : string
}.

(** [high_resolution_clock::now()]. *)
Definition now (p : process) : Z * process :=
  (clock p (looks p), Process (clock p) (S (looks p)) (out p)).

(** [std::cout << line << std::endl]. *)
Definition write (line : string) (p : process) : process :=
  Process (clock p) (looks p) (out p +:+ line +:+ newline).

Definition MESSAGE : string := "ping".
Definition NSENDS : Z := 10000.

(** The literal [0.001]. *)
Definition milli : double := S754_finite false 4611686018427388 (-62).

(** ** The handler *)

Record FrameHandler : Type := Handler {
  count : Z;
  max_count : Z;
  start : Z;
  finish : Z
}.

Definition set_count (n : Z) (h : FrameHandler) : FrameHandler :=
  Handler n (max_count h) (start h) (finish h).
Definition set_start (t : Z) (h : FrameHandler) : FrameHandler :=
  Handler (count h) (max_count h) t (finish h).
Definition set_finish (t : Z) (h : FrameHandler) : FrameHandler :=
  Handler (count h) (max_count h) (start h) t.

(** The initialisers of the members: a [time_point] is the clock's epoch. *)
Definition FrameHandler_new : FrameHandler := Handler 0 NSENDS 0 0.

Definition setting : Type := FrameHandler * process.

Section Benchmark.
Context (show : double → string).

(** [duration_cast<nanoseconds>(end - start).count()], a [double]. *)
Definition total_time (h : FrameHandler) : double := to_double (finish h - start h).

(** The two lines of results. *)
Definition write_results (h : FrameHandler) (p : process) : process :=
  write ("average_rtt (us): " +:+
         show (dmul (ddiv (total_time h) (to_double (max_count h))) milli))
    (write ("total time (us): " +:+ show (dmul (total_time h) milli)) p).

(** [count] is an [int]; it counts calls, of which there are fewer than 2^31. *)
Definition benchmark_handler (m : notice) : prog setting :=
  match m with
  | on_open => Get (λ '(h, p),
      let '(t, p) := now p in
      Put (set_start t h, p) (SendText (str MESSAGE) (andthen Return)))
  | on_text f => Payload (λ payload,
      if bool_decide (payload = str MESSAGE) then
        Get (λ '(h, p),
          let h := set_count (count h + 1) h in
          if (count h >=? max_count h)%Z then
            let '(t, p) := now p in
            let h := set_finish t h in
            Put (h, write_results h p) (Close 10 (andthen Return))
          else Put (h, p) (SendText (str MESSAGE) (andthen Return)))
      else Return)
  | _ => Return
  end.

Definition benchmark_program : program setting :=
  Program benchmark_handler "127.0.0.1" "/" 9001.

(** ** [main] *)

Context {St W : Type} `{Target, OS W, Entropy W, !SocketType St W}.

Local Notation "'state'" := (@state setting St W).

(** What [main] does when the loop is over: [begun] is the reading it took at
    its own start. *)
Definition finished (begun : Z) (e : setting) : setting :=
  let '(h, p) := e in
  let '(t, p) := now p in
  (h, write ("TOTAL_TIME=" +:+ show (to_double (Z.quot (t - begun) 1000000)) +:+ "ms") p).

(** The loop of at most [polls] polls, the last line, and the end of the
    client's scope. *)
Definition benchmark_client (begun : Z) (polls depth : nat) : M state stopped :=
  r ← poll_while benchmark_handler depth (replicate polls true);
  match r with
  | Running => mret Running
  | _ =>
      update_self (λ c, set_handler (finished begun (m_handler c)) c);;
      e ← destroy benchmark_handler depth;
      match e with
      | Destroyed => mret r
      | Terminated e => throw e
      end
  end.

(** The words of the standard input are read until one is "go": without one the
    loop never ends, at the end of the input either. Before that, the thread's
    priority is set, which is the scheduler's matter. *)
Definition benchmark_main (commands : list string) (polls depth : nat)
    (junk : Frame.t string_view) : M (process * Sys W) stopped := λ '(p, y),
  let '(begun, p) := now p in
  if bool_decide ("go" ∈ commands) then
    let '(o, ((_, p'), y')) :=
      owning depth junk benchmark_program (benchmark_client begun polls depth)
        ((FrameHandler_new, p), y) in
    (o, (p', y'))
  else (OutOfFuel, (p, y)).
End Benchmark.

(** ** What it measures *)

Section Account.
Context (show : double → string).

(** What a call does to the handler and the process. *)
Definition react (e : setting) (ev : event) : setting :=
  let '(h, p) := e in
  match ev with
  | on_open => let '(t, p) := now p in (set_start t h, p)
  | on_text f =>
      if bool_decide (Frame.payload f = str MESSAGE) then
        let h := set_count (count h + 1) h in
        if (count h >=? max_count h)%Z then
          let '(t, p) := now p in (set_finish t h, write_results show (set_finish t h) p)
        else (h, p)
      else e
  | _ => e
  end.

Lemma benchmark_accounting (R : list event → setting → Prop) :
  (∀ evs e ev, R evs e → R (evs ++ [ev]) (react e ev)) → accounting R (benchmark_handler show).
Proof.
  intros HR ev evs e He. specialize (HR evs e ev He). destruct e as [h p].
  destruct ev as [|b|f|f|f]; try done; [intros []; exact HR|].
  cbn [benchmark_handler notice_of settles payload_of]. cbn [react] in HR.
  case_bool_decide; [|done]. cbn [settles].
  destruct (count (set_count (count h + 1) h) >=? _)%Z; cbn [settles now] in *.
  - split; [done|]. by intros more h' [] Hr.
  - by intros [].
Qed.

Lemma benchmark_sums e0 : accounting (sums react e0) (benchmark_handler show).
Proof. apply benchmark_accounting. intros evs e ev. apply sums_snoc. Qed.

(** ** The measurement, from the calls *)

Definition is_echo (ev : event) : bool :=
  match ev with
  | on_text f => bool_decide (Frame.payload f = str MESSAGE)
  | _ => false
  end.

(** How often the message came back. *)
Definition echoes (evs : list event) : Z := Z.of_nat (length (List.filter is_echo evs)).

Lemma echoes_snoc evs ev : echoes (evs ++ [ev]) = (echoes evs + if is_echo ev then 1 else 0)%Z.
Proof. unfold echoes. rewrite List.filter_app, length_app. cbn. destruct (is_echo ev); cbn; lia. Qed.

Lemma react_other e ev : is_echo ev = false → ev ≠ on_open → react e ev = e.
Proof.
  destruct e as [h p]. destruct ev as [|b|f|f|f]; cbn; try done. by case_bool_decide.
Qed.

Lemma react_echo h p ev :
  is_echo ev = true →
  react (h, p) ev =
    let h := set_count (count h + 1) h in
    if (count h >=? max_count h)%Z then
      let h := set_finish (clock p (looks p)) h in (h, write_results show h (snd (now p)))
    else (h, p).
Proof. destruct ev as [|b|f|f|f]; cbn; try done. by case_bool_decide. Qed.

(** After [on_open], the [max]-th echo takes one reading and prints; before it
    nothing is done but to count. *)
Lemma react_measures max t0 t2 p evs :
  (0 < max)%Z → on_open ∉ evs →
  let '(h', p') := foldl react (Handler 0 max t0 t2, p) evs in
  count h' = echoes evs ∧ max_count h' = max ∧ start h' = t0 ∧
  ((echoes evs < max)%Z → p' = p) ∧
  (echoes evs = max →
   p' = write_results show (Handler max max t0 (clock p (looks p))) (snd (now p))).
Proof.
  intros Hmax. induction evs as [|ev evs IH] using rev_ind; intros Hn.
  { cbn. unfold echoes. cbn. split_and!; try done. lia. }
  rewrite foldl_app. cbn [foldl]. rewrite echoes_snoc.
  rewrite elem_of_app, list_elem_of_singleton in Hn.
  destruct (foldl react _ evs) as [h' p'].
  destruct IH as (Hc & Hm & Hs & Hlt & Heq); [by intros ?; apply Hn; left|].
  destruct (is_echo ev) eqn:He.
  - rewrite react_echo by done. cbn [count set_count max_count]. rewrite Hc, Hm.
    destruct (Z.geb_spec (echoes evs + 1) max) as [Hge|Hlt'].
    + cbn [count max_count start set_finish set_count]. split_and!; try done; [lia|].
      intros Hx. rewrite (Hlt ltac:(lia)). f_equal. unfold set_finish, set_count. cbn.
      by rewrite Hx, Hm, Hs.
    + cbn. split_and!; try done; [|lia]. intros _. apply Hlt. lia.
  - rewrite react_other by (done || (intros ->; apply Hn; by right)). rewrite Z.add_0_r. done.
Qed.

Context {St W : Type} `{Target, OS W, Entropy W, !SocketType St W, !SocketStream St W}.

Local Notation "'state'" := (@state setting St W).

Lemma polled_status (call : event → string_view → M state unit) max_reads s st s' :
  poll_with call max_reads s = (Ok st, s') → st = m_status (fst s').
Proof.
  assert (∀ (s : state) b s', status s = (Ok b, s') → b = m_status (fst s')) as Hst
    by (by intros ? ? ? [= <- <-]).
  assert (∀ f (s : state) o s', dispatch call f s = (Ok (Some o), s') → o = m_status (fst s')) as Hd.
  { intros f s1 o s2 E. unfold dispatch in E. apply bind_inv in E as (c & s3 & _ & E).
    destruct (Frame.opcode f); repeat (apply bind_inv in E as (? & ? & ? & E)); try done.
    injection E as <- <-. by eapply Hst. }
  assert (∀ n count r (s : state) o s', poll_loop call n count max_reads r s = (Ok (Some o), s') →
    o = m_status (fst s')) as Hl.
  { induction n as [|n IH]; intros count [f|] s1 o s2 E; try done. cbn [poll_loop] in E.
    apply bind_inv in E as ([o'|] & s3 & E1 & E); [injection E as -> ->; by eapply Hd|].
    case_match; [done|]. apply bind_inv in E as (r & s4 & _ & E). by eapply IH. }
  unfold poll_with. intros E. apply bind_inv in E as (f & s1 & _ & E).
  apply bind_inv in E as ([o|] & s2 & E1 & E); [injection E as -> ->; by eapply Hl|].
  apply bind_inv in E as (? & s3 & _ & E). by eapply Hst.
Qed.

(** The loop ends, without an exception, only when the connection is closed. *)
Lemma poll_while_broke handler depth polls (s s' : state) r :
  poll_while handler depth (replicate polls true) s = (Ok r, s') →
  r = Running ∨ r = Broke ∧ m_status (fst s') ≠ HEALTHY.
Proof.
  revert s. induction polls as [|polls IH]; cbn [replicate poll_while]; intros s E.
  - injection E as <- _. by left.
  - apply bind_inv in E as (st & s1 & E1 & E). case_bool_decide; [|by eapply IH].
    injection E as <- <-. right. split; [done|]. by apply polled_status in E1 as <-.
Qed.

Lemma alive_closed timed s0 (s : state) :
  alive timed s0 s → m_status (fst s) ≠ HEALTHY → m_connection_open (fst s) = false.
Proof.
  intros (_ & _ & tr & pend & Ht & _) Hs. apply Endpoint.steps_agreeing in Ht; [|done].
  destruct Ht as [Ht _]. cbn in Ht. destruct (m_connection_open (fst s)); [|done].
  by destruct (Hs (Ht eq_refl)).
Qed.

(** The destructor of a client whose connection is closed calls nothing. *)
Lemma destroy_closed (handler : notice → prog setting) depth (s s' : state) e :
  m_connection_open (fst s) = false → destroy handler depth s = (Ok e, s') →
  e = Destroyed ∧ m_handler (fst s') = m_handler (fst s) ∧ calls (fst s') = calls (fst s).
Proof.
  destruct s as [c y]. intros Ho E. unfold destroy in E.
  assert (catching (close handler depth 10) (c, y) = (Ok (inr true), (c, y))) as Ec
    by (unfold catching; by rewrite ClientProps.close_when_closed).
  erewrite bind_ok in E by exact Ec. apply bind_inv in E as ([] & s1 & E1 & E).
  injection E as <- <-. destruct (aloof_on_socket st_destroy (c, y)) as [Eh Ecl].
  rewrite E1 in Eh, Ecl. by split.
Qed.

(** The account when the program ends: the last line is [main]'s. *)
Definition reckoned (begun : Z) (e0 : setting) (how : stopped) (evs : list event) (e : setting) :
    Prop :=
  match how with
  | Running => sums react e0 evs e
  | _ => ∃ e1, sums react e0 evs e1 ∧ e = finished show begun e1
  end.

Lemma benchmark_client_reckoned begun e0 polls depth s0 (c : t setting St) (y : Sys W) :
  alive true s0 (c, y) → sums react e0 (calls c) (m_handler c) →
  (∀ m, modest true true send_limit (benchmark_handler show m)) →
  hardened = false → (139 < send_limit)%Z →
  let '(o, (c', _)) := benchmark_client show begun polls (S depth) (c, y) in
  match o with Ok how => reckoned begun e0 how (calls c') (m_handler c') | _ => True end.
Proof.
  intros Ha Hs Hm Hhard Hlim.
  destruct (benchmark_client _ _ _ _ _) as [[how|e|u|] [c' y']] eqn:E; try done.
  unfold benchmark_client in E. apply bind_inv in E as (r & s1 & E1 & E).
  pose proof (poll_while_alive Hhard Hlim _ Hm (S depth) (replicate polls true) s0 _ Ha) as Ha1.
  unfold upto in Ha1. rewrite E1 in Ha1.
  pose proof (poll_while_keeping _ _
    (benchmark_sums e0)
    (S depth) (replicate polls true) [] (c, y) (conj Hs (prefix_nil _))) as Hk.
  unfold settling in Hk. rewrite E1 in Hk. destruct Hk as [Hk _].
  apply poll_while_broke in E1 as [->|[-> Hst]]; [by injection E as <- ->|].
  apply (alive_closed _ _ _ Ha1) in Hst as Hopen. destruct s1 as [c1 y1]. cbn [fst] in *.
  apply bind_inv in E as ([] & s2 & E2 & E). injection E2 as <-.
  apply bind_inv in E as (e & [c3 y3] & E3 & E).
  apply destroy_closed in E3 as (-> & Hh & Hcl); [|done]. injection E as <- -> _.
  cbn [fst] in *. exists (m_handler c1). by rewrite Hcl, Hh.
Qed.

Lemma benchmark_modest limit m : (139 < limit)%Z → modest true true limit (benchmark_handler show m).
Proof.
  intros Hl. assert (payload_ok (str MESSAGE) ∧
    (Z.of_nat (length (str MESSAGE)) + 14 < limit)%Z) as [Hp Hs].
  { split; [split; [by apply (bool_decide_unpack _)|done]|]. change (4 + 14 < limit)%Z. lia. }
  destruct m as [|b|f|f|f]; try done; cbn [benchmark_handler modest].
  - intros [h p]. cbn [modest now]. split_and!; try done. by intros [].
  - split; [done|]. intros payload. case_bool_decide; [|done]. cbn [modest]. intros [h p].
    cbn [modest now]. case_match; cbn [modest].
    + split; [done|]. split; [by apply (bool_decide_unpack _)|]. by intros [].
    + split_and!; try done. by intros [].
Qed.

Lemma alive_set_handler timed s0 (c : t setting St) (y : Sys W) e :
  alive timed s0 (c, y) → alive timed s0 (set_handler e c, y).
Proof. intros Ha. exact Ha. Qed.

Lemma benchmark_client_alive begun polls depth s0 (s : state) :
  hardened = false → (139 < send_limit)%Z → alive true s0 s →
  upto (λ _, True) (benchmark_client show begun polls depth) s
    (λ _ s', ∃ s1, alive true s0 s1 ∧ gone s1 s') (λ s', ∃ s1, alive true s0 s1 ∧ gone s1 s').
Proof.
  intros Hhard Hlim Hs. pose proof (λ m, benchmark_modest send_limit m Hlim) as Hm.
  apply upto_bind. eapply upto_mono; [by apply (poll_while_alive Hhard Hlim _ Hm)|..]; cbn beta.
  2: { intros s1 Hs1. exists s1. by split; [|left]. }
  intros r [c y] Hs1.
  assert (upto (λ _, True)
    (update_self (λ c, set_handler (finished show begun (m_handler c)) c);;
     e ← destroy (benchmark_handler show) depth;
     match e with Destroyed => mret r | Terminated e => throw e end) (c, y)
    (λ _ s', ∃ s1, alive true s0 s1 ∧ gone s1 s') (λ s', ∃ s1, alive true s0 s1 ∧ gone s1 s'))
    as Hend.
  { apply upto_bind. eapply upto_eq; [reflexivity|]. apply upto_bind.
    eapply upto_mono; [by apply (destroy_alive Hhard Hlim _ Hm), alive_set_handler|..|done].
    by intros [|e] s2 Hs2. }
  destruct r; [done..|]. eexists. split; [exact Hs1|by left].
Qed.

Lemma benchmark_client_extends begun polls :
  Depth.extends (benchmark_client show begun polls 0 : M state stopped)
    (benchmark_client show begun polls 1).
Proof.
  assert (0 ≤ 1) as Hd by lia.
  apply Depth.extends_bind; [by apply Depth.poll_while_extends|]. intros r.
  destruct r; [| |apply Depth.extends_refl];
    (apply Depth.extends_bind; [apply Depth.extends_refl|]; intros _;
     apply Depth.extends_bind; [by apply Depth.destroy_extends|]; intros ?; apply Depth.extends_refl).
Qed.

(** The lines for [ns] nanoseconds. *)
Definition result_lines (ns : Z) : string :=
  "total time (us): " +:+ show (dmul (to_double ns) milli) +:+ newline +:+
  "average_rtt (us): " +:+ show (dmul (ddiv (to_double ns) (to_double NSENDS)) milli) +:+ newline.

Definition total_line (ns : Z) : string :=
  "TOTAL_TIME=" +:+ show (to_double (Z.quot ns 1000000)) +:+ "ms" +:+ newline.

(** The [n]-th reading of the clock from now on, from 0. *)
Definition reading (p : process) (n : nat) : Z := clock p (n + looks p).

(** The last line, printed at the [n]-th reading; [main] began with the first. *)
Definition last_line (how : stopped) (p : process) (n : nat) : string :=
  match how with
  | Running => ""
  | _ => total_line (reading p n - reading p 0)
  end.

Lemma result_lines_written max t0 t2 p :
  max = NSENDS →
  out (write_results show (Handler max max t0 t2) p) = out p +:+ result_lines (t2 - t0).
Proof.
  intros ->. unfold write_results, result_lines, total_time. cbn [out write start finish max_count].
  by rewrite !string_app_assoc.
Qed.

(** What the account comes to. *)
Lemma reckoned_measures p how evs h' p' :
  on_open ∉ evs →
  reckoned (reading p 0) (FrameHandler_new, snd (now p)) how (on_open :: evs) (h', p') →
  count h' = echoes evs ∧
  ((echoes evs < NSENDS)%Z → out p' = out p +:+ last_line how p 2) ∧
  (echoes evs = NSENDS →
   out p' = out p +:+ result_lines (reading p 2 - reading p 1) +:+ last_line how p 3).
Proof.
  intros Hn Hr.
  pose proof (react_measures NSENDS (reading p 1) 0 (snd (now (snd (now p)))) evs eq_refl Hn)
    as Hm.
  assert (∀ e, sums react (FrameHandler_new, snd (now p)) (on_open :: evs) e →
    e = foldl react (Handler 0 NSENDS (reading p 1) 0, snd (now (snd (now p)))) evs) as Hs
    by (by intros e ->).
  destruct (foldl react _ evs) as [h1 p1]. destruct Hm as (Hc & _ & _ & Hlt & Heq).
  assert ((h', p') = (h1, p1) ∧ how = Running ∨
    (h', p') = finished show (reading p 0) (h1, p1) ∧ how ≠ Running) as Hcases.
  { destruct how; [right; split; [|done]..|left; split; [|done]]; cbn [reckoned] in Hr.
    3: by apply Hs.
    all: destruct Hr as (e1 & He1 & ->); by rewrite (Hs e1 He1). }
  assert (∀ x, finished show (reading p 0) (h1, x) =
    (h1, write ("TOTAL_TIME=" +:+ show (to_double (Z.quot (clock x (looks x) - reading p 0)
      1000000)) +:+ "ms") (snd (now x)))) as Hf by done.
  destruct Hcases as [[[= -> ->] ->]|[E Hw]].
  - cbn [last_line]. rewrite !string_app_nil_r. split_and!; [done|..].
    + by intros Hn'; rewrite (Hlt Hn').
    + intros Hn'. by rewrite (Heq Hn'), result_lines_written.
  - rewrite Hf in E. injection E as -> ->. split; [done|].
    assert (∀ n, last_line how p n = total_line (reading p n - reading p 0)) as Hl
      by (by destruct how).
    rewrite !Hl. unfold total_line. split; intros Hn'.
    + rewrite (Hlt Hn'). cbn [out write]. by rewrite !string_app_assoc.
    + rewrite (Heq Hn'). cbn [out write snd now]. rewrite result_lines_written by done.
      by rewrite !string_app_assoc.
Qed.

(** C7: the benchmark measures what it says. Running it against any server over
    any socket whose bytes are accounted for does nothing undefined, and when it
    comes to an end the calls of its handler are those of a trace of the abstract
    endpoint, and [count] is the number of them in which the message came back.
    If that is less than [NSENDS] times nothing was printed by the handler; if it
    is [NSENDS] times, the two results are those of the time from [on_open] to
    the last of them, the only readings of the clock the handler took; and
    [main] prints, if its loop ended, the time since its own start. *)
Theorem benchmark_measures (commands : list string) (polls depth : nat)
    (junk : Frame.t string_view) (p : process) (y : Sys W) :
  hardened = false → (139 < send_limit)%Z →
  (∀ factory, connectable (St:=St) (Session.members (benchmark_program show)
     (FrameHandler_new, snd (now p)) junk factory)) →
  length (Frame.masking_key junk) = 4 →
  match benchmark_main (St:=St) show commands polls depth junk (p, y) with
  | (Ok how, (p', y')) => ∃ evs h',
      traced (Session.members (benchmark_program show) (FrameHandler_new, snd (now p)) junk)
        evs (h', p') y' ∧
      count h' = echoes evs ∧
      ((echoes evs < NSENDS)%Z → out p' = out p +:+ last_line how p 2) ∧
      (echoes evs = NSENDS →
       out p' = out p +:+ result_lines (reading p 2 - reading p 1) +:+ last_line how p 3)
  | (UB _, _) => False
  | _ => True
  end.
Proof.
  intros Hhard Hlim Hc Hj. unfold benchmark_main. change (now p) with (reading p 0, snd (now p)).
  case_bool_decide; [|done].
  pose proof (λ m, benchmark_modest send_limit m Hlim) as Hm.
  pose proof (program_accounts (sums react (FrameHandler_new, snd (now p)))
    (λ o evs e, match o with
                | Ok how => reckoned (reading p 0) (FrameHandler_new, snd (now p)) how evs e
                | _ => True
                end) (benchmark_program show) depth
    (λ d, benchmark_client show (reading p 0) polls d) junk (FrameHandler_new, snd (now p)) y
    eq_refl
    (benchmark_sums _)
    (λ d s0 c y Hs Ha, benchmark_client_reckoned _ _ polls d s0 c y Ha Hs Hm Hhard Hlim)
    Hhard Hlim Hm ltac:(by intros [] []) Hc Hj (benchmark_client_extends _ polls)
    (λ d s0 s, benchmark_client_alive _ polls (S d) s0 s Hhard Hlim)) as Ht.
  cbn beta in Ht.
  destruct (owning _ _ _ _ _) as [[how|e|u|] [[h' p'] y']]; [|done..].
  destruct Ht as (evs & Htr & Hr). exists evs, h'. split; [exact Htr|].
  assert (∃ evs', evs = on_open :: evs' ∧ on_open ∉ evs') as (evs' & -> & Hn).
  { destruct Htr as (? & ? & ? & ? & ? & ? & tr & ? & _ & _ & Ht & _ & _ & -> & _).
    by apply Endpoint.steps_open in Ht as [[? _]|[_ Ht]]. }
  exact (reckoned_measures p how evs' h' p' Hn Hr).
Qed.
End Account.

(** ** Runs *)

(** The literal is the double nearest to a thousandth. *)
Fact milli_is_a_thousandth : milli = ddiv (to_double 1) (to_double 1000).
Proof. by vm_compute. Qed.

#[local] Existing Instance masked_shift_target.
#[local] Existing Instance ClientProps.tcp.
#[local] Existing Instance ClientProps.tcp_stream.
#[local] Existing Instance HandshakeProps.counting_entropy.

Lemma benchmark_connectable show e factory :
  connectable (Session.members (St:=SocketWrapper.t) (benchmark_program show) e
    FrameParser.empty_frame factory).
Proof.
  split.
  - by intros x w.
  - intros [c y]. unfold returns, ends, open_socket.
    rewrite (bind_ok _ _ _ c (c, y)) by done.
    unfold on_sys, on_socket, on_local, zoom, mbind, M_bind. cbn [fst snd].
    assert (∃ tmp y1, st_construct (m_host c) (m_port c) y = (Ok tmp, y1)) as (tmp & y1 & ->)
      by (do 2 eexists; cbn; reflexivity).
    cbn [fst snd].
    assert (∃ rest x, st_move_assign tmp (m_socket c, y1) = (Ok rest, x)) as (rest & x & ->).
    { cbn [st_move_assign ClientProps.tcp TCP_SocketType]. unfold SocketWrapper.move_assign.
      assert (∃ z, SocketWrapper.disconnect (m_socket c, y1) = (Ok tt, z)) as (z & Hz)
        by (rewrite SocketProps.tcp_disconnect; case_match; by eexists).
      do 2 eexists. erewrite bind_ok by exact Hz. reflexivity. }
    cbn [fst snd].
    by destruct (stream_destroy rest (snd x)) as ([] & [x3 y3] & -> & _).
  - intros w. by vm_compute.
Qed.

(** A clock that advances by a millisecond at each reading, and a printer of
    four numbers. *)
Definition ticking : process := Process (λ n, 1000000 * Z.of_nat n)%Z 0 "".

Definition show_number (d : double) : string :=
  match find (λ n, SFeqb d (to_double n)) [2; 3; 500; 1000]%Z with
  | Some n => to_string n
  | None => "?"
  end.

#[local] Abbreviation short_benchmark :=
  (benchmark_main (St:=SocketWrapper.t) show_number ["start"; "go"] 5 2 FrameParser.empty_frame
    (ticking, scripted [ClientProps.accepting; ClientProps.from_server 1 (str "ping");
                        ClientProps.from_server 1 (str "ping"); ClientProps.from_server 8 []])).

Lemma benchmark_measures_witness :
  match short_benchmark with
  | (Ok how, (p', y')) => how = Broke ∧ out p' = "TOTAL_TIME=2ms" +:+ newline ∧
      ∃ evs h', count h' = echoes evs ∧
        traced (Session.members (St:=SocketWrapper.t) (benchmark_program show_number)
          (FrameHandler_new, snd (now ticking)) FrameParser.empty_frame) evs (h', p') y'
  | _ => False
  end.
Proof.
  pose proof (benchmark_measures show_number ["start"; "go"] 5 2 FrameParser.empty_frame ticking
    (scripted [ClientProps.accepting; ClientProps.from_server 1 (str "ping");
               ClientProps.from_server 1 (str "ping"); ClientProps.from_server 8 []])
    ltac:(done) ltac:(by vm_compute) (benchmark_connectable _ _) ltac:(done)) as H.
  assert ((fst short_benchmark, out (fst (snd short_benchmark)))
    = (Ok Broke, "TOTAL_TIME=2ms" +:+ newline)) as E by (by vm_compute).
  destruct short_benchmark as [o [p' y']]. cbn [fst snd] in E. injection E as -> E.
  destruct H as (evs & h' & Htr & Hc & _). split; [done|]. split; [exact E|]. by exists evs, h'.
Defined.

(** With two messages instead of [NSENDS]: the results, then the closing, which
    ends the loop. *)
Fact two_messages_measured :
  let e := (Handler 0 2 0 0, snd (now ticking)) in
  match owning (St:=SocketWrapper.t) 2 FrameParser.empty_frame (benchmark_program show_number)
          (benchmark_client show_number 0 5 2)
          (e, scripted [ClientProps.accepting; ClientProps.from_server 1 (str "ping");
                        ClientProps.from_server 1 (str "ping"); [];
                        ClientProps.from_server 8 []]) with
  | (Ok how, ((h', p'), _)) => how = Broke ∧ count h' = 2%Z ∧
      out p' = "total time (us): 1000" +:+ newline +:+ "average_rtt (us): 500" +:+ newline +:+
               "TOTAL_TIME=3ms" +:+ newline
  | _ => False
  end.
Proof. by vm_compute. Qed.
End Benchmark.
